(** * The AI image-generation client of web-storyboard

    A shallow embedding of [services/aiImageService.ts] (provider detection,
    image normalisation, request construction, the retry loop with its stream
    reader and task poller, and [validateAPIConfig]) and of
    [utils/imageUtils.ts] ([calculateImageSize]), followed by the properties
    proved about them.

    Conventions.
    - A JavaScript string is a [string] that holds the bytes of its UTF-8
      encoding, as the literals of this file do.  The operations whose result
      depends on the characters beyond ASCII read the encoding: [trim] and
      [parseFloat] remove every white space of ECMAScript, [slice] counts
      the code units of UTF-16, and [.] of a regular expression refuses the
      four line terminators.  Lengths are measured on base64 text and data
      URIs, where a byte is a code unit, and [toLowerCase] acts on the
      ASCII letters.
    - A JavaScript number is a binary64 value, [spec_float] with the
      operations of [SpecFloat] at precision 53 and maximal exponent 1024.
    - Whatever the browser supplies (fetch, JSON.parse, the URL parser, the
      FileReader) is an explicit input of the model: a [Runtime] for the
      built-in functions and a [World] for the replies of the network.
    - An asynchronous function is a computation [M A] over the history of
      the events of the call (requests, sleeps, percentages reported), which
      ends by returning a value or by throwing an [Error]; [await] is the
      sequencing of such computations.
    - Every promise of the platform settles: a request is answered or
      rejected and a stream ends.  The code sets no timeout, so a call whose
      request is never answered does not end; such a call is outside the
      model, and what is proved of a handler holds once its call has
      settled.
    - The calls of [console] are left out, and the [onProgress] callback is
      taken to return normally. *)

From Stdlib Require Import String Ascii List ZArith Lia Bool DecimalString.
From Stdlib Require Import Floats.SpecFloat.
Import ListNotations.
Open Scope string_scope.

(* ------------------------------------------------------------------ *)
(** ** JavaScript strings *)

Module JsString.

Definition startsWith (s prefix : string) : bool := String.prefix prefix s.

Fixpoint includes (s needle : string) : bool :=
  String.prefix needle s ||
  match s with
  | EmptyString => false
  | String _ rest => includes rest needle
  end.

Fixpoint rev_acc (s acc : string) : string :=
  match s with
  | EmptyString => acc
  | String c rest => rev_acc rest (String c acc)
  end.

Definition rev (s : string) : string := rev_acc s EmptyString.

Definition endsWith (s suffix : string) : bool :=
  String.prefix (rev suffix) (rev s).

(** [toLowerCase] on the ASCII letters. *)
Definition lower_char (c : ascii) : ascii :=
  let n := nat_of_ascii c in
  if (65 <=? n)%nat && (n <=? 90)%nat then ascii_of_nat (n + 32) else c.

Fixpoint toLowerCase (s : string) : string :=
  match s with
  | EmptyString => EmptyString
  | String c rest => String (lower_char c) (toLowerCase rest)
  end.

(** The text made of the given bytes. *)
Definition bytes (l : list nat) : string :=
  fold_right (fun n s => String (ascii_of_nat n) s) EmptyString l.

(** The white space that [trim] and [parseFloat] remove, each in UTF-8: the
    code points of WhiteSpace and of LineTerminator of ECMAScript, which are
    TAB, LF, VT, FF, CR, SPACE, U+00A0, U+1680, U+2000 to U+200A, U+2028,
    U+2029, U+202F, U+205F, U+3000 and U+FEFF. *)
Definition whiteSpaces : list string :=
  map bytes
    [ [9]; [10]; [11]; [12]; [13]; [32];
      [194; 160];
      [225; 154; 128];
      [226; 128; 128]; [226; 128; 129]; [226; 128; 130]; [226; 128; 131];
      [226; 128; 132]; [226; 128; 133]; [226; 128; 134]; [226; 128; 135];
      [226; 128; 136]; [226; 128; 137]; [226; 128; 138];
      [226; 128; 168]; [226; 128; 169];
      [226; 128; 175];
      [226; 129; 159];
      [227; 128; 128];
      [239; 187; 191] ].

(** The number of bytes of the one of [patterns] that [s] starts with, 0
    when it starts with none. *)
Definition leadingWidth (patterns : list string) (s : string) : nat :=
  match find (fun w => String.prefix w s) patterns with
  | Some w => String.length w
  | None => 0
  end.

(** [s] without the patterns it starts with; a pattern has three bytes at
    most. *)
Fixpoint dropLeading (patterns : list string) (s : string) : string :=
  match leadingWidth patterns s, s with
  | 1, String _ rest => dropLeading patterns rest
  | 2, String _ (String _ rest) => dropLeading patterns rest
  | 3, String _ (String _ (String _ rest)) => dropLeading patterns rest
  | _, _ => s
  end.

Definition trimStart (s : string) : string := dropLeading whiteSpaces s.

(** The last character of a text in UTF-8 is a white space when the text
    ends with the bytes of one: read backwards, it starts with them. *)
Definition trimEnd (s : string) : string :=
  rev (dropLeading (map rev whiteSpaces) (rev s)).

Definition trim (s : string) : string := trimEnd (trimStart s).

(** [s.split(sep)] for a one-character separator: never empty. *)
Fixpoint split (sep : ascii) (s : string) : list string :=
  match s with
  | EmptyString => [EmptyString]
  | String c rest =>
      if Ascii.eqb c sep then EmptyString :: split sep rest
      else match split sep rest with
           | piece :: pieces => String c piece :: pieces
           | [] => [String c EmptyString]
           end
  end.

(** [s.substring(n)], on a text whose first [n] characters are ASCII. *)
Fixpoint substringFrom (n : nat) (s : string) : string :=
  match n, s with
  | O, _ => s
  | S n', String _ rest => substringFrom n' rest
  | S _, EmptyString => EmptyString
  end.

(** The number of bytes that follow the byte [c] in the UTF-8 sequence it
    starts. *)
Definition continuationBytes (c : ascii) : nat :=
  let n := nat_of_ascii c in
  if (n <? 192)%nat then 0
  else if (n <? 224)%nat then 1
  else if (n <? 240)%nat then 2
  else 3.

(** The first code unit of the character of four bytes that [s] starts
    with: a high surrogate, written as the three bytes of its generalised
    UTF-8 encoding. *)
Definition highSurrogate (s : string) : string :=
  match s with
  | String b0 (String b1 (String b2 _)) =>
      (* the ten high bits of the code point minus 0x10000 *)
      let high := (nat_of_ascii b0 mod 8) * 256 + (nat_of_ascii b1 mod 64) * 4
                  + (nat_of_ascii b2 mod 64) / 16 - 64 in
      (* 0xD800 + high, on three bytes *)
      bytes [237; 160 + high / 64; 128 + high mod 64]
  | _ => EmptyString
  end.

(** [s.slice(0, n)], [n] counting the code units of UTF-16: a character of
    four bytes is two code units, any other character is one.  [pending] is
    the number of bytes still to copy of a character already counted.  A
    slice that ends between the two code units of a character keeps the
    first of them. *)
Fixpoint sliceUnits (n pending : nat) (s : string) : string :=
  match s with
  | EmptyString => EmptyString
  | String c rest =>
      match pending with
      | S pending' => String c (sliceUnits n pending' rest)
      | O =>
          match n with
          | O => EmptyString
          | S n' =>
              if (continuationBytes c =? 3)%nat then
                match n' with
                | O => highSurrogate s
                | S n'' => String c (sliceUnits n'' 3 rest)
                end
              else String c (sliceUnits n' (continuationBytes c) rest)
          end
      end
  end.

Definition sliceTo (n : nat) (s : string) : string := sliceUnits n 0 s.

(** Truthiness of a string: the empty string is falsy. *)
Definition nonEmpty (s : string) : bool :=
  match s with EmptyString => false | _ => true end.

(** [s || dflt] on strings. *)
Definition orElse (s dflt : string) : string :=
  if nonEmpty s then s else dflt.

Definition LF : ascii := ascii_of_nat 10.
Definition CR : ascii := ascii_of_nat 13.

End JsString.
Import JsString.

(* ------------------------------------------------------------------ *)
(** ** JavaScript numbers (binary64) *)

Module JsNumber.

Definition number := spec_float.

Definition prec : Z := 53.
Definition emax : Z := 1024.

Definition NaN : number := S754_nan.

Definition ofZ (z : Z) : number := binary_normalize prec emax z 0 false.

Definition add : number -> number -> number := SFadd prec emax.
Definition mul : number -> number -> number := SFmul prec emax.
Definition div : number -> number -> number := SFdiv prec emax.

(** [a >= b], [a <= b] and [a < b]: false as soon as one side is NaN. *)
Definition geb (a b : number) : bool :=
  match SFcompare a b with
  | Some Gt | Some Eq => true
  | _ => false
  end.

Definition leb (a b : number) : bool := SFleb a b.
Definition ltb (a b : number) : bool := SFltb a b.

(** [Math.min(a, b)] *)
Definition Math_min (a b : number) : number :=
  match a, b with
  | S754_nan, _ | _, S754_nan => S754_nan
  | S754_zero sa, S754_zero sb => S754_zero (sa || sb)
  | _, _ => if SFltb b a then b else a
  end.

(** [Math.round(x)]: the integer nearest to [x], ties towards +infinity;
    NaN, the infinities, the zeros and the integers are returned as they
    are, and a result of zero keeps the sign of [x]. *)
Definition Math_round (x : number) : number :=
  match x with
  | S754_finite s m e =>
      if (0 <=? e)%Z then x
      else
        let k := (- e)%Z in
        let n := ((2 * cond_Zopp s (Zpos m) + 2 ^ k) / 2 ^ (k + 1))%Z in
        binary_normalize prec emax n 0 s
  | _ => x
  end.

(** The value [m * 10^e10] rounded to the nearest binary64 (ties to even),
    with sign [s]. *)
Definition ofDecimal (s : bool) (m : Z) (e10 : Z) : number :=
  match m with
  | Zpos p =>
      match e10 with
      | Zneg k => SFdiv prec emax (S754_finite s p 0)
                    (S754_finite false (Pos.pow 10 k) 0)
      | _ => binary_normalize prec emax (cond_Zopp s (Zpos p * 10 ^ e10)) 0 s
      end
  | _ => S754_zero s
  end.

(** The integer a number denotes, when it denotes one. *)
Definition asInteger (x : number) : option Z :=
  match x with
  | S754_zero _ => Some 0%Z
  | S754_finite s m e =>
      if (0 <=? e)%Z then Some (cond_Zopp s (Zpos m * 2 ^ e))
      else if (Zpos m mod 2 ^ (- e) =? 0)%Z
           then Some (cond_Zopp s (Zpos m / 2 ^ (- e)))
           else None
  | _ => None
  end.

Definition is_digit (c : ascii) : bool :=
  let n := nat_of_ascii c in (48 <=? n)%nat && (n <=? 57)%nat.

Definition digit_val (c : ascii) : Z := Z.of_nat (nat_of_ascii c) - 48.

(** Reads the longest run of decimal digits at the head of [s]: the
    accumulated value, how many digits were read, and the rest. *)
Fixpoint read_digits (s : string) (acc : Z) (count : Z) : Z * Z * string :=
  match s with
  | String c rest =>
      if is_digit c then read_digits rest (acc * 10 + digit_val c) (count + 1)
      else (acc, count, s)
  | EmptyString => (acc, count, s)
  end.

(** The optional exponent part [e±ddd] of a decimal literal; 0 when it is
    absent or has no digit. *)
Definition read_exponent (s : string) : Z :=
  match s with
  | String c rest =>
      if Ascii.eqb c "e" || Ascii.eqb c "E" then
        let '(neg, rest') :=
          match rest with
          | String "-" r => (true, r)
          | String "+" r => (false, r)
          | _ => (false, rest)
          end in
        let '(v, count, _) := read_digits rest' 0 0 in
        if (count =? 0)%Z then 0%Z else if neg then (- v)%Z else v
      else 0%Z
  | EmptyString => 0%Z
  end.

(** [parseFloat(s)]: leading white space is skipped, then the longest prefix
    that is a decimal literal (sign, digits, fraction, exponent, or
    [Infinity]) is converted; NaN when there is none. *)
Definition parseFloat (s : string) : number :=
  let s0 := trimStart s in
  let '(neg, s1) :=
    match s0 with
    | String "-" r => (true, r)
    | String "+" r => (false, r)
    | _ => (false, s0)
    end in
  if String.prefix "Infinity" s1 then S754_infinity neg
  else
    let '(ip, ni, s2) := read_digits s1 0 0 in
    let '(m, nf, s3) :=
      match s2 with
      | String "." r => read_digits r ip 0
      | _ => (ip, 0%Z, s2)
      end in
    if ((ni + nf) =? 0)%Z then NaN
    else ofDecimal neg m (read_exponent s3 - nf).

End JsNumber.
Import JsNumber.

(* ------------------------------------------------------------------ *)
(** ** utils/imageUtils.ts *)

(** Lines 224-240 of [calculateImageSize]: the pair (width, height) that fits
    the larger side to [baseSize], before the multiple-of-8 step. *)
Definition fitToBase (aspectRatio : string) (baseSize : number)
  : number * number :=
  let pieces := split ":" aspectRatio in
  let wStr := nth 0 pieces EmptyString in
  let hStr := nth 1 pieces EmptyString in
  let w := parseFloat (orElse wStr "16") in
  let h := parseFloat (orElse hStr "9") in
  let ratio := div w h in
  if geb w h
  then (baseSize, Math_round (div baseSize ratio))
  else (Math_round (mul baseSize ratio), baseSize).

(** [Math.round(x / 8) * 8] *)
Definition toMultipleOf8 (x : number) : number :=
  mul (Math_round (div x (ofZ 8))) (ofZ 8).

(** [calculateImageSize(aspectRatio, baseSize)], the pair (width, height). *)
Definition calculateImageSize (aspectRatio : string) (baseSize : number)
  : number * number :=
  let '(width, height) := fitToBase aspectRatio baseSize in
  (toMultipleOf8 width, toMultipleOf8 height).

#[local] Set Warnings "-register-all".

(* ------------------------------------------------------------------ *)
(** ** JavaScript values, as JSON.parse and response.json() produce them *)

Inductive value :=
| VUndefined
| VNull
| VBool (b : bool)
| VNum (x : number)
| VStr (s : string)
| VArr (items : list value)
| VObj (fields : list (string * value)).

Module Js.

(** ToBoolean *)
Definition truthy (v : value) : bool :=
  match v with
  | VUndefined | VNull => false
  | VBool b => b
  | VNum (S754_zero _) | VNum S754_nan => false
  | VNum _ => true
  | VStr s => nonEmpty s
  | VArr _ | VObj _ => true
  end.

(** [a || b] *)
Definition or (a b : value) : value := if truthy a then a else b.

Fixpoint lookup (fields : list (string * value)) (key : string) : value :=
  match fields with
  | [] => VUndefined
  | (k, v) :: rest => if String.eqb k key then v else lookup rest key
  end.

(** [v.key] for the keys the service reads: [None] stands for the TypeError
    of a read on [null] or [undefined]; a primitive or an array has none of
    these keys. *)
Definition get (v : value) (key : string) : option value :=
  match v with
  | VUndefined | VNull => None
  | VObj fields => Some (lookup fields key)
  | _ => Some VUndefined
  end.

(** [v?.key] *)
Definition getOpt (v : value) (key : string) : value :=
  match get v key with
  | Some x => x
  | None => VUndefined
  end.

(** [obj.key = x] on an object. *)
Fixpoint assign (fields : list (string * value)) (key : string) (x : value)
  : list (string * value) :=
  match fields with
  | [] => [(key, x)]
  | (k, v) :: rest =>
      if String.eqb k key then (k, x) :: rest else (k, v) :: assign rest key x
  end.

Definition set (v : value) (key : string) (x : value) : value :=
  match v with
  | VObj fields => VObj (assign fields key x)
  | _ => v
  end.

(** [v === 'literal'] *)
Definition isStr (v : value) (literal : string) : bool :=
  match v with
  | VStr s => String.eqb s literal
  | _ => false
  end.

Definition isUndefined (v : value) : bool :=
  match v with VUndefined => true | _ => false end.

(** [Array.isArray(v) && v.length > 0], with the first element. *)
Definition firstOfArray (v : value) : option value :=
  match v with
  | VArr (x :: _) => Some x
  | _ => None
  end.

(** [typeof v === 'object'] for a truthy [v]. *)
Definition isObjectType (v : value) : bool :=
  match v with
  | VArr _ | VObj _ | VNull => true
  | _ => false
  end.

End Js.

(** What the browser contributes besides the network. *)
Record Runtime := {
  (** [JSON.parse(text)]; [None] when it throws its SyntaxError *)
  JSON_parse : string -> option value;
  (** [JSON.stringify(v)] *)
  JSON_stringify : value -> string;
  (** whether [new URL(text)] succeeds *)
  URL_canParse : string -> bool;
  (** String(v) for a value that is not a string *)
  ToString : value -> string;
  (** Number(v) for a value that is not a number *)
  ToNumber : value -> number;
  (** the decimal text of a number in a template literal *)
  Number_toString : number -> string;
  (** the first match in [text] of the data-URI pattern of the last-resort
      scan (data:image/, a mime subtype, ;base64, and base64 characters) *)
  match_dataImage : string -> option string;
  (** the first match in [text] of the image-URL pattern of the last-resort
      scan (http or https URL ending in .jpg, .jpeg, .png, .webp or .webm) *)
  match_imageUrl : string -> option string;
  (** the message of the TypeError raised by reading a property of [null] or
      calling a string method on a value that has none *)
  typeErrorMessage : string
}.

(* ------------------------------------------------------------------ *)
(** ** Requests, responses and the network *)

(** One element of the [parts] array of a Gemini request. *)
Inductive Part :=
| TextPart (text : string)
| InlineData (mime_type data : string).

(** The request body, one shape per kind of endpoint. *)
Inductive RequestBody :=
| GeminiBody (parts : list Part)
    (* { contents: [{ role: 'user', parts }],
         generationConfig: { responseModalities: ['IMAGE'] } } *)
| NanoBananaBody (model prompt imageSize aspectRatio webhook : string)
    (shutProgress : bool) (urls : list string) (negativePrompt : option string)
| OpenAIBody (model prompt : string) (n : Z) (image size : string)
    (reference_image scene_image negative_prompt : option string)
| GeminiTestBody
    (* the body above with parts [{ text: 'test' }] and modality 'TEXT' *)
| NanoBananaTestBody (model : string)
    (* { model, prompt: 'test', size: '1024x1024' } *)
| OpenAITestBody (model : string).
    (* { model, prompt: 'test' } *)

Record Request := {
  endpoint : string;                     (* the text given to [new URL] *)
  keyParam : option string;              (* searchParams.set('key', ...) *)
  headers : list (string * string);
  body : RequestBody
}.

(** The body of a streamed response, as [reader.read()] delivers it. *)
Inductive Stream :=
| StreamDone
| StreamChunk (text : string) (rest : Stream)
| StreamError (message : string).

Record Response := {
  status : Z;
  statusText : string;
  contentType : string;        (* headers.get('content-type') || '' *)
  json : string + value;       (* response.json(): rejection message, or value *)
  text : string;               (* response.text() *)
  stream : option Stream       (* response.body?.getReader() *)
}.

Definition ok (r : Response) : bool :=
  ((200 <=? status r) && (status r <=? 299))%Z.

Inductive FetchResult :=
| FetchFailed (message : string)         (* the promise rejects *)
| FetchResponse (r : Response).

(** What fetching an image (a blob: URL or a remote URL) gives. *)
Inductive ImageFetch :=
| ImageFetchFailed (message : string)
| ImageResponse (image_ok : bool) (image_status : Z) (image_statusText : string)
    (blob_size : nat)
    (imageToBase64 : string + string)    (* imageToBase64(blob) of imageUtils *)
    (readAsDataURL : option string).     (* FileReader.readAsDataURL(blob) *)

Record World := {
  (** the reply to the POST on the configured endpoint, given how many such
      POSTs this call has already issued *)
  server : nat -> Request -> FetchResult;
  (** the reply to the POST on the task-result endpoint, likewise *)
  taskResult : nat -> value -> FetchResult;
  (** the reply to a GET of an image *)
  images : string -> ImageFetch
}.

(* ------------------------------------------------------------------ *)
(** ** Errors and effects *)

(** The [throw] statement an error comes from (a label of the model; the
    source distinguishes errors by message only). *)
Inductive ErrorSite :=
| ConfigMissing | ConfigIncomplete
| ImageEmpty | DataUriTooShort | DataUriInvalid
| BlobConversionFailed | UrlImageLoadFailed
| StoryboardInvalid | EndpointInvalid
| StoryboardPayloadTooShort | StoryboardTooShort
| DocumentationUrl | EndpointEmpty | HtmlResponse | ProbeRejected
| NetworkFailure | AuthFailed | ApiCallFailed
| NoResponseStream | StreamBroken | StreamUnparsed
| NotJson | JsonSyntax | TypeErr
| TaskFailed | TaskTimeout | TaskStillProcessing
| NoImageInResponse | ImageDownloadFailed
| RetriesExhausted.

Record Error := { site : ErrorSite; message : string }.

Inductive Event :=
| Progress (percent : number)            (* params.onProgress(percent) *)
| Post (req : Request)                   (* POST to the configured endpoint *)
| PollPost (taskId : value)              (* POST to the task-result endpoint *)
| Sleep (ms : Z)                         (* awaiting a setTimeout *)
| FetchImage (url : string).             (* GET of an image *)

Inductive Outcome (A : Type) :=
| Returned (a : A)
| Thrown (e : Error).
Arguments Returned {A} a.
Arguments Thrown {A} e.

(** A computation: from the events so far to an outcome and the events then. *)
Definition M (A : Type) : Type := list Event -> Outcome A * list Event.

Definition ret {A} (a : A) : M A := fun tr => (Returned a, tr).

Definition bind {A B} (m : M A) (k : A -> M B) : M B :=
  fun tr => match m tr with
            | (Returned a, tr') => k a tr'
            | (Thrown e, tr') => (Thrown e, tr')
            end.

Definition throw {A} (s : ErrorSite) (msg : string) : M A :=
  fun tr => (Thrown {| site := s; message := msg |}, tr).

Definition rethrow {A} (e : Error) : M A := fun tr => (Thrown e, tr).

(** [try { m; onOk } catch (e) { onErr }] where only [m] is protected. *)
Definition tryCatch {A B} (m : M A) (onOk : A -> M B) (onErr : Error -> M B)
  : M B :=
  fun tr => match m tr with
            | (Returned a, tr') => onOk a tr'
            | (Thrown e, tr') => onErr e tr'
            end.

Definition emit (ev : Event) : M unit := fun tr => (Returned tt, (tr ++ [ev])%list).

Definition history : M (list Event) := fun tr => (Returned tr, tr).

Notation "'let*' x ':=' m 'in' k" := (bind m (fun x => k))
  (at level 10, x pattern, m at level 100, k at level 200).
Notation "m ';;' k" := (bind m (fun _ => k))
  (at level 100, k at level 200, right associativity).

Definition isPost (ev : Event) : bool :=
  match ev with Post _ => true | _ => false end.
Definition isPollPost (ev : Event) : bool :=
  match ev with PollPost _ => true | _ => false end.

(** The requests a trace holds, and the percentages it reports. *)
Definition posts (tr : list Event) : list Event := filter isPost tr.
Definition pollPosts (tr : list Event) : list Event := filter isPollPost tr.

Fixpoint progressOf (tr : list Event) : list number :=
  match tr with
  | [] => []
  | Progress p :: rest => p :: progressOf rest
  | _ :: rest => progressOf rest
  end.

Definition Z_toString (z : Z) : string := NilZero.string_of_int (Z.to_int z).

(* ------------------------------------------------------------------ *)
(** ** Data URIs *)

Definition nl : string := String LF EmptyString.

Fixpoint stripPrefix (prefix s : string) : option string :=
  match prefix, s with
  | EmptyString, _ => Some s
  | String a prefix', String b s' =>
      if Ascii.eqb a b then stripPrefix prefix' s' else None
  | String _ _, EmptyString => None
  end.

(** The longest run without a semicolon at the head of [s], and what follows. *)
Fixpoint untilSemicolon (s : string) : string * string :=
  match s with
  | EmptyString => (EmptyString, EmptyString)
  | String c rest =>
      if Ascii.eqb c ";" then (EmptyString, s)
      else let '(run, tail) := untilSemicolon rest in (String c run, tail)
  end.

(** No line terminator (LF, CR, U+2028, U+2029): what [.] of a regular
    expression accepts. *)
Fixpoint dotAll (s : string) : bool :=
  match s with
  | EmptyString => true
  | String c rest =>
      negb (Ascii.eqb c LF || Ascii.eqb c CR
            || String.prefix (bytes [226; 128; 168]) s
            || String.prefix (bytes [226; 128; 169]) s)
      && dotAll rest
  end.

(** [s.match(/^data:<head>([^;]+);base64,(.+)$/)]: the two captured groups.
    The run [[^;]+] has to stop at the first semicolon, so the match is
    unique when there is one. *)
Definition matchDataUri (head s : string) : option (string * string) :=
  match stripPrefix ("data:" ++ head) s with
  | None => None
  | Some rest =>
      let '(mime, tail) := untilSemicolon rest in
      if negb (nonEmpty mime) then None
      else match stripPrefix ";base64," tail with
           | None => None
           | Some payload =>
               if nonEmpty payload && dotAll payload
               then Some (mime, payload) else None
           end
  end.

(* ------------------------------------------------------------------ *)
(** ** Provider detection *)

Definition isGeminiAPI (endpoint : string) : bool :=
  includes endpoint "/v1beta/models/" && includes endpoint ":generateContent".

Definition isNanoBananaAPI (endpoint : string) : bool :=
  includes endpoint "/v1/draw/".

Inductive Provider := GEMINI | ASYNC_TASK | GENERIC.

(** The branch taken by [if (isGeminiAPI) ... else if (isNanoBananaAPI) ...
    else ...]. *)
Definition providerOf (gemini nanoBanana : bool) : Provider :=
  if gemini then GEMINI else if nanoBanana then ASYNC_TASK else GENERIC.

(** Detection in [generateAIImage], on the trimmed endpoint. *)
Definition classify (apiEndpoint : string) : Provider :=
  let endpoint := trim apiEndpoint in
  providerOf (isGeminiAPI endpoint) (isNanoBananaAPI endpoint).

(** Detection in [validateAPIConfig], on the lower-cased endpoint. *)
Definition classifyForValidation (apiEndpoint : string) : Provider :=
  let endpoint := toLowerCase apiEndpoint in
  providerOf (isGeminiAPI endpoint) (isNanoBananaAPI endpoint).

(* ------------------------------------------------------------------ *)
(** ** services/aiImageService.ts *)

Record AIImageConfig := {
  apiEndpoint : string;
  apiKey : string;
  modelName : string
}.

Record GenerateAIImageParams := {
  prompt : string;
  negativePrompt : option string;
  storyboardImage : string;
  roleImage : option string;
  sceneImage : option string;
  aspectRatio : string;
  onProgress : bool            (* whether a callback was supplied *)
}.

Record GenerateAIImageResult := {
  image : string;
  model : string
}.

(** Truthiness of an optional string. *)
Definition given (o : option string) : bool :=
  match o with Some s => nonEmpty s | None => false end.

Section Service.

Variable rt : Runtime.
Variable world : World.

Definition typeError {A} : M A := throw TypeErr (typeErrorMessage rt).

(** [v.key] *)
Definition prop (v : value) (key : string) : M value :=
  match Js.get v key with
  | Some x => ret x
  | None => typeError
  end.

(** The text of [v] in a template literal or a concatenation. *)
Definition asText (v : value) : string :=
  match v with
  | VStr s => s
  | _ => ToString rt v
  end.

(** [v.startsWith(prefix)] and [v.toLowerCase()]: only strings have them. *)
Definition startsWithM (v : value) (prefix : string) : M bool :=
  match v with
  | VStr s => ret (startsWith s prefix)
  | _ => typeError
  end.

Definition toLowerCaseM (v : value) : M string :=
  match v with
  | VStr s => ret (toLowerCase s)
  | _ => typeError
  end.

Definition progress (params : GenerateAIImageParams) (percent : number)
  : M unit :=
  if onProgress params then emit (Progress percent) else ret tt.

Definition sleep (ms : Z) : M unit := emit (Sleep ms).

(** [downloadImageAsBase64(imageUrl)].  The promise of the FileReader is
    returned from inside [try] without being awaited, so its rejection is
    not caught by the [catch] of the function: the caller receives the
    event of the reader, which has no message ([undefined] in a template
    literal). *)
Definition downloadImageAsBase64 (imageUrl : string) : M string :=
  let* reading :=
    tryCatch
      (emit (FetchImage imageUrl) ;;
       match images world imageUrl with
       | ImageFetchFailed msg => throw NetworkFailure msg
       | ImageResponse image_ok st stText _ _ dataUrl =>
           if negb image_ok then
             throw ImageDownloadFailed
               ("下载图片失败: " ++ Z_toString st ++ " " ++ stText)
           else ret dataUrl
       end)
      ret
      (fun error =>
         throw ImageDownloadFailed ("图片下载转换失败: " ++ message error)) in
  match reading with
  | Some result => ret result
  | None => throw ImageDownloadFailed "undefined"
  end.

(** The two fetching branches of [convertToBase64] differ by their
    messages only. *)
Definition fetchAsBase64 (img : string) (site : ErrorSite)
    (notOkMsg emptyMsg shortMsg wrapMsg : string) : M string :=
  tryCatch
    (emit (FetchImage img) ;;
     match images world img with
     | ImageFetchFailed msg => throw NetworkFailure msg
     | ImageResponse image_ok st stText size converted _ =>
         if negb image_ok then
           throw site (notOkMsg ++ Z_toString st ++ " " ++ stText)
         else if (size =? 0)%nat then throw site emptyMsg
         else match converted with
              | inl msg => throw site msg
              | inr base64 =>
                  if negb (nonEmpty base64) || (String.length base64 <? 100)%nat
                  then throw site shortMsg
                  else ret base64
              end
     end)
    ret
    (fun error => throw site (wrapMsg ++ message error)).

(** [convertToBase64(image)] *)
Definition convertToBase64 (img : string) : M string :=
  if negb (nonEmpty img) || (String.length (trim img) =? 0)%nat then
    throw ImageEmpty "图片数据为空"
  else if startsWith img "data:" then
    if (String.length img <? 100)%nat then
      throw DataUriTooShort "Base64图片数据太短，可能不完整"
    else
      match matchDataUri "image/" img with
      | Some (_, payload) =>
          if (String.length payload <? 50)%nat
          then throw DataUriInvalid "Base64图片格式无效或数据不完整"
          else ret img
      | None => throw DataUriInvalid "Base64图片格式无效或数据不完整"
      end
  else if startsWith img "blob:" then
    fetchAsBase64 img BlobConversionFailed
      "无法加载Blob URL: " "Blob数据为空"
      "Blob转换为base64失败或数据不完整" "无法转换Blob URL为base64: "
  else
    fetchAsBase64 img UrlImageLoadFailed
      "无法加载图片URL: " "下载的图片数据为空"
      "URL图片转换为base64失败或数据不完整" "无法加载图片: ".

(** Conversion of an optional reference image (role or scene): skipped when
    the parameter is absent or empty. *)
Definition convertOptional (img : option string) : M (option string) :=
  match img with
  | Some i =>
      if nonEmpty i then let* b := convertToBase64 i in ret (Some b)
      else ret None
  | None => ret None
  end.

(** [extractBase64] of the Gemini branch: (mimeType, data). *)
Definition extractBase64 (dataUrl : string) : string * string :=
  if startsWith dataUrl "data:" then
    match matchDataUri "" dataUrl with
    | Some (mime, data) => (mime, data)
    | None => ("image/png", dataUrl)
    end
  else ("image/png", dataUrl).

(** [extractPureBase64] of the Nano Banana branch. *)
Definition extractPureBase64 (dataUrl : string) : string :=
  if startsWith dataUrl "data:" then
    match matchDataUri "" dataUrl with
    | Some (_, data) => data
    | None => dataUrl
    end
  else dataUrl.

(** The part pushed for a reference image in the Gemini branch, if any. *)
Definition geminiReference (base64 : option string) : list Part :=
  if given base64 then
    let '(mime, data) := extractBase64 (match base64 with Some b => b | None => "" end) in
    if nonEmpty data && (100 <=? String.length data)%nat
    then [InlineData mime data] else []
  else [].

(** The entry pushed on [urls] for a reference image, if any. *)
Definition nanoReference (base64 : option string) : list string :=
  if given base64 then
    let pure := extractPureBase64 (match base64 with Some b => b | None => "" end) in
    if nonEmpty pure && (100 <=? String.length pure)%nat then [pure] else []
  else [].

(** The [reference_image] or [scene_image] field of the OpenAI-style body. *)
Definition openAIReference (base64 : option string) : option string :=
  match base64 with
  | Some b => if nonEmpty b && (100 <=? String.length b)%nat then Some b else None
  | None => None
  end.

(** [params.negativePrompt && params.negativePrompt.trim()] *)
Definition hasNegativePrompt (params : GenerateAIImageParams) : bool :=
  match negativePrompt params with
  | Some np => nonEmpty np && nonEmpty (trim np)
  | None => false
  end.

Definition negativePromptField (params : GenerateAIImageParams)
  : option string :=
  if hasNegativePrompt params then negativePrompt params else None.

Definition jsonHeaders : list (string * string) :=
  [("Content-Type", "application/json")].

Definition bearerHeaders (config : AIImageConfig) : list (string * string) :=
  [("Content-Type", "application/json");
   ("Authorization", "Bearer " ++ apiKey config)].

(** The request built by lines 313-699, from the converted images. *)
Definition buildRequest (config : AIImageConfig)
    (params : GenerateAIImageParams)
    (storyboardBase64 : string) (roleBase64 sceneBase64 : option string)
  : M Request :=
  let endpoint := trim (apiEndpoint config) in
  if negb (URL_canParse rt endpoint) then
    throw EndpointInvalid
      ("API地址格式无效：" ++ endpoint ++
       "。请确保是完整的URL，包含协议（https://）")
  else
    let ratio := orElse (aspectRatio params) "16:9" in
    let '(width, height) := calculateImageSize ratio (ofZ 1024) in
    let size := Number_toString rt width ++ "x" ++ Number_toString rt height in
    match providerOf (isGeminiAPI endpoint) (isNanoBananaAPI endpoint) with
    | GEMINI =>
        let '(mime, data) := extractBase64 storyboardBase64 in
        let fullPrompt :=
          prompt params
          ++ (if nonEmpty ratio && negb (String.eqb ratio "auto")
              then nl ++ "画面比例：" ++ ratio ++ "（" ++ size ++ "像素）"
              else "")
          ++ (if hasNegativePrompt params
              then nl ++ "避免：" ++ match negativePrompt params with
                                     | Some np => np
                                     | None => ""
                                     end
              else "") in
        ret {| endpoint := endpoint;
               keyParam := Some (apiKey config);
               headers := jsonHeaders;
               body := GeminiBody
                         ([TextPart fullPrompt; InlineData mime data]
                          ++ geminiReference roleBase64
                          ++ geminiReference sceneBase64)%list |}
    | ASYNC_TASK =>
        let storyboardPureBase64 := extractPureBase64 storyboardBase64 in
        if negb (nonEmpty storyboardPureBase64)
           || (String.length storyboardPureBase64 <? 100)%nat then
          throw StoryboardPayloadTooShort "分镜图片base64数据不完整，无法上传"
        else
          let urls := ([storyboardPureBase64] ++ nanoReference roleBase64
                       ++ nanoReference sceneBase64)%list in
          ret {| endpoint := endpoint;
                 keyParam := None;
                 headers := bearerHeaders config;
                 body := NanoBananaBody
                           (orElse (modelName config) "nano-banana")
                           (prompt params) size ratio
                           (if String.eqb ratio "auto" then "-1" else "")
                           false
                           (if (0 <? List.length urls)%nat
                            then urls else ["base64"])
                           (negativePromptField params) |}
    | GENERIC =>
        if negb (nonEmpty storyboardBase64)
           || (String.length storyboardBase64 <? 100)%nat then
          throw StoryboardTooShort "分镜图片数据不完整，无法上传"
        else
          ret {| endpoint := endpoint;
                 keyParam := None;
                 headers := bearerHeaders config;
                 body := OpenAIBody (modelName config) (prompt params) 1
                           storyboardBase64 size
                           (openAIReference roleBase64)
                           (openAIReference sceneBase64)
                           (negativePromptField params) |}
    end.

(* ---------------------------------------------------------------- *)
(** *** One HTTP attempt: the failure branch *)

(** [errorData?.error?.message] *)
Definition errorMessageOf (errorData : value) : value :=
  Js.getOpt (Js.getOpt errorData "error") "message".

(** The [errorMessage] of lines 728-743. *)
Definition failureMessage (r : Response) : string :=
  let default := "HTTP " ++ Z_toString (status r) ++ ": " ++ statusText r in
  if includes (contentType r) "application/json" then
    match json r with
    | inl _ => default
    | inr errorData =>
        let m := errorMessageOf errorData in
        if Js.truthy m then asText m else default
    end
  else sliceTo 200 (text r).

(* ---------------------------------------------------------------- *)
(** *** The stream reader (lines 763-835) *)

Definition isTerminalStatus (st : value) : bool :=
  Js.isStr st "succeeded" || Js.isStr st "completed"
  || Js.isStr st "failed" || Js.isStr st "error".

Definition toNumber (v : value) : number :=
  match v with
  | VNum x => x
  | _ => ToNumber rt v
  end.

(** [10 + (progress * 0.8)] *)
Definition streamPercent (p : value) : number :=
  add (ofZ 10) (mul (toNumber p) (ofDecimal false 8 (-1))).

(** The body of [for (const line of lines)]: the new [lastData], and
    whether the loop is left by [break]. [buffer] is the incomplete last
    line kept by [lines.pop()]. *)
Definition sseLine (params : GenerateAIImageParams) (buffer : string)
    (lastData : value) (line : string) : M (value * bool) :=
  if startsWith line "data: " then
    let jsonStr := trim (substringFrom 6 line) in
    if nonEmpty jsonStr then
      match JSON_parse rt jsonStr with
      | None => ret (lastData, false)
      | Some eventData =>
          match Js.get eventData "progress" with
          | None => ret (eventData, false)
          | Some p =>
              (if negb (Js.isUndefined p)
               then progress params (streamPercent p) else ret tt) ;;
              if isTerminalStatus (Js.getOpt eventData "status") then
                let remainingLine := trim buffer in
                if nonEmpty remainingLine
                   && startsWith remainingLine "data: " then
                  match JSON_parse rt (trim (substringFrom 6 remainingLine)) with
                  | Some remainingJson => ret (remainingJson, true)
                  | None => ret (eventData, true)
                  end
                else ret (eventData, true)
              else ret (eventData, false)
          end
      end
    else ret (lastData, false)
  else ret (lastData, false).

Fixpoint sseLines (params : GenerateAIImageParams) (buffer : string)
    (lastData : value) (lines : list string) : M value :=
  match lines with
  | [] => ret lastData
  | line :: rest =>
      let* (lastData', stop) := sseLine params buffer lastData line in
      if stop then ret lastData'
      else sseLines params buffer lastData' rest
  end.

(** [while (true) { const { done, value } = await reader.read(); ... }] *)
Fixpoint readStream (params : GenerateAIImageParams) (s : Stream)
    (buffer : string) (lastData : value) : M value :=
  match s with
  | StreamDone => ret lastData
  | StreamError msg => throw StreamBroken msg
  | StreamChunk chunk rest =>
      let pieces := split LF (buffer ++ chunk) in
      let buffer' := List.last pieces "" in
      let lines := List.removelast pieces in
      let* lastData' := sseLines params buffer' lastData lines in
      if Js.truthy lastData'
         && isTerminalStatus (Js.getOpt lastData' "status")
      then ret lastData'
      else readStream params rest buffer' lastData'
  end.

(** The whole [text/event-stream] branch: the value bound to [data]. *)
Definition readEventStream (params : GenerateAIImageParams) (r : Response)
  : M value :=
  match stream r with
  | None => throw NoResponseStream "无法读取响应流"
  | Some s =>
      let* lastData := readStream params s "" VNull in
      if negb (Js.truthy lastData)
      then throw StreamUnparsed "无法从SSE流中解析数据"
      else ret lastData
  end.

(* ---------------------------------------------------------------- *)
(** *** Task status and polling (lines 867-1022) *)

Definition moderationHint (errorMsg : value) : string :=
  "内容审核未通过：" ++ asText errorMsg ++ nl ++ nl ++ "建议：" ++ nl
  ++ "1. 修改提示词，避免敏感内容" ++ nl ++ "2. 更换参考图片" ++ nl
  ++ "3. 调整负面提示词".

(** The [throw] of a failed task; [allHints] is true for the first
    response (three kinds of hints) and false inside the poll loop. *)
Definition taskFailure {A} (d : value) (allHints : bool) : M A :=
  let* err := prop d "error" in
  let* reason := prop d "failure_reason" in
  let* msg := prop d "message" in
  let errorMsg := Js.or (Js.or (Js.or err reason) msg) (VStr "任务失败") in
  let* moderated :=
    if Js.isStr reason "output_moderation" then ret true
    else
      let* lower := toLowerCaseM errorMsg in
      ret (includes lower "moderation" || includes lower "policy") in
  if moderated then throw TaskFailed (moderationHint errorMsg)
  else if allHints then
    let* lower := toLowerCaseM errorMsg in
    if includes lower "rate limit" || includes lower "quota" then
      throw TaskFailed
        ("API调用频率限制：" ++ asText errorMsg ++ nl ++ nl
         ++ "建议：请稍后再试")
    else if includes lower "auth" || includes lower "key" then
      throw TaskFailed
        ("API认证失败：" ++ asText errorMsg ++ nl ++ nl
         ++ "建议：请检查API Key是否正确")
    else throw TaskFailed (asText errorMsg)
  else throw TaskFailed (asText errorMsg).

(** [d.image || d.url || d.data || d.base64] *)
Definition pickImage (d : value) : M value :=
  let* a := prop d "image" in
  let* b := prop d "url" in
  let* c := prop d "data" in
  let* e := prop d "base64" in
  ret (Js.or (Js.or (Js.or a b) c) e).

(** The [resultImage] read from [d.results] or from [d] itself; [null]
    when there is none. *)
Definition resultImageOf (d : value) : M value :=
  let* results := prop d "results" in
  if Js.truthy results then
    match Js.firstOfArray results with
    | Some result => let* r := pickImage result in ret (Js.or r VNull)
    | None =>
        if Js.isObjectType results
        then let* r := pickImage results in ret (Js.or r VNull)
        else ret VNull
    end
  else
    let* r := pickImage d in
    if Js.truthy r then ret r else ret VNull.

(** [50 + Math.min(30, (attempt / maxPollingAttempts) * 30)] *)
Definition pollPercent (attempt : nat) : number :=
  add (ofZ 50)
      (Math_min (ofZ 30)
         (mul (div (ofZ (Z.of_nat attempt)) (ofZ 30)) (ofZ 30))).

Definition maxPollingAttempts : nat := 30.
Definition pollingInterval : Z := 2000.

(** One iteration of the poll loop: [Some data'] when it leaves the loop by
    [break] with [data] updated, [None] when the loop goes on. *)
Definition pollOnce (params : GenerateAIImageParams) (taskId : value)
    (attempt : nat) (data : value) : M (option value) :=
  sleep pollingInterval ;;
  progress params (pollPercent attempt) ;;
  tryCatch
    (let* tr := history in
     emit (PollPost taskId) ;;
     match taskResult world (List.length (pollPosts tr)) taskId with
     | FetchFailed msg => throw NetworkFailure msg
     | FetchResponse r =>
         if negb (ok r) then ret None
         else
           match json r with
           | inl msg => throw JsonSyntax msg
           | inr resultData =>
               let* st := prop resultData "status" in
               if Js.isStr st "completed" || Js.isStr st "success" then
                 let* resultImage := resultImageOf resultData in
                 if Js.truthy resultImage then
                   let* isData := startsWithM resultImage "data:" in
                   let* isHttp := startsWithM resultImage "http" in
                   let* isBlob := startsWithM resultImage "blob:" in
                   let img :=
                     if negb isData && negb isHttp && negb isBlob
                     then VStr ("data:image/png;base64," ++ asText resultImage)
                     else resultImage in
                   ret (Some (Js.set (Js.set data "image" img)
                                "status" (VStr "completed")))
                 else ret None
               else if Js.isStr st "failed" || Js.isStr st "error" then
                 taskFailure resultData false
               else ret None
           end
     end)
    ret
    (fun pollError =>
       if nonEmpty (message pollError)
          && negb (includes (message pollError) "fetch")
       then rethrow pollError
       else ret None).

(** [for (let attempt = 0; attempt < maxPollingAttempts; attempt++)], with
    [remaining] iterations to go. *)
Fixpoint pollLoop (params : GenerateAIImageParams) (taskId : value)
    (remaining : nat) (data : value) : M value :=
  match remaining with
  | O => ret data
  | S remaining' =>
      let* step :=
        pollOnce params taskId (maxPollingAttempts - remaining) data in
      match step with
      | Some data' => ret data'
      | None => pollLoop params taskId remaining' data
      end
  end.

(** The branch of a pending task: [data] once the task has completed. *)
Definition awaitTask (config : AIImageConfig)
    (params : GenerateAIImageParams) (data : value) : M value :=
  let* id := prop data "id" in
  let* task_id := prop data "task_id" in
  let* job_id := prop data "job_id" in
  let taskId := Js.or (Js.or id task_id) job_id in
  let* st := prop data "status" in
  if Js.truthy taskId && isNanoBananaAPI (trim (apiEndpoint config)) then
    progress params (ofZ 50) ;;
    let* data' := pollLoop params taskId maxPollingAttempts data in
    let* st' := prop data' "status" in
    if negb (Js.isStr st' "completed") && negb (Js.isStr st' "success") then
      throw TaskTimeout
        ("任务处理超时（已等待"
         ++ Z_toString (Z.of_nat maxPollingAttempts * pollingInterval / 1000)
         ++ "秒）" ++ nl ++ "任务ID：" ++ asText taskId ++ nl
         ++ "当前状态：" ++ asText st' ++ nl ++ nl
         ++ "建议：请稍后手动查询任务结果")
    else ret data'
  else
    let* p := prop data "progress" in
    throw TaskStillProcessing
      ("任务正在处理中（状态：" ++ asText st ++ "）" ++ nl
       ++ (if Js.truthy taskId
           then "任务ID：" ++ asText taskId ++ nl else "")
       ++ "当前进度：" ++ asText (Js.or p (VNum (ofZ 0))) ++ "%" ++ nl ++ nl
       ++ "注意：此API需要轮询获取结果，但缺少必要的任务ID或结果查询接口。" ++ nl
       ++ "请查看API文档了解如何通过任务ID获取结果。").

(** The branch of a completed task: [data.image] is set from the results. *)
Definition completedTask (data : value) : M value :=
  let* resultImage := resultImageOf data in
  if Js.truthy resultImage then
    let* isHttp := startsWithM resultImage "http://" in
    let* isHttps := startsWithM resultImage "https://" in
    if isHttp || isHttps then ret (Js.set data "image" resultImage)
    else
      let* isData := startsWithM resultImage "data:" in
      let* isBlob := startsWithM resultImage "blob:" in
      if negb isData && negb isBlob then
        ret (Js.set data "image"
               (VStr ("data:image/png;base64," ++ asText resultImage)))
      else ret (Js.set data "image" resultImage)
  else ret data.

(** [if (data.status) { ... }] of lines 868-1022. *)
Definition handleStatus (config : AIImageConfig)
    (params : GenerateAIImageParams) (data : value) : M value :=
  let* st := prop data "status" in
  if Js.truthy st then
    if Js.isStr st "failed" || Js.isStr st "error" then taskFailure data true
    else
      let* data1 :=
        if Js.isStr st "pending" || Js.isStr st "processing"
           || Js.isStr st "in_progress"
        then awaitTask config params data
        else ret data in
      let* st1 := prop data1 "status" in
      if Js.isStr st1 "completed" || Js.isStr st1 "success"
         || Js.isStr st1 "succeeded"
      then completedTask data1
      else ret data1
  else ret data.

(* ---------------------------------------------------------------- *)
(** *** Extraction of the generated image (lines 1024-1084) *)

(** [for (const part of candidate.content.parts)] on an array. *)
Fixpoint scanParts (items : list value) : M value :=
  match items with
  | [] => ret (VStr "")
  | part :: rest =>
      let* a := prop part "inlineData" in
      let* b := prop part "inline_data" in
      let inlineData := Js.or a b in
      if Js.truthy inlineData then
        let* d := prop inlineData "data" in
        if Js.truthy d then
          let* m1 := prop inlineData "mimeType" in
          let* m2 := prop inlineData "mime_type" in
          let mimeType := Js.or (Js.or m1 m2) (VStr "image/png") in
          ret (VStr ("data:" ++ asText mimeType ++ ";base64," ++ asText d))
        else scanParts rest
      else scanParts rest
  end.

(** 1. the Gemini shape *)
Definition fromCandidates (data : value) : M value :=
  let* candidates := prop data "candidates" in
  match (if Js.truthy candidates then Js.firstOfArray candidates else None) with
  | Some candidate =>
      let* content := prop candidate "content" in
      if Js.truthy content then
        let* parts := prop content "parts" in
        if Js.truthy parts then
          match parts with
          | VArr items => scanParts items
          | VStr _ => ret (VStr "")     (* characters have no inlineData *)
          | _ => typeError              (* not iterable *)
          end
        else ret (VStr "")
      else ret (VStr "")
  | None => ret (VStr "")
  end.

(** 2. the OpenAI shape *)
Definition fromDataArray (data : value) : M value :=
  let* d := prop data "data" in
  match (if Js.truthy d then Js.firstOfArray d else None) with
  | Some item =>
      let* u := prop item "url" in
      let* b := prop item "b64_json" in
      let* i := prop item "image" in
      let generatedImage := Js.or (Js.or (Js.or u b) i) (VStr "") in
      if Js.truthy generatedImage then
        let* isData := startsWithM generatedImage "data:" in
        let* isHttp := startsWithM generatedImage "http" in
        if negb isData && negb isHttp
        then ret (VStr ("data:image/png;base64," ++ asText generatedImage))
        else ret generatedImage
      else ret generatedImage
  | None => ret (VStr "")
  end.

(** 3. the generic shapes *)
Definition fromGenericFields (data : value) : M value :=
  let* images := prop data "images" in
  match (if Js.truthy images then Js.firstOfArray images else None) with
  | Some first => ret first
  | None =>
      let* result := prop data "result" in
      let resultImage := Js.getOpt result "image" in
      if Js.truthy resultImage then ret resultImage
      else
        let* img := prop data "image" in
        if Js.truthy img then ret img
        else
          let* u := prop data "url" in
          if Js.truthy u then ret u
          else
            let* d := prop data "data" in
            match d with
            | VStr str =>
                if nonEmpty str then
                  ret (VStr (if startsWith str "data:" then str
                             else "data:image/png;base64," ++ str))
                else ret (VStr "")
            | _ => ret (VStr "")
            end
  end.

(** 4. the last resort: a scan of the serialised response *)
Definition fromSerialized (data : value) : value :=
  let jsonStr := JSON_stringify rt data in
  match match_dataImage rt jsonStr with
  | Some m => VStr m
  | None =>
      match match_imageUrl rt jsonStr with
      | Some m => VStr m
      | None => VStr ""
      end
  end.

Definition extractImage (data : value) : M value :=
  let* g1 := fromCandidates data in
  let* g2 := if negb (Js.truthy g1) then fromDataArray data else ret g1 in
  let* g3 := if negb (Js.truthy g2) then fromGenericFields data else ret g2 in
  let g4 := if negb (Js.truthy g3) then fromSerialized data else g3 in
  if negb (Js.truthy g4) then
    throw NoImageInResponse
      ("无法从API响应中提取生成的图片。响应格式："
       ++ sliceTo 500 (JSON_stringify rt data))
  else ret g4.

(* ---------------------------------------------------------------- *)
(** *** The attempt and the retry loop (lines 701-1122) *)

Definition dq : string := String (ascii_of_nat 34) EmptyString.

Definition htmlHint (body : string) : string :=
  if includes body "<!DOCTYPE html>" || includes body "<html" then
    nl ++ nl ++ "提示：返回的是HTML页面，可能的原因：" ++ nl
    ++ "1. API地址配置错误，可能填成了文档页面地址（如 apifox.cn 的文档页）" ++ nl
    ++ "2. API地址应该是实际的接口端点，例如：" ++ nl
    ++ "   - https://api.example.com/v1/images/generations" ++ nl
    ++ "   - https://www.sutong.info/v1/images/generations" ++ nl
    ++ "3. 请从API文档中找到" ++ dq ++ "请求URL" ++ dq ++ "或" ++ dq
    ++ "接口地址" ++ dq ++ "，而不是文档页面URL" ++ nl
    ++ "4. 确保API地址以 /v1/ 或 /api/ 等接口路径结尾，而不是 .html 或 /doc/ 等文档路径"
  else "".

Definition maxRetries : nat := 3.

(** How the body of [try] ends when it does not throw: by [return], or by
    the [continue] of the rate-limit branch. *)
Inductive AttemptOutcome :=
| Finished (result : GenerateAIImageResult)
| RateLimited.

(** The value bound to [data] (lines 760-861), from a response that is ok. *)
Definition responseData (config : AIImageConfig)
    (params : GenerateAIImageParams) (r : Response) : M value :=
  if includes (contentType r) "text/event-stream" then
    readEventStream params r
  else if negb (includes (contentType r) "application/json") then
    throw NotJson
      ("API 返回的不是 JSON 格式（Content-Type: " ++ contentType r
       ++ "）" ++ nl ++ "当前配置的API地址：" ++ apiEndpoint config
       ++ nl ++ "返回内容预览：" ++ sliceTo 300 (text r)
       ++ htmlHint (text r))
  else
    match json r with
    | inl msg => throw JsonSyntax msg
    | inr d => ret d
    end.

(** From [data] to the [return] of the attempt (lines 863-1109). *)
Definition deliver (config : AIImageConfig) (params : GenerateAIImageParams)
    (data : value) : M AttemptOutcome :=
  progress params (ofZ 90) ;;
  let* data' := handleStatus config params data in
  let* generatedImage := extractImage data' in
  let* isHttp := startsWithM generatedImage "http://" in
  let* isHttps := startsWithM generatedImage "https://" in
  let* final :=
    if isHttp || isHttps then
      progress params (ofZ 95) ;;
      tryCatch (downloadImageAsBase64 (asText generatedImage)) ret
        (fun error =>
           throw ImageDownloadFailed
             ("图片下载失败: " ++ message error ++ nl
              ++ "图片URL: " ++ asText generatedImage))
    else ret (asText generatedImage) in
  progress params (ofZ 100) ;;
  ret (Finished {| image := final; model := modelName config |}).

(** [30 + retryCount * 10] *)
Definition attemptPercent (retryCount : nat) : number :=
  add (ofZ 30) (mul (ofZ (Z.of_nat retryCount)) (ofZ 10)).

(** What follows the response of the endpoint in the body of [try]. *)
Definition received (config : AIImageConfig) (params : GenerateAIImageParams)
    (retryCount : nat) (r : Response) : M AttemptOutcome :=
  progress params (ofZ 70) ;;
  if negb (ok r) then
    let errorMessage := failureMessage r in
    if (status r =? 401)%Z then
      throw AuthFailed ("API认证失败: " ++ errorMessage)
    else if (status r =? 429)%Z && (retryCount <? maxRetries - 1)%nat then
      sleep (1000 * (Z.of_nat retryCount + 1)) ;;
      ret RateLimited
    else throw ApiCallFailed ("API调用失败: " ++ errorMessage)
  else
    let* data := responseData config params r in
    deliver config params data.

(** The body of [try] in the retry loop. *)
Definition attempt (config : AIImageConfig) (params : GenerateAIImageParams)
    (request : Request) (retryCount : nat) : M AttemptOutcome :=
  progress params (attemptPercent retryCount) ;;
  let* tr := history in
  emit (Post request) ;;
  match server world (List.length (posts tr)) request with
  | FetchFailed msg => throw NetworkFailure msg
  | FetchResponse r => received config params retryCount r
  end.

(** [while (retryCount < maxRetries)], entered with
    [retryCount = maxRetries - remaining]. *)
Fixpoint retryLoop (config : AIImageConfig) (params : GenerateAIImageParams)
    (request : Request) (remaining : nat) : M GenerateAIImageResult :=
  match remaining with
  | O => throw RetriesExhausted "生成失败：达到最大重试次数"
  | S remaining' =>
      let retryCount := maxRetries - remaining in
      tryCatch (attempt config params request retryCount)
        (fun out =>
           match out with
           | Finished result => ret result
           | RateLimited => retryLoop config params request remaining'
           end)
        (fun error =>
           let retryCount' := S retryCount in
           if (maxRetries <=? retryCount')%nat then rethrow error
           else
             sleep (1000 * Z.of_nat retryCount') ;;
             retryLoop config params request remaining')
  end.

(** [generateAIImage(params)], with the stored configuration as
    [getAIImageConfig()] returns it. *)
Definition generateAIImage (stored : option AIImageConfig)
    (params : GenerateAIImageParams) : M GenerateAIImageResult :=
  match stored with
  | None => throw ConfigMissing "API配置未设置，请在设置中配置API信息"
  | Some config =>
      if negb (nonEmpty (apiEndpoint config))
         || negb (nonEmpty (apiKey config))
         || negb (nonEmpty (modelName config)) then
        throw ConfigIncomplete "API配置不完整，请检查API地址、密钥和模型名称"
      else
        let* storyboardBase64 := convertToBase64 (storyboardImage params) in
        if negb (nonEmpty storyboardBase64)
           || (String.length storyboardBase64 <? 100)%nat then
          throw StoryboardInvalid "分镜图片转换失败或数据不完整"
        else
          let* roleBase64 := convertOptional (roleImage params) in
          let* sceneBase64 := convertOptional (sceneImage params) in
          let* request :=
            buildRequest config params storyboardBase64
              roleBase64 sceneBase64 in
          progress params (ofZ 10) ;;
          retryLoop config params request maxRetries
  end.

(* ---------------------------------------------------------------- *)
(** *** validateAPIConfig (lines 66-215) *)

Definition looksLikeDocumentation (endpoint : string) : bool :=
  includes endpoint "/doc" || includes endpoint "/docs"
  || includes endpoint "/documentation" || includes endpoint "apifox.cn"
  || endsWith endpoint ".html" || includes endpoint "/#/".

Definition mentionsApi (errorMsg : string) : bool :=
  includes errorMsg "Gemini" || includes errorMsg "candidates"
  || includes errorMsg "channel_error" || includes errorMsg "empty response"
  || includes errorMsg "channel:" || includes errorMsg "request id:".

Definition testRequest (config : AIImageConfig) (endpoint : string)
  : Request :=
  match providerOf (isGeminiAPI endpoint) (isNanoBananaAPI endpoint) with
  | GEMINI =>
      {| endpoint := apiEndpoint config;
         keyParam := Some (apiKey config);
         headers := jsonHeaders;
         body := GeminiTestBody |}
  | ASYNC_TASK =>
      {| endpoint := apiEndpoint config;
         keyParam := None;
         headers := bearerHeaders config;
         body := NanoBananaTestBody (orElse (modelName config) "nano-banana") |}
  | GENERIC =>
      {| endpoint := apiEndpoint config;
         keyParam := None;
         headers := bearerHeaders config;
         body := OpenAITestBody (orElse (modelName config) "test-model") |}
  end.

(** Whether the block of lines 160-188 returns [true]; an error thrown
    inside it is caught by its own [catch] and the function goes on. *)
Definition jsonBlockAccepts (r : Response) : bool :=
  if includes (contentType r) "application/json" then
    match json r with
    | inl _ => false
    | inr errorData =>
        if mentionsApi (JSON_stringify rt errorData) then
          negb ((status r =? 401)%Z || (status r =? 403)%Z)
        else false
    end
  else false.

Definition validateAPIConfig (config : AIImageConfig) : M bool :=
  if negb (nonEmpty (apiEndpoint config)) then
    throw EndpointEmpty "API地址不能为空"
  else
    let endpoint := toLowerCase (apiEndpoint config) in
    if looksLikeDocumentation endpoint then
      throw DocumentationUrl
        "API地址看起来像是文档页面，请使用实际的接口地址（通常以 /v1/ 或 /api/ 开头）"
    else if negb (URL_canParse rt (apiEndpoint config)) then
      throw EndpointInvalid
        ("API地址格式无效：" ++ apiEndpoint config
         ++ "。请确保是完整的URL，包含协议（https://）")
    else
      let request := testRequest config endpoint in
      let* tr := history in
      emit (Post request) ;;
      match server world (List.length (posts tr)) request with
      | FetchFailed msg => throw NetworkFailure msg
      | FetchResponse r =>
          if includes (contentType r) "text/html" then
            throw HtmlResponse
              ("API地址返回了HTML页面，请检查地址是否正确。" ++ nl
               ++ "当前地址：" ++ apiEndpoint config ++ nl
               ++ "返回内容：" ++ sliceTo 200 (text r) ++ "...")
          else if jsonBlockAccepts r then ret true
          else if (status r =? 401)%Z || (status r =? 403)%Z then ret true
          else if (status r =? 400)%Z || (status r =? 422)%Z
                  || (status r =? 429)%Z then ret true
          else if negb (ok r) then
            (* the body can be read once: after [response.json()] the call
               of [response.text()] rejects and yields '' *)
            let errorText :=
              if includes (contentType r) "application/json" then ""
              else text r in
            if includes errorText "Gemini" || includes errorText "candidates"
            then ret true
            else
              throw ProbeRejected
                ("API返回错误 " ++ Z_toString (status r) ++ ": "
                 ++ sliceTo 300 errorText)
          else ret true
      end.

End Service.

(* ------------------------------------------------------------------ *)
(** ** Fixtures: a browser, some servers and some inputs *)

Module Fixtures.

Fixpoint repeatChar (c : ascii) (n : nat) : string :=
  match n with
  | O => EmptyString
  | S n' => String c (repeatChar c n')
  end.

(** [JSON.stringify] on the values of the fixtures: text without characters
    to escape, numbers that are integers. *)
Fixpoint stringify (v : value) : string :=
  match v with
  | VUndefined | VNull => "null"
  | VBool b => if b then "true" else "false"
  | VNum x => match asInteger x with
              | Some z => Z_toString z
              | None => "null"
              end
  | VStr t => dq ++ t ++ dq
  | VArr items =>
      "[" ++ (fix go (l : list value) : string :=
                match l with
                | [] => ""
                | [x] => stringify x
                | x :: rest => stringify x ++ "," ++ go rest
                end) items ++ "]"
  | VObj fields =>
      "{" ++ (fix go (l : list (string * value)) : string :=
                match l with
                | [] => ""
                | [(k, x)] => dq ++ k ++ dq ++ ":" ++ stringify x
                | (k, x) :: rest =>
                    dq ++ k ++ dq ++ ":" ++ stringify x ++ "," ++ go rest
                end) fields ++ "}"
  end.

(** [String(v)] on the values of the fixtures. *)
Definition toText (v : value) : string :=
  match v with
  | VUndefined => "undefined"
  | VNull => "null"
  | VBool b => if b then "true" else "false"
  | VNum x => match asInteger x with
              | Some z => Z_toString z
              | None => "NaN"
              end
  | VStr t => t
  | VArr _ => ""
  | VObj _ => "[object Object]"
  end.

(** A browser whose [JSON.parse] is given by a table. *)
Definition browser (parse : string -> option value) : Runtime :=
  {| JSON_parse := parse;
     JSON_stringify := stringify;
     URL_canParse := fun u => startsWith u "http://" || startsWith u "https://";
     ToString := toText;
     ToNumber := fun _ => NaN;
     Number_toString := fun x => match asInteger x with
                                 | Some z => Z_toString z
                                 | None => "NaN"
                                 end;
     match_dataImage := fun _ => None;
     match_imageUrl := fun _ => None;
     typeErrorMessage := "Cannot read properties of null" |}.

Definition plainBrowser : Runtime := browser (fun _ => None).

(** A PNG data URI with a base64 payload of [n] characters. *)
Definition pngDataUri (n : nat) : string :=
  "data:image/png;base64," ++ repeatChar "A" n.

Definition openAIConfig : AIImageConfig :=
  {| apiEndpoint := "https://api.example.com/v1/images/generations";
     apiKey := "sk-test";
     modelName := "dall-e-3" |}.

Definition geminiConfig : AIImageConfig :=
  {| apiEndpoint :=
       "https://generativelanguage.googleapis.com/v1beta/models/gemini-2.0-flash:generateContent";
     apiKey := "sk-test";
     modelName := "gemini-2.0-flash" |}.

Definition nanoBananaConfig : AIImageConfig :=
  {| apiEndpoint := "https://api.example.com/v1/draw/nano-banana";
     apiKey := "sk-test";
     modelName := "nano-banana" |}.

Definition someParams : GenerateAIImageParams :=
  {| prompt := "a cat on a roof";
     negativePrompt := None;
     storyboardImage := pngDataUri 200;
     roleImage := None;
     sceneImage := None;
     aspectRatio := "16:9";
     onProgress := true |}.

Definition jsonResponse (st : Z) (v : value) : Response :=
  {| status := st; statusText := ""; contentType := "application/json";
     json := inr v; text := ""; stream := None |}.

Definition noImages : string -> ImageFetch :=
  fun _ => ImageFetchFailed "Failed to fetch".

Definition noTaskResult : nat -> value -> FetchResult :=
  fun _ _ => FetchFailed "Failed to fetch".

(** A server that answers every request with the same response. *)
Definition constantServer (r : Response) : World :=
  {| server := fun _ _ => FetchResponse r;
     taskResult := noTaskResult;
     images := noImages |}.

(** A server that answers the first request with [r0] and the others with
    [r]. *)
Definition serverAfter (r0 r : Response) : World :=
  {| server := fun n _ => match n with
                          | O => FetchResponse r0
                          | S _ => FetchResponse r
                          end;
     taskResult := noTaskResult;
     images := noImages |}.

Definition imageJson : value :=
  VObj [("image", VStr (pngDataUri 8))].

Definition unauthorized : Response :=
  jsonResponse 401 (VObj [("error", VObj [("message", VStr "invalid api key")])]).

(** A task service whose task never leaves the pending state. *)
Definition pendingForever : World :=
  {| server := fun _ _ =>
       FetchResponse
         (jsonResponse 200 (VObj [("status", VStr "pending");
                                  ("id", VStr "task-1")]));
     taskResult := fun _ _ =>
       FetchResponse (jsonResponse 200 (VObj [("status", VStr "pending")]));
     images := noImages |}.

Definition serverError : Response :=
  jsonResponse 500 (VObj [("error", VObj [("message", VStr "overloaded")])]).

(** The text of an event that carries an image and no status. *)
Definition imageEventText : string :=
  "{" ++ dq ++ "image" ++ dq ++ ":" ++ dq ++ pngDataUri 8 ++ dq ++ "}".

Definition imageEventBrowser : Runtime :=
  browser (fun t => if String.eqb t imageEventText
                    then Some imageJson else None).

(** An event stream of one event, which has no terminal status. *)
Definition imageEventStream : Response :=
  {| status := 200; statusText := "OK"; contentType := "text/event-stream";
     json := inl "Unexpected token d in JSON at position 0"; text := "";
     stream := Some (StreamChunk ("data: " ++ imageEventText ++ nl ++ nl)
                       StreamDone) |}.

(** A browser that parses the image event and the text [null]. *)
Definition nullEventBrowser : Runtime :=
  browser (fun t => if String.eqb t imageEventText then Some imageJson
                    else if String.eqb t "null" then Some VNull
                    else None).

(** An event stream of two events, the second of which is [null]; the
    transport cuts it inside the second line. *)
Definition nullEventStream : Response :=
  {| status := 200; statusText := "OK"; contentType := "text/event-stream";
     json := inl "Unexpected token d in JSON at position 0"; text := "";
     stream := Some (StreamChunk ("data: " ++ imageEventText ++ nl ++ "data: nu")
                       (StreamChunk ("ll" ++ nl) StreamDone)) |}.

Definition withStoryboard (img : string) : GenerateAIImageParams :=
  {| prompt := "a cat on a roof";
     negativePrompt := None;
     storyboardImage := img;
     roleImage := None;
     sceneImage := None;
     aspectRatio := "16:9";
     onProgress := true |}.

Definition withRole (img : string) : GenerateAIImageParams :=
  {| prompt := "a cat on a roof";
     negativePrompt := None;
     storyboardImage := pngDataUri 200;
     roleImage := Some img;
     sceneImage := None;
     aspectRatio := "16:9";
     onProgress := true |}.

Definition withAspectRatio (ratio : string) : GenerateAIImageParams :=
  {| prompt := "a cat on a roof";
     negativePrompt := None;
     storyboardImage := pngDataUri 200;
     roleImage := None;
     sceneImage := None;
     aspectRatio := ratio;
     onProgress := true |}.

End Fixtures.

Import Fixtures.

(* ------------------------------------------------------------------ *)
(** ** Vocabulary of the properties *)

(** A computation started on the empty history. *)
Definition run {A} (m : M A) : Outcome A * list Event := m [].

Definition failsAt {A} (out : Outcome A) (s : ErrorSite) : Prop :=
  exists e, out = Thrown e /\ site e = s.

Fixpoint nonDecreasing (l : list number) : bool :=
  match l with
  | a :: (b :: _) as rest => leb a b && nonDecreasing rest
  | _ => true
  end.

(** The images of a request body, in the order of the body. *)
Definition partImage (p : Part) : list string :=
  match p with
  | TextPart _ => []
  | InlineData _ data => [data]
  end.

Definition optionToList {A} (o : option A) : list A :=
  match o with Some a => [a] | None => [] end.

Definition bodyImages (b : RequestBody) : list string :=
  match b with
  | GeminiBody parts => flat_map partImage parts
  | NanoBananaBody _ _ _ _ _ _ urls _ => urls
  | OpenAIBody _ _ _ image _ reference_image scene_image _ =>
      (image :: optionToList reference_image ++ optionToList scene_image)%list
  | _ => []
  end.

(** The text an image contributes to the body of each provider: the bare
    payload for GEMINI and ASYNC_TASK, the whole data URI for GENERIC. *)
Definition encodeFor (p : Provider) (base64 : string) : string :=
  match p with
  | GEMINI => snd (extractBase64 base64)
  | ASYNC_TASK => extractPureBase64 base64
  | GENERIC => base64
  end.

(** The entry of a reference image: present when the image is given and its
    text for the provider has at least 100 characters. *)
Definition referenceFor (p : Provider) (base64 : option string) : list string :=
  match base64 with
  | Some b =>
      if nonEmpty b && (100 <=? String.length (encodeFor p b))%nat
      then [encodeFor p b] else []
  | None => []
  end.

(** The statuses that [validateAPIConfig] takes for a reachable endpoint. *)
Definition plausibleStatus (st : Z) : bool :=
  ((st =? 400) || (st =? 401) || (st =? 403) || (st =? 422) || (st =? 429))%Z.

(** Whether a character occurs in a string. *)
Fixpoint hasChar (c : ascii) (s : string) : bool :=
  match s with
  | EmptyString => false
  | String a rest => Ascii.eqb a c || hasChar c rest
  end.

(** The multiple of 8 nearest to [n], the upper one at a tie. *)
Definition nearestMultipleOf8 (n : Z) : Z := 8 * ((n + 4) / 8).

(** The [imageSize] field of a Nano Banana body. *)
Definition imageSizeOf (b : RequestBody) : option string :=
  match b with
  | NanoBananaBody _ _ imageSize _ _ _ _ _ => Some imageSize
  | _ => None
  end.

(** Structural equality of numbers. *)
Definition sameNumber (x y : number) : bool :=
  match x, y with
  | S754_zero a, S754_zero b => Bool.eqb a b
  | S754_infinity a, S754_infinity b => Bool.eqb a b
  | S754_nan, S754_nan => true
  | S754_finite a m e, S754_finite b m' e' =>
      Bool.eqb a b && Pos.eqb m m' && Z.eqb e e'
  | _, _ => false
  end.

(** Whether a line of an event stream carries an event that parses. *)
Definition lineParses (rt : Runtime) (line : string) : bool :=
  startsWith line "data: "
  && nonEmpty (trim (substringFrom 6 line))
  && match JSON_parse rt (trim (substringFrom 6 line)) with
     | Some _ => true
     | None => false
     end.

(** Whether the transport of a stream ends normally ([done]). *)
Fixpoint endsNormally (s : Stream) : bool :=
  match s with
  | StreamDone => true
  | StreamChunk _ rest => endsNormally rest
  | StreamError _ => false
  end.

(** Whether no complete line of the stream parses, [buffer] being the
    incomplete line left by the chunks before. *)
Fixpoint noLineParses (rt : Runtime) (s : Stream) (buffer : string) : bool :=
  match s with
  | StreamChunk chunk rest =>
      let pieces := split LF (buffer ++ chunk) in
      forallb (fun line => negb (lineParses rt line)) (List.removelast pieces)
      && noLineParses rt rest (List.last pieces "")
  | _ => true
  end.

(** How many bytes a base64 payload decodes to: six bits for each character
    that is not padding. *)
Fixpoint base64Symbols (payload : string) : nat :=
  match payload with
  | EmptyString => 0
  | String c rest =>
      if Ascii.eqb c "=" then base64Symbols rest else S (base64Symbols rest)
  end.

Definition decodedByteLength (payload : string) : nat :=
  (base64Symbols payload * 6) / 8.

(** [emits m R]: from any history, [m] ends with an outcome [o] after appending
    some events [evs] to the history, and [R o evs] holds. *)
Definition emits {A} (m : M A) (R : Outcome A -> list Event -> Prop) : Prop :=
  forall tr, exists o evs, m tr = (o, (tr ++ evs)%list) /\ R o evs.

(** [emitsOnly Q m]: [m] appends only events that satisfy [Q]. *)
Definition emitsOnly {A} (Q : Event -> bool) (m : M A) : Prop :=
  emits m (fun _ evs => forallb Q evs = true).

Definition noEvent (ev : Event) : bool := false.
Definition anyEvent (ev : Event) : bool := true.
Definition isFetchImage (ev : Event) : bool :=
  match ev with FetchImage _ => true | _ => false end.
Definition isProgress (ev : Event) : bool :=
  match ev with Progress _ => true | _ => false end.

(** Whether a list of events holds a request to the task-result endpoint. *)
Definition hasPoll (evs : list Event) : bool := existsb isPollPost evs.

Definition notPost (ev : Event) : bool := negb (isPost ev).
Definition notProgress (ev : Event) : bool := negb (isProgress ev).

(** The percentages that one attempt with no stream and no polling can
    report, [retryCount] being the number of attempts before it: the
    prefixes of 30 + 10 * retryCount, 70, 90, 95 (when the image is
    downloaded), 100. *)
Definition stages (retryCount : nat) : list (list number) :=
  let p := attemptPercent retryCount in
  [ [p];
    [p; ofZ 70];
    [p; ofZ 70; ofZ 90];
    [p; ofZ 70; ofZ 90; ofZ 95];
    [p; ofZ 70; ofZ 90; ofZ 100];
    [p; ofZ 70; ofZ 90; ofZ 95; ofZ 100] ].

(** What a step of the attempt appends: no percentage, unless it polls. *)
Definition quietOrPolls (evs : list Event) : Prop :=
  progressOf evs = [] \/ hasPoll evs = true.

(** What one attempt appends: one request, and either a poll or one of the
    stages. *)
Definition attemptShape (retryCount : nat) (evs : list Event) : Prop :=
  List.length (posts evs) = 1%nat
  /\ (hasPoll evs = true \/ In (progressOf evs) (stages retryCount)).

(** The percentages that a call can report when it sends one request, polls
    no task and reads no event stream: nothing when it fails before the
    request, then the prefixes of 10, 30, 70, 90, 95, 100 from 10, 30 on,
    with 95 only when the image is downloaded. *)
Definition singleAttemptReports : list (list number) :=
  map (map ofZ)
    [ []; [10; 30]; [10; 30; 70]; [10; 30; 70; 90]; [10; 30; 70; 90; 95];
      [10; 30; 70; 90; 100]; [10; 30; 70; 90; 95; 100] ]%Z.

(** The property of the events of a call: with at most one request to the
    endpoint and no request to the task-result endpoint, the percentages are
    one of these sequences. *)
Definition steadyProgress (evs : list Event) : Prop :=
  (List.length (posts evs) <= 1)%nat ->
  pollPosts evs = [] ->
  In (progressOf evs) singleAttemptReports.

(** A response with a success status and a page of plain text. *)
Definition textPage : Response :=
  {| status := 200; statusText := "OK"; contentType := "text/plain";
     json := inl "Unexpected token"; text := "not found"; stream := None |}.

(** A configuration whose endpoint has a path under /v1/Documents. *)
Definition documentsConfig : AIImageConfig :=
  {| apiEndpoint := "https://api.example.com/v1/Documents/render";
     apiKey := "sk-test";
     modelName := "dall-e-3" |}.

(** The text of an event in progress, with the event it parses to. *)
Definition runningEventText : string :=
  "{" ++ dq ++ "progress" ++ dq ++ ":50," ++ dq ++ "status" ++ dq ++ ":"
  ++ dq ++ "running" ++ dq ++ "}".

Definition runningEvent : value :=
  VObj [("progress", VNum (ofZ 50)); ("status", VStr "running")].

Definition runningBrowser : Runtime :=
  browser (fun t => if String.eqb t runningEventText
                    then Some runningEvent else None).

(* ------------------------------------------------------------------ *)
(** ** utils/imageUtils.ts: compressImage *)

Definition sub : number -> number -> number := SFsub prec emax.

(** The literals [0.9] and [0.1]. *)
Definition nineTenths : number := ofDecimal false 9 (-1).
Definition oneTenth : number := ofDecimal false 1 (-1).

(** A blob, by its size in bytes and its content. *)
Record Blob := { blobSize : Z; blobData : string }.

(** What the page gives to [compressImage]: whether the image loads,
    whether the canvas has a 2d context, and what
    [canvas.toBlob(callback, 'image/jpeg', q)] hands to its callback,
    [None] for [null]. *)
Record Canvas := {
  imageLoads : bool;
  context2d : bool;
  toBlob : number -> option Blob
}.

(** The outcome of [tryCompress(q)], with the qualities given to
    [canvas.toBlob] in order; [None] when the [fuel] calls allowed to the
    recursion do not reach its end. *)
Fixpoint tryCompress (fuel : nat) (canvas : Canvas) (maxSizeBytes : number)
    (q : number) : option ((string + Blob) * list number) :=
  match fuel with
  | O => None
  | S fuel' =>
      match toBlob canvas q with
      | None => Some (inl "图片压缩失败", [q])
      | Some blob =>
          if leb (ofZ (blobSize blob)) maxSizeBytes || leb q oneTenth
          then Some (inr blob, [q])
          else match tryCompress fuel' canvas maxSizeBytes (sub q oneTenth) with
               | Some (r, qs) => Some (r, q :: qs)
               | None => None
               end
      end
  end.

(** [compressImage(image, maxSizeKB)]: the promise is rejected with a
    message or resolved with a blob. *)
Definition compressImage (fuel : nat) (canvas : Canvas) (image : Blob)
    (maxSizeKB : number) : option ((string + Blob) * list number) :=
  let maxSizeBytes := mul maxSizeKB (ofZ 1024) in
  if leb (ofZ (blobSize image)) maxSizeBytes then Some (inr image, [])
  else if negb (imageLoads canvas) then Some (inl "图片加载失败", [])
  else if negb (context2d canvas) then Some (inl "无法创建canvas上下文", [])
  else tryCompress fuel canvas maxSizeBytes nineTenths.

(** The quality of the call number [k] of [tryCompress], from 0. *)
Fixpoint qualityAt (k : nat) : number :=
  match k with
  | O => nineTenths
  | S k' => sub (qualityAt k') oneTenth
  end.

(** Whether a blob fits the size asked for. *)
Definition fits (maxSizeKB : number) (blob : Blob) : bool :=
  leb (ofZ (blobSize blob)) (mul maxSizeKB (ofZ 1024)).

(* ------------------------------------------------------------------ *)
(** ** utils/pathUtils.ts and its caller in utils/modelLoader.ts *)

(** [s.slice(0, -1)] *)
Definition dropLast (s : string) : string :=
  String.substring 0 (String.length s - 1) s.

(** [getAssetPath(path)], [baseUrl] being [import.meta.env.BASE_URL]. *)
Definition getAssetPath (baseUrl path : string) : string :=
  let path := if negb (startsWith path "/") then "/" ++ path else path in
  if String.eqb baseUrl "/" then path
  else
    let cleanBase :=
      if endsWith baseUrl "/" then dropLast baseUrl else baseUrl in
    let cleanPath := if startsWith path "/" then path else "/" ++ path in
    cleanBase ++ cleanPath.

(** [getDefaultCharacterPath()] *)
Definition getDefaultCharacterPath (baseUrl : string) : string :=
  getAssetPath baseUrl "/models/characters/default.glb".

(** A text without its last character when that is a slash, and without
    its first character when that is a slash. *)
Definition withoutTrailingSlash (s : string) : string :=
  if endsWith s "/" then dropLast s else s.

Definition withoutLeadingSlash (s : string) : string :=
  match s with
  | String "/" rest => rest
  | _ => s
  end.

(* ------------------------------------------------------------------ *)
(** ** The stored configuration (services/aiImageService.ts, lines 40-61) *)

(** [localStorage]: the item of each key, [None] for [null]. *)
Definition Storage := string -> option string.

Definition setItem (storage : Storage) (key item : string) : Storage :=
  fun k => if String.eqb k key then Some item else storage k.

Definition CONFIG_STORAGE_KEY : string := "aiImageConfig".

(** The object that a configuration is. *)
Definition configValue (config : AIImageConfig) : value :=
  VObj [("apiEndpoint", VStr (apiEndpoint config));
        ("apiKey", VStr (apiKey config));
        ("modelName", VStr (modelName config))].

(** [getAIImageConfig()]: the parsed item, [VNull] for [null]. *)
Definition getAIImageConfig (rt : Runtime) (storage : Storage) : value :=
  match storage CONFIG_STORAGE_KEY with
  | None => VNull
  | Some stored =>
      if negb (nonEmpty stored) then VNull
      else match JSON_parse rt stored with
           | Some config => config
           | None => VNull
           end
  end.

(** [saveAIImageConfig(config)] *)
Definition saveAIImageConfig (rt : Runtime) (storage : Storage)
    (config : AIImageConfig) : Storage :=
  setItem storage CONFIG_STORAGE_KEY (JSON_stringify rt (configValue config)).

(* ------------------------------------------------------------------ *)
(** ** features/storyboard/aiimage/APIConfigPanel.tsx *)

(** The state of the panel: [config], the three fields, [isValidating] and
    [validationMessage]. *)
Record PanelState := {
  panelConfig : option AIImageConfig;
  apiEndpointField : string;
  apiKeyField : string;
  modelNameField : string;
  isValidating : bool;
  validationMessage : string
}.

(** What a handler of the panel does besides updating the state: the
    storage it leaves, the calls of [onConfigChange], the delays of the
    timers that clear the message, and the history of the probe. *)
Record PanelEffects := {
  storageAfter : Storage;
  configChanges : list AIImageConfig;
  timeouts : list Z;
  probeHistory : list Event
}.

(** [!apiEndpoint || !apiKey || !modelName] *)
Definition fieldsMissing (s : PanelState) : bool :=
  negb (nonEmpty (apiEndpointField s)) || negb (nonEmpty (apiKeyField s))
  || negb (nonEmpty (modelNameField s)).

(** The configuration built from the fields, each one trimmed. *)
Definition typedConfig (s : PanelState) : AIImageConfig :=
  {| apiEndpoint := trim (apiEndpointField s);
     apiKey := trim (apiKeyField s);
     modelName := trim (modelNameField s) |}.

Definition withMessage (s : PanelState) (validating : bool) (msg : string)
  : PanelState :=
  {| panelConfig := panelConfig s;
     apiEndpointField := apiEndpointField s;
     apiKeyField := apiKeyField s;
     modelNameField := modelNameField s;
     isValidating := validating;
     validationMessage := msg |}.

(** [handleSave()], [t] being the translation and [onConfigChange] whether
    the property was given. *)
Definition handleSave (t : string -> string) (rt : Runtime)
    (onConfigChange : bool) (s : PanelState) (storage : Storage)
  : PanelState * PanelEffects :=
  if fieldsMissing s then
    (withMessage s (isValidating s) (t "settings.aiImageConfig.fillAll"),
     {| storageAfter := storage; configChanges := []; timeouts := [];
        probeHistory := [] |})
  else
    let newConfig := typedConfig s in
    ({| panelConfig := Some newConfig;
        apiEndpointField := apiEndpointField s;
        apiKeyField := apiKeyField s;
        modelNameField := modelNameField s;
        isValidating := isValidating s;
        validationMessage := t "settings.aiImageConfig.saved" |},
     {| storageAfter := saveAIImageConfig rt storage newConfig;
        configChanges := if onConfigChange then [newConfig] else [];
        timeouts := [2000%Z];
        probeHistory := [] |}).

(** [handleTest()], once its promise has settled. *)
Definition handleTest (t : string -> string) (rt : Runtime) (world : World)
    (s : PanelState) (storage : Storage) : PanelState * PanelEffects :=
  if fieldsMissing s then
    (withMessage s (isValidating s) (t "settings.aiImageConfig.fillFirst"),
     {| storageAfter := storage; configChanges := []; timeouts := [];
        probeHistory := [] |})
  else
    let '(outcome, history) := run (validateAPIConfig rt world (typedConfig s)) in
    let msg :=
      match outcome with
      | Returned true => t "settings.aiImageConfig.connectionSuccessShort"
      | Returned false => t "settings.aiImageConfig.connectionFailed"
      | Thrown error =>
          t "settings.aiImageConfig.testFailedPrefix" ++ message error
      end in
    (withMessage s false msg,
     {| storageAfter := storage; configChanges := []; timeouts := [3000%Z];
        probeHistory := history |}).

(* ------------------------------------------------------------------ *)
(** ** features/storyboard/views/AIImageView.tsx *)

Inductive GenerationStatus := Idle | Generating | Succeeded | Failed.

(** [ImageVersion] and [Shot] of types/index.ts.  Time stamps are the
    integers of [Date.now()], orders the integers that the store assigns
    (positions in the list of the shots); an optional field is an
    [option]. *)
Inductive VersionSource := OriginalImage | AIGenerated.

Record VersionConfig := {
  versionModel : option string;
  referenceImages : option (list string)
}.

Record ImageVersion := {
  versionId : string;
  versionImage : string;
  versionSource : VersionSource;
  versionCreatedAt : Z;
  aiPrompt : option string;
  aiConfig : option VersionConfig
}.

Record Shot := {
  shotId : string;
  shotNumber : string;
  shotOrder : Z;
  framing : string;
  cameraAngle : string;
  shotType : string;
  duration : number;
  shotImage : string;
  notes : string;
  imageSource : string;
  sourceParams : option value;
  imageVersions : option (list ImageVersion);
  activeVersionId : option string;
  createdAt : Z;
  updatedAt : Z
}.

(** The state that [handleGenerate] reads and writes. *)
Record ViewState := {
  currentUser : bool;                    (* whether a user is logged in *)
  activeShotId : option string;
  activeShot : option Shot;
  promptInput : string;
  negativePromptInput : string;
  roleImageInput : string;
  sceneImageInput : string;
  generationStatus : GenerationStatus;
  generationProgress : number;
  errorMessage : string;
  generatedImage : string;
  apiConfig : option AIImageConfig;      (* the copy kept by the view *)
  projectAspectRatio : option string;    (* project?.aspectRatio *)
  blobUrls : list string                 (* blobUrlsRef *)
}.

(** [versions.find(v => v.id === id)] *)
Fixpoint findVersion (versions : list ImageVersion) (id : string)
  : option ImageVersion :=
  match versions with
  | [] => None
  | v :: rest => if String.eqb (versionId v) id then Some v
                 else findVersion rest id
  end.

(** [getCurrentShotImage()] *)
Definition getCurrentShotImage (s : ViewState) : string :=
  match activeShot s with
  | None => ""
  | Some shot =>
      let fromVersion :=
        match activeVersionId shot, imageVersions shot with
        | Some id, Some versions =>
            if nonEmpty id then
              match findVersion versions id with
              | Some version =>
                  if nonEmpty (versionImage version)
                  then Some (versionImage version) else None
              | None => None
              end
            else None
        | _, _ => None
        end in
      match fromVersion with
      | Some image => image
      | None => shotImage shot
      end
  end.

(** [set.add(url)] on the set of the blob URLs, kept in the order of their
    insertion. *)
Definition addUrl (urls : list string) (url : string) : list string :=
  if existsb (String.eqb url) urls then urls else (urls ++ [url])%list.

(** [s || undefined] *)
Definition orUndefined (s : string) : option string :=
  if nonEmpty s then Some s else None.

(** The parameters that [handleGenerate] gives to [generateAIImage]. *)
Definition generationParams (s : ViewState) : GenerateAIImageParams :=
  {| prompt := trim (promptInput s);
     negativePrompt := orUndefined (trim (negativePromptInput s));
     storyboardImage := getCurrentShotImage s;
     roleImage := orUndefined (roleImageInput s);
     sceneImage := orUndefined (sceneImageInput s);
     aspectRatio := match projectAspectRatio s with
                    | Some ratio => orElse ratio "16:9"
                    | None => "16:9"
                    end;
     onProgress := true |}.

Definition configIncomplete (c : option AIImageConfig) : bool :=
  match c with
  | None => true
  | Some config =>
      negb (nonEmpty (apiEndpoint config)) || negb (nonEmpty (apiKey config))
      || negb (nonEmpty (modelName config))
  end.

(** The message of the check that stops [handleGenerate] before it changes
    the status, if one does. *)
Definition refusal (t : string -> string) (s : ViewState) : option string :=
  if negb (currentUser s) then Some (t "auth.loginRequiredForAI")
  else match activeShot s with
       | None => Some (t "aiImage.error.selectShotFirst")
       | Some _ =>
           if negb (nonEmpty (trim (promptInput s)))
           then Some (t "aiImage.error.enterPrompt")
           else if configIncomplete (apiConfig s)
           then Some (t "aiImage.error.configApi")
           else if negb (nonEmpty (getCurrentShotImage s))
           then Some (t "aiImage.error.shotNoImage")
           else None
       end.

Definition settle (s : ViewState) (status : GenerationStatus)
    (progress : number) (error image : string) (urls : list string)
  : ViewState :=
  {| currentUser := currentUser s;
     activeShotId := activeShotId s;
     activeShot := activeShot s;
     promptInput := promptInput s;
     negativePromptInput := negativePromptInput s;
     roleImageInput := roleImageInput s;
     sceneImageInput := sceneImageInput s;
     generationStatus := status;
     generationProgress := progress;
     errorMessage := error;
     generatedImage := image;
     apiConfig := apiConfig s;
     projectAspectRatio := projectAspectRatio s;
     blobUrls := urls |}.

(** [activeShot.id !== activeShotId] *)
Definition shotSwitched (s : ViewState) : bool :=
  match activeShot s, activeShotId s with
  | Some shot, Some id => negb (String.eqb (shotId shot) id)
  | _, _ => true
  end.

(** [handleGenerate()], once its promise has settled: the state of the view
    and the history of the call of [generateAIImage]. [stored] is what
    [getAIImageConfig()] gives at the time of the call. *)
Definition handleGenerate (t : string -> string) (rt : Runtime)
    (world : World) (stored : option AIImageConfig) (s : ViewState)
  : ViewState * list Event :=
  match refusal t s with
  | Some msg =>
      (settle s (generationStatus s) (generationProgress s) msg
         (generatedImage s) (blobUrls s), [])
  | None =>
      if negb (nonEmpty (getCurrentShotImage s)) then
        (settle s Failed (ofZ 0) (t "aiImage.error.shotNoImage") ""
           (blobUrls s), [])
      else if shotSwitched s then
        (settle s Failed (ofZ 0) (t "aiImage.error.shotSwitched") ""
           (blobUrls s), [])
      else
        let '(outcome, history) :=
          run (generateAIImage rt world stored (generationParams s)) in
        let progress := List.last (progressOf history) (ofZ 0) in
        match outcome with
        | Returned result =>
            (settle s Succeeded progress "" (image result)
               (if startsWith (image result) "blob:"
                then addUrl (blobUrls s) (image result) else blobUrls s),
             history)
        | Thrown error =>
            (settle s Failed progress
               (orElse (message error) (t "aiImage.error.generateFailedRetry"))
               "" (blobUrls s),
             history)
        end
  end.

(* ------------------------------------------------------------------ *)
(** ** The project store ([useProjectStore], in store/uiStore.ts) *)

Record Project := {
  projectId : string;
  projectName : string;
  shots : list Shot;
  projectRatio : string;
  pdfHeaderText : option string;
  projectCreatedAt : Z;
  projectUpdatedAt : Z
}.

(** What the platform gives to one action of the store: [uuidAt k] is the
    value of the call number [k] of [crypto.randomUUID()] during the action,
    [nowAt k] that of the call number [k] of [Date.now()], counted from 0. *)
Record Entropy := { uuidAt : nat -> string; nowAt : nat -> Z }.

(** [{ ...project, shots: newShots, updatedAt: now }] *)
Definition withShots (project : Project) (newShots : list Shot) (now : Z)
  : Project :=
  {| projectId := projectId project;
     projectName := projectName project;
     shots := newShots;
     projectRatio := projectRatio project;
     pdfHeaderText := pdfHeaderText project;
     projectCreatedAt := projectCreatedAt project;
     projectUpdatedAt := now |}.

(** [{ ...shot, order: index, shotNumber: String(index + 1) }] *)
Definition renumbered (index : nat) (shot : Shot) : Shot :=
  {| shotId := shotId shot;
     shotNumber := Z_toString (Z.of_nat index + 1);
     shotOrder := Z.of_nat index;
     framing := framing shot;
     cameraAngle := cameraAngle shot;
     shotType := shotType shot;
     duration := duration shot;
     shotImage := shotImage shot;
     notes := notes shot;
     imageSource := imageSource shot;
     sourceParams := sourceParams shot;
     imageVersions := imageVersions shot;
     activeVersionId := activeVersionId shot;
     createdAt := createdAt shot;
     updatedAt := updatedAt shot |}.

(** [{ ...shot, imageVersions, activeVersionId, image, updatedAt }] *)
Definition withActiveVersion (shot : Shot)
    (versions : option (list ImageVersion)) (active : option string)
    (image : string) (now : Z) : Shot :=
  {| shotId := shotId shot;
     shotNumber := shotNumber shot;
     shotOrder := shotOrder shot;
     framing := framing shot;
     cameraAngle := cameraAngle shot;
     shotType := shotType shot;
     duration := duration shot;
     shotImage := image;
     notes := notes shot;
     imageSource := imageSource shot;
     sourceParams := sourceParams shot;
     imageVersions := versions;
     activeVersionId := active;
     createdAt := createdAt shot;
     updatedAt := now |}.

(** [list.map((x, index) => f(index, x))], the indices counted from
    [index]. *)
Fixpoint mapi {A B : Type} (f : nat -> A -> B) (index : nat) (l : list A)
  : list B :=
  match l with
  | [] => []
  | x :: rest => f index x :: mapi f (S index) rest
  end.

(** [list.filter(x => x !== null)] *)
Fixpoint compact {A : Type} (l : list (option A)) : list A :=
  match l with
  | [] => []
  | Some x :: rest => x :: compact rest
  | None :: rest => compact rest
  end.

Definition hasId (id : string) (shot : Shot) : bool :=
  String.eqb (shotId shot) id.

(** [createDefaultShot(order)] *)
Definition createDefaultShot (e : Entropy) (order : nat) : Shot :=
  {| shotId := uuidAt e 0;
     shotNumber := Z_toString (Z.of_nat order + 1);
     shotOrder := Z.of_nat order;
     framing := "MS";
     cameraAngle := "eye";
     shotType := "static";
     duration := ofZ 3;
     shotImage := "";
     notes := "";
     imageSource := "placeholder";
     sourceParams := None;
     imageVersions := None;
     activeVersionId := None;
     createdAt := nowAt e 0;
     updatedAt := nowAt e 1 |}.

(** [createShot()]: the project after the action and the identifier
    returned. *)
Definition createShot (e : Entropy) (project : option Project)
  : option Project * string :=
  match project with
  | None => (None, "")
  | Some p =>
      let newShot := createDefaultShot e (List.length (shots p)) in
      (Some (withShots p (shots p ++ [newShot]) (nowAt e 2)), shotId newShot)
  end.

(** [deleteShot(shotId)] *)
Definition deleteShot (e : Entropy) (id : string) (project : option Project)
  : option Project :=
  match project with
  | None => None
  | Some p =>
      let filteredShots :=
        mapi renumbered 0 (filter (fun shot => negb (hasId id shot)) (shots p)) in
      Some (withShots p filteredShots (nowAt e 0))
  end.

(** [duplicateShot(shotId)] *)
Definition duplicateShot (e : Entropy) (id : string)
    (project : option Project) : option Project * string :=
  match project with
  | None => (None, "")
  | Some p =>
      match find (hasId id) (shots p) with
      | None => (Some p, "")
      | Some sourceShot =>
          let newShot :=
            {| shotId := uuidAt e 0;
               shotNumber := shotNumber sourceShot ++ "B";
               shotOrder := Z.of_nat (List.length (shots p));
               framing := framing sourceShot;
               cameraAngle := cameraAngle sourceShot;
               shotType := shotType sourceShot;
               duration := duration sourceShot;
               shotImage := shotImage sourceShot;
               notes := notes sourceShot;
               imageSource := imageSource sourceShot;
               sourceParams := sourceParams sourceShot;
               imageVersions := imageVersions sourceShot;
               activeVersionId := activeVersionId sourceShot;
               createdAt := nowAt e 0;
               updatedAt := nowAt e 1 |} in
          (Some (withShots p (shots p ++ [newShot]) (nowAt e 2)),
           shotId newShot)
      end
  end.

(** [shotMap.get(id)] for [shotMap = new Map(shots.map(s => [s.id, s]))]: of
    two shots with the same identifier the map keeps the later one. *)
Definition shotMapGet (all : list Shot) (id : string) : option Shot :=
  find (hasId id) (List.rev all).

(** The callback of [shotIds.map((id, index) => ...)] in [reorderShots]. *)
Definition placeAt (all : list Shot) (index : nat) (id : string)
  : option Shot :=
  match shotMapGet all id with
  | None => None
  | Some shot => Some (renumbered index shot)
  end.

(** [reorderShots(shotIds)] *)
Definition reorderShots (e : Entropy) (shotIds : list string)
    (project : option Project) : option Project :=
  match project with
  | None => None
  | Some p =>
      let reorderedShots := compact (mapi (placeAt (shots p)) 0 shotIds) in
      Some (withShots p reorderedShots (nowAt e 0))
  end.

(** [getShot(shotId)] *)
Definition getShot (project : option Project) (id : string) : option Shot :=
  match project with
  | None => None
  | Some p => find (hasId id) (shots p)
  end.

(** [[...shots].sort((a, b) => a.order - b.order)]: the sort of the
    platform is stable, so for this comparator its result is the one of the
    insertion of each shot, from the last one to the first, before the
    first of the later shots whose order is not smaller. *)
Fixpoint insertByOrder (shot : Shot) (sorted : list Shot) : list Shot :=
  match sorted with
  | [] => [shot]
  | x :: rest =>
      if (shotOrder shot <=? shotOrder x)%Z then shot :: sorted
      else x :: insertByOrder shot rest
  end.

Definition sortByOrder (l : list Shot) : list Shot :=
  fold_right insertByOrder [] l.

(** [getShotsSorted()] *)
Definition getShotsSorted (project : option Project) : list Shot :=
  match project with
  | None => []
  | Some p => sortByOrder (shots p)
  end.

Definition isOriginal (v : ImageVersion) : bool :=
  match versionSource v with
  | OriginalImage => true
  | AIGenerated => false
  end.

(** [shot.imageVersions || []] *)
Definition versionsOf (shot : Shot) : list ImageVersion :=
  match imageVersions shot with
  | Some versions => versions
  | None => []
  end.

(** The version that [addImageVersion] makes of the image of a shot. *)
Definition originalVersion (uuid : string) (shot : Shot) : ImageVersion :=
  {| versionId := uuid;
     versionImage := shotImage shot;
     versionSource := OriginalImage;
     versionCreatedAt := createdAt shot;
     aiPrompt := None;
     aiConfig := None |}.

(** The body of the callback of [addImageVersion] for a shot of the given
    identifier. *)
Definition addVersionTo (uuid : string) (now : Z) (version : ImageVersion)
    (shot : Shot) : Shot :=
  let versions := versionsOf shot in
  let hasOriginal := existsb isOriginal versions in
  let allVersions :=
    if hasOriginal then versions else originalVersion uuid shot :: versions in
  let newVersions := (allVersions ++ [version])%list in
  withActiveVersion shot (Some newVersions) (Some (versionId version))
    (versionImage version) now.

(** [project.shots.map(...)] of [addImageVersion]: [k] counts the calls of
    [crypto.randomUUID()] and of [Date.now()] made so far, one of each for
    every shot of the identifier.  The result holds the number of calls
    made at the end. *)
Fixpoint addVersionIn (e : Entropy) (id : string) (version : ImageVersion)
    (k : nat) (l : list Shot) : list Shot * nat :=
  match l with
  | [] => ([], k)
  | shot :: rest =>
      if hasId id shot then
        let '(rest', k') := addVersionIn e id version (S k) rest in
        (addVersionTo (uuidAt e k) (nowAt e k) version shot :: rest', k')
      else
        let '(rest', k') := addVersionIn e id version k rest in
        (shot :: rest', k')
  end.

(** [addImageVersion(shotId, version)] *)
Definition addImageVersion (e : Entropy) (id : string)
    (version : ImageVersion) (project : option Project) : option Project :=
  match project with
  | None => None
  | Some p =>
      let '(updatedShots, k) := addVersionIn e id version 0 (shots p) in
      Some (withShots p updatedShots (nowAt e k))
  end.

(** [project.shots.map(...)] of [setActiveImageVersion]: [k] counts the
    calls of [Date.now()]. *)
Fixpoint activateIn (e : Entropy) (id versionId' : string) (k : nat)
    (l : list Shot) : list Shot * nat :=
  match l with
  | [] => ([], k)
  | shot :: rest =>
      match (if hasId id shot then findVersion (versionsOf shot) versionId'
             else None) with
      | Some version =>
          let '(rest', k') := activateIn e id versionId' (S k) rest in
          (withActiveVersion shot (imageVersions shot) (Some versionId')
             (versionImage version) (nowAt e k) :: rest', k')
      | None =>
          let '(rest', k') := activateIn e id versionId' k rest in
          (shot :: rest', k')
      end
  end.

(** [setActiveImageVersion(shotId, versionId)] *)
Definition setActiveImageVersion (e : Entropy) (id versionId' : string)
    (project : option Project) : option Project :=
  match project with
  | None => None
  | Some p =>
      let '(updatedShots, k) := activateIn e id versionId' 0 (shots p) in
      Some (withShots p updatedShots (nowAt e k))
  end.

(** [getActiveImageVersion(shotId)] *)
Definition getActiveImageVersion (project : option Project) (id : string)
  : option ImageVersion :=
  match project with
  | None => None
  | Some p =>
      match find (hasId id) (shots p) with
      | None => None
      | Some shot =>
          match imageVersions shot with
          | None | Some [] => None
          | Some (first :: others) =>
              match activeVersionId shot with
              | Some active =>
                  if nonEmpty active
                  then findVersion (first :: others) active
                  else Some first
              | None => Some first
              end
          end
      end
  end.

(** [handleSaveVersion()] of the view: [uuid] and [now] are what the
    platform gives for the new version, [e] what it gives to the action of
    the store. *)
Definition handleSaveVersion (uuid : string) (now : Z) (e : Entropy)
    (s : ViewState) (project : option Project) : ViewState * option Project :=
  match activeShot s with
  | None => (s, project)
  | Some shot =>
      if negb (nonEmpty (generatedImage s)) then (s, project)
      else
        let newVersion :=
          {| versionId := uuid;
             versionImage := generatedImage s;
             versionSource := AIGenerated;
             versionCreatedAt := now;
             aiPrompt := Some (promptInput s);
             aiConfig :=
               Some {| versionModel := option_map modelName (apiConfig s);
                       referenceImages :=
                         Some (filter nonEmpty
                                 [roleImageInput s; sceneImageInput s]) |} |} in
        (settle s Idle (generationProgress s) (errorMessage s) ""
           (blobUrls s),
         addImageVersion e (shotId shot) newVersion project)
  end.

(** A view of the store on a shot: the state [s] with the shot of its
    identifier as the store has it. *)
Definition renderedWith (s : ViewState) (project : option Project)
  : ViewState :=
  {| currentUser := currentUser s;
     activeShotId := activeShotId s;
     activeShot := match activeShotId s with
                   | Some id => if nonEmpty id then getShot project id else None
                   | None => None
                   end;
     promptInput := promptInput s;
     negativePromptInput := negativePromptInput s;
     roleImageInput := roleImageInput s;
     sceneImageInput := sceneImageInput s;
     generationStatus := generationStatus s;
     generationProgress := generationProgress s;
     errorMessage := errorMessage s;
     generatedImage := generatedImage s;
     apiConfig := apiConfig s;
     projectAspectRatio := match project with
                           | Some p => Some (projectRatio p)
                           | None => None
                           end;
     blobUrls := blobUrls s |}.

(** The orders of the shots are their positions in the list. *)
Definition normalised (l : list Shot) : Prop :=
  map shotOrder l = map Z.of_nat (seq 0 (List.length l)).

(** The shots of a store, none when no project is open. *)
Definition projectShots (project : option Project) : list Shot :=
  match project with
  | Some p => shots p
  | None => []
  end.

(** Successive calls of [addImageVersion] for one shot, each with what the
    platform gives to it. *)
Definition addVersions (calls : list (Entropy * ImageVersion)) (id : string)
    (project : option Project) : option Project :=
  fold_left (fun q call => addImageVersion (fst call) id (snd call) q)
    calls project.

(* ------------------------------------------------------------------ *)
(** ** Fixtures of the panel and of the view *)

(** A translation that has no entry: [t(key)] is the key. *)
Definition noTranslation : string -> string := fun key => key.

Definition emptyStorage : Storage := fun _ => None.

(** A panel whose key field holds white space only. *)
Definition blankKeyPanel : PanelState :=
  {| panelConfig := None;
     apiEndpointField := " https://api.example.com/v1/images/generations ";
     apiKeyField := "  ";
     modelNameField := "dall-e-3";
     isValidating := false;
     validationMessage := "" |}.

(** A panel filled with the OpenAI-style configuration. *)
Definition filledPanel : PanelState :=
  {| panelConfig := None;
     apiEndpointField := " https://api.example.com/v1/images/generations ";
     apiKeyField := "sk-test";
     modelNameField := "dall-e-3";
     isValidating := false;
     validationMessage := "" |}.

(** A shot that holds a sketch and no version yet. *)
Definition sketchedShot : Shot :=
  {| shotId := "shot-1";
     shotNumber := "1";
     shotOrder := 0;
     framing := "MS";
     cameraAngle := "eye";
     shotType := "static";
     duration := ofZ 3;
     shotImage := pngDataUri 200;
     notes := "";
     imageSource := "sketch";
     sourceParams := None;
     imageVersions := None;
     activeVersionId := None;
     createdAt := 1700000000000;
     updatedAt := 1700000000000 |}.

(** A view ready to generate the image of a shot. *)
Definition readyView : ViewState :=
  {| currentUser := true;
     activeShotId := Some "shot-1";
     activeShot := Some sketchedShot;
     promptInput := " a cat on a roof ";
     negativePromptInput := "";
     roleImageInput := "";
     sceneImageInput := "";
     generationStatus := Idle;
     generationProgress := ofZ 0;
     errorMessage := "";
     generatedImage := "";
     apiConfig := Some openAIConfig;
     projectAspectRatio := Some "16:9";
     blobUrls := [] |}.

(** What the platform gives in the examples: the number of the call, in the
    identifier and in the time. *)
Definition someEntropy : Entropy :=
  {| uuidAt := fun k => "uuid-" ++ Z_toString (Z.of_nat k);
     nowAt := fun k => (1700000001000 + Z.of_nat k)%Z |}.

Definition secondShot : Shot :=
  {| shotId := "shot-2";
     shotNumber := "1A";
     shotOrder := 1;
     framing := "CU";
     cameraAngle := "low";
     shotType := "pan";
     duration := ofZ 5;
     shotImage := pngDataUri 120;
     notes := "";
     imageSource := "sketch";
     sourceParams := None;
     imageVersions := None;
     activeVersionId := None;
     createdAt := 1700000000500;
     updatedAt := 1700000000500 |}.

(** A generated version, and the first shot once it was added. *)
Definition paintedVersion : ImageVersion :=
  {| versionId := "version-1";
     versionImage := pngDataUri 300;
     versionSource := AIGenerated;
     versionCreatedAt := 1700000000900;
     aiPrompt := Some "a cat on a roof";
     aiConfig := None |}.

Definition repaintedVersion : ImageVersion :=
  {| versionId := "version-2";
     versionImage := pngDataUri 400;
     versionSource := AIGenerated;
     versionCreatedAt := 1700000000950;
     aiPrompt := Some "a cat on a roof at night";
     aiConfig := None |}.

Definition paintedShot : Shot :=
  addVersionTo "uuid-0" 1700000001000 paintedVersion sketchedShot.

Definition projectOf (l : list Shot) : Project :=
  {| projectId := "project-1";
     projectName := "demo";
     shots := l;
     projectRatio := "16:9";
     pdfHeaderText := None;
     projectCreatedAt := 1700000000000;
     projectUpdatedAt := 1700000000500 |}.

Definition storyboard : Project := projectOf [sketchedShot; secondShot].

Definition paintedStoryboard : Project := projectOf [paintedShot; secondShot].

(** The view of the first shot after a generation that succeeded. *)
Definition generatedView : ViewState :=
  settle readyView Succeeded (ofZ 100) "" (pngDataUri 300) [].

(** The time a history spends waiting on timers, in milliseconds, and the
    pauses in the order they are taken. *)
Fixpoint sleepTotal (tr : list Event) : Z :=
  match tr with
  | [] => 0
  | Sleep ms :: rest => ms + sleepTotal rest
  | _ :: rest => sleepTotal rest
  end.

Fixpoint sleepsOf (tr : list Event) : list Z :=
  match tr with
  | [] => []
  | Sleep ms :: rest => ms :: sleepsOf rest
  | _ :: rest => sleepsOf rest
  end.

Definition isSleep (ev : Event) : bool :=
  match ev with Sleep _ => true | _ => false end.

(** An event that is neither a request nor a pause. *)
Definition quiet (ev : Event) : bool :=
  negb (isPost ev) && negb (isPollPost ev) && negb (isSleep ev).

(** [within a b c evs]: the events hold at most [a] requests to the endpoint
    and [b] requests to the task-result endpoint, and pauses of at most [c]
    milliseconds in all. *)
Definition within (a b : nat) (c : Z) (evs : list Event) : Prop :=
  (List.length (posts evs) <= a)%nat
  /\ (List.length (pollPosts evs) <= b)%nat
  /\ (sleepTotal evs <= c)%Z.

Definition costs {A} (a b : nat) (c : Z) (m : M A) : Prop :=
  emits m (fun _ evs => within a b c evs).

(** Whether the reply of the endpoint is a failure of the request: the
    fetch rejects, or the status is not a success. *)
Definition repliesFailure (f : FetchResult) : bool :=
  match f with
  | FetchFailed _ => true
  | FetchResponse r => negb (ok r)
  end.

(** The [throw] statements of [generateAIImage] that precede the retry
    loop, those of [convertToBase64] included. *)
Definition beforeRequest (s : ErrorSite) : bool :=
  match s with
  | ConfigMissing | ConfigIncomplete
  | ImageEmpty | DataUriTooShort | DataUriInvalid
  | BlobConversionFailed | UrlImageLoadFailed
  | StoryboardInvalid | EndpointInvalid
  | StoryboardPayloadTooShort | StoryboardTooShort => true
  | _ => false
  end.

(** The [throw] statements inside the [try] of the retry loop, and the
    errors of the runtime raised there. *)
Definition insideAttempt (s : ErrorSite) : bool :=
  match s with
  | NetworkFailure | AuthFailed | ApiCallFailed
  | NoResponseStream | StreamBroken | StreamUnparsed
  | NotJson | JsonSyntax | TypeErr
  | TaskFailed | TaskTimeout | TaskStillProcessing
  | NoImageInResponse | ImageDownloadFailed => true
  | _ => false
  end.

(** The failures of the request itself. *)
Definition requestFailure (s : ErrorSite) : bool :=
  match s with
  | NetworkFailure | AuthFailed | ApiCallFailed => true
  | _ => false
  end.

(** What [generateAIImage] reports between the validation and the loop. *)
Definition prelude (params : GenerateAIImageParams) : list Event :=
  if onProgress params then [Progress (ofZ 10)] else [].

(** [failsOnly S m]: an error of [m] comes from a site of [S]. *)
Definition failsOnly {A} (S : ErrorSite -> bool) (m : M A) : Prop :=
  forall tr, match fst (m tr) with
             | Thrown e => S (site e) = true
             | Returned _ => True
             end.

(** The site of a failure, if the outcome is one. *)
Definition siteOf {A} (o : Outcome A) : option ErrorSite :=
  match o with
  | Thrown e => Some (site e)
  | Returned _ => None
  end.

(** Whether the last event of a history is the report of 100 percent. *)
Definition endsAt100 (evs : list Event) : bool :=
  match List.last evs (Sleep 0) with
  | Progress p => sameNumber p (ofZ 100)
  | _ => false
  end.

(** The pauses allowed to the retry loop entered with [remaining] attempts
    to go: thirty polls of two seconds for each attempt, and after a failed
    attempt that is not the last, one second per attempt made so far. *)
Definition retryBudget (remaining : nat) : Z :=
  match remaining with
  | 0%nat => 0
  | 1%nat => 60000
  | 2%nat => 122000
  | _ => 183000
  end.

(** The pauses between the attempts of the retry loop when none succeeds,
    with [remaining] attempts to go. *)
Definition backoff (remaining : nat) : list Z :=
  match remaining with
  | 3%nat => [1000; 2000]
  | 2%nat => [2000]
  | _ => []
  end%Z.

(** How the body of [try] can end at the attempt number [retryCount]: by an
    error thrown inside it, by [return], or, before the last attempt, by
    the [continue] of the rate-limit branch. *)
Definition attemptEnds (retryCount : nat) (o : Outcome AttemptOutcome) : Prop :=
  match o with
  | Thrown e => insideAttempt (site e) = true
  | Returned (Finished _) => True
  | Returned RateLimited => (retryCount < maxRetries - 1)%nat
  end.

(** The text that [downloadImageAsBase64(url)] resolves to, when it does. *)
Definition downloaded (world : World) (url : string) : option string :=
  match images world url with
  | ImageResponse true _ _ _ _ (Some dataUrl) => Some dataUrl
  | _ => None
  end.

Definition isHttpUrl (s : string) : bool :=
  startsWith s "http://" || startsWith s "https://".

(** How the image [img] of a result comes from the data [data] of a
    response, [tr] being the history of the call: the status handling
    turns the data into [data'], the extraction finds the text [found] in
    it, which is not empty; a text that starts with [http://] or
    [https://] was fetched and [img] is what its download gave, any other
    text is [img] itself. *)
Definition deliveredFrom (rt : Runtime) (world : World)
    (config : AIImageConfig) (params : GenerateAIImageParams)
    (data : value) (tr : list Event) (img : string) : Prop :=
  exists tr2 data' tr3 found tr4,
    handleStatus rt world config params data tr2 = (Returned data', tr3)
    /\ extractImage rt data' tr3 = (Returned (VStr found), tr4)
    /\ nonEmpty found = true
    /\ if isHttpUrl found
       then In (FetchImage found) tr /\ downloaded world found = Some img
       else img = found.

(** Where the image of a result comes from: from the data of a response
    with a success status that the endpoint gave to a request of the
    call. *)
Definition imageOrigin (rt : Runtime) (world : World)
    (config : AIImageConfig) (params : GenerateAIImageParams)
    (tr : list Event) (img : string) : Prop :=
  exists request n r tr1 data tr1',
    In (Post request) tr
    /\ server world n request = FetchResponse r
    /\ ok r = true
    /\ responseData rt config params r tr1 = (Returned data, tr1')
    /\ deliveredFrom rt world config params data tr img.

(** What the callback is given last, when there is one. *)
Definition finalReport (params : GenerateAIImageParams) : list Event :=
  if onProgress params then [Progress (ofZ 100)] else [].

(** The [throw] statements of [validateAPIConfig] that precede its request,
    and those that follow it. *)
Definition beforeProbe (s : ErrorSite) : bool :=
  match s with
  | EndpointEmpty | DocumentationUrl | EndpointInvalid => true
  | _ => false
  end.

Definition afterProbe (s : ErrorSite) : bool :=
  match s with
  | NetworkFailure | HtmlResponse | ProbeRejected => true
  | _ => false
  end.

(** The four tests that decide whether an endpoint, in lower case, is taken
    for a documentation page. *)
Definition documentationMarks (endpoint : string) : bool :=
  includes endpoint "/doc" || includes endpoint "apifox.cn"
  || endsWith endpoint ".html" || includes endpoint "/#/".

(** The data URI that the extraction builds from the mime type and the
    payload of an inline part. *)
Definition dataUri (mime data : string) : string :=
  "data:" ++ mime ++ ";base64," ++ data.

(** An inline part of a Gemini response, in the camel-case spelling. *)
Definition inlinePart (mime data : string) : value :=
  VObj [("inlineData", VObj [("mimeType", VStr mime); ("data", VStr data)])].

(** Whether [convertToBase64] takes its argument for an empty image. *)
Definition blankImage (img : string) : bool :=
  negb (nonEmpty img) || (String.length (trim img) =? 0)%nat.

(** The words that open the message of a failed conversion of an image
    that has to be fetched. *)
Definition fetchFailurePrefix (img : string) : string :=
  if startsWith img "blob:" then "无法转换Blob URL为base64: "
  else "无法加载图片: ".

(** The text of the ratio of two integers, as the settings write it. *)
Definition ratioText (w h : Z) : string :=
  Z_toString w ++ ":" ++ Z_toString h.

(** The first number of a ratio text, as [calculateImageSize] reads it. *)
Definition ratioWidth (aspectRatio : string) : number :=
  parseFloat (orElse (nth 0 (split ":" aspectRatio) EmptyString) "16").

(** Its second number. *)
Definition ratioHeight (aspectRatio : string) : number :=
  parseFloat (orElse (nth 1 (split ":" aspectRatio) EmptyString) "9").

(** [w >= h]: the width is the side of the larger number of the ratio. *)
Definition landscape (aspectRatio : string) : bool :=
  geb (ratioWidth aspectRatio) (ratioHeight aspectRatio).

(** Of a pair (width, height), the side of the larger number of the ratio
    and the other side. *)
Definition largerSide (aspectRatio : string) (size : number * number)
  : number :=
  if landscape aspectRatio then fst size else snd size.

Definition smallerSide (aspectRatio : string) (size : number * number)
  : number :=
  if landscape aspectRatio then snd size else fst size.

(** The text of a size in the body of the task request, from the side of
    the larger number of the ratio and the other side. *)
Definition sizeText (rt : Runtime) (aspectRatio : string)
    (larger smaller : number) : string :=
  if landscape aspectRatio
  then Number_toString rt larger ++ "x" ++ Number_toString rt smaller
  else Number_toString rt smaller ++ "x" ++ Number_toString rt larger.

(** The size of the ratio [w:h] of two integers, when its two sides are
    integers [a] and [b] such that: both are multiples of 8 and at least
    16; the side of the larger number of the ratio is 1024 and the other is
    within 4.5 of its exact value; and the ratio [h:w] gives the same sides
    exchanged. *)
Definition integerRatioSize (w h : Z) : option (Z * Z) :=
  let '(width, height) := calculateImageSize (ratioText w h) (ofZ 1024) in
  let '(width', height') := calculateImageSize (ratioText h w) (ofZ 1024) in
  match asInteger width, asInteger height with
  | Some a, Some b =>
      if sameNumber width (ofZ a) && sameNumber height (ofZ b)
         && sameNumber width' (ofZ b) && sameNumber height' (ofZ a)
         && (a mod 8 =? 0)%Z && (b mod 8 =? 0)%Z
         && (16 <=? a)%Z && (16 <=? b)%Z
         && (if (h <=? w)%Z
             then (a =? 1024)%Z
                  && (2 * Z.abs (b * w - 1024 * h) <=? 9 * w)%Z
             else (b =? 1024)%Z
                  && (2 * Z.abs (a * h - 1024 * w) <=? 9 * h)%Z)
      then Some (a, b) else None
  | _, _ => None
  end.

(** The event that a line of an event stream carries, when the line is a
    [data: ] line whose text parses. *)
Definition lineEvent (rt : Runtime) (line : string) : option value :=
  if startsWith line "data: " then
    let jsonStr := trim (substringFrom 6 line) in
    if nonEmpty jsonStr then JSON_parse rt jsonStr else None
  else None.

(** The test that ends the reading of a stream after a chunk. *)
Definition endsStream (lastData : value) : bool :=
  Js.truthy lastData && isTerminalStatus (Js.getOpt lastData "status").

(** A line that carries no event with a terminal status. *)
Definition calmLine (rt : Runtime) (line : string) : bool :=
  match lineEvent rt line with
  | Some eventData => negb (isTerminalStatus (Js.getOpt eventData "status"))
  | None => true
  end.

(** One round of the poll loop, the round number [k] from 0: the pause,
    the percentage given to the callback when there is one, and the request
    to the task-result endpoint. *)
Definition pollRound (params : GenerateAIImageParams) (taskId : value)
    (k : nat) : list Event :=
  ([Sleep pollingInterval]
   ++ (if onProgress params then [Progress (ofZ (50 + Z.of_nat k))] else [])
   ++ [PollPost taskId])%list.

Definition notPoll (ev : Event) : bool := negb (isPollPost ev).

(** The value of [lastData] after the lines of a chunk, none of which ends
    the loop: the event of the last line that carries one. *)
Fixpoint lastEvent (rt : Runtime) (lastData : value) (lines : list string)
  : value :=
  match lines with
  | [] => lastData
  | line :: rest =>
      lastEvent rt (match lineEvent rt line with
                    | Some eventData => eventData
                    | None => lastData
                    end) rest
  end.

(** The value of [lastData] at the end of a stream, [buffer] being the
    incomplete line left by the chunks before. *)
Fixpoint lastEventOf (rt : Runtime) (s : Stream) (buffer : string)
    (lastData : value) : value :=
  match s with
  | StreamChunk chunk rest =>
      let pieces := split LF (buffer ++ chunk) in
      lastEventOf rt rest (List.last pieces "")
        (lastEvent rt lastData (List.removelast pieces))
  | _ => lastData
  end.

(** Whether no complete line of the stream carries an event with a terminal
    status. *)
Fixpoint calmStream (rt : Runtime) (s : Stream) (buffer : string) : bool :=
  match s with
  | StreamChunk chunk rest =>
      let pieces := split LF (buffer ++ chunk) in
      forallb (calmLine rt) (List.removelast pieces)
      && calmStream rt rest (List.last pieces "")
  | _ => true
  end.

(** Whether the body of a response mentions the interface, as the probe
    tests it: on the serialised JSON of a response announced as JSON (whose
    text cannot be read a second time), on the text of any other
    response. *)
Definition apiMentioned (rt : Runtime) (r : Response) : bool :=
  if includes (contentType r) "application/json" then
    match json r with
    | inl _ => false
    | inr errorData => mentionsApi (JSON_stringify rt errorData)
    end
  else includes (text r) "Gemini" || includes (text r) "candidates".

(** A text made of white space only: [joined pieces], each piece being a
    white space. *)
Definition joined (pieces : list string) : string :=
  fold_right append "" pieces.

Definition whiteSpaceOnly (pieces : list string) : Prop :=
  Forall (fun w => In w whiteSpaces) pieces.

(* ------------------------------------------------------------------ *)
(** ** Reasoning about computations *)

#[local] Arguments Nat.leb : simpl never.
#[local] Arguments Nat.ltb : simpl never.
#[local] Arguments String.length : simpl never.

Section Emits.

Context {A B : Type}.

Lemma emits_ret (a : A) (R : Outcome A -> list Event -> Prop) :
  R (Returned a) [] -> emits (ret a) R.
Proof.
  intros H tr. exists (Returned a), []. rewrite app_nil_r. split; [reflexivity | exact H].
Qed.

Lemma emits_throw (s : ErrorSite) (msg : string)
    (R : Outcome A -> list Event -> Prop) :
  R (Thrown {| site := s; message := msg |}) [] -> emits (throw s msg) R.
Proof.
  intros H tr. exists (Thrown {| site := s; message := msg |}), [].
  rewrite app_nil_r. split; [reflexivity | exact H].
Qed.

Lemma emits_rethrow (e : Error) (R : Outcome A -> list Event -> Prop) :
  R (Thrown e) [] -> emits (rethrow e) R.
Proof.
  intros H tr. exists (Thrown e), []. rewrite app_nil_r. split; [reflexivity | exact H].
Qed.

Lemma emits_weaken (m : M A) (R R' : Outcome A -> list Event -> Prop) :
  emits m R -> (forall o evs, R o evs -> R' o evs) -> emits m R'.
Proof.
  intros Hm HR tr. destruct (Hm tr) as (o & evs & E & H).
  exists o, evs. split; [exact E | apply HR, H].
Qed.

Lemma emits_bind (m : M A) (k : A -> M B)
    (R1 : Outcome A -> list Event -> Prop)
    (R : Outcome B -> list Event -> Prop) :
  emits m R1 ->
  (forall a evs1, R1 (Returned a) evs1 ->
     emits (k a) (fun o evs2 => R o (evs1 ++ evs2)%list)) ->
  (forall e evs1, R1 (Thrown e) evs1 -> R (Thrown e) evs1) ->
  emits (bind m k) R.
Proof.
  intros Hm Hk He tr. unfold bind.
  destruct (Hm tr) as (o & evs1 & E & H1). rewrite E.
  destruct o as [a | e].
  - destruct (Hk a evs1 H1 (tr ++ evs1)%list) as (o2 & evs2 & E2 & H2).
    exists o2, (evs1 ++ evs2)%list. rewrite app_assoc. split; assumption.
  - exists (Thrown e), evs1. split; [reflexivity | apply He, H1].
Qed.

Lemma emits_tryCatch (m : M A) (onOk : A -> M B) (onErr : Error -> M B)
    (R1 : Outcome A -> list Event -> Prop)
    (R : Outcome B -> list Event -> Prop) :
  emits m R1 ->
  (forall a evs1, R1 (Returned a) evs1 ->
     emits (onOk a) (fun o evs2 => R o (evs1 ++ evs2)%list)) ->
  (forall e evs1, R1 (Thrown e) evs1 ->
     emits (onErr e) (fun o evs2 => R o (evs1 ++ evs2)%list)) ->
  emits (tryCatch m onOk onErr) R.
Proof.
  intros Hm Hk He tr. unfold tryCatch.
  destruct (Hm tr) as (o & evs1 & E & H1). rewrite E.
  destruct o as [a | e].
  - destruct (Hk a evs1 H1 (tr ++ evs1)%list) as (o2 & evs2 & E2 & H2).
    exists o2, (evs1 ++ evs2)%list. rewrite app_assoc. split; assumption.
  - destruct (He e evs1 H1 (tr ++ evs1)%list) as (o2 & evs2 & E2 & H2).
    exists o2, (evs1 ++ evs2)%list. rewrite app_assoc. split; assumption.
Qed.

End Emits.

Lemma emits_emit (ev : Event) (R : Outcome unit -> list Event -> Prop) :
  R (Returned tt) [ev] -> emits (emit ev) R.
Proof.
  intros H tr. exists (Returned tt), [ev]. split; [reflexivity | exact H].
Qed.

Lemma emits_history (R : Outcome (list Event) -> list Event -> Prop) :
  (forall tr, R (Returned tr) []) -> emits history R.
Proof.
  intros H tr. exists (Returned tr), []. rewrite app_nil_r.
  split; [reflexivity | apply H].
Qed.

(** What [emits] says of one run. *)
Lemma emits_run {A} (m : M A) (R : Outcome A -> list Event -> Prop)
    (tr tr' : list Event) (o : Outcome A) :
  emits m R -> m tr = (o, tr') -> exists evs, tr' = (tr ++ evs)%list /\ R o evs.
Proof.
  intros Hm E. destruct (Hm tr) as (o' & evs & E' & H).
  rewrite E in E'. inversion E'; subst. exists evs. split; [reflexivity | exact H].
Qed.

Section EmitsOnly.

Context {A B : Type}.
Variable Q : Event -> bool.

Lemma emitsOnly_ret (a : A) : emitsOnly Q (ret a).
Proof. apply emits_ret. reflexivity. Qed.

Lemma emitsOnly_throw (s : ErrorSite) (msg : string) :
  emitsOnly Q (@throw A s msg).
Proof. apply emits_throw. reflexivity. Qed.

Lemma emitsOnly_rethrow (e : Error) : emitsOnly Q (@rethrow A e).
Proof. apply emits_rethrow. reflexivity. Qed.

Lemma emitsOnly_bind (m : M A) (k : A -> M B) :
  emitsOnly Q m -> (forall a, emitsOnly Q (k a)) -> emitsOnly Q (bind m k).
Proof.
  intros Hm Hk. eapply emits_bind; [exact Hm | | ].
  - intros a evs1 H1. eapply emits_weaken; [apply Hk | ].
    cbv beta. intros o evs2 H2. rewrite forallb_app, H1, H2. reflexivity.
  - intros e evs1 H1. exact H1.
Qed.

Lemma emitsOnly_tryCatch (m : M A) (onOk : A -> M B) (onErr : Error -> M B) :
  emitsOnly Q m -> (forall a, emitsOnly Q (onOk a)) ->
  (forall e, emitsOnly Q (onErr e)) -> emitsOnly Q (tryCatch m onOk onErr).
Proof.
  intros Hm Hk He. eapply emits_tryCatch; [exact Hm | | ].
  - intros a evs1 H1. eapply emits_weaken; [apply Hk | ].
    cbv beta. intros o evs2 H2. rewrite forallb_app, H1, H2. reflexivity.
  - intros e evs1 H1. eapply emits_weaken; [apply He | ].
    cbv beta. intros o evs2 H2. rewrite forallb_app, H1, H2. reflexivity.
Qed.

End EmitsOnly.

Lemma emitsOnly_emit (Q : Event -> bool) (ev : Event) :
  Q ev = true -> emitsOnly Q (emit ev).
Proof. intros H. apply emits_emit. simpl. rewrite H. reflexivity. Qed.

Lemma emitsOnly_history (Q : Event -> bool) : emitsOnly Q history.
Proof. apply emits_history. reflexivity. Qed.

Lemma emitsOnly_weaken {A} (Q Q' : Event -> bool) (m : M A) :
  (forall ev, Q ev = true -> Q' ev = true) -> emitsOnly Q m -> emitsOnly Q' m.
Proof.
  intros HQ Hm. eapply emits_weaken; [exact Hm | ].
  cbv beta. intros _ evs H. rewrite forallb_forall in *. auto.
Qed.

Create HintDb emits.

(** Walks through a computation built from [bind], [tryCatch], conditionals
    and pattern matching, leaving the calls to be closed by the hints. *)
Ltac emits_step :=
  first
    [ solve [eauto with emits]
    | apply emitsOnly_ret
    | apply emitsOnly_throw
    | apply emitsOnly_rethrow
    | apply emitsOnly_history
    | apply emitsOnly_emit; reflexivity
    | apply emitsOnly_bind
    | apply emitsOnly_tryCatch
    | match goal with |- forall _, _ => intro end
    | match goal with
      | |- emitsOnly _ (if ?b then _ else _) => destruct b
      | |- emitsOnly _ (match ?x with _ => _ end) => destruct x
      | |- emitsOnly _ (let '(_, _) := ?x in _) => destruct x
      end
    | progress cbv zeta ].

Ltac emits_auto := repeat emits_step.

(* ------------------------------------------------------------------ *)
(** ** Which events each function can append *)

Section Footprints.

Variable rt : Runtime.
Variable world : World.
Variable Q : Event -> bool.

Lemma typeError_emits {A} : emitsOnly Q (@typeError rt A).
Proof. unfold typeError. emits_auto. Qed.

Lemma prop_emits (v : value) (key : string) : emitsOnly Q (prop rt v key).
Proof. unfold prop, typeError. emits_auto. Qed.

Lemma startsWithM_emits (v : value) (prefix : string) :
  emitsOnly Q (startsWithM rt v prefix).
Proof. unfold startsWithM, typeError. emits_auto. Qed.

Lemma toLowerCaseM_emits (v : value) : emitsOnly Q (toLowerCaseM rt v).
Proof. unfold toLowerCaseM, typeError. emits_auto. Qed.

Hint Resolve typeError_emits prop_emits startsWithM_emits toLowerCaseM_emits
  : emits.

Lemma taskFailure_emits {A} (d : value) (allHints : bool) :
  emitsOnly Q (@taskFailure rt A d allHints).
Proof. unfold taskFailure. emits_auto. Qed.

Lemma pickImage_emits (d : value) : emitsOnly Q (pickImage rt d).
Proof. unfold pickImage. emits_auto. Qed.

Hint Resolve taskFailure_emits pickImage_emits : emits.

Lemma resultImageOf_emits (d : value) : emitsOnly Q (resultImageOf rt d).
Proof. unfold resultImageOf. emits_auto. Qed.

Hint Resolve resultImageOf_emits : emits.

Lemma completedTask_emits (d : value) : emitsOnly Q (completedTask rt d).
Proof. unfold completedTask. emits_auto. Qed.

Lemma scanParts_emits (items : list value) : emitsOnly Q (scanParts rt items).
Proof.
  induction items as [| part rest IH]; simpl; emits_auto.
Qed.

Hint Resolve completedTask_emits scanParts_emits : emits.

Lemma fromCandidates_emits (d : value) : emitsOnly Q (fromCandidates rt d).
Proof. unfold fromCandidates. emits_auto. Qed.

Lemma fromDataArray_emits (d : value) : emitsOnly Q (fromDataArray rt d).
Proof. unfold fromDataArray. emits_auto. Qed.

Lemma fromGenericFields_emits (d : value) :
  emitsOnly Q (fromGenericFields rt d).
Proof. unfold fromGenericFields. emits_auto. Qed.

Hint Resolve fromCandidates_emits fromDataArray_emits fromGenericFields_emits
  : emits.

Lemma extractImage_emits (d : value) : emitsOnly Q (extractImage rt d).
Proof. unfold extractImage. emits_auto. Qed.

Lemma buildRequest_emits (config : AIImageConfig)
    (params : GenerateAIImageParams) (sb : string) (role scene : option string) :
  emitsOnly Q (buildRequest rt config params sb role scene).
Proof. unfold buildRequest. emits_auto. Qed.

(** Fetching images *)
Hypothesis Q_fetch : forall url, Q (FetchImage url) = true.

Lemma fetch_emits (url : string) : emitsOnly Q (emit (FetchImage url)).
Proof. apply emitsOnly_emit, Q_fetch. Qed.

Hint Resolve fetch_emits : emits.

Lemma downloadImageAsBase64_emits (url : string) :
  emitsOnly Q (downloadImageAsBase64 world url).
Proof. unfold downloadImageAsBase64. emits_auto. Qed.

Lemma fetchAsBase64_emits (img : string) (s : ErrorSite) (m1 m2 m3 m4 : string) :
  emitsOnly Q (fetchAsBase64 world img s m1 m2 m3 m4).
Proof. unfold fetchAsBase64. emits_auto. Qed.

Hint Resolve fetchAsBase64_emits : emits.

Lemma convertToBase64_emits (img : string) :
  emitsOnly Q (convertToBase64 world img).
Proof. unfold convertToBase64. emits_auto. Qed.

Hint Resolve convertToBase64_emits : emits.

Lemma convertOptional_emits (img : option string) :
  emitsOnly Q (convertOptional world img).
Proof. unfold convertOptional. emits_auto. Qed.

End Footprints.

(* ------------------------------------------------------------------ *)
(** ** Requests and percentages of a history *)

Lemma posts_app (a b : list Event) : posts (a ++ b) = (posts a ++ posts b)%list.
Proof. apply filter_app. Qed.

Lemma pollPosts_app (a b : list Event) :
  pollPosts (a ++ b) = (pollPosts a ++ pollPosts b)%list.
Proof. apply filter_app. Qed.

Lemma progressOf_app (a b : list Event) :
  progressOf (a ++ b) = (progressOf a ++ progressOf b)%list.
Proof.
  induction a as [| ev a IH]; simpl; [reflexivity | ].
  destruct ev; simpl; rewrite IH; reflexivity.
Qed.

Lemma posts_none (Q : Event -> bool) (evs : list Event) :
  (forall ev, Q ev = true -> isPost ev = false) ->
  forallb Q evs = true -> posts evs = [].
Proof.
  intros HQ H. induction evs as [| ev evs IH]; simpl in *; [reflexivity | ].
  apply andb_true_iff in H as [H1 H2]. rewrite (HQ ev H1). auto.
Qed.

Lemma pollPosts_none (Q : Event -> bool) (evs : list Event) :
  (forall ev, Q ev = true -> isPollPost ev = false) ->
  forallb Q evs = true -> pollPosts evs = [].
Proof.
  intros HQ H. induction evs as [| ev evs IH]; simpl in *; [reflexivity | ].
  apply andb_true_iff in H as [H1 H2]. rewrite (HQ ev H1). auto.
Qed.

Lemma progressOf_none (Q : Event -> bool) (evs : list Event) :
  (forall ev, Q ev = true -> isProgress ev = false) ->
  forallb Q evs = true -> progressOf evs = [].
Proof.
  intros HQ H. induction evs as [| ev evs IH]; simpl in *; [reflexivity | ].
  apply andb_true_iff in H as [H1 H2]. specialize (HQ ev H1).
  destruct ev; simpl in *; try discriminate; auto.
Qed.

Lemma isFetchImage_not_post (ev : Event) :
  isFetchImage ev = true -> isPost ev = false.
Proof. destruct ev; simpl; congruence. Qed.

Lemma isFetchImage_not_pollPost (ev : Event) :
  isFetchImage ev = true -> isPollPost ev = false.
Proof. destruct ev; simpl; congruence. Qed.

Lemma isFetchImage_not_progress (ev : Event) :
  isFetchImage ev = true -> isProgress ev = false.
Proof. destruct ev; simpl; congruence. Qed.

(** Normalising an image sends nothing to the endpoint. *)
Lemma convertToBase64_posts (world : World) (img : string)
    (tr tr' : list Event) (o : Outcome string) :
  convertToBase64 world img tr = (o, tr') -> posts tr' = posts tr.
Proof.
  intros E.
  destruct (emits_run _ _ _ _ _
              (convertToBase64_emits world isFetchImage (fun _ => eq_refl) img) E)
    as (evs & -> & H).
  rewrite posts_app, (posts_none _ _ isFetchImage_not_post H), app_nil_r.
  reflexivity.
Qed.

(* ------------------------------------------------------------------ *)
(** ** Image normalisation *)

Ltac split_ifs :=
  repeat match goal with
         | H : context [if ?b then _ else _] |- _ => destruct b eqn:?
         end.

Lemma fetchAsBase64_length (world : World) (img : string) (s : ErrorSite)
    (m1 m2 m3 m4 out : string) (tr tr' : list Event) :
  fetchAsBase64 world img s m1 m2 m3 m4 tr = (Returned out, tr') ->
  (100 <= String.length out)%nat.
Proof.
  unfold fetchAsBase64, tryCatch, bind, emit, throw, ret.
  destruct (images world img) as [msg | image_ok st stText size converted rd];
    [discriminate | ].
  destruct converted as [msg | base64]; intros E; split_ifs;
    try discriminate.
  inversion E; subst.
  apply orb_false_iff in Heqb1 as [_ Hlen].
  apply Nat.ltb_ge in Hlen. exact Hlen.
Qed.

Lemma convertToBase64_dataUri (world : World) (img out : string)
    (tr tr' : list Event) :
  startsWith img "data:" = true ->
  convertToBase64 world img tr = (Returned out, tr') ->
  out = img
  /\ (100 <= String.length img)%nat
  /\ exists mime payload,
       matchDataUri "image/" img = Some (mime, payload)
       /\ (50 <= String.length payload)%nat.
Proof.
  intros Hdata. unfold convertToBase64. rewrite Hdata.
  destruct (negb (nonEmpty img) || (String.length (trim img) =? 0)%nat);
    [discriminate | ].
  destruct (String.length img <? 100)%nat eqn:Hlen; [discriminate | ].
  destruct (matchDataUri "image/" img) as [[mime payload] | ]; [ | discriminate].
  destruct (String.length payload <? 50)%nat eqn:Hp; [discriminate | ].
  intros E; inversion E; subst.
  apply Nat.ltb_ge in Hlen. apply Nat.ltb_ge in Hp.
  split; [reflexivity | split; [exact Hlen | ]].
  exists mime, payload. split; [reflexivity | exact Hp].
Qed.

Lemma convertToBase64_length (world : World) (img out : string)
    (tr tr' : list Event) :
  convertToBase64 world img tr = (Returned out, tr') ->
  (100 <= String.length out)%nat.
Proof.
  intros E. destruct (startsWith img "data:") eqn:Hdata.
  - destruct (convertToBase64_dataUri _ _ _ _ _ Hdata E) as (-> & H & _).
    exact H.
  - unfold convertToBase64 in E. rewrite Hdata in E.
    destruct (negb (nonEmpty img) || (String.length (trim img) =? 0)%nat);
      [discriminate | ].
    destruct (startsWith img "blob:");
      eapply fetchAsBase64_length; exact E.
Qed.

(* ------------------------------------------------------------------ *)
(** ** The request builder *)

Lemma length_100_nonEmpty (t : string) :
  (100 <=? String.length t)%nat = true -> nonEmpty t = true.
Proof. destruct t; simpl; [discriminate | reflexivity]. Qed.

Lemma guard_100 (t : string) :
  nonEmpty t && (100 <=? String.length t)%nat = (100 <=? String.length t)%nat.
Proof.
  destruct (100 <=? String.length t)%nat eqn:H.
  - rewrite (length_100_nonEmpty _ H). reflexivity.
  - apply andb_false_r.
Qed.

Lemma geminiReference_images (o : option string) :
  flat_map partImage (geminiReference o) = referenceFor GEMINI o.
Proof.
  unfold geminiReference, referenceFor, given, encodeFor.
  destruct o as [b | ]; [ | reflexivity].
  destruct (nonEmpty b); [ | reflexivity].
  destruct (extractBase64 b) as [mime data]. simpl snd.
  rewrite guard_100. simpl.
  destruct (100 <=? String.length data)%nat; reflexivity.
Qed.

Lemma nanoReference_images (o : option string) :
  nanoReference o = referenceFor ASYNC_TASK o.
Proof.
  unfold nanoReference, referenceFor, given, encodeFor.
  destruct o as [b | ]; [ | reflexivity].
  destruct (nonEmpty b); [ | reflexivity].
  rewrite guard_100. reflexivity.
Qed.

Lemma openAIReference_images (o : option string) :
  optionToList (openAIReference o) = referenceFor GENERIC o.
Proof.
  unfold openAIReference, referenceFor, encodeFor.
  destruct o as [b | ]; [ | reflexivity].
  destruct (nonEmpty b && (100 <=? String.length b)%nat); reflexivity.
Qed.

Lemma buildRequest_images (rt : Runtime) (config : AIImageConfig)
    (params : GenerateAIImageParams) (sb : string) (role scene : option string)
    (tr tr' : list Event) (req : Request) :
  buildRequest rt config params sb role scene tr = (Returned req, tr') ->
  bodyImages (body req)
  = (encodeFor (classify (apiEndpoint config)) sb
     :: referenceFor (classify (apiEndpoint config)) role
     ++ referenceFor (classify (apiEndpoint config)) scene)%list.
Proof.
  unfold buildRequest, classify.
  destruct (negb (URL_canParse rt (trim (apiEndpoint config))));
    [discriminate | ].
  destruct (calculateImageSize _ _) as [width height].
  destruct (providerOf _ _).
  - unfold encodeFor at 1. destruct (extractBase64 sb) as [mime data].
    intros E; inversion E; subst; clear E. simpl.
    rewrite flat_map_app, !geminiReference_images. reflexivity.
  - destruct (negb (nonEmpty (extractPureBase64 sb))
              || (String.length (extractPureBase64 sb) <? 100)%nat);
      [discriminate | ].
    intros E; inversion E; subst; clear E. simpl.
    rewrite !nanoReference_images. reflexivity.
  - destruct (negb (nonEmpty sb) || (String.length sb <? 100)%nat);
      [discriminate | ].
    intros E; inversion E; subst; clear E. simpl.
    rewrite !openAIReference_images. reflexivity.
Qed.

Lemma referenceFor_accepted (p : Provider) (r : string) :
  (100 <= String.length (encodeFor p r))%nat ->
  referenceFor p (Some r) = [encodeFor p r].
Proof.
  intros H. unfold referenceFor.
  assert (Hr : nonEmpty r = true).
  { destruct r; [ | reflexivity].
    destruct p; vm_compute in H; lia. }
  apply Nat.leb_le in H. rewrite Hr, H. reflexivity.
Qed.

(** The payload read by the Gemini branch is the one read by the Nano Banana
    branch. *)
Lemma extractBase64_payload (dataUrl : string) :
  snd (extractBase64 dataUrl) = extractPureBase64 dataUrl.
Proof.
  unfold extractBase64, extractPureBase64.
  destruct (startsWith dataUrl "data:"); [ | reflexivity].
  destruct (matchDataUri "" dataUrl) as [[mime data] | ]; reflexivity.
Qed.

Lemma geminiReference_short (r : string) :
  (String.length (extractPureBase64 r) < 100)%nat -> geminiReference (Some r) = [].
Proof.
  intros H. unfold geminiReference.
  destruct (given (Some r)); [ | reflexivity].
  pose proof (extractBase64_payload r) as P.
  destruct (extractBase64 r) as [mime data]. simpl in P. subst data.
  apply Nat.leb_gt in H. rewrite H, andb_false_r. reflexivity.
Qed.

Lemma nanoReference_short (r : string) :
  (String.length (extractPureBase64 r) < 100)%nat -> nanoReference (Some r) = [].
Proof.
  intros H. unfold nanoReference.
  destruct (given (Some r)); [ | reflexivity].
  apply Nat.leb_gt in H. rewrite H, andb_false_r. reflexivity.
Qed.

Lemma openAIReference_normalized (r : string) :
  (100 <= String.length r)%nat -> openAIReference (Some r) = Some r.
Proof.
  intros H. unfold openAIReference.
  apply Nat.leb_le in H. rewrite guard_100, H. reflexivity.
Qed.

(* ------------------------------------------------------------------ *)
(** ** The pixel size *)

Lemma sameNumber_eq (x y : number) : sameNumber x y = true -> x = y.
Proof.
  destruct x as [a | a | | a m e], y as [b | b | | b m' e']; simpl;
    try discriminate; try reflexivity.
  - intros H. apply Bool.eqb_prop in H. congruence.
  - intros H. apply Bool.eqb_prop in H. congruence.
  - intros H. apply andb_true_iff in H as [H He].
    apply andb_true_iff in H as [Ha Hm].
    apply Bool.eqb_prop in Ha. apply Pos.eqb_eq in Hm. apply Z.eqb_eq in He.
    congruence.
Qed.

(** The sizes for the aspect ratios of the settings panel (Header.tsx): the
    fitted size, and the size returned. *)
Lemma settings_panel_sizes :
  map (fun ratio => (fitToBase ratio (ofZ 1024),
                     calculateImageSize ratio (ofZ 1024)))
    ["16:9"; "9:16"; "1:1"; "4:3"; "3:2"; "2.39:1"; "2.35:1"; "1.85:1"]
  = map (fun '(w, h, w8, h8) => ((ofZ w, ofZ h), (ofZ w8, ofZ h8)))
      [(1024, 576, 1024, 576); (576, 1024, 576, 1024);
       (1024, 1024, 1024, 1024); (1024, 768, 1024, 768);
       (1024, 683, 1024, 680); (1024, 428, 1024, 432);
       (1024, 436, 1024, 440); (1024, 554, 1024, 552)]%Z.
Proof. vm_compute. reflexivity. Qed.

(** On the integers from 0 to 1024, [Math.round(x / 8) * 8] is the nearest
    multiple of 8: checked on each of them. *)
Lemma toMultipleOf8_table :
  forallb (fun n => sameNumber (toMultipleOf8 (ofZ n))
                      (ofZ (nearestMultipleOf8 n)))
    (map Z.of_nat (seq 0 1025)) = true.
Proof. vm_compute. reflexivity. Qed.

Lemma toMultipleOf8_nearest (n : Z) :
  (0 <= n <= 1024)%Z ->
  toMultipleOf8 (ofZ n) = ofZ (nearestMultipleOf8 n).
Proof.
  intros Hn. apply sameNumber_eq.
  pose proof toMultipleOf8_table as T. rewrite forallb_forall in T.
  apply T. apply in_map_iff. exists (Z.to_nat n). split; [lia | ].
  apply in_seq. lia.
Qed.

Lemma nearestMultipleOf8_spec (n : Z) :
  (nearestMultipleOf8 n mod 8 = 0
   /\ n - 4 < nearestMultipleOf8 n <= n + 4)%Z.
Proof.
  unfold nearestMultipleOf8. split.
  - rewrite Z.mul_comm. apply Z_mod_mult.
  - pose proof (Z.div_mod (n + 4) 8 ltac:(lia)).
    pose proof (Z.mod_pos_bound (n + 4) 8 ltac:(lia)). lia.
Qed.

(* ------------------------------------------------------------------ *)
(** ** The stream reader *)

Section StreamReader.

Variable rt : Runtime.
Variable params : GenerateAIImageParams.

(** A line that carries no event that parses leaves the reader as it is. *)
Lemma sseLine_unparsed (buffer : string) (lastData : value) (line : string)
    (tr : list Event) :
  lineParses rt line = false ->
  sseLine rt params buffer lastData line tr = (Returned (lastData, false), tr).
Proof.
  unfold lineParses, sseLine.
  destruct (startsWith line "data: "); [ | reflexivity].
  destruct (nonEmpty (trim (substringFrom 6 line))); [ | reflexivity].
  destruct (JSON_parse rt (trim (substringFrom 6 line))); [discriminate | ].
  reflexivity.
Qed.

Lemma malformed_line_unparsed (line : string) :
  JSON_parse rt (trim (substringFrom 6 line)) = None ->
  lineParses rt line = false.
Proof.
  intros H. unfold lineParses. rewrite H. apply andb_false_r.
Qed.

Lemma sseLines_unparsed (buffer : string) (lastData : value)
    (lines : list string) (tr : list Event) :
  forallb (fun line => negb (lineParses rt line)) lines = true ->
  sseLines rt params buffer lastData lines tr = (Returned lastData, tr).
Proof.
  induction lines as [| line rest IH]; simpl; [reflexivity | ].
  intros H. apply andb_true_iff in H as [H1 H2].
  apply negb_true_iff in H1.
  unfold bind. rewrite (sseLine_unparsed _ _ _ _ H1). apply IH, H2.
Qed.

Lemma sseLines_skip (buffer : string) (lastData : value)
    (before : list string) (line : string) (after : list string)
    (tr : list Event) :
  lineParses rt line = false ->
  sseLines rt params buffer lastData (before ++ line :: after) tr
  = sseLines rt params buffer lastData (before ++ after) tr.
Proof.
  intros Hline. revert lastData tr.
  induction before as [| l before IH]; intros lastData tr; simpl.
  - unfold bind. rewrite (sseLine_unparsed _ _ _ _ Hline). reflexivity.
  - unfold bind.
    destruct (sseLine rt params buffer lastData l tr) as [[[ld stop] | e] tr1];
      [ | reflexivity].
    destruct stop; [reflexivity | apply IH].
Qed.

Lemma split_line (line : string) :
  hasChar LF line = false ->
  split LF (line ++ nl) = [line; EmptyString].
Proof.
  induction line as [| c line IH]; simpl; [reflexivity | ].
  intros H. apply orb_false_iff in H as [Hc Hrest].
  rewrite Hc, (IH Hrest). reflexivity.
Qed.

(** A stream of one line, which carries an event without progress and
    without terminal status: the reader returns the event. *)
Lemma readEventStream_single (r : Response) (line : string) (ev : value)
    (tr : list Event) :
  stream r = Some (StreamChunk (line ++ nl) StreamDone) ->
  hasChar LF line = false ->
  startsWith line "data: " = true ->
  nonEmpty (trim (substringFrom 6 line)) = true ->
  JSON_parse rt (trim (substringFrom 6 line)) = Some ev ->
  Js.get ev "progress" = Some VUndefined ->
  isTerminalStatus (Js.getOpt ev "status") = false ->
  Js.truthy ev = true ->
  readEventStream rt params r tr = (Returned ev, tr).
Proof.
  intros Hs Hlf Hdata Hne Hparse Hprog Hterm Htruthy.
  unfold readEventStream. rewrite Hs. unfold bind at 1.
  cbn [readStream]. cbn [append]. rewrite (split_line line Hlf).
  cbn [List.last List.removelast sseLines]. unfold bind at 1. unfold bind at 1.
  unfold sseLine. rewrite Hdata, Hne, Hparse, Hprog.
  cbn [Js.isUndefined negb]. unfold bind at 1. unfold ret at 1.
  rewrite Hterm. unfold ret at 1. cbv iota beta.
  unfold ret at 1. cbv iota beta. rewrite Htruthy, Hterm.
  cbn [andb readStream]. unfold ret at 1. cbv iota beta.
  rewrite Htruthy. reflexivity.
Qed.

Lemma readStream_unparsed (s : Stream) (buffer : string) (lastData : value)
    (tr : list Event) :
  endsNormally s = true ->
  noLineParses rt s buffer = true ->
  Js.truthy lastData = false ->
  readStream rt params s buffer lastData tr = (Returned lastData, tr).
Proof.
  revert buffer. induction s as [| chunk rest IH | msg]; intros buffer Hend Hno Hld.
  - reflexivity.
  - simpl in *. apply andb_true_iff in Hno as [H1 H2].
    unfold bind. rewrite (sseLines_unparsed _ _ _ _ H1), Hld. simpl.
    apply IH; assumption.
  - discriminate.
Qed.

End StreamReader.

(* ------------------------------------------------------------------ *)
(** ** Which events the attempt and the loops can append *)

Section LoopFootprints.

Variable rt : Runtime.
Variable world : World.
Variable config : AIImageConfig.
Variable params : GenerateAIImageParams.
Variable Q : Event -> bool.

Hypothesis Q_progress : onProgress params = true -> forall p, Q (Progress p) = true.
Hypothesis Q_sleep : forall ms, Q (Sleep ms) = true.
Hypothesis Q_fetch : forall url, Q (FetchImage url) = true.
Hypothesis Q_poll : forall taskId, Q (PollPost taskId) = true.

Hint Resolve typeError_emits prop_emits startsWithM_emits toLowerCaseM_emits
  taskFailure_emits pickImage_emits resultImageOf_emits completedTask_emits
  extractImage_emits buildRequest_emits : emits.
Hint Resolve downloadImageAsBase64_emits convertToBase64_emits
  convertOptional_emits : emits.

Lemma progress_emits (p : number) : emitsOnly Q (progress params p).
Proof.
  unfold progress. destruct (onProgress params).
  - apply emitsOnly_emit, Q_progress. reflexivity.
  - apply emitsOnly_ret.
Qed.

Lemma sleep_emits (ms : Z) : emitsOnly Q (sleep ms).
Proof. apply emitsOnly_emit, Q_sleep. Qed.

Lemma pollPost_emits (taskId : value) : emitsOnly Q (emit (PollPost taskId)).
Proof. apply emitsOnly_emit, Q_poll. Qed.

Hint Resolve progress_emits sleep_emits pollPost_emits : emits.

Lemma sseLine_emits (buffer : string) (lastData : value) (line : string) :
  emitsOnly Q (sseLine rt params buffer lastData line).
Proof. unfold sseLine. emits_auto. Qed.

Hint Resolve sseLine_emits : emits.

Lemma sseLines_emits (buffer : string) (lines : list string) (lastData : value) :
  emitsOnly Q (sseLines rt params buffer lastData lines).
Proof.
  revert lastData. induction lines as [| line rest IH]; intros lastData; simpl;
    emits_auto.
Qed.

Hint Resolve sseLines_emits : emits.

Lemma readStream_emits (s : Stream) (buffer : string) (lastData : value) :
  emitsOnly Q (readStream rt params s buffer lastData).
Proof.
  revert buffer lastData.
  induction s as [| chunk rest IH | msg]; intros buffer lastData; simpl;
    emits_auto.
Qed.

Hint Resolve readStream_emits : emits.

Lemma readEventStream_emits (r : Response) :
  emitsOnly Q (readEventStream rt params r).
Proof. unfold readEventStream. emits_auto. Qed.

Lemma pollOnce_emits (taskId : value) (attempt : nat) (data : value) :
  emitsOnly Q (pollOnce rt world params taskId attempt data).
Proof. unfold pollOnce. emits_auto. Qed.

Hint Resolve readEventStream_emits pollOnce_emits : emits.

Lemma pollLoop_emits (taskId : value) (remaining : nat) (data : value) :
  emitsOnly Q (pollLoop rt world params taskId remaining data).
Proof.
  induction remaining as [| remaining IH]; simpl; emits_auto.
Qed.

Hint Resolve pollLoop_emits : emits.

Lemma awaitTask_emits (data : value) :
  emitsOnly Q (awaitTask rt world config params data).
Proof. unfold awaitTask. emits_auto. Qed.

Hint Resolve awaitTask_emits : emits.

Lemma handleStatus_emits (data : value) :
  emitsOnly Q (handleStatus rt world config params data).
Proof. unfold handleStatus. emits_auto. Qed.

Lemma responseData_emits (r : Response) :
  emitsOnly Q (responseData rt config params r).
Proof. unfold responseData. emits_auto. Qed.

Hint Resolve handleStatus_emits responseData_emits : emits.

Lemma deliver_emits (data : value) :
  emitsOnly Q (deliver rt world config params data).
Proof. unfold deliver. emits_auto. Qed.

Hint Resolve deliver_emits : emits.

Lemma received_emits (retryCount : nat) (r : Response) :
  emitsOnly Q (received rt world config params retryCount r).
Proof. unfold received. emits_auto. Qed.

Hint Resolve received_emits : emits.

(** Sending requests *)
Hypothesis Q_post : forall req, Q (Post req) = true.

Lemma post_emits (req : Request) : emitsOnly Q (emit (Post req)).
Proof. apply emitsOnly_emit, Q_post. Qed.

Hint Resolve post_emits : emits.

Lemma attempt_emits (request : Request) (retryCount : nat) :
  emitsOnly Q (attempt rt world config params request retryCount).
Proof. unfold attempt. emits_auto. Qed.

Hint Resolve attempt_emits : emits.

Lemma retryLoop_emits (request : Request) (remaining : nat) :
  emitsOnly Q (retryLoop rt world config params request remaining).
Proof.
  induction remaining as [| remaining IH]; simpl; emits_auto.
Qed.

End LoopFootprints.

Lemma generateAIImage_emits (rt : Runtime) (world : World)
    (params : GenerateAIImageParams) (Q : Event -> bool)
    (stored : option AIImageConfig) :
  (onProgress params = true -> forall p, Q (Progress p) = true) ->
  (forall ms, Q (Sleep ms) = true) ->
  (forall url, Q (FetchImage url) = true) ->
  (forall taskId, Q (PollPost taskId) = true) ->
  (forall req, Q (Post req) = true) ->
  emitsOnly Q (generateAIImage rt world stored params).
Proof.
  intros Q1 Q2 Q3 Q4 Q5.
  unfold generateAIImage. destruct stored as [cfg | ]; [ | emits_auto].
  destruct (negb (nonEmpty (apiEndpoint cfg)) || negb (nonEmpty (apiKey cfg))
            || negb (nonEmpty (modelName cfg))); [emits_auto | ].
  apply emitsOnly_bind; [apply convertToBase64_emits, Q3 | intros sb].
  destruct (negb (nonEmpty sb) || (String.length sb <? 100)%nat);
    [emits_auto | ].
  apply emitsOnly_bind; [apply convertOptional_emits, Q3 | intros role].
  apply emitsOnly_bind; [apply convertOptional_emits, Q3 | intros scene].
  apply emitsOnly_bind; [apply buildRequest_emits | intros req].
  apply emitsOnly_bind; [apply progress_emits, Q1 | intros _].
  apply retryLoop_emits; assumption.
Qed.

(* ------------------------------------------------------------------ *)
(** ** Sequencing rules *)

Lemma emits_emit_then {B} (ev : Event) (k : M B)
    (R : Outcome B -> list Event -> Prop) :
  emits k (fun o evs => R o (ev :: evs)) -> emits (emit ev ;; k) R.
Proof.
  intros Hk.
  eapply emits_bind with (R1 := fun o evs => o = Returned tt /\ evs = [ev]).
  - apply emits_emit. split; reflexivity.
  - intros a evs1 [_ ->]. exact Hk.
  - intros e evs1 [H _]. discriminate.
Qed.

Lemma emits_history_then {B} (k : list Event -> M B)
    (R : Outcome B -> list Event -> Prop) :
  (forall tr, emits (k tr) R) -> emits (let* tr := history in k tr) R.
Proof.
  intros Hk.
  eapply emits_bind with (R1 := fun o evs => (exists tr, o = Returned tr) /\ evs = []).
  - apply emits_history. intros tr. split; [exists tr; reflexivity | reflexivity].
  - intros a evs1 [_ ->]. apply Hk.
  - intros e evs1 [[tr H] _]. discriminate.
Qed.

Lemma nothing_emitted (evs : list Event) : forallb noEvent evs = true -> evs = [].
Proof. destruct evs; [reflexivity | discriminate]. Qed.

Lemma emits_silent_then {A B} (m : M A) (k : A -> M B)
    (R : Outcome B -> list Event -> Prop) :
  emitsOnly noEvent m ->
  (forall a, emits (k a) R) ->
  (forall e, R (Thrown e) []) ->
  emits (bind m k) R.
Proof.
  intros Hm Hk He.
  eapply emits_bind; [exact Hm | | ]; cbv beta.
  - intros a evs1 H. rewrite (nothing_emitted _ H). apply Hk.
  - intros e evs1 H. rewrite (nothing_emitted _ H). apply He.
Qed.

Lemma emits_silent {A} (m : M A) (R : Outcome A -> list Event -> Prop) :
  emitsOnly noEvent m -> (forall o, R o []) -> emits m R.
Proof.
  intros Hm HR. eapply emits_weaken; [exact Hm | ].
  cbv beta. intros o evs H. rewrite (nothing_emitted _ H). apply HR.
Qed.

Lemma emits_bind_ret {A B} (a : A) (k : A -> M B)
    (R : Outcome B -> list Event -> Prop) :
  emits (k a) R -> emits (bind (ret a) k) R.
Proof. intros Hk tr. exact (Hk tr). Qed.

Lemma emits_conj {A} (m : M A) (R1 R2 : Outcome A -> list Event -> Prop) :
  emits m R1 -> emits m R2 -> emits m (fun o evs => R1 o evs /\ R2 o evs).
Proof.
  intros H1 H2 tr.
  destruct (H1 tr) as (o & evs & E & P1).
  destruct (H2 tr) as (o' & evs' & E' & P2).
  rewrite E in E'. inversion E' as [[Ho Hevs]].
  apply app_inv_head in Hevs. subst o' evs'.
  exists o, evs. repeat split; assumption.
Qed.

Ltac as_emitsOnly Q :=
  match goal with |- emits ?m _ => change (emitsOnly Q m) end.

Lemma hasPoll_app (a b : list Event) : hasPoll (a ++ b) = hasPoll a || hasPoll b.
Proof. apply existsb_app. Qed.

Lemma hasPoll_pollPosts (evs : list Event) :
  hasPoll evs = true -> pollPosts evs <> [].
Proof.
  induction evs as [| ev evs IH]; simpl; [discriminate | ].
  unfold pollPosts. simpl. destruct (isPollPost ev); [discriminate | ].
  exact IH.
Qed.

(* ------------------------------------------------------------------ *)
(** ** The poll loop asks the task-result endpoint *)

Section Polling.

Variable rt : Runtime.
Variable world : World.
Variable config : AIImageConfig.
Variable params : GenerateAIImageParams.

Hint Resolve typeError_emits prop_emits startsWithM_emits toLowerCaseM_emits
  taskFailure_emits pickImage_emits resultImageOf_emits completedTask_emits
  extractImage_emits buildRequest_emits : emits.

Lemma pollOnce_polls (taskId : value) (attempt : nat) (data : value) :
  emits (pollOnce rt world params taskId attempt data)
    (fun _ evs => hasPoll evs = true).
Proof.
  unfold pollOnce, sleep.
  apply emits_emit_then.
  eapply emits_bind
    with (R1 := fun o evs => (exists a, o = Returned a) /\ forallb anyEvent evs = true).
  - unfold progress. destruct (onProgress params).
    + apply emits_emit. split; [eexists; reflexivity | reflexivity].
    + apply emits_ret. split; [eexists; reflexivity | reflexivity].
  - intros _ evs1 _.
    eapply emits_tryCatch with (R1 := fun _ evs => hasPoll evs = true).
    + apply emits_history_then. intros tr. apply emits_emit_then.
      eapply emits_weaken with (R := fun _ evs => forallb anyEvent evs = true).
      * as_emitsOnly anyEvent.
        emits_auto.
      * reflexivity.
    + intros a evs2 H. apply emits_ret. cbn. rewrite !hasPoll_app, H.
      rewrite orb_true_r. reflexivity.
    + intros e evs2 H.
      destruct (nonEmpty (message e) && negb (includes (message e) "fetch"));
        [apply emits_rethrow | apply emits_ret]; cbn;
        rewrite !hasPoll_app, H, orb_true_r; reflexivity.
  - intros e evs1 [[a H] _]. discriminate.
Qed.

Lemma pollLoop_polls (taskId : value) (remaining : nat) (data : value) :
  emits (pollLoop rt world params taskId (S remaining) data)
    (fun _ evs => hasPoll evs = true).
Proof.
  simpl pollLoop.
  eapply emits_bind; [apply pollOnce_polls | | ]; cbv beta.
  - intros step evs1 H.
    eapply emits_weaken with (R := fun _ evs => forallb anyEvent evs = true).
    + destruct step; [apply emitsOnly_ret | ].
      apply pollLoop_emits; reflexivity.
    + cbv beta. intros _ evs2 _. rewrite hasPoll_app, H. reflexivity.
  - intros e evs1 H. exact H.
Qed.

Lemma awaitTask_shape (data : value) :
  onProgress params = true ->
  emits (awaitTask rt world config params data) (fun _ evs => quietOrPolls evs).
Proof.
  intros callback. unfold awaitTask.
  repeat (apply emits_silent_then;
          [apply prop_emits | intro | intros; left; reflexivity]).
  match goal with
  | |- emits (if ?b then _ else _) _ => destruct b
  end.
  - unfold progress. rewrite callback. apply emits_emit_then.
    eapply emits_bind; [apply pollLoop_polls | | ]; cbv beta.
    + intros data' evs1 H.
      eapply emits_weaken with (R := fun _ evs => forallb anyEvent evs = true).
      * as_emitsOnly anyEvent. emits_auto.
      * cbv beta. intros _ evs2 _. right.
        change (hasPoll ([Progress (ofZ 50)] ++ (evs1 ++ evs2)) = true).
        rewrite !hasPoll_app, H, orb_true_r. reflexivity.
    + intros e evs1 H. right.
      change (hasPoll ([Progress (ofZ 50)] ++ evs1) = true).
      rewrite hasPoll_app, H, orb_true_r. reflexivity.
  - apply emits_silent; [emits_auto | intros; left; reflexivity].
Qed.

Lemma handleStatus_shape (data : value) :
  onProgress params = true ->
  emits (handleStatus rt world config params data)
    (fun _ evs => quietOrPolls evs).
Proof.
  intros callback. unfold handleStatus.
  apply emits_silent_then;
    [apply prop_emits | intros st | intros; left; reflexivity].
  destruct (Js.truthy st);
    [ | apply emits_silent; [emits_auto | intros; left; reflexivity]].
  match goal with
  | |- emits (if ?b then _ else _) _ => destruct b
  end; [apply emits_silent; [emits_auto | intros; left; reflexivity] | ].
  eapply emits_bind with (R1 := fun _ evs => quietOrPolls evs).
  - match goal with
    | |- emits (if ?b then _ else _) _ => destruct b
    end; [apply awaitTask_shape, callback | apply emits_ret; left; reflexivity].
  - intros data1 evs1 H.
    apply emits_silent; [emits_auto | ].
    intros _. rewrite app_nil_r. exact H.
  - intros e evs1 H. exact H.
Qed.

End Polling.

(* ------------------------------------------------------------------ *)
(** ** The percentages of one attempt without stream and without polling *)

Lemma notPost_not_post (ev : Event) : notPost ev = true -> isPost ev = false.
Proof. unfold notPost. destruct (isPost ev); [discriminate | reflexivity]. Qed.

Lemma notProgress_not_progress (ev : Event) :
  notProgress ev = true -> isProgress ev = false.
Proof.
  unfold notProgress. destruct (isProgress ev); [discriminate | reflexivity].
Qed.

(** Closes a goal [hasPoll evs = true \/ In l (stages k)] once the
    percentages of [evs] are known. *)
Ltac in_stages :=
  right; unfold stages; cbn [In];
  repeat first [left; reflexivity | right].

Section SingleAttempt.

Variable rt : Runtime.
Variable world : World.
Variable config : AIImageConfig.
Variable params : GenerateAIImageParams.

Hypothesis callback : onProgress params = true.

Hint Resolve typeError_emits prop_emits startsWithM_emits toLowerCaseM_emits
  taskFailure_emits pickImage_emits resultImageOf_emits completedTask_emits
  extractImage_emits buildRequest_emits : emits.

Lemma progress_any (p : number) : emitsOnly anyEvent (progress params p).
Proof. apply progress_emits. reflexivity. Qed.

Lemma download_any (url : string) :
  emitsOnly anyEvent (downloadImageAsBase64 world url).
Proof. apply downloadImageAsBase64_emits. reflexivity. Qed.

Hint Resolve progress_any download_any : emits.

Lemma download_shape (generatedImage : value) :
  emits (progress params (ofZ 95) ;;
         tryCatch (downloadImageAsBase64 world (asText rt generatedImage)) ret
           (fun error =>
              throw ImageDownloadFailed
                ("图片下载失败: " ++ message error ++ nl
                 ++ "图片URL: " ++ asText rt generatedImage)))
    (fun _ evs => progressOf evs = [ofZ 95] /\ hasPoll evs = false).
Proof.
  unfold progress. rewrite callback. apply emits_emit_then.
  eapply emits_weaken with (R := fun _ evs => forallb isFetchImage evs = true).
  - as_emitsOnly isFetchImage.
    apply emitsOnly_tryCatch;
      [apply downloadImageAsBase64_emits; reflexivity
      | intro; apply emitsOnly_ret | intro; apply emitsOnly_throw].
  - cbv beta. intros _ evs H. cbn [progressOf].
    rewrite (progressOf_none _ _ isFetchImage_not_progress H). split; [reflexivity | ].
    cbn. unfold hasPoll in *.
    pose proof (pollPosts_none _ _ isFetchImage_not_pollPost H) as P.
    unfold pollPosts in P.
    destruct (existsb isPollPost evs) eqn:X; [ | reflexivity].
    apply existsb_exists in X as (ev & Hin & Hev).
    assert (In ev (filter isPollPost evs)) as F by (apply filter_In; split; assumption).
    rewrite P in F. destruct F.
Qed.

Lemma deliver_shape (retryCount : nat) (data : value) :
  emits (deliver rt world config params data)
    (fun _ evs =>
       hasPoll evs = true
       \/ In (attemptPercent retryCount :: ofZ 70 :: progressOf evs)
            (stages retryCount)).
Proof.
  unfold deliver. unfold progress at 1. rewrite callback.
  apply emits_emit_then.
  eapply emits_bind; [apply handleStatus_shape, callback | | ]; cbv beta.
  - intros data' evs1 [Hq | Hpoll].
    + apply emits_silent_then; [apply extractImage_emits | intros g | ].
      2:{ intros e. cbn [progressOf]. rewrite app_nil_r, Hq. in_stages. }
      apply emits_silent_then; [apply startsWithM_emits | intros isHttp | ].
      2:{ intros e. cbn [progressOf]. rewrite app_nil_r, Hq. in_stages. }
      apply emits_silent_then; [apply startsWithM_emits | intros isHttps | ].
      2:{ intros e. cbn [progressOf]. rewrite app_nil_r, Hq. in_stages. }
      destruct (isHttp || isHttps).
      * eapply emits_bind; [apply download_shape | | ]; cbv beta.
        -- intros final evs2 [H95 _]. unfold progress. rewrite callback.
           apply emits_emit_then. apply emits_ret.
           cbn [progressOf]. rewrite !progressOf_app, Hq, H95. in_stages.
        -- intros e evs2 [H95 _].
           cbn [progressOf]. rewrite !progressOf_app, Hq, H95. in_stages.
      * apply emits_bind_ret. unfold progress. rewrite callback.
        apply emits_emit_then. apply emits_ret.
        cbn [progressOf]. rewrite !progressOf_app, Hq. in_stages.
    + eapply emits_weaken with (R := fun _ evs => forallb anyEvent evs = true).
      * as_emitsOnly anyEvent. emits_auto.
      * cbv beta. intros _ evs2 _. left.
        change (hasPoll ([Progress (ofZ 90)] ++ (evs1 ++ evs2)) = true).
        rewrite !hasPoll_app, Hpoll, orb_true_r. reflexivity.
  - intros e evs1 [Hq | Hpoll].
    + cbn [progressOf]. rewrite Hq. in_stages.
    + left. change (hasPoll ([Progress (ofZ 90)] ++ evs1) = true).
      rewrite hasPoll_app, Hpoll, orb_true_r. reflexivity.
Qed.

Lemma received_shape (retryCount : nat) (r : Response) :
  includes (contentType r) "text/event-stream" = false ->
  emits (received rt world config params retryCount r)
    (fun _ evs =>
       hasPoll evs = true
       \/ In (attemptPercent retryCount :: progressOf evs) (stages retryCount)).
Proof.
  intros Hr. unfold received. unfold progress. rewrite callback.
  apply emits_emit_then.
  destruct (negb (ok r)).
  - cbv zeta. destruct (status r =? 401)%Z; [apply emits_throw; in_stages | ].
    destruct ((status r =? 429)%Z && (retryCount <? maxRetries - 1)%nat);
      [ | apply emits_throw; in_stages].
    unfold sleep. apply emits_emit_then. apply emits_ret. in_stages.
  - apply emits_silent_then.
    + unfold responseData. rewrite Hr. emits_auto.
    + intros data. eapply emits_weaken; [apply (deliver_shape retryCount) | ].
      cbv beta. intros _ evs [H | H]; [left | right].
      * change (hasPoll ([Progress (ofZ 70)] ++ evs) = true).
        rewrite hasPoll_app, H, orb_true_r. reflexivity.
      * exact H.
    + intros e. in_stages.
Qed.

Hypothesis noStream :
  forall n req r,
    server world n req = FetchResponse r ->
    includes (contentType r) "text/event-stream" = false.

Lemma attempt_shape (request : Request) (retryCount : nat) :
  emits (attempt rt world config params request retryCount)
    (fun _ evs => attemptShape retryCount evs).
Proof.
  unfold attempt. unfold progress. rewrite callback.
  apply emits_emit_then. apply emits_history_then. intros tr.
  apply emits_emit_then.
  destruct (server world (Datatypes.length (posts tr)) request) as [msg | r] eqn:E.
  - apply emits_throw. split; [reflexivity | in_stages].
  - apply noStream in E.
    eapply emits_weaken.
    + apply emits_conj.
      * apply (received_shape retryCount r E).
      * apply (received_emits rt world config params notPost); reflexivity.
    + cbv beta. intros _ evs [Hshape Hposts]. split.
      * change (Datatypes.length
                  (posts ([Progress (attemptPercent retryCount); Post request] ++ evs))
                = 1%nat).
        rewrite posts_app, (posts_none _ _ notPost_not_post Hposts). reflexivity.
      * destruct Hshape as [H | H]; [left | right; exact H].
        change (hasPoll ([Progress (attemptPercent retryCount); Post request] ++ evs)
                = true).
        rewrite hasPoll_app, H, orb_true_r. reflexivity.
Qed.

Lemma retryLoop_posts (request : Request) (remaining : nat) :
  emits (retryLoop rt world config params request (S remaining))
    (fun _ evs => (1 <= List.length (posts evs))%nat).
Proof.
  cbn [retryLoop].
  eapply emits_tryCatch; [apply attempt_shape | | ]; cbv beta.
  - intros out evs1 [H1 _].
    eapply emits_weaken with (R := fun _ evs => forallb anyEvent evs = true).
    + as_emitsOnly anyEvent. destruct out; [apply emitsOnly_ret | ].
      apply retryLoop_emits; reflexivity.
    + cbv beta. intros _ evs2 _. rewrite posts_app, length_app, H1. lia.
  - intros e evs1 [H1 _].
    eapply emits_weaken with (R := fun _ evs => forallb anyEvent evs = true).
    + as_emitsOnly anyEvent.
      match goal with
      | |- emitsOnly _ (if ?b then _ else _) => destruct b
      end; [apply emitsOnly_rethrow | ].
      apply emitsOnly_bind; [apply sleep_emits; reflexivity | intro].
      apply retryLoop_emits; reflexivity.
    + cbv beta. intros _ evs2 _. rewrite posts_app, length_app, H1. lia.
Qed.

(** The whole loop: what the first attempt appended, or a second request. *)
Lemma retryLoop_shape (request : Request) :
  emits (retryLoop rt world config params request maxRetries)
    (fun _ evs => attemptShape 0 evs \/ (2 <= List.length (posts evs))%nat).
Proof.
  change maxRetries with 3%nat. cbn [retryLoop].
  change (maxRetries - 3)%nat with 0%nat.
  eapply emits_tryCatch; [apply attempt_shape | | ]; cbv beta.
  - intros out evs1 H. destruct out as [result | ].
    + apply emits_ret. left. rewrite app_nil_r. exact H.
    + eapply emits_weaken; [apply retryLoop_posts | ].
      cbv beta. intros _ evs2 H2. right.
      destruct H as [H1 _]. rewrite posts_app, length_app, H1. lia.
  - intros e evs1 H.
    change (maxRetries <=? 1)%nat with false. cbv iota.
    unfold sleep. apply emits_emit_then.
    eapply emits_weaken; [apply retryLoop_posts | ].
    cbv beta. intros _ evs2 H2. right.
    destruct H as [H1 _].
    change (2 <= Datatypes.length (posts (evs1 ++ [Sleep (1000 * Z.of_nat 1)] ++ evs2)))%nat.
    rewrite !posts_app, !length_app, H1. cbn. lia.
Qed.

End SingleAttempt.

(* ------------------------------------------------------------------ *)
(** ** The percentages of a whole call *)

Lemma steadyProgress_fetches (pre : list Event) :
  forallb isFetchImage pre = true -> steadyProgress pre.
Proof.
  intros H _ _. rewrite (progressOf_none _ _ isFetchImage_not_progress H).
  left. reflexivity.
Qed.

Lemma steadyProgress_after_fetches (pre evs : list Event) :
  forallb isFetchImage pre = true ->
  steadyProgress evs -> steadyProgress (pre ++ evs).
Proof.
  intros H Hevs. unfold steadyProgress.
  rewrite posts_app, pollPosts_app, progressOf_app.
  rewrite (posts_none _ _ isFetchImage_not_post H).
  rewrite (pollPosts_none _ _ isFetchImage_not_pollPost H).
  rewrite (progressOf_none _ _ isFetchImage_not_progress H).
  exact Hevs.
Qed.

Lemma emits_fetches_then {A B} (m : M A) (k : A -> M B) :
  emitsOnly isFetchImage m ->
  (forall a, emits (k a) (fun _ evs => steadyProgress evs)) ->
  emits (bind m k) (fun _ evs => steadyProgress evs).
Proof.
  intros Hm Hk. eapply emits_bind; [exact Hm | | ]; cbv beta.
  - intros a evs1 H. eapply emits_weaken; [apply Hk | ].
    cbv beta. intros _ evs2 H2. apply steadyProgress_after_fetches; assumption.
  - intros e evs1 H. apply steadyProgress_fetches, H.
Qed.

Lemma steadyProgress_nil : steadyProgress [].
Proof. intros _ _. left. reflexivity. Qed.

Lemma stages_steady (l : list number) :
  In l (stages 0) -> In (ofZ 10 :: l) singleAttemptReports.
Proof.
  unfold stages. cbn [In].
  intros [<- | [<- | [<- | [<- | [<- | [<- | []]]]]]];
    vm_compute; auto 10.
Qed.

Lemma singleAttemptReports_steady (l : list number) :
  In l singleAttemptReports -> nonDecreasing l = true.
Proof.
  unfold singleAttemptReports. cbn [In map].
  intros [<- | [<- | [<- | [<- | [<- | [<- | [<- | []]]]]]]];
    vm_compute; reflexivity.
Qed.

Lemma generateAIImage_steady (rt : Runtime) (world : World)
    (stored : option AIImageConfig) (params : GenerateAIImageParams) :
  onProgress params = true ->
  (forall n req r,
     server world n req = FetchResponse r ->
     includes (contentType r) "text/event-stream" = false) ->
  emits (generateAIImage rt world stored params)
    (fun _ evs => steadyProgress evs).
Proof.
  intros callback noStream. unfold generateAIImage.
  destruct stored as [config | ];
    [ | apply emits_throw, steadyProgress_nil].
  destruct (negb (nonEmpty (apiEndpoint config))
            || negb (nonEmpty (apiKey config))
            || negb (nonEmpty (modelName config)));
    [apply emits_throw, steadyProgress_nil | ].
  apply emits_fetches_then;
    [apply convertToBase64_emits; reflexivity | intros sb].
  destruct (negb (nonEmpty sb) || (String.length sb <? 100)%nat);
    [apply emits_throw, steadyProgress_nil | ].
  apply emits_fetches_then;
    [apply convertOptional_emits; reflexivity | intros role].
  apply emits_fetches_then;
    [apply convertOptional_emits; reflexivity | intros scene].
  apply emits_silent_then;
    [apply buildRequest_emits | intros request
    | intros; apply steadyProgress_nil].
  unfold progress. rewrite callback. apply emits_emit_then.
  eapply emits_weaken;
    [apply (retryLoop_shape rt world config params callback noStream) | ].
  cbv beta. intros _ evs H Hposts Hpolls.
  change (posts (Progress (ofZ 10) :: evs)) with (posts evs) in Hposts.
  change (pollPosts (Progress (ofZ 10) :: evs)) with (pollPosts evs) in Hpolls.
  cbn [progressOf].
  destruct H as [[H1 [Hpoll | Hin]] | H2].
  - destruct (hasPoll_pollPosts _ Hpoll Hpolls).
  - apply stages_steady, Hin.
  - lia.
Qed.

(* ------------------------------------------------------------------ *)
(** ** Provider detection *)

Lemma lower_char_not_C (c : ascii) : Ascii.eqb (lower_char c) "C" = false.
Proof. destruct c as [[] [] [] [] [] [] [] []]; vm_compute; reflexivity. Qed.

Lemma toLowerCase_no_C (s : string) : hasChar "C" (toLowerCase s) = false.
Proof.
  induction s as [| c s IH]; simpl; [reflexivity | ].
  rewrite lower_char_not_C, IH. reflexivity.
Qed.

Lemma prefix_hasChar (c : ascii) (needle s : string) :
  String.prefix needle s = true -> hasChar c needle = true -> hasChar c s = true.
Proof.
  revert needle. induction s as [| b s IH]; intros needle.
  - destruct needle; simpl; [discriminate | discriminate].
  - destruct needle as [| a needle]; simpl; [discriminate | ].
    destruct (ascii_dec a b) as [-> | _]; [ | discriminate].
    intros Hp Hc. destruct (Ascii.eqb b c); [reflexivity | ].
    simpl in *. apply (IH needle); assumption.
Qed.

Lemma includes_hasChar (c : ascii) (s needle : string) :
  includes s needle = true -> hasChar c needle = true -> hasChar c s = true.
Proof.
  induction s as [| b s IH]; simpl; intros H Hc.
  - rewrite orb_false_r in H. destruct needle; [discriminate | discriminate].
  - apply orb_true_iff in H as [H | H].
    + apply (prefix_hasChar c needle (String b s) H Hc).
    + rewrite (IH H Hc). apply orb_true_r.
Qed.

(** The detection of [validateAPIConfig] never finds a Gemini endpoint. *)
Lemma classifyForValidation_never_gemini (apiEndpoint : string) :
  classifyForValidation apiEndpoint <> GEMINI.
Proof.
  unfold classifyForValidation, providerOf, isGeminiAPI.
  destruct (includes (toLowerCase apiEndpoint) ":generateContent") eqn:H.
  - pose proof (includes_hasChar "C" _ _ H eq_refl) as F.
    rewrite toLowerCase_no_C in F. discriminate.
  - rewrite andb_false_r.
    destruct (isNanoBananaAPI (toLowerCase apiEndpoint)); discriminate.
Qed.

(** The detection of [generateAIImage]: GEMINI when both Gemini markers are
    in the endpoint, else ASYNC_TASK when the draw marker is, else GENERIC. *)
Lemma classify_cases (apiEndpoint : string) :
  let e := trim apiEndpoint in
  classify apiEndpoint
  = if includes e "/v1beta/models/" && includes e ":generateContent" then GEMINI
    else if includes e "/v1/draw/" then ASYNC_TASK
    else GENERIC.
Proof. reflexivity. Qed.

(* ------------------------------------------------------------------ *)
(** ** An endpoint that keeps answering 401 *)

Section Unauthorized.

Variable rt : Runtime.
Variable world : World.
Variable config : AIImageConfig.
Variable params : GenerateAIImageParams.
Variable request : Request.

Hypothesis always401 :
  forall n req, exists r, server world n req = FetchResponse r /\ status r = 401%Z.

Lemma progress_returns (p : number) :
  emits (progress params p)
    (fun o evs => (exists a, o = Returned a) /\ posts evs = []).
Proof.
  unfold progress. destruct (onProgress params).
  - apply emits_emit. split; [eexists; reflexivity | reflexivity].
  - apply emits_ret. split; [eexists; reflexivity | reflexivity].
Qed.

Lemma attempt_unauthorized (retryCount : nat) :
  emits (attempt rt world config params request retryCount)
    (fun o evs => failsAt o AuthFailed /\ List.length (posts evs) = 1%nat).
Proof.
  unfold attempt.
  eapply emits_bind; [apply progress_returns | | ]; cbv beta.
  2:{ intros e evs1 [[a H] _]. discriminate. }
  intros _ evs1 [_ H1].
  apply emits_history_then. intros tr. apply emits_emit_then.
  destruct (always401 (Datatypes.length (posts tr)) request) as (r & -> & Hst).
  unfold received.
  eapply emits_bind; [apply progress_returns | | ]; cbv beta.
  2:{ intros e evs2 [[a H] _]. discriminate. }
  intros _ evs2 [_ H2].
  assert (Hok : ok r = false) by (unfold ok; rewrite Hst; reflexivity).
  rewrite Hok, Hst. cbn [negb Z.eqb Pos.eqb]. cbv zeta.
  apply emits_throw. split.
  - eexists; split; reflexivity.
  - rewrite app_nil_r.
    change (Datatypes.length (posts (evs1 ++ [Post request] ++ evs2)) = 1%nat).
    rewrite !posts_app, H1, H2. reflexivity.
Qed.

(** The authentication error reaches the caller after three requests. *)
Lemma retryLoop_unauthorized :
  emits (retryLoop rt world config params request maxRetries)
    (fun o evs => failsAt o AuthFailed /\ List.length (posts evs) = 3%nat).
Proof.
  change maxRetries with 3%nat. cbn [retryLoop].
  eapply emits_tryCatch; [apply attempt_unauthorized | | ]; cbv beta.
  { intros a evs1 [(e & H & _) _]. discriminate. }
  intros e1 evs1 [_ H1].
  change (maxRetries <=? 1)%nat with false. cbv iota.
  unfold sleep. apply emits_emit_then.
  eapply emits_tryCatch; [apply attempt_unauthorized | | ]; cbv beta.
  { intros a evs2 [(e & H & _) _]. discriminate. }
  intros e2 evs2 [_ H2].
  change (maxRetries <=? 2)%nat with false. cbv iota.
  apply emits_emit_then.
  eapply emits_tryCatch; [apply attempt_unauthorized | | ]; cbv beta.
  { intros a evs3 [(e & H & _) _]. discriminate. }
  intros e3 evs3 [(e & He & Hsite) H3].
  change (maxRetries <=? 3)%nat with true. cbv iota.
  apply emits_rethrow. split.
  - exists e3. inversion He; subst. split; [reflexivity | exact Hsite].
  - rewrite app_nil_r.
    match goal with
    | |- Datatypes.length (posts (evs1 ++ ?s1 :: evs2 ++ ?s2 :: evs3)) = _ =>
        change (Datatypes.length
                  (posts (evs1 ++ [s1] ++ evs2 ++ [s2] ++ evs3)) = 3%nat)
    end.
    rewrite !posts_app, !length_app, H1, H2, H3. reflexivity.
Qed.

End Unauthorized.

(* ------------------------------------------------------------------ *)
(** ** C1: The authentication error *)

(** C1 (line 745 says that an authentication error is not retried, but the
    error is thrown inside the [try] whose [catch] retries).  With an
    endpoint that answers 401 to every request, the call ends with the
    authentication error only after three requests. *)
Theorem C1_unauthorized_is_retried :
  let r := run (generateAIImage plainBrowser (constantServer unauthorized)
                  (Some openAIConfig) someParams) in
  failsAt (fst r) AuthFailed /\ List.length (posts (snd r)) = 3%nat.
Proof.
  vm_compute. split; [eexists; split; reflexivity | reflexivity].
Qed.

(* ------------------------------------------------------------------ *)
(** ** C2: The poll timeout *)

(** C2 (the poll loop is documented as waiting at most 60 seconds, but its
    timeout is thrown inside the [try] of the retry loop).  With a task that
    stays pending, the call submits the task three times and polls ninety
    times before it ends with the timeout, whose message carries the task
    id. *)
Theorem C2_poll_timeout_is_retried :
  let r := run (generateAIImage plainBrowser pendingForever
                  (Some nanoBananaConfig) someParams) in
  (exists e, fst r = Thrown e /\ site e = TaskTimeout
             /\ includes (message e) "task-1" = true)
  /\ List.length (posts (snd r)) = 3%nat
  /\ List.length (pollPosts (snd r)) = 90%nat.
Proof.
  vm_compute. split; [eexists; repeat split; reflexivity | split; reflexivity].
Qed.

(* ------------------------------------------------------------------ *)
(** ** C3: The minimum size of an image *)

(** C3, as stated, fails: a data URI of 102 characters whose payload decodes
    to 60 bytes is accepted by the normaliser, and the call sends it in the
    request body. *)
Lemma C3_short_image_accepted :
  decodedByteLength (repeatChar "A" 80) = 60%nat
  /\ fst (run (convertToBase64 (constantServer unauthorized) (pngDataUri 80)))
     = Returned (pngDataUri 80)
  /\ exists req,
       In (Post req)
          (snd (run (generateAIImage plainBrowser
                       (constantServer (jsonResponse 200 imageJson))
                       (Some geminiConfig) (withStoryboard (pngDataUri 80)))))
       /\ bodyImages (body req) = [repeatChar "A" 80].
Proof.
  split; [reflexivity | split; [reflexivity | ]].
  eexists; split.
  - vm_compute. right; right; left; reflexivity.
  - reflexivity.
Qed.

(** C3, amended.  The normaliser measures the encoded text, not the decoded
    bytes: it never sends a request to the endpoint; an image it accepts is a
    text of at least 100 characters, and when the input is a data URI the
    output is the input, of the shape data:image/<type>;base64,<payload> with
    a payload of at least 50 characters; a storyboard image it rejects makes
    the call fail without any request to the endpoint. *)
Theorem C3_normalize_min_length (world : World) (img : string)
    (tr tr' : list Event) (o : Outcome string) :
  convertToBase64 world img tr = (o, tr') ->
  posts tr' = posts tr
  /\ match o with
     | Returned out =>
         (100 <= String.length out)%nat
         /\ (startsWith img "data:" = true ->
             out = img
             /\ exists mime payload,
                  matchDataUri "image/" img = Some (mime, payload)
                  /\ (50 <= String.length payload)%nat)
     | Thrown _ =>
         forall rt stored params,
           storyboardImage params = img ->
           exists e' tr'',
             generateAIImage rt world stored params tr = (Thrown e', tr'')
             /\ posts tr'' = posts tr
     end.
Proof.
  intros E. split; [eapply convertToBase64_posts; exact E | ].
  destruct o as [out | e].
  - split; [eapply convertToBase64_length; exact E | ].
    intros Hdata.
    destruct (convertToBase64_dataUri _ _ _ _ _ Hdata E) as (H1 & _ & H2).
    split; assumption.
  - intros rt stored params Himg. unfold generateAIImage.
    destruct stored as [config | ]; [ | do 2 eexists; split; reflexivity].
    destruct (negb (nonEmpty (apiEndpoint config))
              || negb (nonEmpty (apiKey config))
              || negb (nonEmpty (modelName config)));
      [do 2 eexists; split; reflexivity | ].
    unfold bind at 1. rewrite Himg, E.
    do 2 eexists; split; [reflexivity | ].
    eapply convertToBase64_posts; exact E.
Qed.

(** The theorem on a PNG data URI of 142 characters. *)
Lemma C3_normalize_min_length_witness :
  posts (snd (run (convertToBase64 (constantServer unauthorized) (pngDataUri 120))))
  = posts []
  /\ (100 <= String.length (pngDataUri 120))%nat.
Proof.
  pose proof (C3_normalize_min_length (constantServer unauthorized)
                (pngDataUri 120) [] [] (Returned (pngDataUri 120)) eq_refl)
    as [H1 [H2 _]].
  split; [exact H1 | exact H2].
Defined.

(* ------------------------------------------------------------------ *)
(** ** C4: The pixel size of the task request *)

(** C4, as stated, fails: for the ratio 2.39:1 of the settings panel the
    fitted height is 1024 / 2.39 = 428.45..., rounded to 428, and the height
    placed in the body is 432, above both. *)
Lemma C4_rounds_up :
  fitToBase "2.39:1" (ofZ 1024) = (ofZ 1024, ofZ 428)
  /\ calculateImageSize "2.39:1" (ofZ 1024) = (ofZ 1024, ofZ 432)
  /\ ltb (div (ofZ 1024) (div (parseFloat "2.39") (parseFloat "1"))) (ofZ 432)
     = true
  /\ exists req,
       fst (run (buildRequest plainBrowser nanoBananaConfig
                   (withAspectRatio "2.39:1") (pngDataUri 200) None None))
       = Returned req
       /\ body req
          = NanoBananaBody "nano-banana" "a cat on a roof" "1024x432" "2.39:1"
              "" false [repeatChar "A" 200] None.
Proof.
  repeat split; try (vm_compute; reflexivity).
  eexists; split; vm_compute; reflexivity.
Qed.

(** C4, amended.  In the size that [calculateImageSize] fits to the base
    1024, the side of the larger number of the ratio (the width when
    [w >= h], the height otherwise) is 1024, for every ratio text.  When the
    other fitted side, [Math.round(1024 / (w / h))] or
    [Math.round(1024 * (w / h))], is an integer [n] between 0 and 1024, the
    size placed in the ASYNC_TASK body is 1024 for the side of the larger
    number and, for the other side, the multiple of 8 NEAREST to [n] (the
    upper one at a tie): a multiple of 8 within 4 of [n] and at most 1024,
    which is above [n] when the rest of [n] modulo 8 is 4 or more, and not
    above [n] otherwise. *)
Theorem C4_size_in_body (rt : Runtime) (config : AIImageConfig)
    (params : GenerateAIImageParams) (sb : string) (role scene : option string)
    (tr tr' : list Event) (req : Request) (n : Z) :
  buildRequest rt config params sb role scene tr = (Returned req, tr') ->
  classify (apiEndpoint config) = ASYNC_TASK ->
  let ratio := orElse (aspectRatio params) "16:9" in
  smallerSide ratio (fitToBase ratio (ofZ 1024)) = ofZ n ->
  (0 <= n <= 1024)%Z ->
  largerSide ratio (fitToBase ratio (ofZ 1024)) = ofZ 1024
  /\ largerSide ratio (calculateImageSize ratio (ofZ 1024)) = ofZ 1024
  /\ smallerSide ratio (calculateImageSize ratio (ofZ 1024))
     = ofZ (nearestMultipleOf8 n)
  /\ imageSizeOf (body req)
     = Some (sizeText rt ratio (ofZ 1024) (ofZ (nearestMultipleOf8 n)))
  /\ (nearestMultipleOf8 n mod 8 = 0
      /\ n - 4 < nearestMultipleOf8 n <= n + 4
      /\ nearestMultipleOf8 n <= 1024
      /\ (4 <= n mod 8 -> n < nearestMultipleOf8 n)
      /\ (n mod 8 < 4 -> nearestMultipleOf8 n <= n))%Z.
Proof.
  intros E Hp ratio Hsmall Hn.
  assert (H1024 : toMultipleOf8 (ofZ 1024) = ofZ 1024) by (vm_compute; reflexivity).
  assert (Hsize : imageSizeOf (body req)
                  = Some (Number_toString rt (fst (calculateImageSize ratio (ofZ 1024)))
                          ++ "x"
                          ++ Number_toString rt (snd (calculateImageSize ratio (ofZ 1024))))).
  { revert E. unfold buildRequest, classify in *.
    destruct (negb (URL_canParse rt (trim (apiEndpoint config))));
      [discriminate | ].
    fold ratio. rewrite Hp.
    destruct (calculateImageSize ratio (ofZ 1024)) as [width height].
    destruct (negb (nonEmpty (extractPureBase64 sb))
              || (String.length (extractPureBase64 sb) <? 100)%nat);
      [discriminate | ].
    intros E; inversion E; subst; reflexivity. }
  assert (Hfit : fitToBase ratio (ofZ 1024)
                 = if landscape ratio then (ofZ 1024, ofZ n)
                   else (ofZ n, ofZ 1024)).
  { revert Hsmall. unfold smallerSide, landscape, ratioWidth, ratioHeight,
      fitToBase. cbv zeta.
    destruct (geb _ _); cbn [fst snd]; intros ->; reflexivity. }
  assert (Hcalc : calculateImageSize ratio (ofZ 1024)
                  = if landscape ratio
                    then (ofZ 1024, ofZ (nearestMultipleOf8 n))
                    else (ofZ (nearestMultipleOf8 n), ofZ 1024)).
  { unfold calculateImageSize. rewrite Hfit.
    destruct (landscape ratio);
      rewrite H1024, (toMultipleOf8_nearest n Hn); reflexivity. }
  split; [unfold largerSide; rewrite Hfit; destruct (landscape ratio); reflexivity | ].
  split; [unfold largerSide; rewrite Hcalc; destruct (landscape ratio); reflexivity | ].
  split; [unfold smallerSide; rewrite Hcalc; destruct (landscape ratio); reflexivity | ].
  split.
  { rewrite Hsize, Hcalc. unfold sizeText.
    destruct (landscape ratio); reflexivity. }
  destruct (nearestMultipleOf8_spec n) as [Hmod Hnear].
  split; [exact Hmod | split; [exact Hnear | ]].
  unfold nearestMultipleOf8 in *.
  pose proof (Z.div_mod (n + 4) 8 ltac:(lia)).
  pose proof (Z.mod_pos_bound (n + 4) 8 ltac:(lia)).
  pose proof (Z.div_mod n 8 ltac:(lia)).
  pose proof (Z.mod_pos_bound n 8 ltac:(lia)).
  repeat split; lia.
Qed.

(** The theorem on the ratio 3:2, whose fitted height is 683. *)
Lemma C4_size_in_body_witness :
  exists req,
    fst (run (buildRequest plainBrowser nanoBananaConfig
                (withAspectRatio "3:2") (pngDataUri 200) None None))
    = Returned req
    /\ imageSizeOf (body req) = Some "1024x680".
Proof.
  destruct (buildRequest plainBrowser nanoBananaConfig (withAspectRatio "3:2")
              (pngDataUri 200) None None [])
    as [[req | e] tr'] eqn:E; [ | vm_compute in E; discriminate].
  exists req. split; [unfold run; rewrite E; reflexivity | ].
  assert (Hn : (0 <= 683 <= 1024)%Z) by (split; discriminate).
  assert (Hside : smallerSide "3:2" (fitToBase "3:2" (ofZ 1024)) = ofZ 683)
    by (vm_compute; reflexivity).
  destruct (C4_size_in_body _ _ _ _ _ _ _ _ _ 683%Z E eq_refl Hside Hn)
    as (_ & _ & _ & H & _).
  rewrite H. vm_compute. reflexivity.
Defined.

(* ------------------------------------------------------------------ *)
(** ** C5: The order of the images *)

(** C5.  For the three providers the images of the built body are, in the
    order of the body, the storyboard image, then the role image when it is
    in the body, then the scene image when it is in the body (a reference is
    in the body when it is given and passes the length guard of the
    provider); building with the role and scene images exchanged exchanges
    their positions; and three images that pass the guard appear at the
    positions of the slots they were given in. *)
Theorem C5_image_order (rt : Runtime) (config : AIImageConfig)
    (params : GenerateAIImageParams) (sb : string) (role scene : option string)
    (tr tr' : list Event) (req : Request) :
  buildRequest rt config params sb role scene tr = (Returned req, tr') ->
  let p := classify (apiEndpoint config) in
  bodyImages (body req)
  = (encodeFor p sb :: referenceFor p role ++ referenceFor p scene)%list
  /\ (forall tr2 tr2' req2,
        buildRequest rt config params sb scene role tr2 = (Returned req2, tr2') ->
        bodyImages (body req2)
        = (encodeFor p sb :: referenceFor p scene ++ referenceFor p role)%list)
  /\ (forall r s,
        role = Some r -> scene = Some s ->
        (100 <= String.length (encodeFor p r))%nat ->
        (100 <= String.length (encodeFor p s))%nat ->
        bodyImages (body req) = [encodeFor p sb; encodeFor p r; encodeFor p s]).
Proof.
  intros E p. split; [ | split].
  - eapply buildRequest_images; exact E.
  - intros tr2 tr2' req2 E2. eapply buildRequest_images; exact E2.
  - intros r s -> -> Hr Hs.
    rewrite (buildRequest_images _ _ _ _ _ _ _ _ _ E).
    fold p. rewrite (referenceFor_accepted p r Hr), (referenceFor_accepted p s Hs).
    reflexivity.
Qed.

(** The theorem on a Gemini request with the three images. *)
Lemma C5_image_order_witness :
  exists req,
    bodyImages (body req)
    = [repeatChar "A" 200; repeatChar "A" 150; repeatChar "A" 120].
Proof.
  destruct (buildRequest plainBrowser geminiConfig someParams (pngDataUri 200)
              (Some (pngDataUri 150)) (Some (pngDataUri 120)) [])
    as [[req | e] tr'] eqn:E; [ | vm_compute in E; discriminate].
  exists req.
  destruct (C5_image_order _ _ _ _ _ _ _ _ _ E) as [H _].
  rewrite H. vm_compute. reflexivity.
Defined.

(* ------------------------------------------------------------------ *)
(** ** C6: The percentages reported *)

(** C6, as stated, fails: when the first attempt is answered by a 500 and the
    second one succeeds, the callback receives 10, 30, 70, 40, 70, 90, 100. *)
Lemma C6_progress_goes_back :
  let r := run (generateAIImage plainBrowser
                  (serverAfter serverError (jsonResponse 200 imageJson))
                  (Some openAIConfig) someParams) in
  progressOf (snd r) = map ofZ [10; 30; 70; 40; 70; 90; 100]%Z
  /\ nonDecreasing (progressOf (snd r)) = false.
Proof. vm_compute. split; reflexivity. Qed.

(** C6, amended.  When a call sends a single request to the endpoint (no
    retry), polls no task and receives no event stream, the percentages
    passed to [onProgress] over the call are one of seven sequences: nothing
    (the call fails before its request, or has no callback); 10, 30;
    10, 30, 70; 10, 30, 70, 90; 10, 30, 70, 90, 95; 10, 30, 70, 90, 100; or
    10, 30, 70, 90, 95, 100.  So they do not decrease. *)
Theorem C6_single_attempt_progress (rt : Runtime) (world : World)
    (stored : option AIImageConfig) (params : GenerateAIImageParams)
    (out : Outcome GenerateAIImageResult) (tr' : list Event) :
  (forall n req r,
     server world n req = FetchResponse r ->
     includes (contentType r) "text/event-stream" = false) ->
  generateAIImage rt world stored params [] = (out, tr') ->
  (List.length (posts tr') <= 1)%nat ->
  pollPosts tr' = [] ->
  In (progressOf tr')
    (map (map ofZ)
       [ []; [10; 30]; [10; 30; 70]; [10; 30; 70; 90]; [10; 30; 70; 90; 95];
         [10; 30; 70; 90; 100]; [10; 30; 70; 90; 95; 100] ]%Z)
  /\ nonDecreasing (progressOf tr') = true.
Proof.
  intros noStream E Hposts Hpolls.
  assert (H : In (progressOf tr') singleAttemptReports).
  { destruct (onProgress params) eqn:callback.
    - destruct (emits_run _ _ _ _ _
                  (generateAIImage_steady rt world stored params callback noStream) E)
        as (evs & -> & H).
      apply H; assumption.
    - assert (F : emitsOnly notProgress (generateAIImage rt world stored params)).
      { apply generateAIImage_emits; try reflexivity.
        rewrite callback. discriminate. }
      destruct (emits_run _ _ _ _ _ F E) as (evs & -> & H).
      cbn [app].
      rewrite (progressOf_none _ _ notProgress_not_progress H).
      left. reflexivity. }
  split; [exact H | apply singleAttemptReports_steady, H].
Qed.

(** The theorem on a call answered at once by a JSON response with an image. *)
Lemma C6_single_attempt_progress_witness :
  nonDecreasing
    (progressOf (snd (run (generateAIImage plainBrowser
                             (constantServer (jsonResponse 200 imageJson))
                             (Some openAIConfig) someParams))))
  = true.
Proof.
  apply (C6_single_attempt_progress plainBrowser
           (constantServer (jsonResponse 200 imageJson))
           (Some openAIConfig) someParams
           (fst (run (generateAIImage plainBrowser
                        (constantServer (jsonResponse 200 imageJson))
                        (Some openAIConfig) someParams)))).
  - intros n req r H. inversion H. reflexivity.
  - apply surjective_pairing.
  - vm_compute. apply le_n.
  - vm_compute. reflexivity.
Defined.

(* ------------------------------------------------------------------ *)
(** ** C7: The end of an event stream *)

(** C7, as stated, fails: a stream whose only event has no status ends
    without a terminal event, yet reading it succeeds with that event and the
    call returns the image of the event. *)
Lemma C7_unterminated_stream_accepted :
  fst (run (readEventStream imageEventBrowser someParams imageEventStream))
  = Returned imageJson
  /\ fst (run (generateAIImage imageEventBrowser
                 (constantServer imageEventStream)
                 (Some openAIConfig) someParams))
     = Returned {| image := pngDataUri 8; model := "dall-e-3" |}.
Proof. split; vm_compute; reflexivity. Qed.

Section CalmStreams.

Variable rt : Runtime.
Variable params : GenerateAIImageParams.

(** A line without a terminal status leaves its event in [lastData], if it
    carries one, reports at most a percentage and does not end the loop. *)
Lemma sseLine_event (buffer : string) (lastData : value) (line : string)
    (tr : list Event) :
  calmLine rt line = true ->
  exists evs,
    forallb isProgress evs = true
    /\ sseLine rt params buffer lastData line tr
       = (Returned (match lineEvent rt line with
                    | Some eventData => eventData
                    | None => lastData
                    end, false), (tr ++ evs)%list).
Proof.
  unfold calmLine, lineEvent, sseLine.
  destruct (startsWith line "data: ");
    [ | intros _; exists []; rewrite app_nil_r; split; reflexivity].
  cbv zeta.
  destruct (nonEmpty (trim (substringFrom 6 line)));
    [ | intros _; exists []; rewrite app_nil_r; split; reflexivity].
  destruct (JSON_parse rt (trim (substringFrom 6 line))) as [eventData | ];
    [ | intros _; exists []; rewrite app_nil_r; split; reflexivity].
  intros Hcalm. apply negb_true_iff in Hcalm.
  destruct (Js.get eventData "progress") as [p | ];
    [ | exists []; rewrite app_nil_r; split; reflexivity].
  rewrite Hcalm. unfold bind, progress.
  destruct (negb (Js.isUndefined p)); [destruct (onProgress params) | ].
  - exists [Progress (streamPercent rt p)]. split; reflexivity.
  - exists []. rewrite app_nil_r. split; reflexivity.
  - exists []. rewrite app_nil_r. split; reflexivity.
Qed.

Lemma sseLines_event (buffer : string) (lines : list string)
    (lastData : value) (tr : list Event) :
  forallb (calmLine rt) lines = true ->
  exists evs,
    forallb isProgress evs = true
    /\ sseLines rt params buffer lastData lines tr
       = (Returned (lastEvent rt lastData lines), (tr ++ evs)%list).
Proof.
  revert lastData tr.
  induction lines as [| line rest IH]; intros lastData tr Hcalm.
  - exists []. rewrite app_nil_r. split; reflexivity.
  - cbn [forallb] in Hcalm. apply andb_prop in Hcalm.
    destruct Hcalm as [Hline Hrest].
    destruct (sseLine_event buffer lastData line tr Hline) as (evs1 & H1 & E1).
    cbn [sseLines lastEvent]. unfold bind. rewrite E1.
    destruct (IH (match lineEvent rt line with
                  | Some eventData => eventData
                  | None => lastData
                  end) (tr ++ evs1)%list Hrest) as (evs2 & H2 & E2).
    exists (evs1 ++ evs2)%list. rewrite forallb_app, H1, H2, app_assoc.
    split; [reflexivity | exact E2].
Qed.

Lemma lastEvent_calm (lines : list string) (lastData : value) :
  forallb (calmLine rt) lines = true ->
  endsStream lastData = false ->
  endsStream (lastEvent rt lastData lines) = false.
Proof.
  revert lastData.
  induction lines as [| line rest IH]; intros lastData Hcalm Hld; [exact Hld | ].
  cbn [forallb] in Hcalm. apply andb_prop in Hcalm.
  destruct Hcalm as [Hline Hrest].
  cbn [lastEvent]. apply IH; [exact Hrest | ].
  unfold calmLine in Hline.
  destruct (lineEvent rt line) as [eventData | ]; [ | exact Hld].
  apply negb_true_iff in Hline. unfold endsStream.
  rewrite Hline. apply andb_false_r.
Qed.

(** The reading of a stream that ends normally and has no terminal event:
    it returns what the lines leave in [lastData], and reports percentages
    only. *)
Lemma readStream_event (s : Stream) (buffer : string) (lastData : value)
    (tr : list Event) :
  endsNormally s = true ->
  calmStream rt s buffer = true ->
  endsStream lastData = false ->
  exists evs,
    forallb isProgress evs = true
    /\ readStream rt params s buffer lastData tr
       = (Returned (lastEventOf rt s buffer lastData), (tr ++ evs)%list).
Proof.
  revert buffer lastData tr.
  induction s as [| chunk rest IH | msg]; intros buffer lastData tr Hend Hcalm Hld.
  - exists []. rewrite app_nil_r. split; reflexivity.
  - cbn [endsNormally calmStream] in *. cbv zeta in Hcalm.
    apply andb_prop in Hcalm. destruct Hcalm as [Hlines Hrest].
    destruct (sseLines_event (List.last (split LF (buffer ++ chunk)) "")
                (List.removelast (split LF (buffer ++ chunk))) lastData tr Hlines)
      as (evs1 & H1 & E1).
    pose proof (lastEvent_calm _ _ Hlines Hld) as Hld'.
    cbn [readStream lastEventOf]. cbv zeta. unfold bind. rewrite E1.
    unfold endsStream in Hld'. rewrite Hld'.
    destruct (IH (List.last (split LF (buffer ++ chunk)) "")
                (lastEvent rt lastData
                   (List.removelast (split LF (buffer ++ chunk))))
                (tr ++ evs1)%list Hend Hrest Hld') as (evs2 & H2 & E2).
    exists (evs1 ++ evs2)%list. rewrite forallb_app, H1, H2, app_assoc.
    split; [reflexivity | exact E2].
  - discriminate.
Qed.

(** When no complete line parses, the lines leave [lastData] as it was. *)
Lemma lastEvent_unparsed (lines : list string) (lastData : value) :
  forallb (fun line => negb (lineParses rt line)) lines = true ->
  lastEvent rt lastData lines = lastData.
Proof.
  induction lines as [| line rest IH]; intros H; [reflexivity | ].
  cbn [forallb] in H. apply andb_prop in H. destruct H as [Hline Hrest].
  cbn [lastEvent].
  replace (lineEvent rt line) with (@None value); [apply IH, Hrest | ].
  apply negb_true_iff in Hline. unfold lineParses in Hline. unfold lineEvent.
  destruct (startsWith line "data: "); [ | reflexivity].
  cbv zeta.
  destruct (nonEmpty (trim (substringFrom 6 line))); [ | reflexivity].
  destruct (JSON_parse rt (trim (substringFrom 6 line)));
    [discriminate | reflexivity].
Qed.

Lemma lastEventOf_unparsed (s : Stream) (buffer : string) (lastData : value) :
  noLineParses rt s buffer = true ->
  lastEventOf rt s buffer lastData = lastData.
Proof.
  revert buffer. induction s as [| chunk rest IH | msg]; intros buffer H;
    [reflexivity | | reflexivity].
  cbn [noLineParses lastEventOf] in *. cbv zeta in *.
  apply andb_prop in H. destruct H as [H1 H2].
  rewrite (lastEvent_unparsed _ _ H1). apply IH, H2.
Qed.

Lemma unparsed_calm (s : Stream) (buffer : string) :
  noLineParses rt s buffer = true -> calmStream rt s buffer = true.
Proof.
  revert buffer. induction s as [| chunk rest IH | msg]; intros buffer H;
    [reflexivity | | reflexivity].
  cbn [noLineParses calmStream] in *. cbv zeta in *.
  apply andb_prop in H. destruct H as [H1 H2].
  rewrite (IH _ H2), andb_true_r.
  apply forallb_forall. intros line Hin.
  rewrite forallb_forall in H1. specialize (H1 line Hin).
  apply negb_true_iff in H1. unfold lineParses in H1.
  unfold calmLine, lineEvent.
  destruct (startsWith line "data: "); [ | reflexivity].
  cbv zeta.
  destruct (nonEmpty (trim (substringFrom 6 line))); [ | reflexivity].
  destruct (JSON_parse rt (trim (substringFrom 6 line)));
    [discriminate | reflexivity].
Qed.

End CalmStreams.

(** C7, amended.  Take an event stream that the transport ends normally and
    of which no complete line carries an event with a terminal status.  Its
    reading reports percentages only, and its outcome is decided by the
    value left in [lastData], which is the event of the last complete
    [data: ] line that parses, [null] when there is none: the reading fails
    with the error of line 832 exactly when this value is falsy, that is
    when no line carried an event that parses or when the last event that
    parses is [null], [false], 0 or an empty text; otherwise the reading
    returns this last event, although it has no terminal status, and the
    event goes to the extraction.  A line that starts with [data: ] and
    does not parse is skipped: the lines of a chunk are read as if it were
    not there. *)
Theorem C7_stream_reader (rt : Runtime) (params : GenerateAIImageParams) :
  (forall r s tr,
     stream r = Some s ->
     endsNormally s = true ->
     calmStream rt s "" = true ->
     let final := lastEventOf rt s "" VNull in
     exists evs,
       forallb isProgress evs = true
       /\ snd (readEventStream rt params r tr) = (tr ++ evs)%list
       /\ if Js.truthy final
          then fst (readEventStream rt params r tr) = Returned final
          else fst (readEventStream rt params r tr)
               = Thrown {| site := StreamUnparsed;
                           message := "无法从SSE流中解析数据" |})
  /\ (forall s, noLineParses rt s "" = true ->
        calmStream rt s "" = true /\ lastEventOf rt s "" VNull = VNull)
  /\ (forall buffer lastData before line after tr,
        startsWith line "data: " = true ->
        JSON_parse rt (trim (substringFrom 6 line)) = None ->
        sseLines rt params buffer lastData (before ++ line :: after) tr
        = sseLines rt params buffer lastData (before ++ after) tr).
Proof.
  split; [ | split].
  - intros r s tr Hs Hend Hcalm final.
    destruct (readStream_event rt params s "" VNull tr Hend Hcalm eq_refl)
      as (evs & Hevs & E).
    exists evs. split; [exact Hevs | ].
    unfold readEventStream. rewrite Hs. unfold bind. rewrite E.
    fold final. destruct (Js.truthy final); split; reflexivity.
  - intros s H. split; [apply unparsed_calm, H | apply lastEventOf_unparsed, H].
  - intros buffer lastData before line after tr _ Hbad.
    apply sseLines_skip, malformed_line_unparsed, Hbad.
Qed.

(** The theorem on a stream of two events whose last event is [null]: an
    event was parsed, and the reading fails. *)
Lemma C7_stream_reader_witness :
  lineEvent nullEventBrowser ("data: " ++ imageEventText) = Some imageJson
  /\ failsAt (fst (run (readEventStream nullEventBrowser someParams
                          nullEventStream)))
       StreamUnparsed.
Proof.
  split; [vm_compute; reflexivity | ].
  destruct (proj1 (C7_stream_reader nullEventBrowser someParams)
              nullEventStream
              (StreamChunk ("data: " ++ imageEventText ++ nl ++ "data: nu")
                 (StreamChunk ("ll" ++ nl) StreamDone))
              [] eq_refl eq_refl eq_refl)
    as (evs & _ & _ & H).
  assert (Hfinal : Js.truthy
                     (lastEventOf nullEventBrowser
                        (StreamChunk ("data: " ++ imageEventText ++ nl ++ "data: nu")
                           (StreamChunk ("ll" ++ nl) StreamDone)) "" VNull)
                   = false) by (vm_compute; reflexivity).
  rewrite Hfinal in H.
  eexists. split; [exact H | reflexivity].
Defined.

(* ------------------------------------------------------------------ *)
(** ** C8: The configuration probe *)

(** C8, as stated, fails in its second half: the probe fails on a 500
    answered in JSON, which is neither a network failure nor an HTML
    response, and it fails without sending anything on an endpoint under
    /docs/. *)
Lemma C8_other_hard_failures :
  failsAt (fst (run (validateAPIConfig plainBrowser (constantServer serverError)
                       openAIConfig)))
    ProbeRejected
  /\ contentType serverError = "application/json"
  /\ (let r := run (validateAPIConfig plainBrowser
                      (constantServer (jsonResponse 200 imageJson))
                      {| apiEndpoint := "https://api.example.com/docs/v1/images";
                         apiKey := "sk-test";
                         modelName := "dall-e-3" |}) in
      failsAt (fst r) DocumentationUrl /\ snd r = []).
Proof.
  vm_compute.
  repeat split; try reflexivity; eexists; split; reflexivity.
Qed.

(** C8, amended.  The outcome of the probe, for every configuration and
    every answer.  Before any request it fails on an endpoint that is empty,
    that looks like a documentation page or that does not parse as a URL.
    Otherwise it sends the test request, and nothing else.  It fails when
    the request is rejected by the network, and when the response has an
    HTML content type, whatever its status.  With another content type it
    returns true on the statuses 400, 401, 403, 422 and 429, whatever the
    body says, and on a success status; on any other status it returns
    true when the body mentions the interface and fails (line 207) when it
    does not. *)
Theorem C8_validate_outcome (rt : Runtime) (world : World)
    (config : AIImageConfig) (tr : list Event) :
  let out := fst (validateAPIConfig rt world config tr) in
  let tr' := snd (validateAPIConfig rt world config tr) in
  let request := testRequest config (toLowerCase (apiEndpoint config)) in
  if negb (nonEmpty (apiEndpoint config)) then
    failsAt out EndpointEmpty /\ tr' = tr
  else if looksLikeDocumentation (toLowerCase (apiEndpoint config)) then
    failsAt out DocumentationUrl /\ tr' = tr
  else if negb (URL_canParse rt (apiEndpoint config)) then
    failsAt out EndpointInvalid /\ tr' = tr
  else
    tr' = (tr ++ [Post request])%list
    /\ match server world (List.length (posts tr)) request with
       | FetchFailed msg =>
           out = Thrown {| site := NetworkFailure; message := msg |}
       | FetchResponse r =>
           if includes (contentType r) "text/html" then
             failsAt out HtmlResponse
           else if plausibleStatus (status r) then out = Returned true
           else if ok r then out = Returned true
           else if apiMentioned rt r then out = Returned true
           else failsAt out ProbeRejected
       end.
Proof.
  intros out tr' request. subst out tr'.
  unfold validateAPIConfig.
  destruct (negb (nonEmpty (apiEndpoint config)));
    [split; [eexists; split; reflexivity | reflexivity] | ].
  cbv zeta.
  destruct (looksLikeDocumentation (toLowerCase (apiEndpoint config)));
    [split; [eexists; split; reflexivity | reflexivity] | ].
  destruct (negb (URL_canParse rt (apiEndpoint config)));
    [split; [eexists; split; reflexivity | reflexivity] | ].
  fold request. unfold bind, history, emit. cbv beta zeta iota.
  destruct (server world (List.length (posts tr)) request) as [msg | r];
    [split; reflexivity | ].
  assert (Hempty : includes "" "Gemini" || includes "" "candidates" = false)
    by reflexivity.
  destruct (includes (contentType r) "text/html");
    [split; [reflexivity | eexists; split; reflexivity] | ].
  unfold plausibleStatus, jsonBlockAccepts, apiMentioned.
  destruct (status r =? 401)%Z eqn:E401.
  { rewrite !orb_true_r. cbn [orb negb].
    destruct (includes (contentType r) "application/json");
      [destruct (json r) as [m | d];
       [ | destruct (mentionsApi (JSON_stringify rt d))] | ];
      split; reflexivity. }
  destruct (status r =? 403)%Z eqn:E403.
  { rewrite !orb_true_r. cbn [orb negb].
    destruct (includes (contentType r) "application/json");
      [destruct (json r) as [m | d];
       [ | destruct (mentionsApi (JSON_stringify rt d))] | ];
      split; reflexivity. }
  cbn [orb negb].
  destruct (includes (contentType r) "application/json").
  - destruct (json r) as [m | d].
    + destruct (status r =? 400)%Z; [split; reflexivity | ].
      destruct (status r =? 422)%Z; [split; reflexivity | ].
      destruct (status r =? 429)%Z; [split; reflexivity | ].
      cbn [orb]. destruct (ok r); cbn [negb]; [split; reflexivity | ].
      rewrite Hempty. split; [reflexivity | eexists; split; reflexivity].
    + destruct (mentionsApi (JSON_stringify rt d)).
      * destruct (status r =? 400)%Z; [split; reflexivity | ].
        destruct (status r =? 422)%Z; [split; reflexivity | ].
        destruct (status r =? 429)%Z; [split; reflexivity | ].
        cbn [orb]. destruct (ok r); split; reflexivity.
      * destruct (status r =? 400)%Z; [split; reflexivity | ].
        destruct (status r =? 422)%Z; [split; reflexivity | ].
        destruct (status r =? 429)%Z; [split; reflexivity | ].
        cbn [orb]. destruct (ok r); cbn [negb]; [split; reflexivity | ].
        rewrite Hempty. split; [reflexivity | eexists; split; reflexivity].
  - destruct (status r =? 400)%Z; [split; reflexivity | ].
    destruct (status r =? 422)%Z; [split; reflexivity | ].
    destruct (status r =? 429)%Z; [split; reflexivity | ].
    cbn [orb]. destruct (ok r); cbn [negb]; [split; reflexivity | ].
    destruct (includes (text r) "Gemini" || includes (text r) "candidates");
      split; [reflexivity | reflexivity | reflexivity
             | eexists; split; reflexivity].
Qed.

(** The theorem on an endpoint that answers 401 in JSON. *)
Lemma C8_validate_outcome_witness :
  fst (run (validateAPIConfig plainBrowser (constantServer unauthorized)
              openAIConfig))
  = Returned true.
Proof.
  pose proof (C8_validate_outcome plainBrowser (constantServer unauthorized)
                openAIConfig []) as H.
  vm_compute in H. destruct H as [_ H]. exact H.
Defined.

(* ------------------------------------------------------------------ *)
(** ** C9: The two detections of the provider *)

(** C9 (the service detects the provider at two places; the one of
    [validateAPIConfig] works on the lower-cased endpoint and looks for the
    mixed-case marker [:generateContent], which a lower-cased text cannot
    hold).  On a Gemini endpoint the detection of [generateAIImage] yields
    GEMINI while the detection of [validateAPIConfig] yields GENERIC, so that
    the test request is the OpenAI-style one; and the detection of
    [validateAPIConfig] yields GEMINI on no endpoint at all. *)
Theorem C9_validation_misses_gemini :
  classify (apiEndpoint geminiConfig) = GEMINI
  /\ classifyForValidation (apiEndpoint geminiConfig) = GENERIC
  /\ body (testRequest geminiConfig (toLowerCase (apiEndpoint geminiConfig)))
     = OpenAITestBody "gemini-2.0-flash"
  /\ forall apiEndpoint, classifyForValidation apiEndpoint <> GEMINI.
Proof.
  repeat split; try (vm_compute; reflexivity).
  apply classifyForValidation_never_gemini.
Qed.

(* ------------------------------------------------------------------ *)
(** ** C10: A short reference image *)

(** C10, as stated, fails for the OpenAI-style body: a role image whose
    payload has 80 characters passes the guard, which measures the whole data
    URI, and is sent as [reference_image]. *)
Lemma C10_generic_keeps_short_reference :
  String.length (extractPureBase64 (pngDataUri 80)) = 80%nat
  /\ exists req,
       In (Post req)
          (snd (run (generateAIImage plainBrowser
                       (constantServer (jsonResponse 200 imageJson))
                       (Some openAIConfig) (withRole (pngDataUri 80)))))
       /\ bodyImages (body req) = [pngDataUri 200; pngDataUri 80].
Proof.
  split; [reflexivity | ].
  eexists; split.
  - vm_compute. right; right; left; reflexivity.
  - reflexivity.
Qed.

(** C10, amended.  Let a reference image (role or scene) normalise to a data
    URI whose base64 payload has fewer than 100 characters.  For GEMINI and
    ASYNC_TASK the request is built exactly as if the image had not been
    given, so the image is left out and raises no error.  For GENERIC the
    guard is on the whole data URI, which normalisation makes at least 100
    characters long, so the image is kept: it is the [reference_image]
    (or [scene_image]) of the body. *)
Theorem C10_short_reference (rt : Runtime) (world : World)
    (config : AIImageConfig) (params : GenerateAIImageParams)
    (img r sb : string) (other : option string) (tr0 tr1 : list Event) :
  convertToBase64 world img tr0 = (Returned r, tr1) ->
  (String.length (extractPureBase64 r) < 100)%nat ->
  match classify (apiEndpoint config) with
  | GEMINI | ASYNC_TASK =>
      buildRequest rt config params sb (Some r) other
      = buildRequest rt config params sb None other
      /\ buildRequest rt config params sb other (Some r)
         = buildRequest rt config params sb other None
  | GENERIC =>
      forall tr tr' req,
        (buildRequest rt config params sb (Some r) other tr = (Returned req, tr') ->
         bodyImages (body req) = (sb :: r :: referenceFor GENERIC other)%list)
        /\ (buildRequest rt config params sb other (Some r) tr = (Returned req, tr') ->
            bodyImages (body req) = (sb :: referenceFor GENERIC other ++ [r])%list)
  end.
Proof.
  intros Hconv Hshort.
  pose proof (convertToBase64_length _ _ _ _ _ Hconv) as Hlen.
  unfold classify, buildRequest.
  destruct (providerOf _ _) eqn:Hp.
  - rewrite !(geminiReference_short r Hshort). split; reflexivity.
  - rewrite !(nanoReference_short r Hshort). split; reflexivity.
  - intros tr tr' req.
    destruct (negb (URL_canParse rt (trim (apiEndpoint config))));
      [split; discriminate | ].
    destruct (calculateImageSize _ _) as [width height].
    destruct (negb (nonEmpty sb) || (String.length sb <? 100)%nat);
      [split; discriminate | ].
    rewrite !(openAIReference_normalized r Hlen).
    split; intros E; inversion E; subst; clear E; simpl;
      rewrite openAIReference_images; reflexivity.
Qed.

(** The theorem on a role image whose payload has 80 characters. *)
Lemma C10_short_reference_witness :
  buildRequest plainBrowser nanoBananaConfig someParams (pngDataUri 200)
    (Some (pngDataUri 80)) None
  = buildRequest plainBrowser nanoBananaConfig someParams (pngDataUri 200)
      None None.
Proof.
  assert (Hshort : (String.length (extractPureBase64 (pngDataUri 80)) < 100)%nat)
    by (apply Nat.ltb_lt; vm_compute; reflexivity).
  exact (proj1 (C10_short_reference plainBrowser (constantServer unauthorized)
                  nanoBananaConfig someParams (pngDataUri 80) (pngDataUri 80)
                  (pngDataUri 200) None [] [] eq_refl Hshort)).
Defined.

(* ------------------------------------------------------------------ *)
(** * Further properties of the code *)

(* ------------------------------------------------------------------ *)
(** ** Requests and pauses of a call *)

Lemma sleepTotal_app (a b : list Event) :
  sleepTotal (a ++ b) = (sleepTotal a + sleepTotal b)%Z.
Proof.
  induction a as [| ev a IH]; [reflexivity | ].
  destruct ev; simpl; rewrite IH; lia.
Qed.

Lemma sleepsOf_app (a b : list Event) :
  sleepsOf (a ++ b) = (sleepsOf a ++ sleepsOf b)%list.
Proof.
  induction a as [| ev a IH]; [reflexivity | ].
  destruct ev; simpl; rewrite IH; reflexivity.
Qed.

Lemma quiet_within (evs : list Event) :
  forallb quiet evs = true -> within 0 0 0 evs.
Proof.
  induction evs as [| ev evs IH]; [repeat split; simpl; lia | ].
  simpl. intros H. apply andb_prop in H. destruct H as [Hev Hevs].
  specialize (IH Hevs). destruct IH as (H1 & H2 & H3).
  destruct ev; try discriminate; repeat split; assumption.
Qed.

Lemma within_app (a b a' b' : nat) (c c' : Z) (evs evs' : list Event) :
  within a b c evs -> within a' b' c' evs' ->
  within (a + a') (b + b') (c + c') (evs ++ evs').
Proof.
  intros (H1 & H2 & H3) (H1' & H2' & H3').
  unfold within. rewrite posts_app, pollPosts_app, sleepTotal_app, !length_app.
  repeat split; lia.
Qed.

Lemma within_mono (a b a' b' : nat) (c c' : Z) (evs : list Event) :
  within a b c evs -> (a <= a')%nat -> (b <= b')%nat -> (c <= c')%Z ->
  within a' b' c' evs.
Proof. intros (H1 & H2 & H3) Ha Hb Hc. repeat split; lia. Qed.

Section Costs.

Context {A B : Type}.

Lemma costs_free (m : M A) : emitsOnly quiet m -> costs 0 0 0 m.
Proof.
  intros H. eapply emits_weaken; [exact H | ].
  cbv beta. intros _ evs. apply quiet_within.
Qed.

Lemma costs_weaken (a b : nat) (c : Z) (a' b' : nat) (c' : Z) (m : M A) :
  costs a b c m -> (a <= a')%nat -> (b <= b')%nat -> (c <= c')%Z ->
  costs a' b' c' m.
Proof.
  intros H Ha Hb Hc. eapply emits_weaken; [exact H | ].
  cbv beta. intros _ evs Hw. eapply within_mono; eassumption.
Qed.

Lemma costs_bind (a b : nat) (c : Z) (a' b' : nat) (c' : Z) (m : M A) (k : A -> M B) :
  costs a b c m -> (forall x, costs a' b' c' (k x)) -> (0 <= c')%Z ->
  costs (a + a') (b + b') (c + c') (bind m k).
Proof.
  intros Hm Hk Hc. eapply emits_bind; [exact Hm | | ]; cbv beta.
  - intros x evs1 H1. eapply emits_weaken; [apply Hk | ].
    cbv beta. intros _ evs2 H2. apply within_app; assumption.
  - intros e evs1 H1. eapply within_mono; [exact H1 | lia | lia | lia].
Qed.

Lemma costs_tryCatch (a b : nat) (c : Z) (a' b' : nat) (c' : Z) (m : M A)
    (onOk : A -> M B) (onErr : Error -> M B) :
  costs a b c m -> (forall x, costs a' b' c' (onOk x)) ->
  (forall e, costs a' b' c' (onErr e)) ->
  costs (a + a') (b + b') (c + c') (tryCatch m onOk onErr).
Proof.
  intros Hm Hk He. eapply emits_tryCatch; [exact Hm | | ]; cbv beta.
  - intros x evs1 H1. eapply emits_weaken; [apply Hk | ].
    cbv beta. intros _ evs2 H2. apply within_app; assumption.
  - intros e evs1 H1. eapply emits_weaken; [apply He | ].
    cbv beta. intros _ evs2 H2. apply within_app; assumption.
Qed.

End Costs.

Lemma costs_sleep (ms : Z) : costs 0 0 ms (sleep ms).
Proof.
  apply emits_emit. repeat split; simpl; lia.
Qed.

Lemma costs_pollPost (taskId : value) : costs 0 1 0 (emit (PollPost taskId)).
Proof.
  apply emits_emit. repeat split; simpl; lia.
Qed.

Lemma costs_post (req : Request) : costs 1 0 0 (emit (Post req)).
Proof.
  apply emits_emit. repeat split; simpl; lia.
Qed.

(** [m] within the budget of [m] and [k], in sequence. *)
Ltac costs_seq a b c a' b' c' :=
  apply (costs_weaken (a + a')%nat (b + b')%nat (c + c')%Z);
  [apply (costs_bind a b c a' b' c'); [ | intro | lia] | simpl; lia ..].

Ltac costs_quiet :=
  apply costs_free; emits_auto.

Section Budget.

Variable rt : Runtime.
Variable world : World.
Variable config : AIImageConfig.
Variable params : GenerateAIImageParams.

Hint Resolve typeError_emits prop_emits startsWithM_emits toLowerCaseM_emits
  taskFailure_emits pickImage_emits resultImageOf_emits completedTask_emits
  extractImage_emits buildRequest_emits : emits.

Lemma progress_quiet (p : number) : emitsOnly quiet (progress params p).
Proof. apply progress_emits. reflexivity. Qed.

Lemma download_quiet (url : string) :
  emitsOnly quiet (downloadImageAsBase64 world url).
Proof. apply downloadImageAsBase64_emits. reflexivity. Qed.

Lemma responseData_quiet (r : Response) :
  emitsOnly quiet (responseData rt config params r).
Proof. apply responseData_emits. reflexivity. Qed.

Hint Resolve progress_quiet download_quiet responseData_quiet : emits.

Lemma pollOnce_costs (taskId : value) (attempt : nat) (data : value) :
  costs 0 1 2000 (pollOnce rt world params taskId attempt data).
Proof.
  unfold pollOnce.
  costs_seq 0%nat 0%nat 2000%Z 0%nat 1%nat 0%Z; [apply costs_sleep | ].
  costs_seq 0%nat 0%nat 0%Z 0%nat 1%nat 0%Z; [costs_quiet | ].
  apply (costs_tryCatch 0 1 0 0 0 0).
  - costs_seq 0%nat 0%nat 0%Z 0%nat 1%nat 0%Z; [costs_quiet | ].
    costs_seq 0%nat 1%nat 0%Z 0%nat 0%nat 0%Z; [apply costs_pollPost | ].
    costs_quiet.
  - intro. costs_quiet.
  - intro. costs_quiet.
Qed.

Lemma pollLoop_costs (taskId : value) (remaining : nat) (data : value) :
  costs 0 remaining (2000 * Z.of_nat remaining)
    (pollLoop rt world params taskId remaining data).
Proof.
  induction remaining as [| remaining IH]; [costs_quiet | ].
  cbn [pollLoop].
  apply (costs_weaken (0 + 0) (1 + remaining) (2000 + 2000 * Z.of_nat remaining));
    [ | lia ..].
  apply costs_bind; [apply pollOnce_costs | | lia].
  intros [data' | ]; [ | exact IH].
  apply (costs_weaken 0 0 0); [costs_quiet | lia ..].
Qed.

Lemma awaitTask_costs (data : value) :
  costs 0 30 60000 (awaitTask rt world config params data).
Proof.
  unfold awaitTask.
  do 4 (costs_seq 0%nat 0%nat 0%Z 0%nat 30%nat 60000%Z; [costs_quiet | ]).
  match goal with
  | |- costs _ _ _ (if ?b then _ else _) => destruct b
  end.
  - costs_seq 0%nat 0%nat 0%Z 0%nat 30%nat 60000%Z; [costs_quiet | ].
    costs_seq 0%nat 30%nat 60000%Z 0%nat 0%nat 0%Z;
      [apply (pollLoop_costs _ 30) | ].
    costs_quiet.
  - apply (costs_weaken 0 0 0); [costs_quiet | lia ..].
Qed.

Lemma handleStatus_costs (data : value) :
  costs 0 30 60000 (handleStatus rt world config params data).
Proof.
  unfold handleStatus.
  costs_seq 0%nat 0%nat 0%Z 0%nat 30%nat 60000%Z; [costs_quiet | ].
  match goal with
  | |- costs _ _ _ (if ?b then _ else _) => destruct b
  end; [ | apply (costs_weaken 0 0 0); [costs_quiet | lia ..]].
  match goal with
  | |- costs _ _ _ (if ?b then _ else _) => destruct b
  end; [apply (costs_weaken 0 0 0); [costs_quiet | lia ..] | ].
  costs_seq 0%nat 30%nat 60000%Z 0%nat 0%nat 0%Z; [ | costs_quiet].
  match goal with
  | |- costs _ _ _ (if ?b then _ else _) => destruct b
  end; [apply awaitTask_costs | apply (costs_weaken 0 0 0); [costs_quiet | lia ..]].
Qed.

Lemma deliver_costs (data : value) :
  costs 0 30 60000 (deliver rt world config params data).
Proof.
  unfold deliver.
  costs_seq 0%nat 0%nat 0%Z 0%nat 30%nat 60000%Z; [costs_quiet | ].
  costs_seq 0%nat 30%nat 60000%Z 0%nat 0%nat 0%Z;
    [apply handleStatus_costs | ].
  costs_quiet.
Qed.

Lemma received_costs (retryCount : nat) (r : Response) :
  costs 0 30 60000 (received rt world config params retryCount r).
Proof.
  unfold received.
  costs_seq 0%nat 0%nat 0%Z 0%nat 30%nat 60000%Z; [costs_quiet | ].
  destruct (negb (ok r)).
  - cbv zeta. destruct (status r =? 401)%Z;
      [apply (costs_weaken 0 0 0); [costs_quiet | lia ..] | ].
    destruct (retryCount <? maxRetries - 1)%nat eqn:Hrc.
    + rewrite andb_true_r. destruct (status r =? 429)%Z;
        [ | apply (costs_weaken 0 0 0); [costs_quiet | lia ..]].
      apply Nat.ltb_lt in Hrc. change (maxRetries - 1)%nat with 2%nat in Hrc.
      apply (costs_weaken (0 + 0) (0 + 0) (1000 * (Z.of_nat retryCount + 1) + 0));
        [ | lia ..].
      apply costs_bind; [apply costs_sleep | intro; costs_quiet | lia].
    + rewrite andb_false_r.
      apply (costs_weaken 0 0 0); [costs_quiet | lia ..].
  - costs_seq 0%nat 0%nat 0%Z 0%nat 30%nat 60000%Z; [costs_quiet | ].
    apply deliver_costs.
Qed.

Lemma attempt_costs (request : Request) (retryCount : nat) :
  costs 1 30 60000 (attempt rt world config params request retryCount).
Proof.
  unfold attempt.
  costs_seq 0%nat 0%nat 0%Z 1%nat 30%nat 60000%Z; [costs_quiet | ].
  costs_seq 0%nat 0%nat 0%Z 1%nat 30%nat 60000%Z; [costs_quiet | ].
  costs_seq 1%nat 0%nat 0%Z 0%nat 30%nat 60000%Z; [apply costs_post | ].
  destruct (server world _ request) as [msg | r].
  - apply (costs_weaken 0 0 0); [costs_quiet | lia ..].
  - apply received_costs.
Qed.

Lemma retryLoop_costs (request : Request) (remaining : nat) :
  (remaining <= 3)%nat ->
  costs remaining (30 * remaining) (retryBudget remaining)
    (retryLoop rt world config params request remaining).
Proof.
  induction remaining as [| remaining IH]; intros Hle.
  - apply (costs_weaken 0 0 0); [costs_quiet | simpl; lia ..].
  - cbn [retryLoop]. cbv zeta.
    specialize (IH ltac:(lia)).
    apply (costs_weaken (1 + remaining) (30 + 30 * remaining)
             (60000 + (retryBudget (S remaining) - 60000))); [ | lia ..].
    apply costs_tryCatch; [apply attempt_costs | | ].
    + intros [result | ].
      * apply (costs_weaken 0 0 0); [costs_quiet | try lia ..].
        destruct remaining as [| [| [| ]]]; simpl; lia.
      * eapply costs_weaken; [exact IH | try lia ..].
        destruct remaining as [| [| [| ]]]; simpl; lia.
    + intros e.
      destruct remaining as [| [| [| ]]]; try lia.
      * change (maxRetries <=? S (maxRetries - 1))%nat with true. cbv iota.
        apply (costs_weaken 0 0 0); [costs_quiet | simpl; lia ..].
      * change (maxRetries <=? S (maxRetries - 2))%nat with false. cbv iota.
        change (S (maxRetries - 2)) with 2%nat.
        apply (costs_weaken (0 + 1) (0 + 30) (2000 + 60000)); [ | simpl; lia ..].
        apply costs_bind; [apply costs_sleep | intro; exact IH | lia].
      * change (maxRetries <=? S (maxRetries - 3))%nat with false. cbv iota.
        change (S (maxRetries - 3)) with 1%nat.
        apply (costs_weaken (0 + 2) (0 + 60) (1000 + 122000)); [ | simpl; lia ..].
        apply costs_bind; [apply costs_sleep | intro; exact IH | lia].
Qed.

End Budget.

Lemma generateAIImage_costs (rt : Runtime) (world : World)
    (stored : option AIImageConfig) (params : GenerateAIImageParams) :
  costs 3 90 183000 (generateAIImage rt world stored params).
Proof.
  unfold generateAIImage.
  destruct stored as [config | ];
    [ | apply (costs_weaken 0 0 0); [costs_quiet | lia ..]].
  match goal with
  | |- costs _ _ _ (if ?b then _ else _) => destruct b
  end; [apply (costs_weaken 0 0 0); [costs_quiet | lia ..] | ].
  costs_seq 0%nat 0%nat 0%Z 3%nat 90%nat 183000%Z;
    [apply costs_free, convertToBase64_emits; reflexivity | ].
  match goal with
  | |- costs _ _ _ (if ?b then _ else _) => destruct b
  end; [apply (costs_weaken 0 0 0); [costs_quiet | lia ..] | ].
  do 2 (costs_seq 0%nat 0%nat 0%Z 3%nat 90%nat 183000%Z;
        [apply costs_free, convertOptional_emits; reflexivity | ]).
  costs_seq 0%nat 0%nat 0%Z 3%nat 90%nat 183000%Z;
    [apply costs_free, buildRequest_emits | ].
  costs_seq 0%nat 0%nat 0%Z 3%nat 90%nat 183000%Z;
    [apply costs_free, progress_emits; reflexivity | ].
  apply (retryLoop_costs rt world config params _ 3). lia.
Qed.

(* ------------------------------------------------------------------ *)
(** ** Where the errors of a computation come from *)

Section FailsOnly.

Context {A B : Type}.
Variable S : ErrorSite -> bool.

Lemma failsOnly_ret (a : A) : failsOnly S (ret a).
Proof. intros tr. exact I. Qed.

Lemma failsOnly_throw (s : ErrorSite) (msg : string) :
  S s = true -> failsOnly S (@throw A s msg).
Proof. intros H tr. exact H. Qed.

Lemma failsOnly_rethrow (e : Error) :
  S (site e) = true -> failsOnly S (@rethrow A e).
Proof. intros H tr. exact H. Qed.

Lemma failsOnly_bind (m : M A) (k : A -> M B) :
  failsOnly S m -> (forall a, failsOnly S (k a)) -> failsOnly S (bind m k).
Proof.
  intros Hm Hk tr. unfold bind. specialize (Hm tr).
  destruct (m tr) as [[a | e] tr']; [apply Hk | exact Hm].
Qed.

Lemma failsOnly_tryCatch (m : M A) (onOk : A -> M B) (onErr : Error -> M B) :
  failsOnly S m -> (forall a, failsOnly S (onOk a)) ->
  (forall e, S (site e) = true -> failsOnly S (onErr e)) ->
  failsOnly S (tryCatch m onOk onErr).
Proof.
  intros Hm Hk He tr. unfold tryCatch. specialize (Hm tr).
  destruct (m tr) as [[a | e] tr']; [apply Hk | apply He, Hm].
Qed.

(** A handler that replaces every error. *)
Lemma failsOnly_catchAll (m : M A) (onOk : A -> M B) (onErr : Error -> M B) :
  (forall a, failsOnly S (onOk a)) -> (forall e, failsOnly S (onErr e)) ->
  failsOnly S (tryCatch m onOk onErr).
Proof.
  intros Hk He tr. unfold tryCatch.
  destruct (m tr) as [[a | e] tr']; [apply Hk | apply He].
Qed.

End FailsOnly.

Lemma failsOnly_emit (S : ErrorSite -> bool) (ev : Event) :
  failsOnly S (emit ev).
Proof. intros tr. exact I. Qed.

Lemma failsOnly_history (S : ErrorSite -> bool) : failsOnly S history.
Proof. intros tr. exact I. Qed.

Lemma failsOnly_weaken {A} (S S' : ErrorSite -> bool) (m : M A) :
  (forall s, S s = true -> S' s = true) -> failsOnly S m -> failsOnly S' m.
Proof.
  intros HS Hm tr. specialize (Hm tr).
  destruct (fst (m tr)); [exact I | apply HS, Hm].
Qed.

(** The events and the errors of a computation, together. *)
Lemma emits_failsOnly {A} (m : M A) (R : Outcome A -> list Event -> Prop)
    (S : ErrorSite -> bool) :
  emits m R -> failsOnly S m ->
  emits m (fun o evs => R o evs
                        /\ match o with
                           | Thrown e => S (site e) = true
                           | Returned _ => True
                           end).
Proof.
  intros Hm Hs tr. destruct (Hm tr) as (o & evs & E & H).
  exists o, evs. split; [exact E | split; [exact H | ]].
  specialize (Hs tr). rewrite E in Hs. exact Hs.
Qed.

Create HintDb fails.

Ltac fails_step :=
  first
    [ solve [eauto with fails]
    | apply failsOnly_ret
    | apply failsOnly_throw; reflexivity
    | apply failsOnly_rethrow; assumption
    | apply failsOnly_history
    | apply failsOnly_emit
    | apply failsOnly_bind
    | apply failsOnly_tryCatch
    | match goal with |- forall _, _ => intro end
    | match goal with
      | |- failsOnly _ (if ?b then _ else _) => destruct b
      | |- failsOnly _ (match ?x with _ => _ end) => destruct x
      | |- failsOnly _ (let '(_, _) := ?x in _) => destruct x
      end
    | progress cbv zeta ].

Ltac fails_auto := repeat fails_step.

Section ValidationSites.

Variable rt : Runtime.
Variable world : World.

Lemma fetchAsBase64_fails (img : string) (s : ErrorSite) (m1 m2 m3 m4 : string) :
  beforeRequest s = true ->
  failsOnly beforeRequest (fetchAsBase64 world img s m1 m2 m3 m4).
Proof.
  intros Hs. unfold fetchAsBase64. apply failsOnly_catchAll.
  - intro. apply failsOnly_ret.
  - intro. apply failsOnly_throw, Hs.
Qed.

Lemma convertToBase64_fails (img : string) :
  failsOnly beforeRequest (convertToBase64 world img).
Proof.
  unfold convertToBase64.
  repeat match goal with
         | |- failsOnly _ (if ?b then _ else _) => destruct b
         | |- failsOnly _ (match ?x with _ => _ end) => destruct x
         end;
    first [apply fetchAsBase64_fails; reflexivity | fails_auto].
Qed.

Hint Resolve convertToBase64_fails : fails.

Lemma convertOptional_fails (img : option string) :
  failsOnly beforeRequest (convertOptional world img).
Proof. unfold convertOptional. fails_auto. Qed.

Lemma buildRequest_fails (config : AIImageConfig)
    (params : GenerateAIImageParams) (sb : string) (role scene : option string) :
  failsOnly beforeRequest (buildRequest rt config params sb role scene).
Proof. unfold buildRequest. fails_auto. Qed.

End ValidationSites.

(** The two phases of [generateAIImage]: what precedes the retry loop only
    fetches images and fails at the sites of [beforeRequest]; then the
    callback is given 10 percent and the loop runs. *)
Lemma generateAIImage_phases (rt : Runtime) (world : World)
    (stored : option AIImageConfig) (params : GenerateAIImageParams)
    (R R' : Outcome GenerateAIImageResult -> list Event -> Prop) :
  (forall config request, stored = Some config ->
     emits (retryLoop rt world config params request maxRetries) R) ->
  (forall e pre, beforeRequest (site e) = true ->
     forallb isFetchImage pre = true -> R' (Thrown e) pre) ->
  (forall pre o evs, forallb isFetchImage pre = true -> R o evs ->
     R' o (pre ++ prelude params ++ evs)%list) ->
  emits (generateAIImage rt world stored params) R'.
Proof.
  intros Hloop Hfail Hseq.
  assert (Hconv : forall A (m : M A) (k : A -> M GenerateAIImageResult),
             emitsOnly isFetchImage m -> failsOnly beforeRequest m ->
             (forall a,
                emits (k a)
                  (fun o evs => forall pre, forallb isFetchImage pre = true ->
                                            R' o (pre ++ evs)%list)) ->
             emits (bind m k)
               (fun o evs => forall pre, forallb isFetchImage pre = true ->
                                         R' o (pre ++ evs)%list)).
  { intros A m k Hm Hs Hk.
    eapply emits_bind; [apply (emits_failsOnly _ _ _ Hm Hs) | | ]; cbv beta.
    - intros a evs1 [H1 _]. eapply emits_weaken; [apply Hk | ].
      cbv beta. intros o evs2 H2 pre Hpre. rewrite app_assoc. apply H2.
      rewrite forallb_app, Hpre, H1. reflexivity.
    - intros e evs1 [H1 H2] pre Hpre. apply Hfail; [exact H2 | ].
      rewrite forallb_app, Hpre, H1. reflexivity. }
  assert (Hthrow : forall s msg, beforeRequest s = true ->
             emits (@throw GenerateAIImageResult s msg)
               (fun o evs => forall pre, forallb isFetchImage pre = true ->
                                         R' o (pre ++ evs)%list)).
  { intros s msg Hs. apply emits_throw. intros pre Hpre.
    rewrite app_nil_r. apply Hfail; [exact Hs | exact Hpre]. }
  eapply emits_weaken
    with (R := fun o evs => forall pre, forallb isFetchImage pre = true ->
                                        R' o (pre ++ evs)%list);
    [ | intros o evs H; apply (H []); reflexivity].
  unfold generateAIImage.
  destruct stored as [config | ]; [ | apply Hthrow; reflexivity].
  match goal with
  | |- emits (if ?b then _ else _) _ => destruct b
  end; [apply Hthrow; reflexivity | ].
  apply Hconv;
    [apply convertToBase64_emits; reflexivity | apply convertToBase64_fails | ].
  intros sb.
  match goal with
  | |- emits (if ?b then _ else _) _ => destruct b
  end; [apply Hthrow; reflexivity | ].
  apply Hconv;
    [apply convertOptional_emits; reflexivity | apply convertOptional_fails | ].
  intros role.
  apply Hconv;
    [apply convertOptional_emits; reflexivity | apply convertOptional_fails | ].
  intros scene.
  apply Hconv;
    [apply buildRequest_emits | apply buildRequest_fails | ].
  intros request.
  unfold progress. unfold prelude in Hseq.
  destruct (onProgress params).
  - apply emits_emit_then.
    eapply emits_weaken; [apply (Hloop config request eq_refl) | ].
    cbv beta. intros o evs H pre Hpre. apply (Hseq pre o evs Hpre H).
  - apply emits_bind_ret.
    eapply emits_weaken; [apply (Hloop config request eq_refl) | ].
    cbv beta. intros o evs H pre Hpre. apply (Hseq pre o evs Hpre H).
Qed.

(* ------------------------------------------------------------------ *)
(** ** One request for each attempt *)

Section Attempts.

Variable rt : Runtime.
Variable world : World.
Variable config : AIImageConfig.
Variable params : GenerateAIImageParams.
Variable request : Request.

(** What the callback adds to a history is no request and no pause. *)
Lemma progress_unseen (p : number) :
  emits (progress params p)
    (fun o evs => o = Returned tt /\ posts evs = [] /\ pollPosts evs = []
                  /\ sleepsOf evs = []).
Proof.
  unfold progress. destruct (onProgress params).
  - apply emits_emit. repeat split.
  - apply emits_ret. repeat split.
Qed.

Lemma emits_progress_then {B} (p : number) (k : M B)
    (R : Outcome B -> list Event -> Prop) :
  emits k (fun o evs => forall pre, posts pre = [] -> pollPosts pre = [] ->
                                    sleepsOf pre = [] -> R o (pre ++ evs)%list) ->
  emits (progress params p ;; k) R.
Proof.
  intros Hk.
  eapply emits_bind; [apply progress_unseen | | ]; cbv beta.
  - intros _ evs1 (_ & H1 & H2 & H3). eapply emits_weaken; [exact Hk | ].
    cbv beta. intros o evs2 H. apply H; assumption.
  - intros e evs1 (H & _). discriminate.
Qed.

Lemma attempt_one_post (retryCount : nat) :
  emits (attempt rt world config params request retryCount)
    (fun _ evs => posts evs = [Post request]).
Proof.
  unfold attempt.
  apply emits_progress_then. apply emits_history_then. intros tr.
  apply emits_emit_then.
  eapply emits_weaken with (R := fun _ evs => forallb notPost evs = true).
  - as_emitsOnly notPost.
    destruct (server world _ request) as [msg | r];
      [apply emitsOnly_throw | apply received_emits; reflexivity].
  - cbv beta. intros _ evs H pre Hpre _ _.
    change (posts (pre ++ [Post request] ++ evs) = [Post request]).
    rewrite !posts_app, Hpre, (posts_none _ _ notPost_not_post H). reflexivity.
Qed.

(** The loop sends the request of each attempt it makes, and makes one at
    least. *)
Lemma retryLoop_asks (remaining : nat) :
  emits (retryLoop rt world config params request (S remaining))
    (fun _ evs => exists k, (k <= remaining)%nat
                            /\ posts evs = repeat (Post request) (S k)).
Proof.
  induction remaining as [| remaining IH].
  - cbn [retryLoop].
    eapply emits_tryCatch; [apply attempt_one_post | | ]; cbv beta.
    + intros out evs1 H1. destruct out.
      * apply emits_ret. exists 0%nat. rewrite app_nil_r. split; [lia | exact H1].
      * apply emits_throw. exists 0%nat. rewrite app_nil_r. split; [lia | exact H1].
    + intros e evs1 H1.
      match goal with
      | |- emits (if ?b then _ else _) _ => destruct b
      end.
      * apply emits_rethrow. exists 0%nat. rewrite app_nil_r.
        split; [lia | exact H1].
      * unfold sleep. apply emits_emit_then. apply emits_throw.
        exists 0%nat. rewrite posts_app, H1. split; [lia | reflexivity].
  - remember (S remaining) as n eqn:Hn.
    cbn [retryLoop].
    eapply emits_tryCatch; [apply attempt_one_post | | ]; cbv beta.
    + intros out evs1 H1. destruct out.
      * apply emits_ret. exists 0%nat. rewrite app_nil_r. split; [lia | exact H1].
      * subst n. eapply emits_weaken; [exact IH | ].
        cbv beta. intros _ evs2 (k & Hk & H2). exists (S k).
        rewrite posts_app, H1, H2. split; [lia | reflexivity].
    + intros e evs1 H1.
      match goal with
      | |- emits (if ?b then _ else _) _ => destruct b
      end.
      * apply emits_rethrow. exists 0%nat. rewrite app_nil_r.
        split; [lia | exact H1].
      * unfold sleep. apply emits_emit_then. subst n.
        eapply emits_weaken; [exact IH | ].
        cbv beta. intros _ evs2 (k & Hk & H2). exists (S k).
        rewrite posts_app, H1.
        match goal with
        | |- context [posts (?s :: evs2)] =>
            change (posts (s :: evs2)) with (posts evs2)
        end.
        rewrite H2. split; [lia | reflexivity].
Qed.

End Attempts.

(* ------------------------------------------------------------------ *)
(** ** An endpoint that never answers with a success *)

Lemma posts_cons_post (req : Request) (evs : list Event) :
  posts (Post req :: evs) = Post req :: posts evs.
Proof. reflexivity. Qed.

Lemma pollPosts_cons_post (req : Request) (evs : list Event) :
  pollPosts (Post req :: evs) = pollPosts evs.
Proof. reflexivity. Qed.

Lemma posts_cons_sleep (ms : Z) (evs : list Event) :
  posts (Sleep ms :: evs) = posts evs.
Proof. reflexivity. Qed.

Lemma pollPosts_cons_sleep (ms : Z) (evs : list Event) :
  pollPosts (Sleep ms :: evs) = pollPosts evs.
Proof. reflexivity. Qed.

(** Normalises the requests and pauses of a history built by appending. *)
Ltac tally :=
  cbv beta; intros;
  repeat first
    [ rewrite posts_app | rewrite pollPosts_app | rewrite sleepsOf_app
    | rewrite posts_cons_post | rewrite pollPosts_cons_post
    | rewrite posts_cons_sleep | rewrite pollPosts_cons_sleep
    | rewrite app_nil_r
    | progress cbn [sleepsOf posts pollPosts filter isPost isPollPost app] ];
  repeat match goal with
         | H : posts _ = _ |- _ => rewrite H
         | H : pollPosts _ = _ |- _ => rewrite H
         | H : sleepsOf _ = _ |- _ => rewrite H
         end;
  cbn [app].

Section Refused.

Variable rt : Runtime.
Variable world : World.
Variable config : AIImageConfig.
Variable params : GenerateAIImageParams.
Variable request : Request.

Hypothesis refuses : forall n req, repliesFailure (server world n req) = true.

Lemma attempt_refused (retryCount : nat) :
  emits (attempt rt world config params request retryCount)
    (fun o evs =>
       posts evs = [Post request] /\ pollPosts evs = []
       /\ ((exists e, o = Thrown e /\ requestFailure (site e) = true)
           /\ sleepsOf evs = []
           \/ (o = Returned RateLimited /\ (retryCount < 2)%nat
               /\ sleepsOf evs = [1000 * (Z.of_nat retryCount + 1)]%Z))).
Proof.
  unfold attempt.
  apply emits_progress_then. apply emits_history_then. intros tr.
  apply emits_emit_then.
  pose proof (refuses (List.length (posts tr)) request) as Hr.
  destruct (server world _ request) as [msg | r].
  - apply emits_throw. tally. repeat split.
    left. split; [eexists; split; reflexivity | reflexivity].
  - cbn [repliesFailure] in Hr. unfold received.
    apply emits_progress_then. rewrite Hr. cbv zeta.
    destruct (status r =? 401)%Z.
    + apply emits_throw. tally. repeat split.
      left. split; [eexists; split; reflexivity | reflexivity].
    + destruct ((status r =? 429)%Z && (retryCount <? maxRetries - 1)%nat)
        eqn:Hlimit.
      * apply andb_prop in Hlimit. destruct Hlimit as [_ Hrc].
        apply Nat.ltb_lt in Hrc. change (maxRetries - 1)%nat with 2%nat in Hrc.
        unfold sleep. apply emits_emit_then. apply emits_ret.
        tally. repeat split. right. repeat split. exact Hrc.
      * apply emits_throw. tally. repeat split.
        left. split; [eexists; split; reflexivity | reflexivity].
Qed.

(** The loop entered with [remaining] attempts to go: it makes them all. *)
Lemma retryLoop_refused (remaining : nat) :
  (1 <= remaining <= 3)%nat ->
  emits (retryLoop rt world config params request remaining)
    (fun o evs =>
       (exists e, o = Thrown e /\ requestFailure (site e) = true)
       /\ posts evs = repeat (Post request) remaining
       /\ pollPosts evs = []
       /\ sleepsOf evs = backoff remaining).
Proof.
  induction remaining as [| remaining IH]; intros Hle; [lia | ].
  cbn [retryLoop]. cbv zeta.
  eapply emits_tryCatch; [apply attempt_refused | | ]; cbv beta.
  - intros out evs1 (H1 & H2 & [[(e & He & _) _] | (Hout & Hrc & H3)]);
      [discriminate | ].
    inversion Hout; subst out; clear Hout.
    destruct remaining as [| [| [| ]]]; try lia;
      [change (maxRetries - 1)%nat with 2%nat in Hrc; lia | | ].
    + eapply emits_weaken; [apply IH; lia | ].
      tally. destruct H as (He & Hp & Hq & Hs). rewrite Hp, Hq, Hs.
      repeat split; try assumption.
    + eapply emits_weaken; [apply IH; lia | ].
      tally. destruct H as (He & Hp & Hq & Hs). rewrite Hp, Hq, Hs.
      repeat split; try assumption.
  - intros e evs1 (H1 & H2 & [[(e' & He & Hsite) H3] | (Hout & _)]);
      [ | discriminate].
    inversion He; subst e'; clear He.
    destruct remaining as [| [| [| ]]]; try lia.
    + change (maxRetries <=? S (maxRetries - 1))%nat with true. cbv iota.
      apply emits_rethrow. tally. repeat split.
      exists e. split; [reflexivity | exact Hsite].
    + change (maxRetries <=? S (maxRetries - 2))%nat with false. cbv iota.
      unfold sleep. apply emits_emit_then.
      eapply emits_weaken; [apply IH; lia | ].
      tally. destruct H as (He & Hp & Hq & Hs). rewrite Hp, Hq, Hs.
      repeat split; try assumption.
    + change (maxRetries <=? S (maxRetries - 3))%nat with false. cbv iota.
      unfold sleep. apply emits_emit_then.
      eapply emits_weaken; [apply IH; lia | ].
      tally. destruct H as (He & Hp & Hq & Hs). rewrite Hp, Hq, Hs.
      repeat split; try assumption.
Qed.

End Refused.

(* ------------------------------------------------------------------ *)
(** ** The errors thrown inside an attempt *)

Section SitesInside.

Variable rt : Runtime.
Variable world : World.
Variable config : AIImageConfig.
Variable params : GenerateAIImageParams.

Lemma typeError_inside {A} : failsOnly insideAttempt (@typeError rt A).
Proof. unfold typeError. fails_auto. Qed.

Lemma prop_inside (v : value) (key : string) : failsOnly insideAttempt (prop rt v key).
Proof. unfold prop, typeError. fails_auto. Qed.

Lemma startsWithM_inside (v : value) (prefix : string) :
  failsOnly insideAttempt (startsWithM rt v prefix).
Proof. unfold startsWithM, typeError. fails_auto. Qed.

Lemma toLowerCaseM_inside (v : value) : failsOnly insideAttempt (toLowerCaseM rt v).
Proof. unfold toLowerCaseM, typeError. fails_auto. Qed.

Lemma progress_inside (p : number) : failsOnly insideAttempt (progress params p).
Proof. unfold progress. fails_auto. Qed.

Lemma sleep_inside (ms : Z) : failsOnly insideAttempt (sleep ms).
Proof. unfold sleep. fails_auto. Qed.

Hint Resolve typeError_inside prop_inside startsWithM_inside
  toLowerCaseM_inside progress_inside sleep_inside : fails.

Lemma downloadImageAsBase64_inside (url : string) :
  failsOnly insideAttempt (downloadImageAsBase64 world url).
Proof.
  unfold downloadImageAsBase64.
  apply failsOnly_bind; [apply failsOnly_catchAll; fails_auto | ].
  intros [result | ]; fails_auto.
Qed.

Lemma taskFailure_inside {A} (d : value) (allHints : bool) :
  failsOnly insideAttempt (@taskFailure rt A d allHints).
Proof. unfold taskFailure. fails_auto. Qed.

Lemma pickImage_inside (d : value) : failsOnly insideAttempt (pickImage rt d).
Proof. unfold pickImage. fails_auto. Qed.

Hint Resolve downloadImageAsBase64_inside taskFailure_inside pickImage_inside
  : fails.

Lemma resultImageOf_inside (d : value) : failsOnly insideAttempt (resultImageOf rt d).
Proof. unfold resultImageOf. fails_auto. Qed.

Hint Resolve resultImageOf_inside : fails.

Lemma completedTask_inside (d : value) : failsOnly insideAttempt (completedTask rt d).
Proof. unfold completedTask. fails_auto. Qed.

Lemma scanParts_inside (items : list value) : failsOnly insideAttempt (scanParts rt items).
Proof. induction items as [| part rest IH]; simpl; fails_auto. Qed.

Hint Resolve completedTask_inside scanParts_inside : fails.

Lemma fromCandidates_inside (d : value) : failsOnly insideAttempt (fromCandidates rt d).
Proof. unfold fromCandidates. fails_auto. Qed.

Lemma fromDataArray_inside (d : value) : failsOnly insideAttempt (fromDataArray rt d).
Proof. unfold fromDataArray. fails_auto. Qed.

Lemma fromGenericFields_inside (d : value) : failsOnly insideAttempt (fromGenericFields rt d).
Proof. unfold fromGenericFields. fails_auto. Qed.

Hint Resolve fromCandidates_inside fromDataArray_inside
  fromGenericFields_inside : fails.

Lemma extractImage_inside (d : value) : failsOnly insideAttempt (extractImage rt d).
Proof. unfold extractImage. fails_auto. Qed.

Lemma sseLine_inside (buffer : string) (lastData : value) (line : string) :
  failsOnly insideAttempt (sseLine rt params buffer lastData line).
Proof. unfold sseLine. fails_auto. Qed.

Hint Resolve extractImage_inside sseLine_inside : fails.

Lemma sseLines_inside (buffer : string) (lines : list string) (lastData : value) :
  failsOnly insideAttempt (sseLines rt params buffer lastData lines).
Proof.
  revert lastData. induction lines as [| line rest IH]; intros lastData; simpl;
    fails_auto.
Qed.

Hint Resolve sseLines_inside : fails.

Lemma readStream_inside (s : Stream) (buffer : string) (lastData : value) :
  failsOnly insideAttempt (readStream rt params s buffer lastData).
Proof.
  revert buffer lastData.
  induction s as [| chunk rest IH | msg]; intros buffer lastData; simpl;
    fails_auto.
Qed.

Hint Resolve readStream_inside : fails.

Lemma readEventStream_inside (r : Response) :
  failsOnly insideAttempt (readEventStream rt params r).
Proof. unfold readEventStream. fails_auto. Qed.

Lemma pollOnce_inside (taskId : value) (attempt : nat) (data : value) :
  failsOnly insideAttempt (pollOnce rt world params taskId attempt data).
Proof. unfold pollOnce. fails_auto. Qed.

Hint Resolve readEventStream_inside pollOnce_inside : fails.

Lemma pollLoop_inside (taskId : value) (remaining : nat) (data : value) :
  failsOnly insideAttempt (pollLoop rt world params taskId remaining data).
Proof. induction remaining as [| remaining IH]; simpl; fails_auto. Qed.

Hint Resolve pollLoop_inside : fails.

Lemma awaitTask_inside (data : value) :
  failsOnly insideAttempt (awaitTask rt world config params data).
Proof. unfold awaitTask. fails_auto. Qed.

Hint Resolve awaitTask_inside : fails.

Lemma handleStatus_inside (data : value) :
  failsOnly insideAttempt (handleStatus rt world config params data).
Proof. unfold handleStatus. fails_auto. Qed.

Lemma responseData_inside (r : Response) :
  failsOnly insideAttempt (responseData rt config params r).
Proof. unfold responseData. fails_auto. Qed.

Hint Resolve handleStatus_inside responseData_inside : fails.

(** The outcome of [bind m k] from the errors of [m] and the outcomes of
    [k]. *)
Lemma bind_ends {A B} (P : Outcome B -> Prop) (m : M A) (k : A -> M B) :
  failsOnly insideAttempt m ->
  (forall e, insideAttempt (site e) = true -> P (Thrown e)) ->
  (forall a tr, P (fst (k a tr))) ->
  forall tr, P (fst (bind m k tr)).
Proof.
  intros Hm He Hk tr. unfold bind. specialize (Hm tr).
  destruct (m tr) as [[a | e] tr']; [apply Hk | apply He, Hm].
Qed.

Lemma deliver_ends (retryCount : nat) (data : value) (tr : list Event) :
  attemptEnds retryCount (fst (deliver rt world config params data tr)).
Proof.
  revert tr. unfold deliver.
  assert (He : forall e, insideAttempt (site e) = true ->
                         attemptEnds retryCount (Thrown e))
    by (intros e H; exact H).
  apply bind_ends; [fails_auto | exact He | intros _].
  apply bind_ends; [fails_auto | exact He | intros data'].
  apply bind_ends; [fails_auto | exact He | intros generatedImage].
  apply bind_ends; [fails_auto | exact He | intros isHttp].
  apply bind_ends; [fails_auto | exact He | intros isHttps].
  apply bind_ends; [ | exact He | intros final].
  - destruct (isHttp || isHttps); [ | fails_auto].
    apply failsOnly_bind; [fails_auto | intros _].
    apply failsOnly_catchAll; fails_auto.
  - apply bind_ends; [fails_auto | exact He | intros _ tr]. exact I.
Qed.

Lemma received_ends (retryCount : nat) (r : Response) (tr : list Event) :
  attemptEnds retryCount (fst (received rt world config params retryCount r tr)).
Proof.
  revert tr. unfold received.
  assert (He : forall e, insideAttempt (site e) = true ->
                         attemptEnds retryCount (Thrown e))
    by (intros e H; exact H).
  apply bind_ends; [fails_auto | exact He | intros _].
  destruct (negb (ok r)).
  - cbv zeta. destruct (status r =? 401)%Z; [intros tr; reflexivity | ].
    destruct ((status r =? 429)%Z && (retryCount <? maxRetries - 1)%nat)
      eqn:Hlimit; [ | intros tr; reflexivity].
    apply andb_prop in Hlimit. destruct Hlimit as [_ Hrc].
    apply Nat.ltb_lt in Hrc.
    apply bind_ends; [fails_auto | exact He | intros _ tr]. exact Hrc.
  - apply bind_ends; [fails_auto | exact He | intros data].
    apply deliver_ends.
Qed.

Lemma attempt_ends (request : Request) (retryCount : nat) (tr : list Event) :
  attemptEnds retryCount
    (fst (attempt rt world config params request retryCount tr)).
Proof.
  revert tr. unfold attempt.
  assert (He : forall e, insideAttempt (site e) = true ->
                         attemptEnds retryCount (Thrown e))
    by (intros e H; exact H).
  apply bind_ends; [fails_auto | exact He | intros _].
  apply bind_ends; [fails_auto | exact He | intros tr0].
  apply bind_ends; [fails_auto | exact He | intros _].
  destruct (server world _ request) as [msg | r].
  - intros tr. reflexivity.
  - apply received_ends.
Qed.

(** The loop never reaches the [throw] that follows it. *)
Lemma retryLoop_inside (request : Request) (remaining : nat) :
  (1 <= remaining <= maxRetries)%nat ->
  failsOnly insideAttempt (retryLoop rt world config params request remaining).
Proof.
  change maxRetries with 3%nat.
  induction remaining as [| remaining IH]; intros Hle; [lia | ].
  cbn [retryLoop]. cbv zeta. intros tr. unfold tryCatch.
  pose proof (attempt_ends request (maxRetries - S remaining) tr) as Hends.
  destruct (attempt rt world config params request (maxRetries - S remaining) tr)
    as [[[result | ] | e] tr'].
  - exact I.
  - cbn [attemptEnds fst] in Hends.
    change maxRetries with 3%nat in Hends. apply IH. lia.
  - cbn [attemptEnds fst] in Hends.
    destruct (maxRetries <=? S (maxRetries - S remaining))%nat eqn:Hlast.
    + exact Hends.
    + apply Nat.leb_gt in Hlast. change maxRetries with 3%nat in Hlast.
      apply (failsOnly_bind insideAttempt); [fails_auto | intros _].
      apply IH. lia.
Qed.

End SitesInside.

(* ------------------------------------------------------------------ *)
(** ** What a call that returns has done *)

Lemma bind_returned {A B} (m : M A) (k : A -> M B) (tr tr' : list Event) (b : B) :
  bind m k tr = (Returned b, tr') ->
  exists a tr1, m tr = (Returned a, tr1) /\ k a tr1 = (Returned b, tr').
Proof.
  unfold bind. destruct (m tr) as [[a | e] tr1]; [ | discriminate].
  intros H. exists a, tr1. split; [reflexivity | exact H].
Qed.

Lemma progress_returned (params : GenerateAIImageParams) (p : number)
    (tr tr' : list Event) (u : unit) :
  progress params p tr = (Returned u, tr') ->
  tr' = (tr ++ if onProgress params then [Progress p] else [])%list.
Proof.
  unfold progress. destruct (onProgress params); intros H; inversion H.
  - reflexivity.
  - rewrite app_nil_r. reflexivity.
Qed.

Lemma downloadImageAsBase64_returned (world : World) (url : string)
    (tr tr' : list Event) (r : string) :
  downloadImageAsBase64 world url tr = (Returned r, tr') ->
  tr' = (tr ++ [FetchImage url])%list /\ downloaded world url = Some r.
Proof.
  unfold downloadImageAsBase64, tryCatch, bind, emit, downloaded.
  destruct (images world url) as [msg | image_ok st stText size conv dataUrl];
    [discriminate | ].
  destruct image_ok; [ | discriminate].
  destruct dataUrl as [result | ]; [ | discriminate].
  intros H. inversion H. split; reflexivity.
Qed.

Lemma extractImage_returned (rt : Runtime) (data : value) (tr tr' : list Event)
    (g : value) :
  extractImage rt data tr = (Returned g, tr') -> Js.truthy g = true.
Proof.
  unfold extractImage. intros H.
  apply bind_returned in H. destruct H as (g1 & tr1 & _ & H).
  apply bind_returned in H. destruct H as (g2 & tr2 & _ & H).
  apply bind_returned in H. destruct H as (g3 & tr3 & _ & H).
  cbv zeta in H.
  match type of H with
  | (if negb (Js.truthy ?g4) then _ else _) _ = _ =>
      destruct (Js.truthy g4) eqn:Ht; [ | discriminate];
      inversion H; subst; exact Ht
  end.
Qed.

Lemma startsWithM_returned (rt : Runtime) (v : value) (prefix : string)
    (tr tr' : list Event) (b : bool) :
  startsWithM rt v prefix tr = (Returned b, tr') ->
  exists s, v = VStr s /\ b = startsWith s prefix /\ tr' = tr.
Proof.
  destruct v; try discriminate.
  intros H. inversion H. eexists. repeat split.
Qed.

Section Returned.

Variable rt : Runtime.
Variable world : World.
Variable config : AIImageConfig.
Variable params : GenerateAIImageParams.

Lemma deliver_returned (data : value) (tr tr' : list Event)
    (out : AttemptOutcome) :
  deliver rt world config params data tr = (Returned out, tr') ->
  exists img pre,
    out = Finished {| image := img; model := modelName config |}
    /\ tr' = (pre ++ finalReport params)%list
    /\ (exists evs, pre = (tr ++ evs)%list)
    /\ deliveredFrom rt world config params data pre img.
Proof.
  unfold deliver. intros H.
  apply bind_returned in H. destruct H as (u & tr1 & H1 & H).
  apply progress_returned in H1.
  apply bind_returned in H. destruct H as (data' & tr2 & Hdata & H).
  apply bind_returned in H. destruct H as (g & tr3 & Hg & H).
  pose proof (extractImage_returned _ _ _ _ _ Hg) as Htruthy.
  apply bind_returned in H. destruct H as (isHttp & tr4 & H4 & H).
  apply startsWithM_returned in H4. destruct H4 as (s & Hgs & HisHttp & Htr4).
  apply bind_returned in H. destruct H as (isHttps & tr5 & H5 & H).
  apply startsWithM_returned in H5. destruct H5 as (s' & Hs & HisHttps & Htr5).
  rewrite Hgs in Hs. injection Hs as Hs. subst s' g isHttp isHttps tr4 tr5.
  apply bind_returned in H. destruct H as (final & tr6 & Hfinal & H).
  apply bind_returned in H. destruct H as (u' & tr7 & H7 & H).
  apply progress_returned in H7.
  injection H as Hout Htr'.
  assert (Hne : nonEmpty s = true) by (destruct s; [discriminate | reflexivity]).
  assert (Hgrow2 : exists evs, tr2 = (tr ++ evs)%list).
  { assert (Hany : emitsOnly anyEvent (handleStatus rt world config params data))
      by (apply handleStatus_emits; reflexivity).
    destruct (emits_run _ _ _ _ _ Hany Hdata) as (evs & Htr2 & _).
    exists ((if onProgress params then [Progress (ofZ 90)] else []) ++ evs)%list.
    rewrite Htr2, H1. now rewrite app_assoc. }
  assert (Hgrow3 : tr3 = tr2).
  { destruct (emits_run _ _ _ _ _ (extractImage_emits rt noEvent data') Hg)
      as (evs & Htr3 & Hevs).
    destruct evs; [rewrite Htr3; apply app_nil_r | discriminate]. }
  exists final, tr6.
  split; [symmetry; exact Hout | ].
  split; [rewrite <- Htr', H7; reflexivity | ].
  fold (isHttpUrl s) in Hfinal.
  destruct (isHttpUrl s) eqn:Hurl.
  - apply bind_returned in Hfinal.
    destruct Hfinal as (u2 & tr8 & H8 & Hd).
    apply progress_returned in H8.
    unfold tryCatch in Hd.
    destruct (downloadImageAsBase64 world (asText rt (VStr s)) tr8)
      as [[r | e] tr9] eqn:Ed; [ | discriminate].
    injection Hd as Hr Htr6.
    apply downloadImageAsBase64_returned in Ed. destruct Ed as [Htr9 Hdl].
    cbn [asText] in Hdl.
    destruct Hgrow2 as (evs & Hevs).
    assert (Hpre : tr6 = (tr ++ evs
                          ++ (if onProgress params then [Progress (ofZ 95)] else [])
                          ++ [FetchImage s])%list).
    { rewrite <- Htr6, Htr9, H8, Hgrow3, Hevs. cbn [asText].
      now rewrite <- !app_assoc. }
    split; [eexists; exact Hpre | ].
    exists tr1, data', tr2, s, tr3.
    split; [exact Hdata | ].
    split; [exact Hg | ].
    split; [exact Hne | ].
    rewrite Hurl. split; [ | rewrite <- Hr; exact Hdl].
    rewrite Hpre. apply in_or_app. right. apply in_or_app. right.
    apply in_or_app. right. left. reflexivity.
  - injection Hfinal as Hf Htr6.
    split; [destruct Hgrow2 as (evs & Hevs); exists evs;
            rewrite <- Htr6, Hgrow3; exact Hevs | ].
    exists tr1, data', tr2, s, tr3.
    split; [exact Hdata | ].
    split; [exact Hg | ].
    split; [exact Hne | ].
    rewrite Hurl. cbn [asText] in Hf. symmetry. exact Hf.
Qed.

Lemma received_returned (retryCount : nat) (r : Response) (tr tr' : list Event)
    (result : GenerateAIImageResult) :
  received rt world config params retryCount r tr = (Returned (Finished result), tr') ->
  ok r = true
  /\ exists pre tr1 data tr1',
       responseData rt config params r tr1 = (Returned data, tr1')
       /\ model result = modelName config
       /\ tr' = (pre ++ finalReport params)%list
       /\ (exists evs, pre = (tr ++ evs)%list)
       /\ deliveredFrom rt world config params data pre (image result).
Proof.
  unfold received. intros H.
  apply bind_returned in H. destruct H as (u & tr1 & H1 & H).
  apply progress_returned in H1.
  destruct (ok r); cbn [negb] in H.
  - split; [reflexivity | ].
    apply bind_returned in H. destruct H as (data & tr2 & Hdata & H).
    apply deliver_returned in H.
    destruct H as (img & pre & Hout & Htr' & (evs & Hpre) & Ho).
    injection Hout as Hresult. subst result.
    exists pre, tr1, data, tr2.
    split; [exact Hdata | ].
    split; [reflexivity | ].
    split; [exact Htr' | ].
    split; [ | exact Ho].
    assert (Hany : emitsOnly anyEvent (responseData rt config params r))
      by (apply responseData_emits; reflexivity).
    destruct (emits_run _ _ _ _ _ Hany Hdata) as (evs' & Htr2 & _).
    eexists. rewrite Hpre, Htr2, H1, <- !app_assoc. reflexivity.
  - cbv zeta in H. destruct (status r =? 401)%Z; [discriminate | ].
    destruct ((status r =? 429)%Z && (retryCount <? maxRetries - 1)%nat);
      [ | discriminate].
    apply bind_returned in H. destruct H as (u' & tr2 & _ & H). discriminate.
Qed.

Lemma attempt_returned (request : Request) (retryCount : nat)
    (tr tr' : list Event) (result : GenerateAIImageResult) :
  attempt rt world config params request retryCount tr
  = (Returned (Finished result), tr') ->
  exists pre,
    model result = modelName config
    /\ tr' = (pre ++ finalReport params)%list
    /\ imageOrigin rt world config params pre (image result).
Proof.
  unfold attempt. intros H.
  apply bind_returned in H. destruct H as (u & tr1 & _ & H).
  apply bind_returned in H. destruct H as (tr0 & tr2 & _ & H).
  apply bind_returned in H. destruct H as (u' & tr3 & H3 & H).
  injection H3 as _ Htr3.
  destruct (server world (List.length (posts tr0)) request) as [msg | r] eqn:Er;
    [discriminate | ].
  apply received_returned in H.
  destruct H as (Hok & pre & trA & data & trB & Hdata & Hm & Htr' & (evs & Hpre) & Ho).
  exists pre. split; [exact Hm | split; [exact Htr' | ]].
  exists request, (List.length (posts tr0)), r, trA, data, trB.
  split; [ | split; [exact Er | split; [exact Hok | split; [exact Hdata | exact Ho]]]].
  rewrite Hpre, <- Htr3. apply in_or_app. left.
  apply in_or_app. right. left. reflexivity.
Qed.

Lemma retryLoop_returned (request : Request) (remaining : nat)
    (tr tr' : list Event) (result : GenerateAIImageResult) :
  retryLoop rt world config params request remaining tr = (Returned result, tr') ->
  exists pre,
    model result = modelName config
    /\ tr' = (pre ++ finalReport params)%list
    /\ imageOrigin rt world config params pre (image result).
Proof.
  revert tr. induction remaining as [| remaining IH]; intros tr;
    [discriminate | ].
  cbn [retryLoop]. cbv zeta. unfold tryCatch.
  destruct (attempt rt world config params request (maxRetries - S remaining) tr)
    as [[[result0 | ] | e] tr1] eqn:E.
  - intros H. inversion H; subst. apply attempt_returned in E. exact E.
  - apply IH.
  - destruct (maxRetries <=? S (maxRetries - S remaining))%nat; [discriminate | ].
    intros H. apply bind_returned in H. destruct H as (u & tr2 & _ & H).
    apply IH in H. exact H.
Qed.

End Returned.

Lemma generateAIImage_returned (rt : Runtime) (world : World)
    (stored : option AIImageConfig) (params : GenerateAIImageParams)
    (tr tr' : list Event) (result : GenerateAIImageResult) :
  generateAIImage rt world stored params tr = (Returned result, tr') ->
  exists config pre,
    stored = Some config
    /\ model result = modelName config
    /\ tr' = (pre ++ finalReport params)%list
    /\ imageOrigin rt world config params pre (image result).
Proof.
  unfold generateAIImage. destruct stored as [config | ]; [ | discriminate].
  match goal with
  | |- (if ?b then _ else _) _ = _ -> _ => destruct b
  end; [discriminate | ].
  intros H.
  apply bind_returned in H. destruct H as (sb & tr1 & _ & H).
  match type of H with
  | (if ?b then _ else _) _ = _ => destruct b
  end; [discriminate | ].
  apply bind_returned in H. destruct H as (role & tr2 & _ & H).
  apply bind_returned in H. destruct H as (scene & tr3 & _ & H).
  apply bind_returned in H. destruct H as (request & tr4 & _ & H).
  apply bind_returned in H. destruct H as (u & tr5 & _ & H).
  apply retryLoop_returned in H. destruct H as (pre & Hm & Ht & Ho).
  exists config, pre. repeat split; assumption.
Qed.

(* ------------------------------------------------------------------ *)
(** ** X1: The requests and the pauses of a call are bounded *)

(** X1 (the retry loop of lines 704-1122 and the poll loop of lines
    898-979).  Whatever the endpoint and the task-result endpoint answer, a
    call of [generateAIImage] sends at most three requests to the endpoint
    and at most ninety to the task-result endpoint, and the pauses of its
    timers add up to 183 seconds at most: thirty polls two seconds apart in
    each attempt, and one then two seconds between the attempts.  A task
    that stays pending reaches the three bounds together. *)
Theorem generateAIImage_budget :
  (forall (rt : Runtime) (world : World) (stored : option AIImageConfig)
          (params : GenerateAIImageParams),
     let tr := snd (run (generateAIImage rt world stored params)) in
     (List.length (posts tr) <= 3)%nat
     /\ (List.length (pollPosts tr) <= 90)%nat
     /\ (sleepTotal tr <= 183000)%Z)
  /\ (let tr := snd (run (generateAIImage plainBrowser pendingForever
                            (Some nanoBananaConfig) someParams)) in
      List.length (posts tr) = 3%nat
      /\ List.length (pollPosts tr) = 90%nat
      /\ sleepTotal tr = 183000%Z).
Proof.
  split.
  - intros rt world stored params tr. subst tr. unfold run.
    destruct (generateAIImage rt world stored params []) as [o tr'] eqn:E.
    destruct (emits_run _ _ _ _ _ (generateAIImage_costs rt world stored params) E)
      as (evs & -> & H).
    exact H.
  - vm_compute. repeat split.
Qed.

(* ------------------------------------------------------------------ *)
(** ** X2: Nothing is sent before the inputs are validated *)

(** X2 (lines 241-333 before the loop of line 707).  A call of
    [generateAIImage] ends in one of two ways.  Either it fails at one of
    the checks that precede the retry loop (the stored configuration, the
    conversion of the images, the endpoint URL, the length guards of the
    storyboard image), and then it has only fetched images: no request was
    sent, no percentage reported and no timer awaited.  Or it has sent the
    request it built once, twice or three times, the same request each
    time. *)
Theorem generateAIImage_validates_first (rt : Runtime) (world : World)
    (stored : option AIImageConfig) (params : GenerateAIImageParams) :
  let r := run (generateAIImage rt world stored params) in
  (exists e, fst r = Thrown e /\ beforeRequest (site e) = true
             /\ forallb isFetchImage (snd r) = true)
  \/ (exists request k, (k <= 2)%nat
                        /\ posts (snd r) = repeat (Post request) (S k)).
Proof.
  intros r. subst r. unfold run.
  destruct (generateAIImage rt world stored params []) as [o tr'] eqn:E.
  cbn [fst snd].
  assert (H : emits (generateAIImage rt world stored params)
                (fun o evs =>
                   (exists e, o = Thrown e /\ beforeRequest (site e) = true
                              /\ forallb isFetchImage evs = true)
                   \/ (exists request k,
                         (k <= 2)%nat
                         /\ posts evs = repeat (Post request) (S k)))).
  { eapply generateAIImage_phases
      with (R := fun _ evs => exists request k,
                     (k <= 2)%nat /\ posts evs = repeat (Post request) (S k)).
    - intros config request _. change maxRetries with 3%nat.
      eapply emits_weaken; [apply retryLoop_asks | ].
      cbv beta. intros _ evs (k & Hk & H). exists request, k.
      split; assumption.
    - intros e pre Hsite Hpre. left. exists e. repeat split; assumption.
    - intros pre o0 evs Hpre (request & k & Hk & H). right.
      exists request, k. split; [exact Hk | ].
      rewrite !posts_app, (posts_none _ _ isFetchImage_not_post Hpre), H.
      unfold prelude. destruct (onProgress params); reflexivity. }
  destruct (emits_run _ _ _ _ _ H E) as (evs & -> & Hevs). exact Hevs.
Qed.

(* ------------------------------------------------------------------ *)
(** ** X3: An endpoint that never answers with a success *)

(** X3 (lines 707-760 and the [catch] of lines 1110-1119).  When the
    endpoint fails every request, by a rejected fetch or by a status that
    is not a success, whatever the status (401 and 429 included), a call
    that passes the checks before the loop sends its request exactly three
    times, pauses one second after the first failure and two seconds after
    the second, never asks the task-result endpoint, and fails with the
    error of the third request. *)
Theorem generateAIImage_refused (rt : Runtime) (world : World)
    (stored : option AIImageConfig) (params : GenerateAIImageParams) :
  (forall n req, repliesFailure (server world n req) = true) ->
  let r := run (generateAIImage rt world stored params) in
  exists e,
    fst r = Thrown e
    /\ pollPosts (snd r) = []
    /\ (beforeRequest (site e) = true
        /\ posts (snd r) = [] /\ sleepsOf (snd r) = []
        \/ requestFailure (site e) = true
           /\ (exists request, posts (snd r) = [Post request; Post request;
                                                Post request])
           /\ sleepsOf (snd r) = [1000; 2000]%Z).
Proof.
  intros refuses r. subst r. unfold run.
  destruct (generateAIImage rt world stored params []) as [o tr'] eqn:E.
  cbn [fst snd].
  assert (H : emits (generateAIImage rt world stored params)
                (fun o evs =>
                   exists e,
                     o = Thrown e
                     /\ pollPosts evs = []
                     /\ (beforeRequest (site e) = true
                         /\ posts evs = [] /\ sleepsOf evs = []
                         \/ requestFailure (site e) = true
                            /\ (exists request,
                                  posts evs = [Post request; Post request;
                                               Post request])
                            /\ sleepsOf evs = [1000; 2000]%Z))).
  { eapply generateAIImage_phases
      with (R := fun o evs =>
                   (exists e, o = Thrown e /\ requestFailure (site e) = true)
                   /\ (exists request,
                         posts evs = [Post request; Post request; Post request])
                   /\ pollPosts evs = []
                   /\ sleepsOf evs = [1000; 2000]%Z).
    - intros config request _. change maxRetries with 3%nat.
      eapply emits_weaken;
        [apply (retryLoop_refused rt world config params request refuses 3); lia | ].
      cbv beta. intros o0 evs (He & Hp & Hq & Hs).
      repeat split; try assumption. exists request. exact Hp.
    - intros e pre Hsite Hpre. exists e. split; [reflexivity | ].
      split; [apply (pollPosts_none _ _ isFetchImage_not_pollPost Hpre) | ].
      left. split; [exact Hsite | ].
      split; [apply (posts_none _ _ isFetchImage_not_post Hpre) | ].
      clear - Hpre. induction pre as [| ev pre IH]; [reflexivity | ].
      simpl in Hpre. apply andb_prop in Hpre. destruct Hpre as [Hev Hpre].
      destruct ev; try discriminate. simpl. apply IH, Hpre.
    - intros pre o0 evs Hpre ((e & -> & Hsite) & (request & Hp) & Hq & Hs).
      exists e. split; [reflexivity | ].
      assert (Hquiet : posts (prelude params) = [] /\ pollPosts (prelude params) = []
                       /\ sleepsOf (prelude params) = [])
        by (unfold prelude; destruct (onProgress params); repeat split).
      destruct Hquiet as (Hq1 & Hq2 & Hq3).
      assert (Hpre3 : sleepsOf pre = []).
      { clear - Hpre. induction pre as [| ev pre IH]; [reflexivity | ].
        simpl in Hpre. apply andb_prop in Hpre. destruct Hpre as [Hev Hpre].
        destruct ev; try discriminate. simpl. apply IH, Hpre. }
      rewrite !pollPosts_app, !posts_app, !sleepsOf_app.
      rewrite (pollPosts_none _ _ isFetchImage_not_pollPost Hpre).
      rewrite (posts_none _ _ isFetchImage_not_post Hpre).
      rewrite Hpre3, Hq1, Hq2, Hq3, Hp, Hq, Hs.
      split; [reflexivity | ]. right.
      split; [exact Hsite | split; [exists request | ]; reflexivity]. }
  destruct (emits_run _ _ _ _ _ H E) as (evs & -> & Hevs). exact Hevs.
Qed.

(** The theorem on an endpoint that answers 500 to every request. *)
Lemma generateAIImage_refused_witness :
  exists e,
    fst (run (generateAIImage plainBrowser (constantServer serverError)
                (Some openAIConfig) someParams)) = Thrown e
    /\ pollPosts (snd (run (generateAIImage plainBrowser
                              (constantServer serverError)
                              (Some openAIConfig) someParams))) = []
    /\ (beforeRequest (site e) = true
        /\ posts (snd (run (generateAIImage plainBrowser
                              (constantServer serverError)
                              (Some openAIConfig) someParams))) = []
        /\ sleepsOf (snd (run (generateAIImage plainBrowser
                                 (constantServer serverError)
                                 (Some openAIConfig) someParams))) = []
        \/ requestFailure (site e) = true
           /\ (exists request,
                 posts (snd (run (generateAIImage plainBrowser
                                    (constantServer serverError)
                                    (Some openAIConfig) someParams)))
                 = [Post request; Post request; Post request])
           /\ sleepsOf (snd (run (generateAIImage plainBrowser
                                    (constantServer serverError)
                                    (Some openAIConfig) someParams)))
              = [1000; 2000]%Z).
Proof.
  exact (generateAIImage_refused plainBrowser (constantServer serverError)
           (Some openAIConfig) someParams (fun _ _ => eq_refl)).
Defined.

(* ------------------------------------------------------------------ *)
(** ** X4: Where the errors of a call come from *)

(** X4 (the [throw] statements of lines 243-1122).  An error of
    [generateAIImage] comes from a check that precedes the retry loop or
    from inside the [try] of an attempt.  The [throw] of line 1122, which
    follows the loop, is never reached: the loop is left by [return] or by
    the error of an attempt, since the rate-limit branch does not
    [continue] at the last attempt. *)
Theorem generateAIImage_error_sites (rt : Runtime) (world : World)
    (stored : option AIImageConfig) (params : GenerateAIImageParams) :
  match siteOf (fst (run (generateAIImage rt world stored params))) with
  | Some s => beforeRequest s || insideAttempt s = true
  | None => True
  end
  /\ siteOf (fst (run (generateAIImage rt world stored params)))
     <> Some RetriesExhausted.
Proof.
  assert (H : failsOnly (fun s => beforeRequest s || insideAttempt s)
                (generateAIImage rt world stored params)).
  { unfold generateAIImage.
    assert (Hb : forall A (m : M A),
               failsOnly beforeRequest m ->
               failsOnly (fun s => beforeRequest s || insideAttempt s) m).
    { intros A m. apply failsOnly_weaken. intros s ->. reflexivity. }
    assert (Hi : forall A (m : M A),
               failsOnly insideAttempt m ->
               failsOnly (fun s => beforeRequest s || insideAttempt s) m).
    { intros A m. apply failsOnly_weaken. intros s ->. apply orb_true_r. }
    destruct stored as [config | ]; [ | fails_auto].
    match goal with
    | |- failsOnly _ (if ?b then _ else _) => destruct b
    end; [fails_auto | ].
    apply failsOnly_bind; [apply Hb, convertToBase64_fails | intros sb].
    match goal with
    | |- failsOnly _ (if ?b then _ else _) => destruct b
    end; [fails_auto | ].
    apply failsOnly_bind; [apply Hb, convertOptional_fails | intros role].
    apply failsOnly_bind; [apply Hb, convertOptional_fails | intros scene].
    apply failsOnly_bind; [apply Hb, buildRequest_fails | intros request].
    apply failsOnly_bind; [apply Hi, progress_inside | intros _].
    apply Hi, retryLoop_inside. change maxRetries with 3%nat. lia. }
  specialize (H []). unfold run.
  destruct (fst (generateAIImage rt world stored params [])) as [a | e];
    cbn [siteOf]; [split; [exact I | discriminate] | ].
  split; [exact H | ].
  intros Heq. injection Heq as Heq. rewrite Heq in H. discriminate.
Qed.

(* ------------------------------------------------------------------ *)
(** ** X5: What a call that returns gives *)

(** X5 (lines 760-1109).  When [generateAIImage] returns, a configuration
    was stored and the result names its model; the last thing the call did
    was to report 100 percent to the callback, when there is one; and the
    image of the result comes from a response with a success status that
    the endpoint gave to a request of the call: the status handling is
    applied to the data of this response, the extraction finds a text that
    is not empty in what it gives, and the image is this text, or, when the
    text starts with [http://] or [https://], what the download of this
    address gave, the address having been fetched in the call.  (The test
    is the one of the code, on lower-case letters: any other text is
    returned as it is.) *)
Theorem generateAIImage_result (rt : Runtime) (world : World)
    (stored : option AIImageConfig) (params : GenerateAIImageParams)
    (result : GenerateAIImageResult) :
  fst (run (generateAIImage rt world stored params)) = Returned result ->
  exists config pre,
    stored = Some config
    /\ model result = modelName config
    /\ snd (run (generateAIImage rt world stored params))
       = (pre ++ finalReport params)%list
    /\ exists request n r tr1 data tr1' tr2 data' tr3 found tr4,
         In (Post request) pre
         /\ server world n request = FetchResponse r
         /\ ok r = true
         /\ responseData rt config params r tr1 = (Returned data, tr1')
         /\ handleStatus rt world config params data tr2 = (Returned data', tr3)
         /\ extractImage rt data' tr3 = (Returned (VStr found), tr4)
         /\ nonEmpty found = true
         /\ if startsWith found "http://" || startsWith found "https://"
            then In (FetchImage found) pre
                 /\ downloaded world found = Some (image result)
            else image result = found.
Proof.
  unfold run.
  destruct (generateAIImage rt world stored params []) as [o tr'] eqn:E.
  cbn [fst snd]. intros ->.
  apply generateAIImage_returned in E.
  destruct E as (config & pre & Hs & Hm & Ht & Ho).
  exists config, pre. repeat (split; [assumption | ]).
  destruct Ho as (request & n & r & tr1 & data & tr1' & Hin & Hr & Hok & Hdata
                  & tr2 & data' & tr3 & found & tr4 & H1 & H2 & H3 & H4).
  exists request, n, r, tr1, data, tr1', tr2, data', tr3, found, tr4.
  repeat (split; [assumption | ]). exact H4.
Qed.

(** The theorem on an endpoint that answers with an image. *)
Lemma generateAIImage_result_witness :
  exists config pre,
    Some openAIConfig = Some config
    /\ "dall-e-3" = modelName config
    /\ snd (run (generateAIImage plainBrowser
                   (constantServer (jsonResponse 200 imageJson))
                   (Some openAIConfig) someParams))
       = (pre ++ finalReport someParams)%list
    /\ imageOrigin plainBrowser (constantServer (jsonResponse 200 imageJson))
         config someParams pre (pngDataUri 8).
Proof.
  destruct (generateAIImage_result plainBrowser
              (constantServer (jsonResponse 200 imageJson))
              (Some openAIConfig) someParams
              {| image := pngDataUri 8; model := "dall-e-3" |})
    as (config & pre & Hs & Hm & Ht & Ho); [vm_compute; reflexivity | ].
  exists config, pre. repeat (split; [assumption | ]).
  destruct Ho as (request & n & r & tr1 & data & tr1' & tr2 & data' & tr3
                  & found & tr4 & Hin & Hr & Hok & Hdata & H1 & H2 & H3 & H4).
  exists request, n, r, tr1, data, tr1'.
  repeat (split; [assumption | ]).
  exists tr2, data', tr3, found, tr4.
  repeat (split; [assumption | ]). exact H4.
Defined.

(* ------------------------------------------------------------------ *)
(** ** X6: What the probe of a configuration does *)

(** X6 (lines 66-215).  [validateAPIConfig] never resolves to [false]: it
    returns [true] or it throws.  It sends at most one request, the test
    request, to the endpoint as it was typed; it fetches no image and
    awaits no timer; it returns [true] only after the request was sent; an
    error comes from the three checks of the address when nothing was sent,
    and from the network, an HTML answer or a refused status
    otherwise. *)
Theorem validateAPIConfig_footprint (rt : Runtime) (world : World)
    (config : AIImageConfig) :
  let r := run (validateAPIConfig rt world config) in
  (exists e, fst r = Thrown e /\ beforeProbe (site e) = true /\ snd r = [])
  \/ (snd r = [Post (testRequest config (toLowerCase (apiEndpoint config)))]
      /\ endpoint (testRequest config (toLowerCase (apiEndpoint config)))
         = apiEndpoint config
      /\ (fst r = Returned true
          \/ exists e, fst r = Thrown e /\ afterProbe (site e) = true)).
Proof.
  intros r. subst r. unfold run, validateAPIConfig.
  destruct (negb (nonEmpty (apiEndpoint config)));
    [left; eexists; repeat split | ].
  cbv zeta.
  destruct (looksLikeDocumentation (toLowerCase (apiEndpoint config)));
    [left; eexists; repeat split | ].
  destruct (negb (URL_canParse rt (apiEndpoint config)));
    [left; eexists; repeat split | ].
  right. unfold bind, history, emit. cbv beta iota zeta. cbn [app posts filter].
  assert (Hend : endpoint (testRequest config (toLowerCase (apiEndpoint config)))
                 = apiEndpoint config)
    by (unfold testRequest; destruct (providerOf _ _); reflexivity).
  destruct (server world _ _) as [msg | resp];
    [split; [reflexivity | split; [exact Hend | ]];
     right; eexists; repeat split | ].
  repeat match goal with
         | |- context [if ?b then _ else _] => destruct b
         end;
    cbn [fst snd];
    (split; [reflexivity | split; [exact Hend | ]]);
    first [left; reflexivity | right; eexists; repeat split].
Qed.

(* ------------------------------------------------------------------ *)
(** ** X7: A success status validates the configuration *)

(** X7 (lines 146-208).  When the test request is sent and answered with a
    success status and a content type that is not HTML, the probe returns
    [true], whatever the body says: an empty body, an error object or a
    page of plain text are all accepted. *)
Theorem validateAPIConfig_accepts_success (rt : Runtime) (world : World)
    (config : AIImageConfig) (r : Response) :
  nonEmpty (apiEndpoint config) = true ->
  looksLikeDocumentation (toLowerCase (apiEndpoint config)) = false ->
  URL_canParse rt (apiEndpoint config) = true ->
  server world 0 (testRequest config (toLowerCase (apiEndpoint config)))
  = FetchResponse r ->
  ok r = true ->
  includes (contentType r) "text/html" = false ->
  fst (run (validateAPIConfig rt world config)) = Returned true.
Proof.
  intros Hne Hdoc Hurl Hresp Hok Hhtml.
  unfold run, validateAPIConfig. rewrite Hne, Hdoc, Hurl. cbn [negb].
  unfold bind, history, emit. cbv beta zeta iota. cbn [posts filter List.length].
  rewrite Hresp, Hhtml, Hok. cbn [negb].
  repeat match goal with
         | |- context [if ?b then _ else _] => destruct b
         end; reflexivity.
Qed.

(** The theorem on an endpoint that answers 200 with a page of text. *)
Lemma validateAPIConfig_accepts_success_witness :
  fst (run (validateAPIConfig plainBrowser (constantServer textPage)
              openAIConfig))
  = Returned true.
Proof.
  exact (validateAPIConfig_accepts_success plainBrowser
           (constantServer textPage) openAIConfig textPage
           eq_refl eq_refl eq_refl eq_refl eq_refl eq_refl).
Defined.

(* ------------------------------------------------------------------ *)
(** ** X8: The endpoints taken for a documentation page *)

Lemma prefix_app_left (p q s : string) :
  String.prefix (p ++ q) s = true -> String.prefix p s = true.
Proof.
  revert s. induction p as [| a p IH]; intros s; [destruct s; reflexivity | ].
  destruct s as [| b s]; [discriminate | ].
  simpl. destruct (Ascii.ascii_dec a b); [apply IH | discriminate].
Qed.

Lemma includes_app_left (s p q : string) :
  includes s (p ++ q) = true -> includes s p = true.
Proof.
  induction s as [| c s IH]; cbn [includes].
  - rewrite !orb_false_r. apply prefix_app_left.
  - intros H. apply orb_prop in H. destruct H as [H | H].
    + apply prefix_app_left in H. rewrite H. reflexivity.
    + rewrite (IH H). apply orb_true_r.
Qed.

Lemma looksLikeDocumentation_marks (e : string) :
  looksLikeDocumentation e = documentationMarks e.
Proof.
  unfold looksLikeDocumentation, documentationMarks.
  destruct (includes e "/doc") eqn:Hdoc; [reflexivity | ].
  destruct (includes e "/docs") eqn:Hdocs.
  - apply (includes_app_left e "/doc" "s") in Hdocs. congruence.
  - destruct (includes e "/documentation") eqn:Hdocn; [ | reflexivity].
    apply (includes_app_left e "/doc" "umentation") in Hdocn. congruence.
Qed.

(** X8 (lines 74-82).  The probe takes an endpoint for a documentation page
    exactly when its text, in lower case, holds [/doc] or [apifox.cn], ends
    with [.html] or holds [/#/]: the tests of [/docs] and of
    [/documentation] add nothing to the test of [/doc].  It then fails
    without sending anything; so the path of an interface such as
    /v1/documents is refused, in any letter case. *)
Theorem validateAPIConfig_documentation (rt : Runtime) (world : World)
    (config : AIImageConfig) :
  nonEmpty (apiEndpoint config) = true ->
  let r := run (validateAPIConfig rt world config) in
  if documentationMarks (toLowerCase (apiEndpoint config))
  then siteOf (fst r) = Some DocumentationUrl /\ snd r = []
  else siteOf (fst r) <> Some DocumentationUrl.
Proof.
  intros Hne r. subst r.
  rewrite <- looksLikeDocumentation_marks.
  unfold run, validateAPIConfig. rewrite Hne. cbn [negb]. cbv zeta.
  destruct (looksLikeDocumentation (toLowerCase (apiEndpoint config)));
    [split; reflexivity | ].
  destruct (negb (URL_canParse rt (apiEndpoint config))); [discriminate | ].
  unfold bind, history, emit. cbv beta iota zeta.
  destruct (server world _ _) as [msg | resp]; [discriminate | ].
  repeat match goal with
         | |- context [if ?b then _ else _] => destruct b
         end; discriminate.
Qed.

(** The theorem on the path of an interface that starts with /v1/Documents. *)
Lemma validateAPIConfig_documentation_witness :
  siteOf (fst (run (validateAPIConfig plainBrowser
                      (constantServer (jsonResponse 200 imageJson))
                      documentsConfig)))
  = Some DocumentationUrl
  /\ snd (run (validateAPIConfig plainBrowser
                 (constantServer (jsonResponse 200 imageJson))
                 documentsConfig))
     = [].
Proof.
  exact (validateAPIConfig_documentation plainBrowser
           (constantServer (jsonResponse 200 imageJson)) documentsConfig
           eq_refl).
Defined.

(* ------------------------------------------------------------------ *)
(** ** X9: Data URIs are built and taken apart consistently *)

Lemma startsWith_app (p s : string) : startsWith (p ++ s) p = true.
Proof.
  unfold startsWith. induction p as [| c p IH]; [destruct s; reflexivity | ].
  simpl. destruct (Ascii.ascii_dec c c); [exact IH | congruence].
Qed.

Lemma stripPrefix_app (p s : string) : stripPrefix p (p ++ s) = Some s.
Proof.
  induction p as [| a p IH]; [destruct s; reflexivity | ].
  simpl. rewrite Ascii.eqb_refl. exact IH.
Qed.

Lemma stripPrefix_Some (p s rest : string) :
  stripPrefix p s = Some rest -> s = p ++ rest.
Proof.
  revert s. induction p as [| a p IH]; intros s.
  - destruct s; intros H; inversion H; reflexivity.
  - destruct s as [| b s]; [discriminate | ].
    simpl. destruct (Ascii.eqb a b) eqn:Hab; [ | discriminate].
    apply Ascii.eqb_eq in Hab. subst b. intros H. rewrite (IH _ H). reflexivity.
Qed.

Lemma untilSemicolon_app (mime rest : string) :
  hasChar ";" mime = false ->
  untilSemicolon (mime ++ String ";" rest) = (mime, String ";" rest).
Proof.
  induction mime as [| c mime IH]; [reflexivity | ].
  cbn [hasChar]. intros H. apply orb_false_elim in H. destruct H as [Hc Hm].
  cbn [append untilSemicolon]. rewrite Hc, (IH Hm). reflexivity.
Qed.

Lemma untilSemicolon_split (s a b : string) :
  untilSemicolon s = (a, b) -> s = a ++ b /\ hasChar ";" a = false.
Proof.
  revert a b. induction s as [| c s IH]; intros a b.
  - intros H. inversion H. split; reflexivity.
  - cbn [untilSemicolon]. destruct (Ascii.eqb c ";") eqn:Hc.
    + intros H. inversion H. split; reflexivity.
    + destruct (untilSemicolon s) as [run tail].
      intros H. inversion H; subst.
      destruct (IH run b eq_refl) as [-> Hrun].
      split; [reflexivity | ]. cbn [hasChar]. rewrite Hc, Hrun. reflexivity.
Qed.

Lemma matchDataUri_dataUri (mime data : string) :
  nonEmpty mime = true -> hasChar ";" mime = false ->
  nonEmpty data = true -> dotAll data = true ->
  matchDataUri "" (dataUri mime data) = Some (mime, data).
Proof.
  intros Hmime Hsemi Hdata Hline. unfold matchDataUri, dataUri.
  change ("data:" ++ "") with "data:".
  rewrite stripPrefix_app.
  change (";base64," ++ data) with (String ";" ("base64," ++ data)).
  rewrite (untilSemicolon_app mime ("base64," ++ data) Hsemi).
  rewrite Hmime. cbn [negb].
  change (String ";" ("base64," ++ data)) with (";base64," ++ data).
  rewrite stripPrefix_app, Hdata, Hline. reflexivity.
Qed.

Lemma matchDataUri_Some (head s mime data : string) :
  matchDataUri head s = Some (mime, data) ->
  s = "data:" ++ head ++ mime ++ ";base64," ++ data
  /\ nonEmpty mime = true /\ hasChar ";" mime = false
  /\ nonEmpty data = true /\ dotAll data = true.
Proof.
  unfold matchDataUri.
  destruct (stripPrefix ("data:" ++ head) s) as [rest | ] eqn:Hrest;
    [ | discriminate].
  destruct (untilSemicolon rest) as [m tail] eqn:Hm.
  destruct (nonEmpty m) eqn:Hne; [ | discriminate]. cbn [negb].
  destruct (stripPrefix ";base64," tail) as [payload | ] eqn:Htail;
    [ | discriminate].
  destruct (nonEmpty payload && dotAll payload) eqn:Hp; [ | discriminate].
  intros H. inversion H; subst m payload.
  apply andb_prop in Hp. destruct Hp as [Hp1 Hp2].
  apply stripPrefix_Some in Hrest, Htail.
  apply untilSemicolon_split in Hm. destruct Hm as [Hm Hsemi].
  subst s rest tail. repeat split; assumption.
Qed.

Lemma length_append (a b : string) :
  String.length (a ++ b) = (String.length a + String.length b)%nat.
Proof.
  induction a as [| c a IH]; [reflexivity | ].
  change (S (String.length (a ++ b)) = S (String.length a + String.length b)).
  now rewrite IH.
Qed.

Lemma append_inv_tail (a b c : string) : a ++ c = b ++ c -> a = b.
Proof.
  revert b. induction a as [| x a IH]; intros b H.
  - destruct b as [| y b]; [reflexivity | ].
    apply (f_equal String.length) in H.
    rewrite !length_append in H. simpl in H. lia.
  - destruct b as [| y b].
    + apply (f_equal String.length) in H.
      rewrite !length_append in H. simpl in H. lia.
    + simpl in H. injection H as -> H. now rewrite (IH b H).
Qed.

Lemma dataUri_longer (mime data : string) : dataUri mime data <> data.
Proof.
  intros H. apply (f_equal String.length) in H. unfold dataUri in H.
  rewrite !length_append in H. simpl in H. lia.
Qed.

(** X9 (lines 1024-1045 and 336-344, 449-458).  From an inline part whose
    mime type and payload are not empty, the extraction builds the data URI
    of the two.  The request builders take this data URI apart into the
    same mime type and payload exactly when the mime type holds no
    semicolon and the payload no line terminator; with such a type and such
    a payload, an image that one call returned can be sent back by the next
    with its type and data unchanged, and with any other the builders send
    something else.  Conversely a text that the pattern of the builders
    accepts is the data URI of the two pieces they get. *)
Theorem dataUri_round_trip (rt : Runtime) (mime data : string)
    (rest : list value) (tr : list Event) :
  nonEmpty mime = true -> nonEmpty data = true ->
  scanParts rt (inlinePart mime data :: rest) tr
  = (Returned (VStr (dataUri mime data)), tr)
  /\ (extractBase64 (dataUri mime data) = (mime, data)
      <-> hasChar ";" mime = false /\ dotAll data = true)
  /\ (extractPureBase64 (dataUri mime data) = data
      <-> hasChar ";" mime = false /\ dotAll data = true)
  /\ (forall s mime' data',
        matchDataUri "" s = Some (mime', data') -> s = dataUri mime' data').
Proof.
  intros Hmime Hdata.
  assert (Hstart : startsWith (dataUri mime data) "data:" = true)
    by (unfold dataUri; apply startsWith_app).
  split; [ | split; [ | split]].
  - destruct mime as [| c mime]; [discriminate | ].
    destruct data as [| d data]; [discriminate | ]. reflexivity.
  - unfold extractBase64. rewrite Hstart. split.
    + destruct (matchDataUri "" (dataUri mime data)) as [[m d] | ] eqn:E.
      * intros H. injection H as -> ->.
        apply matchDataUri_Some in E. tauto.
      * intros H. injection H as _ H. destruct (dataUri_longer _ _ H).
    + intros [Hsemi Hline].
      rewrite (matchDataUri_dataUri mime data Hmime Hsemi Hdata Hline).
      reflexivity.
  - unfold extractPureBase64. rewrite Hstart. split.
    + destruct (matchDataUri "" (dataUri mime data)) as [[m d] | ] eqn:E.
      * intros ->. apply matchDataUri_Some in E.
        destruct E as (E & _ & Hsemi & _ & Hline).
        assert (Hm : mime = m).
        { unfold dataUri in E. cbn [append] in E.
          injection E as E.
          apply (append_inv_tail mime m (";base64," ++ data)). exact E. }
        subst m. split; assumption.
      * intros H. destruct (dataUri_longer _ _ H).
    + intros [Hsemi Hline].
      rewrite (matchDataUri_dataUri mime data Hmime Hsemi Hdata Hline).
      reflexivity.
  - intros s mime' data' H. apply matchDataUri_Some in H.
    destruct H as [H _]. exact H.
Qed.

(** The theorem on a PNG image. *)
Lemma dataUri_round_trip_witness :
  extractBase64 (dataUri "image/png" "iVBORw0KGgo=")
  = ("image/png", "iVBORw0KGgo=").
Proof.
  apply (proj1 (proj2 (dataUri_round_trip plainBrowser "image/png"
                         "iVBORw0KGgo=" [] [] eq_refl eq_refl))).
  split; reflexivity.
Defined.

(* ------------------------------------------------------------------ *)
(** ** X10: An image that has to be fetched *)

(** X10 (lines 1148-1184).  For an image that is neither empty nor a data
    URI, [convertToBase64] fetches the address once, as it was given, and
    does nothing else.  What it returns is what [imageToBase64] gave for a
    blob that is not empty, fetched with a success status; and every
    failure, of the fetch, of the status, of the blob or of the
    conversion, is reported by one error whose message opens with the words
    of the branch, those of the blob: branch or those of the other
    addresses. *)
Theorem convertToBase64_fetched (world : World) (img : string)
    (tr : list Event) :
  blankImage img = false -> startsWith img "data:" = false ->
  snd (convertToBase64 world img tr) = (tr ++ [FetchImage img])%list
  /\ match fst (convertToBase64 world img tr) with
     | Returned out =>
         exists st stText size dataUrl,
           images world img
           = ImageResponse true st stText (S size) (inr out) dataUrl
     | Thrown e =>
         startsWith (message e) (fetchFailurePrefix img) = true
     end.
Proof.
  intros Hblank Hdata. unfold blankImage in Hblank.
  unfold convertToBase64. rewrite Hblank, Hdata.
  pose proof startsWith_app as Hpre.
  unfold fetchFailurePrefix.
  destruct (startsWith img "blob:");
    unfold fetchAsBase64, tryCatch, bind, emit; cbv beta iota;
    (destruct (images world img) as [msg | image_ok st stText size conv dataUrl];
     [split; [reflexivity | apply Hpre] | ]);
    (destruct image_ok; cbn [negb];
     [ | split; [reflexivity | apply Hpre]]);
    (destruct size as [| size]; cbn [Nat.eqb];
     [split; [reflexivity | apply Hpre] | ]);
    (destruct conv as [msg | base64];
     [split; [reflexivity | apply Hpre] | ]);
    (destruct (negb (nonEmpty base64) || (String.length base64 <? 100)%nat);
     [split; [reflexivity | apply Hpre] | ]);
    (split; [reflexivity | ]); exists st, stText, size, dataUrl; reflexivity.
Qed.

(** The theorem on a blob: address that cannot be fetched. *)
Lemma convertToBase64_fetched_witness :
  snd (convertToBase64 (constantServer unauthorized) "blob:http://localhost/1" [])
  = [FetchImage "blob:http://localhost/1"].
Proof.
  exact (proj1 (convertToBase64_fetched (constantServer unauthorized)
                  "blob:http://localhost/1" [] eq_refl eq_refl)).
Defined.

(* ------------------------------------------------------------------ *)
(** ** X11: The side that is fitted to the base *)

Lemma div_NaN (y : number) : div NaN y = NaN.
Proof. destruct y; reflexivity. Qed.

Lemma mul_NaN (x : number) : mul x NaN = NaN.
Proof. destruct x; reflexivity. Qed.

Lemma geb_NaN (y : number) : geb NaN y = false.
Proof. destruct y; reflexivity. Qed.

(** X11 (imageUtils.ts, lines 220-247).  With the base 1024 that
    [generateAIImage] uses, one side of the size is 1024 for every ratio
    text: the width when the first number of the ratio is at least the
    second, the height otherwise.  A ratio whose first number does not
    parse, such as [auto], falls in the second case with a width that is
    not a number, whatever its second number. *)
Theorem calculateImageSize_base_side :
  (forall ratio : string,
     fst (calculateImageSize ratio (ofZ 1024)) = ofZ 1024
     \/ snd (calculateImageSize ratio (ofZ 1024)) = ofZ 1024)
  /\ (forall ratio : string,
        ratioWidth ratio = NaN ->
        calculateImageSize ratio (ofZ 1024) = (NaN, ofZ 1024))
  /\ ratioWidth "auto" = NaN.
Proof.
  assert (H1024 : toMultipleOf8 (ofZ 1024) = ofZ 1024) by (vm_compute; reflexivity).
  split; [ | split; [ | reflexivity]].
  - intros ratio. unfold calculateImageSize, fitToBase. cbv zeta.
    destruct (geb _ _); cbn [fst snd]; [left | right]; exact H1024.
  - intros ratio Hw. unfold calculateImageSize, fitToBase. cbv zeta.
    unfold ratioWidth in Hw. rewrite Hw, geb_NaN, div_NaN, mul_NaN, H1024.
    reflexivity.
Qed.

(* ------------------------------------------------------------------ *)
(** ** X12: The sizes of the ratios of two integers *)

Lemma integerRatioSize_table :
  forallb (fun w => forallb (fun h => match integerRatioSize w h with
                                      | Some _ => true
                                      | None => false
                                      end)
                      (map Z.of_nat (seq 1 64)))
    (map Z.of_nat (seq 1 64)) = true.
Proof. vm_compute. reflexivity. Qed.

(** X12 (imageUtils.ts, lines 220-247).  For the ratio [w:h] of two
    integers from 1 to 64, the two sides of the size are integers, multiples
    of 8 and at least 16; the side of the larger number of the ratio is
    1024, and the other side is within 4.5 of its exact value 1024 times
    the smaller number over the larger; and the ratio [h:w] gives the same
    two sides exchanged.  Checked on each of the 4096 ratios, with the
    arithmetic of binary64 numbers. *)
Theorem calculateImageSize_integer_ratios (w h : Z) :
  (1 <= w <= 64)%Z -> (1 <= h <= 64)%Z ->
  exists a b : Z,
    calculateImageSize (ratioText w h) (ofZ 1024) = (ofZ a, ofZ b)
    /\ calculateImageSize (ratioText h w) (ofZ 1024) = (ofZ b, ofZ a)
    /\ (a mod 8 = 0 /\ b mod 8 = 0 /\ 16 <= a /\ 16 <= b)%Z
    /\ ((h <= w -> a = 1024 /\ 2 * Z.abs (b * w - 1024 * h) <= 9 * w)
        /\ (w < h -> b = 1024 /\ 2 * Z.abs (a * h - 1024 * w) <= 9 * h))%Z.
Proof.
  intros Hw Hh.
  pose proof integerRatioSize_table as T.
  rewrite forallb_forall in T.
  assert (Hin : forall z, (1 <= z <= 64)%Z -> In z (map Z.of_nat (seq 1 64))).
  { intros z Hz. apply in_map_iff. exists (Z.to_nat z). split; [lia | ].
    apply in_seq. lia. }
  specialize (T w (Hin w Hw)). rewrite forallb_forall in T.
  specialize (T h (Hin h Hh)).
  unfold integerRatioSize in T.
  destruct (calculateImageSize (ratioText w h) (ofZ 1024)) as [width height].
  destruct (calculateImageSize (ratioText h w) (ofZ 1024)) as [width' height'].
  destruct (asInteger width) as [a | ]; [ | discriminate].
  destruct (asInteger height) as [b | ]; [ | discriminate].
  match type of T with
  | match (if ?c then _ else _) with _ => _ end = _ =>
      destruct c eqn:Hc; [ | discriminate]
  end.
  repeat (apply andb_prop in Hc; destruct Hc as [Hc ?]).
  exists a, b.
  repeat match goal with
         | H : sameNumber _ _ = true |- _ => apply sameNumber_eq in H
         end.
  subst width height width' height'.
  split; [reflexivity | split; [reflexivity | ]].
  split; [repeat split; lia | ].
  match goal with
  | H : (if (h <=? w)%Z then _ else _) = true |- _ => rename H into Hside
  end.
  destruct (h <=? w)%Z eqn:Hhw;
    apply andb_prop in Hside; destruct Hside as [Hbase Hnear].
  - apply Z.leb_le in Hhw.
    split; [intros _; split; lia | intros; lia].
  - apply Z.leb_gt in Hhw.
    split; [intros; lia | intros _; split; lia].
Qed.

(** The theorem on the ratios 21:9 and 9:21. *)
Lemma calculateImageSize_integer_ratios_witness :
  exists a b : Z,
    calculateImageSize (ratioText 21 9) (ofZ 1024) = (ofZ a, ofZ b)
    /\ calculateImageSize (ratioText 9 21) (ofZ 1024) = (ofZ b, ofZ a)
    /\ (a mod 8 = 0 /\ b mod 8 = 0 /\ 16 <= a /\ 16 <= b)%Z
    /\ ((9 <= 21 -> a = 1024 /\ 2 * Z.abs (b * 21 - 1024 * 9) <= 9 * 21)
        /\ (21 < 9 -> b = 1024 /\ 2 * Z.abs (a * 9 - 1024 * 21) <= 9 * 9))%Z.
Proof.
  apply (calculateImageSize_integer_ratios 21 9); lia.
Defined.

(* ------------------------------------------------------------------ *)
(** ** X13: The chunks of an event stream *)

Lemma append_assoc3 (x y z : string) : ((x ++ y) ++ z = x ++ y ++ z)%string.
Proof.
  induction x as [| c x IH]; [reflexivity | ].
  cbn [append]. rewrite IH. reflexivity.
Qed.

Lemma split_nonempty (sep : ascii) (s : string) : split sep s <> [].
Proof.
  destruct s as [| c s]; [discriminate | ].
  cbn [split]. destruct (Ascii.eqb c sep); [discriminate | ].
  destruct (split sep s); discriminate.
Qed.

Lemma split_app (sep : ascii) (x y : string) :
  split sep (x ++ y)
  = (removelast (split sep x)
     ++ split sep (List.last (split sep x) EmptyString ++ y))%list.
Proof.
  induction x as [| c x IH]; [reflexivity | ].
  cbn [append split].
  pose proof (split_nonempty sep x) as Hne.
  destruct (Ascii.eqb c sep) eqn:Hc.
  - rewrite IH. destruct (split sep x) as [| p ps]; [congruence | ].
    reflexivity.
  - rewrite IH. destruct (split sep x) as [| p ps]; [congruence | ].
    destruct ps as [| p2 ps]; [ | reflexivity].
    cbn [removelast List.last app append split]. rewrite Hc. reflexivity.
Qed.

Lemma removelast_app_nonempty {A} (l l' : list A) :
  l' <> [] -> removelast (l ++ l') = (l ++ removelast l')%list.
Proof. intros H. apply removelast_app, H. Qed.

Lemma last_app_nonempty {A} (l l' : list A) (d : A) :
  l' <> [] -> List.last (l ++ l') d = List.last l' d.
Proof.
  intros H. induction l as [| a l IH]; [reflexivity | ].
  cbn [app]. destruct (l ++ l')%list eqn:E.
  - apply app_eq_nil in E. destruct E as [_ E]. congruence.
  - exact IH.
Qed.

Section Chunks.

Variable rt : Runtime.
Variable params : GenerateAIImageParams.

(** A calm line never leaves the loop and never looks at the buffer. *)
Lemma sseLine_calm (buffer buffer' : string) (lastData : value)
    (line : string) (tr : list Event) :
  calmLine rt line = true ->
  sseLine rt params buffer lastData line tr
  = sseLine rt params buffer' lastData line tr
  /\ (forall x stop tr',
        sseLine rt params buffer lastData line tr = (Returned (x, stop), tr') ->
        stop = false
        /\ (endsStream lastData = false -> endsStream x = false)).
Proof.
  unfold calmLine, lineEvent, sseLine.
  destruct (startsWith line "data: ");
    [ | intros _; split; [reflexivity | ];
        intros x stop tr' H; inversion H; subst; split; [reflexivity | auto]].
  cbv zeta.
  destruct (nonEmpty (trim (substringFrom 6 line)));
    [ | intros _; split; [reflexivity | ];
        intros x stop tr' H; inversion H; subst; split; [reflexivity | auto]].
  destruct (JSON_parse rt (trim (substringFrom 6 line))) as [eventData | ];
    [ | intros _; split; [reflexivity | ];
        intros x stop tr' H; inversion H; subst; split; [reflexivity | auto]].
  intros Hcalm. apply negb_true_iff in Hcalm.
  assert (Hquiet : endsStream eventData = false)
    by (unfold endsStream; rewrite Hcalm; apply andb_false_r).
  destruct (Js.get eventData "progress") as [p | ];
    [ | split; [reflexivity | ];
        intros x stop tr' H; inversion H; subst; split; [reflexivity | auto]].
  rewrite Hcalm. split; [reflexivity | ].
  intros x stop tr' H. apply bind_returned in H.
  destruct H as (u & tr1 & _ & H). inversion H; subst.
  split; [reflexivity | auto].
Qed.

Lemma sseLines_calm (buffer buffer' : string) (lines : list string)
    (lastData : value) (tr : list Event) :
  forallb (calmLine rt) lines = true ->
  sseLines rt params buffer lastData lines tr
  = sseLines rt params buffer' lastData lines tr
  /\ (forall x tr',
        sseLines rt params buffer lastData lines tr = (Returned x, tr') ->
        endsStream lastData = false -> endsStream x = false).
Proof.
  revert lastData tr.
  induction lines as [| line rest IH]; intros lastData tr Hcalm.
  - split; [reflexivity | ]. intros x tr' H. inversion H; subst. auto.
  - cbn [forallb] in Hcalm. apply andb_prop in Hcalm.
    destruct Hcalm as [Hline Hrest].
    destruct (sseLine_calm buffer buffer' lastData line tr Hline) as [Heq Hstep].
    cbn [sseLines]. unfold bind. rewrite <- Heq.
    destruct (sseLine rt params buffer lastData line tr)
      as [[[x stop] | e] tr1] eqn:E.
    + destruct (Hstep x stop tr1 eq_refl) as [-> Hx].
      destruct (IH x tr1 Hrest) as [Heq' Hquiet].
      split; [exact Heq' | ].
      intros y tr' H Hld. apply (Hquiet y tr' H). auto.
    + split; [reflexivity | discriminate].
Qed.

Lemma sseLines_app (buffer : string) (lines lines' : list string)
    (lastData : value) (tr : list Event) :
  forallb (calmLine rt) lines = true ->
  sseLines rt params buffer lastData (lines ++ lines') tr
  = bind (sseLines rt params buffer lastData lines)
      (fun x => sseLines rt params buffer x lines') tr.
Proof.
  revert lastData tr.
  induction lines as [| line rest IH]; intros lastData tr Hcalm;
    [reflexivity | ].
  cbn [forallb] in Hcalm. apply andb_prop in Hcalm.
  destruct Hcalm as [Hline Hrest].
  destruct (sseLine_calm buffer buffer lastData line tr Hline) as [_ Hstep].
  cbn [app sseLines]. unfold bind at 1 2 3.
  destruct (sseLine rt params buffer lastData line tr)
    as [[[x stop] | e] tr1] eqn:E; [ | reflexivity].
  destruct (Hstep x stop tr1 eq_refl) as [-> _].
  rewrite (IH x tr1 Hrest). reflexivity.
Qed.

End Chunks.

(** X13 (lines 774-829).  As long as no line carries an event with a
    terminal status, the reader does not depend on how the transport cuts
    the text into chunks: reading a chunk gives the same outcome, the same
    percentages and the same history as reading its two halves one after
    the other, wherever the cut falls, inside a line or between two. *)
Theorem readStream_chunking (rt : Runtime) (params : GenerateAIImageParams)
    (a b : string) (rest : Stream) (buffer : string) (lastData : value)
    (tr : list Event) :
  forallb (calmLine rt) (removelast (split LF (buffer ++ a ++ b))) = true ->
  endsStream lastData = false ->
  readStream rt params (StreamChunk (a ++ b) rest) buffer lastData tr
  = readStream rt params (StreamChunk a (StreamChunk b rest)) buffer lastData tr.
Proof.
  intros Hcalm Hquiet.
  cbn [readStream]. cbv zeta.
  rewrite <- append_assoc3 in *.
  rewrite (split_app LF (buffer ++ a) b) in *.
  set (pieces1 := split LF (buffer ++ a)) in *.
  set (buffer1 := List.last pieces1 EmptyString) in *.
  set (pieces2 := split LF (buffer1 ++ b)) in *.
  assert (Hne : pieces2 <> []) by apply split_nonempty.
  rewrite (removelast_app_nonempty _ _ Hne) in *.
  rewrite (last_app_nonempty _ _ EmptyString Hne).
  rewrite forallb_app in Hcalm. apply andb_prop in Hcalm.
  destruct Hcalm as [Hcalm1 Hcalm2].
  set (buffer2 := List.last pieces2 EmptyString).
  unfold bind at 1. rewrite (sseLines_app rt params buffer2 _ _ _ _ Hcalm1).
  unfold bind at 1 2.
  destruct (sseLines_calm rt params buffer2 buffer1 (removelast pieces1)
              lastData tr Hcalm1) as [Heq _].
  rewrite Heq.
  destruct (sseLines_calm rt params buffer1 buffer1 (removelast pieces1)
              lastData tr Hcalm1) as [_ Hkeep].
  destruct (sseLines rt params buffer1 lastData (removelast pieces1) tr)
    as [[x | e] tr1] eqn:E; [ | reflexivity].
  specialize (Hkeep x tr1 eq_refl Hquiet). unfold endsStream in Hkeep.
  rewrite Hkeep. reflexivity.
Qed.

(** The theorem on an event in progress that the transport cuts after the
    prefix of its line. *)
Lemma readStream_chunking_witness :
  readStream runningBrowser someParams
    (StreamChunk ("data: " ++ (runningEventText ++ nl)) StreamDone) "" VNull []
  = readStream runningBrowser someParams
      (StreamChunk "data: " (StreamChunk (runningEventText ++ nl) StreamDone))
      "" VNull [].
Proof.
  exact (readStream_chunking runningBrowser someParams "data: "
           (runningEventText ++ nl) StreamDone "" VNull [] eq_refl eq_refl).
Defined.

(* ------------------------------------------------------------------ *)
(** ** X14: The qualities that compressImage tries *)

Lemma quality_floor :
  map (fun k => leb (qualityAt k) oneTenth) (seq 0 10)
  = [false; false; false; false; false; false; false; false; false; true].
Proof. vm_compute. reflexivity. Qed.

Lemma tryCompress_ends (canvas : Canvas) (maxSizeBytes : number) (d : nat) :
  forall k fuel, (k + d = 9)%nat -> (d < fuel)%nat ->
  exists r qs,
    tryCompress fuel canvas maxSizeBytes (qualityAt k) = Some (r, qs)
    /\ (exists n, (n <= d)%nat /\ qs = map qualityAt (seq k (S n)))
    /\ match r with
       | inl _ => toBlob canvas (List.last qs NaN) = None
       | inr blob =>
           toBlob canvas (List.last qs NaN) = Some blob
           /\ (leb (ofZ (blobSize blob)) maxSizeBytes = true
               \/ List.length qs = S d)
       end.
Proof.
  induction d as [| d IH]; intros k fuel Hk Hfuel.
  - destruct fuel as [| fuel]; [lia | ]. cbn [tryCompress].
    assert (k = 9%nat) by lia. subst k.
    assert (Hfloor : leb (qualityAt 9) oneTenth = true)
      by (vm_compute; reflexivity).
    destruct (toBlob canvas (qualityAt 9)) as [blob | ] eqn:Hblob.
    + rewrite Hfloor, orb_true_r.
      exists (inr blob), [qualityAt 9]. split; [reflexivity | ].
      split; [exists 0%nat; split; [lia | reflexivity] | ].
      split; [exact Hblob | right; reflexivity].
    + exists (inl "图片压缩失败"), [qualityAt 9]. split; [reflexivity | ].
      split; [exists 0%nat; split; [lia | reflexivity] | exact Hblob].
  - destruct fuel as [| fuel]; [lia | ]. cbn [tryCompress].
    destruct (toBlob canvas (qualityAt k)) as [blob | ] eqn:Hblob.
    + destruct (leb (ofZ (blobSize blob)) maxSizeBytes
                || leb (qualityAt k) oneTenth) eqn:Hstop.
      * exists (inr blob), [qualityAt k]. split; [reflexivity | ].
        split; [exists 0%nat; split; [lia | reflexivity] | ].
        split; [exact Hblob | ].
        apply orb_prop in Hstop. destruct Hstop as [Hfit | Hq];
          [left; exact Hfit | ].
        exfalso. clear - Hq Hk.
        do 9 (destruct k as [| k];
              [vm_compute in Hq; discriminate Hq | ]).
        lia.
      * destruct (IH (S k) fuel ltac:(lia) ltac:(lia))
          as (r & qs & E & (n & Hn & Hqs) & Hr).
        change (sub (qualityAt k) oneTenth) with (qualityAt (S k)).
        rewrite E. exists r, (qualityAt k :: qs). split; [reflexivity | ].
        assert (Hlast : List.last (qualityAt k :: qs) NaN = List.last qs NaN)
          by (rewrite Hqs; reflexivity).
        split.
        -- exists (S n). split; [lia | ]. rewrite Hqs. reflexivity.
        -- rewrite Hlast. destruct r as [msg | blob']; [exact Hr | ].
           destruct Hr as [Hb [Hfit | Hlen]].
           ++ split; [exact Hb | left; exact Hfit].
           ++ split; [exact Hb | right]. cbn [List.length]. rewrite Hlen.
              reflexivity.
    + exists (inl "图片压缩失败"), [qualityAt k]. split; [reflexivity | ].
      split; [exists 0%nat; split; [lia | reflexivity] | exact Hblob].
Qed.

(** X14 (imageUtils.ts, lines 154-215).  [compressImage] always ends: ten
    calls of [tryCompress] are enough, whatever the canvas encodes.  It
    gives the image back untouched when it fits, and never encodes then;
    otherwise the qualities it tries are the first ones of 0.9, 0.9 - 0.1,
    (0.9 - 0.1) - 0.1, ... in binary64 arithmetic, of which only the tenth
    is at most 0.1 (the ninth is a little above 0.1, the tenth is about
    1.4e-16); and a blob it resolves with is the last one encoded, which
    fits or is the tenth. *)
Theorem compressImage_ends (canvas : Canvas) (image : Blob)
    (maxSizeKB : number) (fuel : nat) :
  (10 <= fuel)%nat ->
  exists r qs,
    compressImage fuel canvas image maxSizeKB = Some (r, qs)
    /\ compressImage 10 canvas image maxSizeKB = Some (r, qs)
    /\ (exists n, (n <= 10)%nat /\ qs = map qualityAt (seq 0 n))
    /\ (fits maxSizeKB image = true -> r = inr image /\ qs = [])
    /\ (forall blob, r = inr blob -> qs <> [] ->
          toBlob canvas (List.last qs NaN) = Some blob
          /\ (fits maxSizeKB blob = true \/ List.length qs = 10%nat))
    /\ map (fun k => leb (qualityAt k) oneTenth) (seq 0 10)
       = [false; false; false; false; false; false; false; false; false; true].
Proof.
  intros Hfuel. unfold compressImage, fits. cbv zeta.
  destruct (leb (ofZ (blobSize image)) (mul maxSizeKB (ofZ 1024))) eqn:Hfit.
  { exists (inr image), [].
    split; [reflexivity | split; [reflexivity | ]].
    split; [exists 0%nat; split; [lia | reflexivity] | ].
    split; [intros _; split; reflexivity | ].
    split; [intros blob _ H; congruence | apply quality_floor]. }
  destruct (negb (imageLoads canvas)).
  { eexists _, [].
    split; [reflexivity | split; [reflexivity | ]].
    split; [exists 0%nat; split; [lia | reflexivity] | ].
    split; [discriminate | ].
    split; [intros blob _ H; congruence | apply quality_floor]. }
  destruct (negb (context2d canvas)).
  { eexists _, [].
    split; [reflexivity | split; [reflexivity | ]].
    split; [exists 0%nat; split; [lia | reflexivity] | ].
    split; [discriminate | ].
    split; [intros blob _ H; congruence | apply quality_floor]. }
  destruct (tryCompress_ends canvas (mul maxSizeKB (ofZ 1024)) 9 0 fuel
              eq_refl ltac:(lia))
    as (r & qs & E & (n & Hn & Hqs) & Hr).
  destruct (tryCompress_ends canvas (mul maxSizeKB (ofZ 1024)) 9 0 10
              eq_refl ltac:(lia))
    as (r' & qs' & E' & _).
  change (qualityAt 0) with nineTenths in E, E'.
  assert (Hsame : tryCompress 10 canvas (mul maxSizeKB (ofZ 1024)) nineTenths
                  = Some (r, qs)).
  { clear - E Hfuel Hqs Hn.
    assert (Hgen : forall d k f1 f2 res,
               (k + d = 9)%nat -> (d < f1)%nat -> (d < f2)%nat ->
               tryCompress f1 canvas (mul maxSizeKB (ofZ 1024)) (qualityAt k)
               = Some res ->
               tryCompress f2 canvas (mul maxSizeKB (ofZ 1024)) (qualityAt k)
               = Some res).
    { induction d as [| d IH]; intros k f1 f2 res Hk H1 H2;
        (destruct f1 as [| f1]; [lia | ]); (destruct f2 as [| f2]; [lia | ]);
        cbn [tryCompress];
        destruct (toBlob canvas (qualityAt k)) as [blob | ]; try (intros H; exact H).
      - assert (k = 9%nat) by lia. subst k.
        assert (Hfloor : leb (qualityAt 9) oneTenth = true)
          by (vm_compute; reflexivity).
        rewrite Hfloor, !orb_true_r.
        intros H; exact H.
      - destruct (leb (ofZ (blobSize blob)) (mul maxSizeKB (ofZ 1024))
                  || leb (qualityAt k) oneTenth); [intros H; exact H | ].
        change (sub (qualityAt k) oneTenth) with (qualityAt (S k)).
        destruct (tryCompress f1 canvas (mul maxSizeKB (ofZ 1024))
                    (qualityAt (S k))) as [[r1 qs1] | ] eqn:E1; [ | discriminate].
        rewrite (IH (S k) f1 f2 (r1, qs1) ltac:(lia) ltac:(lia) ltac:(lia) E1).
        intros H; exact H. }
    apply (Hgen 9%nat 0%nat fuel 10%nat (r, qs) eq_refl); [lia | lia | exact E]. }
  exists r, qs. split; [exact E | split; [exact Hsame | ]].
  split; [exists (S n); split; [lia | exact Hqs] | ].
  split; [discriminate | ].
  split; [ | apply quality_floor].
  intros blob -> _. destruct Hr as [Hb [Hf | Hlen]].
  - split; [exact Hb | left; exact Hf].
  - split; [exact Hb | right; exact Hlen].
Qed.

(** The theorem with the twelve calls that a generous bound allows. *)
Lemma compressImage_ends_witness :
  exists r qs,
    compressImage 12 {| imageLoads := true; context2d := true;
                        toBlob := fun _ => None |}
      {| blobSize := 4096; blobData := "" |} (ofZ 1)
    = Some (r, qs)
    /\ compressImage 10 {| imageLoads := true; context2d := true;
                           toBlob := fun _ => None |}
         {| blobSize := 4096; blobData := "" |} (ofZ 1)
       = Some (r, qs).
Proof.
  destruct (compressImage_ends
              {| imageLoads := true; context2d := true;
                 toBlob := fun _ => None |}
              {| blobSize := 4096; blobData := "" |} (ofZ 1) 12 ltac:(lia))
    as (r & qs & H1 & H2 & _).
  exists r, qs. split; assumption.
Defined.

(* ------------------------------------------------------------------ *)
(** ** X15: The path of an asset *)

Lemma leading_slash (path : string) :
  (if negb (startsWith path "/") then "/" ++ path else path)
  = "/" ++ withoutLeadingSlash path
  /\ startsWith ("/" ++ withoutLeadingSlash path) "/" = true.
Proof.
  split; [ | apply (startsWith_app "/")].
  destruct path as [| c path]; [reflexivity | ].
  unfold startsWith, withoutLeadingSlash. cbn [String.prefix].
  destruct (Ascii.ascii_dec "/" c) as [<- | Hc].
  - destruct path; reflexivity.
  - cbn [negb].
    destruct c as [[] [] [] [] [] [] [] []]; try reflexivity. congruence.
Qed.

Lemma prefix_rev_acc (s acc : string) :
  String.prefix "/" (rev_acc s acc) = true ->
  (s = EmptyString /\ String.prefix "/" acc = true)
  \/ exists s', s = s' ++ "/".
Proof.
  revert acc. induction s as [| c s IH]; intros acc H; [left; split; auto | ].
  right. cbn [rev_acc] in H. destruct (IH _ H) as [[-> Hacc] | [s' ->]].
  - exists EmptyString. cbn [String.prefix] in Hacc.
    destruct (Ascii.ascii_dec "/" c) as [<- | ]; [reflexivity | discriminate].
  - exists (String c s'). reflexivity.
Qed.

Lemma substring_app (s t : string) :
  String.substring 0 (String.length s) (s ++ t) = s.
Proof.
  induction s as [| c s IH]; [destruct t; reflexivity | ].
  change (String.length (String c s)) with (S (String.length s)).
  cbn [append String.substring]. rewrite IH. reflexivity.
Qed.

Lemma length_app_one (s : string) (c : ascii) :
  String.length (s ++ String c EmptyString) = S (String.length s).
Proof.
  induction s as [| a s IH]; [reflexivity | ].
  cbn [append]. change (String.length (String a (s ++ String c EmptyString)))
    with (S (String.length (s ++ String c EmptyString))).
  rewrite IH. reflexivity.
Qed.

Lemma trailing_slash (s : string) :
  endsWith s "/" = true -> withoutTrailingSlash s ++ "/" = s.
Proof.
  intros H. unfold withoutTrailingSlash. rewrite H.
  unfold endsWith, rev in H. cbn [rev_acc] in H.
  destruct (prefix_rev_acc s EmptyString H) as [[_ Hacc] | [s' ->]];
    [discriminate | ].
  unfold dropLast. rewrite length_app_one.
  replace (S (String.length s') - 1)%nat with (String.length s') by lia.
  rewrite substring_app. reflexivity.
Qed.

(** X15 (pathUtils.ts, lines 1197-1218, and modelLoader.ts, line 66).  For
    every base and every path, [getAssetPath] gives the base without its
    last slash, a slash, and the path without its first slash: the special
    case of the base [/] and the second test of the first slash change
    nothing.  So the first slash of the path is optional, a base that ends
    with a slash is followed by the path without its first slash, and the
    default character model is found at models/characters/default.glb
    under the base. *)
Theorem getAssetPath_joins (baseUrl path : string) :
  getAssetPath baseUrl path
  = withoutTrailingSlash baseUrl ++ "/" ++ withoutLeadingSlash path
  /\ getAssetPath baseUrl ("/" ++ withoutLeadingSlash path)
     = getAssetPath baseUrl path
  /\ (endsWith baseUrl "/" = true ->
      getAssetPath baseUrl path = baseUrl ++ withoutLeadingSlash path
      /\ getDefaultCharacterPath baseUrl
         = baseUrl ++ "models/characters/default.glb").
Proof.
  assert (Hjoin : forall p,
             getAssetPath baseUrl p
             = withoutTrailingSlash baseUrl ++ "/" ++ withoutLeadingSlash p).
  { intros p. unfold getAssetPath. cbv zeta.
    destruct (leading_slash p) as [-> ->].
    destruct (String.eqb baseUrl "/") eqn:Hroot; [ | reflexivity].
    apply String.eqb_eq in Hroot. subst baseUrl. reflexivity. }
  split; [apply Hjoin | split].
  - rewrite !Hjoin. reflexivity.
  - intros Hends.
    assert (Hbase : forall p,
               getAssetPath baseUrl p = baseUrl ++ withoutLeadingSlash p).
    { intros p. rewrite Hjoin.
      rewrite <- (trailing_slash baseUrl Hends) at 2.
      rewrite append_assoc3. reflexivity. }
    split; [apply Hbase | apply (Hbase "/models/characters/default.glb")].
Qed.

(** The theorem on a site served under /storyboard/. *)
Lemma getAssetPath_joins_witness :
  getAssetPath "/storyboard/" "models/poses/poses.json"
  = "/storyboard/models/poses/poses.json"
  /\ getDefaultCharacterPath "/storyboard/"
     = "/storyboard/models/characters/default.glb".
Proof.
  exact (proj2 (proj2 (getAssetPath_joins "/storyboard/"
                         "models/poses/poses.json")) eq_refl).
Defined.

(* ------------------------------------------------------------------ *)
(** ** X16: The rounds of the poll loop *)

Lemma pollPercent_table :
  forallb (fun k => sameNumber (pollPercent k) (ofZ (50 + Z.of_nat k)))
    (seq 0 30) = true.
Proof. vm_compute. reflexivity. Qed.

Lemma pollPercent_exact (k : nat) :
  (k < 30)%nat -> pollPercent k = ofZ (50 + Z.of_nat k).
Proof.
  intros Hk. apply sameNumber_eq.
  pose proof pollPercent_table as T. rewrite forallb_forall in T.
  apply T. apply in_seq. lia.
Qed.

Section Rounds.

Variable rt : Runtime.
Variable world : World.
Variable params : GenerateAIImageParams.
Variable taskId : value.

Hint Resolve typeError_emits prop_emits startsWithM_emits toLowerCaseM_emits
  taskFailure_emits pickImage_emits resultImageOf_emits : emits.

Lemma pollOnce_round (k : nat) (data : value) :
  (k < 30)%nat ->
  emits (pollOnce rt world params taskId k data)
    (fun _ evs => evs = pollRound params taskId k).
Proof.
  intros Hk. unfold pollOnce, sleep, pollRound.
  apply emits_emit_then.
  eapply emits_bind
    with (R1 := fun o evs =>
                  o = Returned tt
                  /\ evs = if onProgress params
                           then [Progress (ofZ (50 + Z.of_nat k))] else []).
  - unfold progress. rewrite (pollPercent_exact k Hk).
    destruct (onProgress params);
      [apply emits_emit | apply emits_ret]; split; reflexivity.
  - intros _ evs1 [_ ->].
    eapply emits_tryCatch
      with (R1 := fun _ evs => evs = [PollPost taskId]).
    + apply emits_history_then. intros tr. apply emits_emit_then.
      apply emits_silent; [emits_auto | reflexivity].
    + intros a evs2 ->. apply emits_ret. rewrite app_nil_r. reflexivity.
    + intros e evs2 ->.
      destruct (nonEmpty (message e) && negb (includes (message e) "fetch"));
        [apply emits_rethrow | apply emits_ret];
        rewrite app_nil_r; reflexivity.
  - intros e evs1 [H _]. discriminate.
Qed.

Lemma pollLoop_rounds (remaining : nat) (data : value) :
  (remaining <= 30)%nat ->
  emits (pollLoop rt world params taskId remaining data)
    (fun o evs =>
       exists n, (n <= remaining)%nat /\ (remaining = 0 \/ 1 <= n)%nat
                 /\ evs = flat_map (pollRound params taskId)
                            (seq (30 - remaining) n)).
Proof.
  revert data. induction remaining as [| remaining IH]; intros data Hle.
  - apply emits_ret. exists 0%nat.
    split; [lia | split; [left; reflexivity | reflexivity]].
  - cbn [pollLoop]. change maxPollingAttempts with 30%nat.
    eapply emits_bind; [apply pollOnce_round; lia | | ]; cbv beta.
    + intros step evs1 ->. destruct step as [data' | ].
      * apply emits_ret. exists 1%nat. split; [lia | split; [lia | ]].
        cbn [seq flat_map]. rewrite !app_nil_r. reflexivity.
      * eapply emits_weaken; [apply IH; lia | ].
        cbv beta. intros o evs2 (n & Hn & _ & ->).
        exists (S n). split; [lia | split; [lia | ]].
        replace (30 - remaining)%nat with (S (30 - S remaining)) by lia.
        reflexivity.
    + intros e evs1 ->. exists 1%nat. split; [lia | split; [lia | ]].
      cbn [seq flat_map]. rewrite app_nil_r. reflexivity.
Qed.

End Rounds.

(** X16 (lines 898-979).  The history of the poll loop is made of rounds,
    one at least and thirty at most: each round awaits two seconds, gives
    the callback 50 plus the number of the round (so 50, 51, ... up to 79,
    exactly, in binary64 arithmetic), and sends one request to the
    task-result endpoint; nothing else happens in the loop, whatever the
    endpoint answers. *)
Theorem pollLoop_history (rt : Runtime) (world : World)
    (params : GenerateAIImageParams) (taskId data : value) (tr : list Event) :
  exists n,
    (1 <= n <= 30)%nat
    /\ snd (pollLoop rt world params taskId maxPollingAttempts data tr)
       = (tr ++ flat_map (pollRound params taskId) (seq 0 n))%list.
Proof.
  change maxPollingAttempts with 30%nat.
  destruct (pollLoop rt world params taskId 30 data tr) as [o tr'] eqn:E.
  destruct (emits_run _ _ _ _ _
              (pollLoop_rounds rt world params taskId 30 data (Nat.le_refl 30)) E)
    as (evs & -> & n & Hn & [H0 | H1] & ->); [discriminate | ].
  exists n. split; [lia | reflexivity].
Qed.

(* ------------------------------------------------------------------ *)
(** ** X17: The test button of the configuration panel *)

Lemma validateAPIConfig_settles (rt : Runtime) (world : World)
    (config : AIImageConfig) :
  (fst (run (validateAPIConfig rt world config)) = Returned true
   \/ exists e, fst (run (validateAPIConfig rt world config)) = Thrown e)
  /\ (List.length (posts (snd (run (validateAPIConfig rt world config)))) <= 1)%nat.
Proof.
  unfold run, validateAPIConfig.
  destruct (negb (nonEmpty (apiEndpoint config)));
    [split; [right; eexists; reflexivity | cbn; lia] | ].
  cbv zeta.
  destruct (looksLikeDocumentation (toLowerCase (apiEndpoint config)));
    [split; [right; eexists; reflexivity | cbn; lia] | ].
  destruct (negb (URL_canParse rt (apiEndpoint config)));
    [split; [right; eexists; reflexivity | cbn; lia] | ].
  unfold bind, history, emit. cbv beta iota zeta. cbn [app posts filter].
  destruct (server world _ _) as [msg | resp];
    [split; [right; eexists; reflexivity | cbn; lia] | ].
  repeat match goal with
         | |- context [if ?b then _ else _] => destruct b
         end;
    cbn [fst snd];
    (split; [first [left; reflexivity | right; eexists; reflexivity]
            | cbn; lia]).
Qed.

(** X17 (APIConfigPanel.tsx, lines 49-81, with lines 66-215 of the
    service).  When a field is empty, the test button only shows the
    message that asks to fill the fields first.  Otherwise it probes the
    configuration made of the three fields, each one trimmed of the white
    space of [String.prototype.trim], with one request at most, and leaves
    the storage as it was; once the probe has settled (the request was
    answered or rejected), [isValidating] is false and the message is one
    of two: the success message when the probe returned [true], or the
    failure prefix followed by the message of the error.  The message of a
    failed connection, kept for a probe that returns [false], is never
    shown. *)
Theorem handleTest_settles (t : string -> string) (rt : Runtime)
    (world : World) (s : PanelState) (storage : Storage) :
  let r := handleTest t rt world s storage in
  let probe := run (validateAPIConfig rt world (typedConfig s)) in
  if fieldsMissing s
  then validationMessage (fst r) = t "settings.aiImageConfig.fillFirst"
       /\ isValidating (fst r) = isValidating s
       /\ probeHistory (snd r) = []
  else isValidating (fst r) = false
       /\ storageAfter (snd r) = storage
       /\ probeHistory (snd r) = snd probe
       /\ (List.length (posts (probeHistory (snd r))) <= 1)%nat
       /\ (fst probe = Returned true
           /\ validationMessage (fst r)
              = t "settings.aiImageConfig.connectionSuccessShort"
           \/ exists e,
                fst probe = Thrown e
                /\ validationMessage (fst r)
                   = t "settings.aiImageConfig.testFailedPrefix" ++ message e).
Proof.
  intros r probe. subst r probe. unfold handleTest.
  destruct (fieldsMissing s); [repeat split | ].
  destruct (validateAPIConfig_settles rt world (typedConfig s)) as [Hout Hposts].
  destruct (run (validateAPIConfig rt world (typedConfig s))) as [o h].
  cbn [fst snd] in *.
  split; [reflexivity | split; [reflexivity | split; [reflexivity | ]]].
  split; [exact Hposts | ].
  destruct Hout as [-> | [e ->]].
  - left. split; reflexivity.
  - right. exists e. split; reflexivity.
Qed.

(* ------------------------------------------------------------------ *)
(** ** X18: The save button and the stored configuration *)

Lemma trim_blank (s : string) :
  String.length (trim s) = 0%nat -> nonEmpty (trim s) = false.
Proof. destruct (trim s); [reflexivity | discriminate]. Qed.

Lemma dropLeading_unfold (patterns : list string) (s : string) :
  dropLeading patterns s
  = match leadingWidth patterns s, s with
    | 1, String _ rest => dropLeading patterns rest
    | 2, String _ (String _ rest) => dropLeading patterns rest
    | 3, String _ (String _ (String _ rest)) => dropLeading patterns rest
    | _, _ => s
    end%nat.
Proof. destruct s; reflexivity. Qed.

Lemma trimStart_space (w s : string) :
  In w whiteSpaces -> trimStart (w ++ s) = trimStart s.
Proof.
  intros H. unfold trimStart. rewrite dropLeading_unfold.
  unfold whiteSpaces in H. cbn [map In] in H.
  repeat (destruct H as [<- | H]; [destruct s; reflexivity | ]).
  destruct H.
Qed.

Lemma trim_whiteSpaceOnly (pieces : list string) :
  whiteSpaceOnly pieces -> trim (joined pieces) = "".
Proof.
  intros H. unfold trim.
  assert (Hstart : trimStart (joined pieces) = "").
  { induction H as [| w rest Hw _ IH]; [reflexivity | ].
    cbn [joined fold_right]. rewrite (trimStart_space w _ Hw). exact IH. }
  rewrite Hstart. reflexivity.
Qed.

(** X18 (APIConfigPanel.tsx, lines 29-47, with lines 45-61 and 241-248 of
    the service).  When a field is empty, the save button stores nothing.
    Otherwise it writes one item, under the key of the configuration, and
    leaves the other keys alone; with a [JSON.parse] that reads back what
    [JSON.stringify] wrote, [getAIImageConfig] then gives the
    configuration of the three fields, each one trimmed.  The fields are
    tested before they are trimmed: when a field that passed the test is
    made of white space only (spaces, tabs, line breaks, U+00A0, U+3000 and
    the other white spaces that [trim] removes), the configuration is
    stored with this field empty, and [generateAIImage] then fails on the
    incomplete configuration before it fetches or sends anything. *)
Theorem handleSave_stores (t : string -> string) (rt : Runtime)
    (onConfigChange : bool) (s : PanelState) (storage : Storage) :
  let r := handleSave t rt onConfigChange s storage in
  let item := JSON_stringify rt (configValue (typedConfig s)) in
  if fieldsMissing s
  then storageAfter (snd r) = storage /\ panelConfig (fst r) = panelConfig s
       /\ configChanges (snd r) = []
  else (forall key, key <> CONFIG_STORAGE_KEY ->
          storageAfter (snd r) key = storage key)
       /\ storageAfter (snd r) CONFIG_STORAGE_KEY = Some item
       /\ panelConfig (fst r) = Some (typedConfig s)
       /\ (nonEmpty item = true ->
           JSON_parse rt item = Some (configValue (typedConfig s)) ->
           getAIImageConfig rt (storageAfter (snd r))
           = configValue (typedConfig s))
       /\ (forall pieces world params,
             whiteSpaceOnly pieces ->
             apiEndpointField s = joined pieces
             \/ apiKeyField s = joined pieces
             \/ modelNameField s = joined pieces ->
             (apiEndpoint (typedConfig s) = ""
              \/ apiKey (typedConfig s) = ""
              \/ modelName (typedConfig s) = "")
             /\ run (generateAIImage rt world (Some (typedConfig s)) params)
                = (Thrown {| site := ConfigIncomplete;
                             message := "API配置不完整，请检查API地址、密钥和模型名称" |},
                   [])).
Proof.
  intros r item. subst r item. unfold handleSave.
  destruct (fieldsMissing s); [repeat split | ].
  cbn [fst snd storageAfter panelConfig].
  split; [ | split; [reflexivity | split; [reflexivity | split]]].
  - intros key Hkey. unfold saveAIImageConfig, setItem.
    destruct (String.eqb key CONFIG_STORAGE_KEY) eqn:E; [ | reflexivity].
    apply String.eqb_eq in E. congruence.
  - intros Hne Hparse. unfold getAIImageConfig, saveAIImageConfig, setItem.
    rewrite String.eqb_refl, Hne, Hparse. reflexivity.
  - intros pieces world params Hblank Hfield.
    pose proof (trim_whiteSpaceOnly pieces Hblank) as Htrim.
    assert (Hempty : apiEndpoint (typedConfig s) = ""
                     \/ apiKey (typedConfig s) = ""
                     \/ modelName (typedConfig s) = "").
    { cbn [typedConfig apiEndpoint apiKey modelName].
      destruct Hfield as [-> | [-> | ->]]; auto. }
    split; [exact Hempty | ].
    unfold run, generateAIImage.
    destruct Hempty as [-> | [-> | ->]]; cbn [nonEmpty negb orb];
      rewrite ?orb_true_r; reflexivity.
Qed.

(** The theorem on a panel whose key field holds two spaces: the
    configuration is stored, and the next generation fails on it. *)
Lemma handleSave_stores_witness :
  fieldsMissing blankKeyPanel = false
  /\ fst (run (generateAIImage plainBrowser (constantServer unauthorized)
                 (Some (typedConfig blankKeyPanel)) someParams))
     = Thrown {| site := ConfigIncomplete;
                 message := "API配置不完整，请检查API地址、密钥和模型名称" |}.
Proof.
  split; [reflexivity | ].
  pose proof (handleSave_stores noTranslation plainBrowser false
                blankKeyPanel emptyStorage) as H.
  cbv zeta in H.
  change (fieldsMissing blankKeyPanel) with false in H. cbv iota in H.
  destruct H as (_ & _ & _ & _ & H).
  assert (Hblank : whiteSpaceOnly [" "; " "]).
  { assert (Hspace : In " " whiteSpaces)
      by (unfold whiteSpaces; cbn [map In]; do 5 right; left; reflexivity).
    apply Forall_cons; [exact Hspace | ].
    apply Forall_cons; [exact Hspace | apply Forall_nil]. }
  destruct (H [" "; " "] (constantServer unauthorized) someParams Hblank
              (or_intror (or_introl eq_refl))) as [_ Hrun].
  rewrite Hrun. reflexivity.
Defined.

(* ------------------------------------------------------------------ *)
(** ** X19: The generate button of the view *)

Lemma progressOf_last (pre : list Event) (p : number) :
  List.last (progressOf (pre ++ [Progress p])) (ofZ 0) = p.
Proof.
  rewrite progressOf_app. cbn [progressOf].
  apply last_last.
Qed.

Lemma refusal_none_image (t : string -> string) (s : ViewState) :
  refusal t s = None -> nonEmpty (getCurrentShotImage s) = true.
Proof.
  unfold refusal.
  destruct (negb (currentUser s)); [discriminate | ].
  destruct (activeShot s); [ | discriminate].
  destruct (negb (nonEmpty (trim (promptInput s)))); [discriminate | ].
  destruct (configIncomplete (apiConfig s)); [discriminate | ].
  destruct (nonEmpty (getCurrentShotImage s)); [reflexivity | discriminate].
Qed.

(** X19 (AIImageView.tsx, lines 40-167, with the service).  When a check of
    the button fails (no user, no shot, a prompt that is empty once
    trimmed, an incomplete copy of the configuration, a shot without
    image), only the error message changes and nothing is fetched or sent;
    a prompt made of white space only, of any kind that [trim] removes
    (U+00A0 and U+3000 included), is refused in this way.  Otherwise the
    state described is the one of the view once the call of
    [generateAIImage] has settled, every request being answered or
    rejected and every stream ended, which the code does not enforce by any
    timeout: either the shot was switched and nothing was sent, or
    [generateAIImage] was called once, with the trimmed prompt, the image
    of the shot and a progress callback, sending three requests at most;
    when the call returns, the view shows the image of the result with the
    status success, no error message and a progress of 100; when it
    throws, the status is error and no image is shown. *)
Theorem handleGenerate_settles (t : string -> string) (rt : Runtime)
    (world : World) (stored : option AIImageConfig) (s : ViewState) :
  let r := handleGenerate t rt world stored s in
  let call := run (generateAIImage rt world stored (generationParams s)) in
  match refusal t s with
  | Some msg =>
      snd r = [] /\ errorMessage (fst r) = msg
      /\ generationStatus (fst r) = generationStatus s
      /\ generatedImage (fst r) = generatedImage s
  | None =>
      nonEmpty (prompt (generationParams s)) = true
      /\ nonEmpty (storyboardImage (generationParams s)) = true
      /\ (List.length (posts (snd r)) <= 3)%nat
      /\ (shotSwitched s = true
          /\ snd r = [] /\ generationStatus (fst r) = Failed
          \/ shotSwitched s = false
             /\ snd r = snd call
             /\ ((exists result,
                    fst call = Returned result
                    /\ generationStatus (fst r) = Succeeded
                    /\ generatedImage (fst r) = image result
                    /\ errorMessage (fst r) = ""
                    /\ generationProgress (fst r) = ofZ 100)
                 \/ (exists e,
                       fst call = Thrown e
                       /\ generationStatus (fst r) = Failed
                       /\ generatedImage (fst r) = "")))
  end
  /\ (forall pieces,
        whiteSpaceOnly pieces -> promptInput s = joined pieces ->
        currentUser s = true -> activeShot s <> None ->
        refusal t s = Some (t "aiImage.error.enterPrompt")).
Proof.
  intros r call. subst r call.
  split.
  2:{ intros pieces Hblank Hprompt Huser Hshot. unfold refusal.
      rewrite Huser, Hprompt, (trim_whiteSpaceOnly pieces Hblank).
      destruct (activeShot s); [reflexivity | congruence]. }
  unfold handleGenerate.
  destruct (refusal t s) as [msg | ] eqn:Href; [repeat split | ].
  pose proof (refusal_none_image t s Href) as Himage.
  assert (Hprompt : nonEmpty (trim (promptInput s)) = true).
  { revert Href. unfold refusal.
    destruct (negb (currentUser s)); [discriminate | ].
    destruct (activeShot s); [ | discriminate].
    destruct (nonEmpty (trim (promptInput s))); [reflexivity | discriminate]. }
  rewrite Himage. cbn [negb].
  split; [exact Hprompt | split; [exact Himage | ]].
  destruct (shotSwitched s).
  { split; [cbn; lia | left; repeat split]. }
  pose proof (generateAIImage_costs rt world stored (generationParams s)) as Hcost.
  unfold run.
  destruct (generateAIImage rt world stored (generationParams s) [])
    as [o h] eqn:E.
  destruct (emits_run _ _ _ _ _ Hcost E) as (evs & Hh & Hposts & _).
  cbn [app] in Hh. subst h.
  destruct o as [result | e]; cbn [fst snd].
  - split; [exact Hposts | ]. right.
    split; [reflexivity | split; [reflexivity | ]].
    left. exists result. repeat split.
    apply generateAIImage_returned in E.
    destruct E as (config & pre & _ & _ & Hevs & _).
    cbn [app] in Hevs. rewrite Hevs. unfold finalReport.
    cbn [generationParams onProgress]. apply progressOf_last.
  - split; [exact Hposts | ]. right.
    split; [reflexivity | split; [reflexivity | ]].
    right. exists e. repeat split.
Qed.

(* ------------------------------------------------------------------ *)
(** ** X20: Only the endpoints under /v1/draw/ are polled *)

Section NoPolling.

Variable rt : Runtime.
Variable world : World.
Variable config : AIImageConfig.
Variable params : GenerateAIImageParams.

Hypothesis notTask : isNanoBananaAPI (trim (apiEndpoint config)) = false.

Hint Resolve typeError_emits prop_emits startsWithM_emits toLowerCaseM_emits
  taskFailure_emits pickImage_emits resultImageOf_emits completedTask_emits
  extractImage_emits : emits.

Lemma progress_unpolled (p : number) : emitsOnly notPoll (progress params p).
Proof. apply progress_emits. reflexivity. Qed.

Lemma sleep_unpolled (ms : Z) : emitsOnly notPoll (sleep ms).
Proof. apply emitsOnly_emit. reflexivity. Qed.

Lemma download_unpolled (url : string) :
  emitsOnly notPoll (downloadImageAsBase64 world url).
Proof. apply downloadImageAsBase64_emits. reflexivity. Qed.

Lemma responseData_unpolled (r : Response) :
  emitsOnly notPoll (responseData rt config params r).
Proof. apply responseData_emits. reflexivity. Qed.

Hint Resolve progress_unpolled sleep_unpolled download_unpolled
  responseData_unpolled : emits.

Lemma awaitTask_unpolled (data : value) :
  emitsOnly notPoll (awaitTask rt world config params data).
Proof.
  unfold awaitTask.
  do 4 (apply emitsOnly_bind; [apply prop_emits | intro]).
  cbv zeta. rewrite notTask, andb_false_r. emits_auto.
Qed.

Hint Resolve awaitTask_unpolled : emits.

Lemma handleStatus_unpolled (data : value) :
  emitsOnly notPoll (handleStatus rt world config params data).
Proof. unfold handleStatus. emits_auto. Qed.

Hint Resolve handleStatus_unpolled : emits.

Lemma deliver_unpolled (data : value) :
  emitsOnly notPoll (deliver rt world config params data).
Proof. unfold deliver. emits_auto. Qed.

Hint Resolve deliver_unpolled : emits.

Lemma received_unpolled (retryCount : nat) (r : Response) :
  emitsOnly notPoll (received rt world config params retryCount r).
Proof. unfold received. emits_auto. Qed.

Hint Resolve received_unpolled : emits.

Lemma attempt_unpolled (request : Request) (retryCount : nat) :
  emitsOnly notPoll (attempt rt world config params request retryCount).
Proof. unfold attempt. emits_auto. Qed.

Hint Resolve attempt_unpolled : emits.

Lemma retryLoop_unpolled (request : Request) (remaining : nat) :
  emitsOnly notPoll (retryLoop rt world config params request remaining).
Proof. induction remaining as [| remaining IH]; simpl; emits_auto. Qed.

End NoPolling.

(** X20 (lines 254 and 892-896).  The task-result endpoint is asked only
    when the configured endpoint, trimmed, holds [/v1/draw/]: with any other
    endpoint the call never polls, whatever status and whatever task
    identifier the answers carry. *)
Theorem generateAIImage_polls_only_draw (rt : Runtime) (world : World)
    (config : AIImageConfig) (params : GenerateAIImageParams) :
  isNanoBananaAPI (trim (apiEndpoint config)) = false ->
  pollPosts (snd (run (generateAIImage rt world (Some config) params))) = [].
Proof.
  intros notTask. unfold run.
  destruct (generateAIImage rt world (Some config) params []) as [o tr'] eqn:E.
  assert (H : emitsOnly notPoll (generateAIImage rt world (Some config) params)).
  { unfold generateAIImage.
    match goal with
    | |- emitsOnly _ (if ?b then _ else _) => destruct b
    end; [apply emitsOnly_throw | ].
    apply emitsOnly_bind; [apply convertToBase64_emits; reflexivity | intros sb].
    match goal with
    | |- emitsOnly _ (if ?b then _ else _) => destruct b
    end; [apply emitsOnly_throw | ].
    apply emitsOnly_bind; [apply convertOptional_emits; reflexivity | intros role].
    apply emitsOnly_bind; [apply convertOptional_emits; reflexivity | intros scene].
    apply emitsOnly_bind; [apply buildRequest_emits | intros request].
    apply emitsOnly_bind; [apply progress_emits; reflexivity | intros _].
    apply retryLoop_unpolled, notTask. }
  destruct (emits_run _ _ _ _ _ H E) as (evs & -> & Hevs).
  cbn [snd app]. clear - Hevs.
  induction evs as [| ev evs IH]; [reflexivity | ].
  simpl in Hevs. apply andb_prop in Hevs. destruct Hevs as [Hev Hevs].
  unfold pollPosts in *. cbn [filter]. unfold notPoll in Hev.
  destruct (isPollPost ev); [discriminate | apply IH, Hevs].
Qed.

(** The theorem on an OpenAI-style endpoint whose answers report a pending
    task. *)
Lemma generateAIImage_polls_only_draw_witness :
  pollPosts (snd (run (generateAIImage plainBrowser pendingForever
                         (Some openAIConfig) someParams))) = [].
Proof.
  apply (generateAIImage_polls_only_draw plainBrowser pendingForever
           openAIConfig someParams).
  vm_compute. reflexivity.
Defined.

(* ------------------------------------------------------------------ *)
(** ** The shots of the store *)

Lemma mapi_length {A B : Type} (f : nat -> A -> B) (i : nat) (l : list A) :
  List.length (mapi f i l) = List.length l.
Proof.
  revert i. induction l as [| x l IH]; intro i; simpl; [reflexivity | ].
  now rewrite IH.
Qed.

Lemma mapi_renumbered_ids (i : nat) (l : list Shot) :
  map shotId (mapi renumbered i l) = map shotId l.
Proof.
  revert i. induction l as [| x l IH]; intro i; simpl; [reflexivity | ].
  now rewrite IH.
Qed.

Lemma mapi_renumbered_orders (i : nat) (l : list Shot) :
  map shotOrder (mapi renumbered i l)
  = map Z.of_nat (seq i (List.length l)).
Proof.
  revert i. induction l as [| x l IH]; intro i; simpl; [reflexivity | ].
  now rewrite IH.
Qed.

Lemma mapi_renumbered_nth (i : nat) (l : list Shot) (k : nat) (shot : Shot) :
  nth_error (mapi renumbered i l) k = Some shot ->
  exists source, nth_error l k = Some source
                 /\ shot = renumbered (i + k) source.
Proof.
  revert i k. induction l as [| x l IH]; intros i k H.
  - destruct k; discriminate.
  - destruct k as [| k]; simpl in H.
    + injection H as <-. exists x. split; [reflexivity | ].
      now rewrite Nat.add_0_r.
    + destruct (IH _ _ H) as (source & Hs & ->).
      exists source. split; [exact Hs | ].
      now rewrite Nat.add_succ_r.
Qed.

Lemma find_mapi_renumbered (id : string) (i : nat) (l : list Shot) :
  exists k, find (hasId id) (mapi renumbered i l)
            = option_map (renumbered k) (find (hasId id) l).
Proof.
  revert i. induction l as [| x l IH]; intro i; simpl.
  - exists 0%nat. reflexivity.
  - change (hasId id (renumbered i x)) with (hasId id x).
    destruct (hasId id x).
    + exists i. reflexivity.
    + apply IH.
Qed.

Lemma find_filter_other (id other : string) (l : list Shot) :
  other <> id ->
  find (hasId other) (filter (fun shot => negb (hasId id shot)) l)
  = find (hasId other) l.
Proof.
  intro Hne. induction l as [| x l IH]; simpl; [reflexivity | ].
  destruct (hasId id x) eqn:E, (hasId other x) eqn:E'; simpl;
    rewrite ?E'; try reflexivity; try exact IH.
  unfold hasId in E, E'. apply String.eqb_eq in E, E'. congruence.
Qed.

Lemma find_filter_same (id : string) (l : list Shot) :
  find (hasId id) (filter (fun shot => negb (hasId id shot)) l) = None.
Proof.
  induction l as [| x l IH]; simpl; [reflexivity | ].
  destruct (hasId id x) eqn:E; simpl; [exact IH | ].
  now rewrite E.
Qed.

Lemma filter_ids (id : string) (l : list Shot) :
  map shotId (filter (fun shot => negb (hasId id shot)) l)
  = filter (fun i => negb (String.eqb i id)) (map shotId l).
Proof.
  induction l as [| x l IH]; simpl; [reflexivity | ].
  change (hasId id x) with (String.eqb (shotId x) id).
  destruct (String.eqb (shotId x) id); simpl; now rewrite IH.
Qed.

Lemma sortByOrder_sorted (l : list Shot) (i : nat) :
  map shotOrder l = map Z.of_nat (seq i (List.length l)) ->
  sortByOrder l = l.
Proof.
  revert i. induction l as [| x l IH]; intros i H; [reflexivity | ].
  simpl in H. injection H as Hx Hl.
  unfold sortByOrder in *. simpl. rewrite (IH _ Hl).
  destruct l as [| y l]; [reflexivity | ].
  cbn [map seq List.length] in Hl. injection Hl as Hy _.
  cbn [insertByOrder].
  replace (shotOrder x <=? shotOrder y)%Z with true; [reflexivity | ].
  symmetry. apply Z.leb_le. lia.
Qed.

Lemma normalised_sorted (l : list Shot) :
  normalised l -> sortByOrder l = l.
Proof. apply sortByOrder_sorted. Qed.

Lemma normalised_app (l : list Shot) (shot : Shot) :
  normalised l -> shotOrder shot = Z.of_nat (List.length l) ->
  normalised (l ++ [shot]).
Proof.
  unfold normalised. intros H Hs.
  rewrite map_app, length_app, seq_app, map_app, H.
  simpl. now rewrite Hs.
Qed.

(** X21 (store/uiStore.ts, lines 336-355, with lines 409-418).  After
    [deleteShot] no shot has the identifier; the other shots are kept, in
    their order; every shot that is left is numbered anew, its order being
    its position and its number the position plus one, so a number that was
    edited by hand is lost; and [getShotsSorted] then gives the shots in
    the order of the list. *)
Theorem deleteShot_renumbers (e : Entropy) (id : string) (p : Project) :
  exists q,
    deleteShot e id (Some p) = Some q
    /\ getShot (Some q) id = None
    /\ map shotId (shots q)
       = filter (fun i => negb (String.eqb i id)) (map shotId (shots p))
    /\ normalised (shots q)
    /\ (forall k shot, nth_error (shots q) k = Some shot ->
          shotNumber shot = Z_toString (Z.of_nat k + 1))
    /\ (forall other, other <> id ->
          exists k, getShot (Some q) other
                    = option_map (renumbered k) (getShot (Some p) other))
    /\ getShotsSorted (Some q) = shots q.
Proof.
  eexists. split; [reflexivity | ].
  cbn [getShot getShotsSorted shots withShots].
  set (kept := filter (fun shot => negb (hasId id shot)) (shots p)).
  assert (Hn : normalised (mapi renumbered 0 kept)).
  { unfold normalised. now rewrite mapi_renumbered_orders, mapi_length. }
  split.
  { destruct (find_mapi_renumbered id 0 kept) as [k ->].
    unfold kept. now rewrite find_filter_same. }
  split; [rewrite mapi_renumbered_ids; apply filter_ids | ].
  split; [exact Hn | ].
  split.
  { intros k shot H. apply mapi_renumbered_nth in H.
    destruct H as (source & _ & ->). reflexivity. }
  split.
  { intros other Hne.
    destruct (find_mapi_renumbered other 0 kept) as [k ->].
    exists k. unfold kept. now rewrite find_filter_other. }
  apply normalised_sorted, Hn.
Qed.

Lemma find_hasId_known (id : string) (l : list Shot) :
  In id (map shotId l) ->
  exists shot, find (hasId id) l = Some shot.
Proof.
  induction l as [| x l IH]; simpl; [intros [] | ].
  intros [H | H].
  - unfold hasId at 1. rewrite H, String.eqb_refl. eauto.
  - destruct (hasId id x); [eauto | apply IH, H].
Qed.

Lemma find_hasId_id (id : string) (l : list Shot) (shot : Shot) :
  find (hasId id) l = Some shot -> shotId shot = id.
Proof.
  intro H. apply find_some in H. destruct H as [_ H].
  apply String.eqb_eq, H.
Qed.

Lemma shotMapGet_known (id : string) (l : list Shot) :
  In id (map shotId l) ->
  exists shot, shotMapGet l id = Some shot.
Proof.
  intro H. apply find_hasId_known. rewrite map_rev. apply in_rev.
  now rewrite rev_involutive.
Qed.

Lemma reorder_known (all : list Shot) (ids : list string) (i : nat) :
  (forall id, In id ids -> In id (map shotId all)) ->
  map shotId (compact (mapi (placeAt all) i ids)) = ids
  /\ map shotOrder (compact (mapi (placeAt all) i ids))
     = map Z.of_nat (seq i (List.length ids))
  /\ List.length (compact (mapi (placeAt all) i ids)) = List.length ids
  /\ (forall k id, nth_error ids k = Some id ->
        exists shot, shotMapGet all id = Some shot
                     /\ nth_error (compact (mapi (placeAt all) i ids)) k
                        = Some (renumbered (i + k) shot)).
Proof.
  revert i. induction ids as [| id ids IH]; intros i Hknown.
  - repeat split. intros [| k] id H; discriminate.
  - assert (Hrest : forall id', In id' ids -> In id' (map shotId all))
      by (intros; apply Hknown; now right).
    destruct (IH (S i) Hrest) as (Hids & Hord & Hlen & Hnth).
    destruct (shotMapGet_known id all (Hknown id (or_introl eq_refl)))
      as [shot Hshot].
    pose proof (find_hasId_id _ _ _ Hshot) as Hid.
    cbn [mapi]. unfold placeAt at 1 3 5 7. rewrite Hshot. cbn [compact].
    repeat split.
    + cbn [map renumbered shotId]. now rewrite Hids, Hid.
    + cbn [map renumbered shotOrder List.length seq]. now rewrite Hord.
    + cbn [List.length]. now rewrite Hlen.
    + intros [| k] id' H; cbn [nth_error] in *.
      * injection H as <-. exists shot. now rewrite Nat.add_0_r.
      * destruct (Hnth _ _ H) as (shot' & H1 & H2).
        exists shot'. split; [exact H1 | ].
        now rewrite Nat.add_succ_r.
Qed.

Lemma reorder_dropped (all : list Shot) (ids : list string) (i : nat)
    (id : string) :
  ~ In id ids -> find (hasId id) (compact (mapi (placeAt all) i ids)) = None.
Proof.
  revert i. induction ids as [| id' ids IH]; intros i Hout; [reflexivity | ].
  cbn [mapi]. unfold placeAt at 1.
  destruct (shotMapGet all id') as [shot | ] eqn:Hshot; cbn [compact].
  - cbn [find]. change (hasId id (renumbered i shot)) with (hasId id shot).
    destruct (hasId id shot) eqn:E.
    + exfalso. apply Hout. left.
      apply find_hasId_id in Hshot. apply String.eqb_eq in E. congruence.
    + apply IH. intro H. apply Hout. now right.
  - apply IH. intro H. apply Hout. now right.
Qed.

(** X22 (store/uiStore.ts, lines 383-407).  When every identifier given
    to [reorderShots] is the one of a shot, the shots of the project become
    the shots of these identifiers in the order given, each numbered by its
    position (order and number), so that their orders are their positions
    again and [getShotsSorted] gives them in this order.  A shot whose
    identifier is not in the list is no longer in the project. *)
Theorem reorderShots_known (e : Entropy) (ids : list string) (p : Project) :
  (forall id, In id ids -> In id (map shotId (shots p))) ->
  exists q,
    reorderShots e ids (Some p) = Some q
    /\ map shotId (shots q) = ids
    /\ normalised (shots q)
    /\ (forall k id, nth_error ids k = Some id ->
          exists shot, shotMapGet (shots p) id = Some shot
                       /\ nth_error (shots q) k = Some (renumbered k shot))
    /\ (forall id, ~ In id ids -> getShot (Some q) id = None)
    /\ getShotsSorted (Some q) = shots q.
Proof.
  intro Hknown. eexists. split; [reflexivity | ].
  cbn [getShot getShotsSorted shots withShots].
  destruct (reorder_known (shots p) ids 0 Hknown) as (Hids & Hord & Hlen & Hnth).
  assert (Hn : normalised (compact (mapi (placeAt (shots p)) 0 ids))).
  { unfold normalised. rewrite Hord. now rewrite Hlen. }
  split; [exact Hids | ].
  split; [exact Hn | ].
  split; [exact Hnth | ].
  split; [intros id Hout; apply reorder_dropped, Hout | ].
  apply normalised_sorted, Hn.
Qed.

(** The theorem on the two shots of the example, exchanged. *)
Lemma reorderShots_known_witness :
  map shotId
    (projectShots (reorderShots someEntropy ["shot-2"; "shot-1"]
                     (Some storyboard)))
  = ["shot-2"; "shot-1"].
Proof.
  destruct (reorderShots_known someEntropy ["shot-2"; "shot-1"] storyboard)
    as (q & Hq & Hids & _).
  - intros id [<- | [<- | []]]; cbn; auto.
  - rewrite Hq. exact Hids.
Defined.

Section AddVersion.

Variable e : Entropy.
Variable id : string.
Variable version : ImageVersion.

Lemma addVersionIn_found (l : list Shot) (k : nat) (shot : Shot) :
  find (hasId id) l = Some shot ->
  find (hasId id) (fst (addVersionIn e id version k l))
  = Some (addVersionTo (uuidAt e k) (nowAt e k) version shot).
Proof.
  revert k. induction l as [| x l IH]; intros k H; [discriminate | ].
  cbn [find addVersionIn] in *.
  destruct (hasId id x) eqn:E.
  - injection H as <-.
    destruct (addVersionIn e id version (S k) l) as [rest' k'].
    cbn [fst find].
    change (hasId id (addVersionTo (uuidAt e k) (nowAt e k) version x))
      with (hasId id x).
    now rewrite E.
  - specialize (IH k H).
    destruct (addVersionIn e id version k l) as [rest' k'].
    cbn [fst find] in *. now rewrite E.
Qed.

Lemma addVersionIn_other (l : list Shot) (k : nat) (other : string) :
  other <> id ->
  find (hasId other) (fst (addVersionIn e id version k l))
  = find (hasId other) l.
Proof.
  intro Hne. revert k. induction l as [| x l IH]; intro k; [reflexivity | ].
  cbn [find addVersionIn].
  destruct (hasId id x) eqn:E.
  - specialize (IH (S k)).
    destruct (addVersionIn e id version (S k) l) as [rest' k'].
    cbn [fst find] in *.
    change (hasId other (addVersionTo (uuidAt e k) (nowAt e k) version x))
      with (hasId other x).
    destruct (hasId other x) eqn:E'; [ | exact IH].
    unfold hasId in E, E'. apply String.eqb_eq in E, E'. congruence.
  - specialize (IH k).
    destruct (addVersionIn e id version k l) as [rest' k'].
    cbn [fst find] in *. now rewrite IH.
Qed.

Lemma addVersionIn_frame (l : list Shot) (k : nat) :
  map shotId (fst (addVersionIn e id version k l)) = map shotId l
  /\ map shotOrder (fst (addVersionIn e id version k l)) = map shotOrder l.
Proof.
  revert k. induction l as [| x l IH]; intro k; [split; reflexivity | ].
  cbn [addVersionIn].
  destruct (hasId id x).
  - destruct (IH (S k)) as [H1 H2].
    destruct (addVersionIn e id version (S k) l) as [rest' k'].
    cbn [fst map] in *. rewrite H1, H2. split; reflexivity.
  - destruct (IH k) as [H1 H2].
    destruct (addVersionIn e id version k l) as [rest' k'].
    cbn [fst map] in *. rewrite H1, H2. split; reflexivity.
Qed.

(** One call of [addImageVersion] on a project that has the shot. *)
Lemma addImageVersion_step (p : Project) (shot : Shot) :
  getShot (Some p) id = Some shot ->
  exists q,
    addImageVersion e id version (Some p) = Some q
    /\ getShot (Some q) id
       = Some (addVersionTo (uuidAt e 0) (nowAt e 0) version shot)
    /\ (forall other, other <> id ->
          getShot (Some q) other = getShot (Some p) other)
    /\ map shotId (shots q) = map shotId (shots p)
    /\ map shotOrder (shots q) = map shotOrder (shots p).
Proof.
  intro H. cbn [getShot] in H. unfold addImageVersion.
  pose proof (addVersionIn_found (shots p) 0 shot H) as Hfound.
  pose proof (fun other => addVersionIn_other (shots p) 0 other) as Hother.
  destruct (addVersionIn_frame (shots p) 0) as [Hids Hord].
  destruct (addVersionIn e id version 0 (shots p)) as [updated k].
  cbn [fst] in *.
  eexists. split; [reflexivity | ].
  cbn [getShot shots withShots]. auto.
Qed.

End AddVersion.

Lemma addVersionTo_versions (uuid : string) (now : Z)
    (version : ImageVersion) (shot : Shot) :
  imageVersions (addVersionTo uuid now version shot)
  = Some ((if existsb isOriginal (versionsOf shot) then []
           else [originalVersion uuid shot])
          ++ versionsOf shot ++ [version])%list.
Proof.
  unfold addVersionTo. cbn [withActiveVersion imageVersions].
  destruct (existsb isOriginal (versionsOf shot)); reflexivity.
Qed.

Lemma addVersionTo_original (uuid : string) (now : Z)
    (version : ImageVersion) (shot : Shot) :
  existsb isOriginal (versionsOf (addVersionTo uuid now version shot)) = true.
Proof.
  unfold versionsOf at 1. rewrite addVersionTo_versions.
  destruct (existsb isOriginal (versionsOf shot)) eqn:E.
  - cbn [app]. rewrite existsb_app, E. reflexivity.
  - reflexivity.
Qed.

Lemma last_default {A : Type} (x : A) (l : list A) (d d' : A) :
  List.last (x :: l) d = List.last (x :: l) d'.
Proof.
  revert x. induction l as [| y l IH]; intro x; [reflexivity | ].
  change (List.last (y :: l) d = List.last (y :: l) d'). apply IH.
Qed.

(** X23 (store/uiStore.ts, lines 420-460).  Calls of [addImageVersion] for
    a shot never drop a version: after them the versions of the shot are the
    ones it had, in their order, followed by the versions added, in the
    order of the calls, and preceded, when the shot had no version of the
    original source, by one such version that the first call makes of the
    image and of the creation time the shot had before.  The image and the
    active version of the shot are those of the last version added, and the
    other shots are as they were. *)
Theorem addImageVersion_history (id : string) (p : Project) (shot : Shot)
    (call : Entropy * ImageVersion) (calls : list (Entropy * ImageVersion)) :
  getShot (Some p) id = Some shot ->
  let added := map snd (call :: calls) in
  let p' := addVersions (call :: calls) id (Some p) in
  exists shot',
    getShot p' id = Some shot'
    /\ imageVersions shot'
       = Some ((if existsb isOriginal (versionsOf shot) then []
                else [originalVersion (uuidAt (fst call) 0) shot])
               ++ versionsOf shot ++ added)%list
    /\ activeVersionId shot' = Some (versionId (List.last added (snd call)))
    /\ shotImage shot' = versionImage (List.last added (snd call))
    /\ createdAt shot' = createdAt shot
    /\ (forall other, other <> id -> getShot p' other = getShot (Some p) other)
    /\ map shotId (projectShots p') = map shotId (shots p).
Proof.
  revert call p shot.
  induction calls as [| next calls IH]; intros call p shot Hshot added p'.
  - destruct (addImageVersion_step (fst call) id (snd call) p shot Hshot)
      as (q & Hq & Hfound & Hother & Hids & _).
    subst p' added. unfold addVersions. cbn [fold_left map]. rewrite Hq.
    eexists. split; [exact Hfound | ].
    split; [apply addVersionTo_versions | ].
    repeat split; auto.
  - destruct (addImageVersion_step (fst call) id (snd call) p shot Hshot)
      as (q & Hq & Hfound & Hother & Hids & _).
    destruct (IH next q _ Hfound)
      as (shot' & H1 & H2 & H3 & H4 & H5 & H6 & H7).
    assert (Hp' : p' = addVersions (next :: calls) id (Some q)).
    { subst p'. unfold addVersions. cbn [fold_left]. now rewrite Hq. }
    rewrite Hp'. exists shot'. split; [exact H1 | ].
    split.
    { rewrite H2, addVersionTo_original. cbn [app].
      unfold versionsOf at 1. rewrite addVersionTo_versions.
      subst added. cbn [map]. rewrite <- !app_assoc. reflexivity. }
    subst added.
    change (List.last (map snd (call :: next :: calls)) (snd call))
      with (List.last (map snd (next :: calls)) (snd call)).
    cbn [map] in *. rewrite (last_default _ _ (snd call) (snd next)).
    split; [exact H3 | ].
    split; [exact H4 | ].
    split; [rewrite H5; reflexivity | ].
    split.
    { intros other Hne. rewrite H6 by exact Hne. apply Hother, Hne. }
    now rewrite H7.
Qed.

(** The theorem on two versions added to the first shot of the example. *)
Lemma addImageVersion_history_witness :
  exists shot',
    getShot (addVersions [(someEntropy, paintedVersion);
                          (someEntropy, repaintedVersion)]
               "shot-1" (Some storyboard)) "shot-1" = Some shot'
    /\ imageVersions shot'
       = Some [originalVersion (uuidAt someEntropy 0) sketchedShot;
               paintedVersion; repaintedVersion]
    /\ shotImage shot' = versionImage repaintedVersion.
Proof.
  destruct (addImageVersion_history "shot-1" storyboard sketchedShot
              (someEntropy, paintedVersion)
              [(someEntropy, repaintedVersion)] eq_refl)
    as (shot' & H1 & H2 & _ & H4 & _).
  exists shot'. split; [exact H1 | split; [exact H2 | exact H4]].
Defined.

Section Activate.

Variable e : Entropy.
Variables id versionId' : string.

Lemma activateIn_found (l : list Shot) (k : nat) (shot : Shot)
    (version : ImageVersion) :
  find (hasId id) l = Some shot ->
  findVersion (versionsOf shot) versionId' = Some version ->
  find (hasId id) (fst (activateIn e id versionId' k l))
  = Some (withActiveVersion shot (imageVersions shot) (Some versionId')
            (versionImage version) (nowAt e k)).
Proof.
  revert k. induction l as [| x l IH]; intros k H Hv; [discriminate | ].
  cbn [find activateIn] in *.
  destruct (hasId id x) eqn:E.
  - injection H as <-. rewrite Hv.
    destruct (activateIn e id versionId' (S k) l) as [rest' k'].
    cbn [fst find].
    change (hasId id (withActiveVersion x (imageVersions x) (Some versionId')
                        (versionImage version) (nowAt e k)))
      with (hasId id x).
    now rewrite E.
  - specialize (IH k H Hv).
    destruct (activateIn e id versionId' k l) as [rest' k'].
    cbn [fst find] in *. now rewrite E.
Qed.

Lemma activateIn_missing (l : list Shot) (k : nat) (shot : Shot) :
  find (hasId id) l = Some shot ->
  findVersion (versionsOf shot) versionId' = None ->
  find (hasId id) (fst (activateIn e id versionId' k l)) = Some shot.
Proof.
  revert k. induction l as [| x l IH]; intros k H Hv; [discriminate | ].
  cbn [find activateIn] in *.
  destruct (hasId id x) eqn:E.
  - injection H as <-. rewrite Hv.
    destruct (activateIn e id versionId' k l) as [rest' k'].
    cbn [fst find]. now rewrite E.
  - specialize (IH k H Hv).
    destruct (activateIn e id versionId' k l) as [rest' k'].
    cbn [fst find] in *. now rewrite E.
Qed.

Lemma activateIn_other (l : list Shot) (k : nat) (other : string) :
  other <> id ->
  find (hasId other) (fst (activateIn e id versionId' k l))
  = find (hasId other) l.
Proof.
  intro Hne. revert k. induction l as [| x l IH]; intro k; [reflexivity | ].
  cbn [find activateIn].
  destruct (hasId id x) eqn:E.
  - destruct (findVersion (versionsOf x) versionId') as [version | ].
    + specialize (IH (S k)).
      destruct (activateIn e id versionId' (S k) l) as [rest' k'].
      cbn [fst find] in *.
      change (hasId other
                (withActiveVersion x (imageVersions x) (Some versionId')
                   (versionImage version) (nowAt e k)))
        with (hasId other x).
      destruct (hasId other x) eqn:E'; [ | exact IH].
      unfold hasId in E, E'. apply String.eqb_eq in E, E'. congruence.
    + specialize (IH k).
      destruct (activateIn e id versionId' k l) as [rest' k'].
      cbn [fst find] in *. now rewrite IH.
  - specialize (IH k).
    destruct (activateIn e id versionId' k l) as [rest' k'].
    cbn [fst find] in *. now rewrite IH.
Qed.

Lemma activateIn_frame (l : list Shot) (k : nat) :
  map shotId (fst (activateIn e id versionId' k l)) = map shotId l
  /\ map shotOrder (fst (activateIn e id versionId' k l)) = map shotOrder l.
Proof.
  revert k. induction l as [| x l IH]; intro k; [split; reflexivity | ].
  cbn [activateIn].
  destruct (if hasId id x then findVersion (versionsOf x) versionId'
            else None) as [version | ].
  - destruct (IH (S k)) as [H1 H2].
    destruct (activateIn e id versionId' (S k) l) as [rest' k'].
    cbn [fst map] in *. rewrite H1, H2. split; reflexivity.
  - destruct (IH k) as [H1 H2].
    destruct (activateIn e id versionId' k l) as [rest' k'].
    cbn [fst map] in *. rewrite H1, H2. split; reflexivity.
Qed.

End Activate.

Lemma findVersion_versions (shot : Shot) (id : string) (v : ImageVersion) :
  findVersion (versionsOf shot) id = Some v ->
  exists first others,
    imageVersions shot = Some (first :: others)
    /\ findVersion (first :: others) id = Some v.
Proof.
  unfold versionsOf. destruct (imageVersions shot) as [[| first others] | ];
    try discriminate.
  intro H. eauto.
Qed.

(** The image that the view shows for a shot whose active version is found
    among its versions: the image of the shot, once the store has made the
    two agree. *)
Lemma currentImage_active (s : ViewState) (shot : Shot) (id : string)
    (v : ImageVersion) :
  activeShot s = Some shot ->
  activeVersionId shot = Some id -> nonEmpty id = true ->
  findVersion (versionsOf shot) id = Some v ->
  shotImage shot = versionImage v ->
  getCurrentShotImage s = versionImage v.
Proof.
  intros Hs Ha Hid Hv Himg. unfold getCurrentShotImage. rewrite Hs, Ha.
  destruct (findVersion_versions _ _ _ Hv) as (first & others & -> & Hf).
  rewrite Hid, Hf.
  destruct (nonEmpty (versionImage v)); [reflexivity | exact Himg].
Qed.

(** X24 (store/uiStore.ts, lines 462-507, with AIImageView.tsx, lines
    41-55).  [setActiveImageVersion] with the identifier, not empty, of a
    version of the shot makes this version the one that
    [getActiveImageVersion] returns and its image the image of the shot,
    which is also the image that the AI view takes for the shot; the
    versions are kept.  With an identifier that no version of the shot has,
    the shot stays as it was.  The other shots are untouched in both
    cases. *)
Theorem setActiveImageVersion_round_trip (e : Entropy) (id versionId' : string)
    (p : Project) (shot : Shot) :
  getShot (Some p) id = Some shot ->
  nonEmpty versionId' = true ->
  let p' := setActiveImageVersion e id versionId' (Some p) in
  match findVersion (versionsOf shot) versionId' with
  | Some version =>
      getActiveImageVersion p' id = Some version
      /\ exists shot',
           getShot p' id = Some shot'
           /\ shotImage shot' = versionImage version
           /\ activeVersionId shot' = Some versionId'
           /\ imageVersions shot' = imageVersions shot
           /\ (forall s, activeShot s = Some shot' ->
                 getCurrentShotImage s = versionImage version)
  | None => getShot p' id = Some shot
  end
  /\ (forall other, other <> id -> getShot p' other = getShot (Some p) other)
  /\ map shotId (projectShots p') = map shotId (shots p).
Proof.
  intros Hshot Hid p'. cbn [getShot] in Hshot.
  subst p'. unfold setActiveImageVersion.
  pose proof (activateIn_found e id versionId' (shots p) 0 shot) as Hfound.
  pose proof (activateIn_missing e id versionId' (shots p) 0 shot Hshot)
    as Hmissing.
  pose proof (fun other => activateIn_other e id versionId' (shots p) 0 other)
    as Hother.
  destruct (activateIn_frame e id versionId' (shots p) 0) as [Hids _].
  destruct (activateIn e id versionId' 0 (shots p)) as [updated k].
  cbn [fst getShot getActiveImageVersion projectShots shots withShots] in *.
  split; [ | split; [exact Hother | exact Hids]].
  destruct (findVersion (versionsOf shot) versionId') as [version | ] eqn:Hv.
  - rewrite (Hfound version Hshot eq_refl).
    destruct (findVersion_versions _ _ _ Hv) as (first & others & Hvs & Hf).
    cbn [withActiveVersion imageVersions activeVersionId].
    rewrite Hvs, Hid. split; [exact Hf | ].
    eexists. split; [reflexivity | ].
    cbn [withActiveVersion shotImage imageVersions activeVersionId].
    do 3 (split; [reflexivity | ]).
    intros s Hs.
    apply (currentImage_active s _ versionId' version Hs); auto.
  - apply Hmissing. reflexivity.
Qed.

(** The theorem on the first shot of the example, set back to the version
    of its sketch. *)
Lemma setActiveImageVersion_round_trip_witness :
  getActiveImageVersion
    (setActiveImageVersion someEntropy "shot-1" "uuid-0"
       (Some paintedStoryboard)) "shot-1"
  = Some (originalVersion "uuid-0" sketchedShot).
Proof.
  pose proof (setActiveImageVersion_round_trip someEntropy "shot-1" "uuid-0"
                paintedStoryboard paintedShot eq_refl eq_refl) as H.
  cbv zeta in H.
  change (findVersion (versionsOf paintedShot) "uuid-0")
    with (Some (originalVersion "uuid-0" sketchedShot)) in H.
  cbv iota in H. destruct H as [[H _] _]. exact H.
Defined.

Lemma findVersion_app (a b : list ImageVersion) (id : string) :
  findVersion (a ++ b) id
  = match findVersion a id with
    | Some v => Some v
    | None => findVersion b id
    end.
Proof.
  induction a as [| v a IH]; [reflexivity | ].
  cbn [app findVersion]. destruct (String.eqb (versionId v) id); auto.
Qed.

Lemma getActiveImageVersion_found (q : Project) (id active : string)
    (shot : Shot) (v : ImageVersion) :
  getShot (Some q) id = Some shot ->
  activeVersionId shot = Some active -> nonEmpty active = true ->
  findVersion (versionsOf shot) active = Some v ->
  getActiveImageVersion (Some q) id = Some v.
Proof.
  intros Hshot Ha Hid Hv. cbn [getShot] in Hshot.
  unfold getActiveImageVersion. rewrite Hshot.
  destruct (findVersion_versions _ _ _ Hv) as (first & others & -> & Hf).
  now rewrite Ha, Hid.
Qed.

(** X25 (AIImageView.tsx, lines 172-199 and 41-55, with store/uiStore.ts,
    lines 420-460).  Saving a generated image from the view of a shot, with
    a version identifier that is not empty and that no version of the shot
    has, makes the generated image the active version of the shot, of the
    AI source and with the prompt of the view; the view, drawn again, has
    no pending image, is idle, and takes the saved image for the shot, so
    the next generation starts from it; and the shot keeps a version of the
    original source, which holds the image it had when it had no such
    version.  Without a generated image nothing changes. *)
Theorem handleSaveVersion_shows (uuid : string) (now : Z) (e : Entropy)
    (s0 : ViewState) (p : Project) (id : string) (shot : Shot) :
  activeShotId s0 = Some id -> nonEmpty id = true ->
  getShot (Some p) id = Some shot ->
  nonEmpty uuid = true ->
  findVersion (versionsOf shot) uuid = None -> uuidAt e 0 <> uuid ->
  let s := renderedWith s0 (Some p) in
  let r := handleSaveVersion uuid now e s (Some p) in
  let view := renderedWith (fst r) (snd r) in
  if nonEmpty (generatedImage s0) then
    generatedImage view = "" /\ generationStatus view = Idle
    /\ getCurrentShotImage view = generatedImage s0
    /\ storyboardImage (generationParams view) = generatedImage s0
    /\ (exists v,
          getActiveImageVersion (snd r) id = Some v
          /\ versionId v = uuid
          /\ versionImage v = generatedImage s0
          /\ versionSource v = AIGenerated
          /\ aiPrompt v = Some (promptInput s0))
    /\ (exists shot' original,
          getShot (snd r) id = Some shot'
          /\ In original (versionsOf shot')
          /\ isOriginal original = true
          /\ (existsb isOriginal (versionsOf shot) = false ->
              versionImage original = shotImage shot))
  else r = (s, Some p).
Proof.
  intros Hactive Hid Hshot Huuid Hfresh Hother s r view.
  assert (Hs : activeShot s = Some shot).
  { subst s. cbn [renderedWith activeShot]. now rewrite Hactive, Hid. }
  pose proof (find_hasId_id _ _ _ Hshot) as Hsid.
  subst view r. unfold handleSaveVersion. rewrite Hs, Hsid.
  change (generatedImage s) with (generatedImage s0).
  destruct (nonEmpty (generatedImage s0)) eqn:Himg; [ | reflexivity].
  cbn [negb fst snd].
  set (version := {| versionId := uuid;
                     versionImage := generatedImage s0;
                     versionSource := AIGenerated;
                     versionCreatedAt := now;
                     aiPrompt := Some (promptInput s);
                     aiConfig :=
                       Some {| versionModel := option_map modelName (apiConfig s);
                               referenceImages :=
                                 Some (filter nonEmpty
                                         [roleImageInput s; sceneImageInput s]) |} |}).
  destruct (addImageVersion_step e id version p shot Hshot)
    as (q & Hq & Hfound & _).
  rewrite Hq.
  set (shot' := addVersionTo (uuidAt e 0) (nowAt e 0) version shot) in *.
  set (view := renderedWith _ (Some q)).
  assert (Hversions :
            findVersion (versionsOf shot') uuid = Some version).
  { unfold versionsOf at 1. unfold shot'. rewrite addVersionTo_versions.
    rewrite !findVersion_app, Hfresh.
    destruct (existsb isOriginal (versionsOf shot)).
    - cbn. now rewrite String.eqb_refl.
    - cbn. apply String.eqb_neq in Hother. rewrite Hother.
      now rewrite String.eqb_refl. }
  assert (Hview : activeShot view = Some shot').
  { subst view. cbn [renderedWith activeShot settle activeShotId].
    unfold s. cbn [renderedWith activeShotId].
    rewrite Hactive, Hid. exact Hfound. }
  assert (Hcurrent : getCurrentShotImage view = generatedImage s0).
  { apply (currentImage_active view shot' uuid version Hview); auto. }
  split; [reflexivity | ].
  split; [reflexivity | ].
  split; [exact Hcurrent | ].
  split; [exact Hcurrent | ].
  split.
  { exists version. split; [ | repeat split].
    apply (getActiveImageVersion_found q id uuid shot' version); auto. }
  exists shot'.
  destruct (existsb isOriginal (versionsOf shot)) eqn:Horig.
  - apply existsb_exists in Horig. destruct Horig as (original & Hin & Ho).
    exists original. split; [exact Hfound | ].
    split; [ | split; [exact Ho | discriminate]].
    unfold versionsOf at 1. unfold shot'. rewrite addVersionTo_versions.
    apply in_or_app. right. apply in_or_app. left. exact Hin.
  - exists (originalVersion (uuidAt e 0) shot).
    split; [exact Hfound | ].
    split; [ | split; reflexivity].
    unfold versionsOf at 1. unfold shot'. rewrite addVersionTo_versions.
    rewrite Horig. left. reflexivity.
Qed.

(** The theorem on the view of the example after a generation. *)
Lemma handleSaveVersion_shows_witness :
  getCurrentShotImage
    (renderedWith
       (fst (handleSaveVersion "version-9" 1700000000990 someEntropy
               (renderedWith generatedView (Some storyboard))
               (Some storyboard)))
       (snd (handleSaveVersion "version-9" 1700000000990 someEntropy
               (renderedWith generatedView (Some storyboard))
               (Some storyboard))))
  = pngDataUri 300.
Proof.
  assert (Hfresh : uuidAt someEntropy 0 <> "version-9")
    by (vm_compute; discriminate).
  pose proof (handleSaveVersion_shows "version-9" 1700000000990 someEntropy
                generatedView storyboard "shot-1" sketchedShot
                eq_refl eq_refl eq_refl eq_refl eq_refl Hfresh) as H.
  cbv zeta in H.
  change (nonEmpty (generatedImage generatedView)) with true in H.
  cbv iota in H. destruct H as (_ & _ & H & _). exact H.
Defined.

Lemma find_app_fresh (id : string) (l r : list Shot) :
  ~ In id (map shotId l) ->
  find (hasId id) (l ++ r) = find (hasId id) r.
Proof.
  induction l as [| x l IH]; intro Hout; [reflexivity | ].
  cbn [app find]. destruct (hasId id x) eqn:E.
  - exfalso. apply Hout. left. apply String.eqb_eq, E.
  - apply IH. intro H. apply Hout. now right.
Qed.

(** X26 (store/uiStore.ts, lines 303-315, 357-381, 414-418, 420-489).
    The orders of the shots being their positions in the list is an invariant
    of the store: [createShot], [duplicateShot], [addImageVersion] and
    [setActiveImageVersion] keep it, and under it [getShotsSorted] gives
    the shots in the order of the list.  With an identifier of the platform
    that no shot has, the identifier that [createShot] and [duplicateShot]
    return is the one of the new shot, the last of the list; the copy has
    the image, the versions and the active version of its source and the
    number of the source followed by the letter B; and [duplicateShot] of
    an identifier that no shot has changes nothing and returns the empty
    text. *)
Theorem store_keeps_orders (e : Entropy) (id versionId' : string)
    (version : ImageVersion) (p : Project) :
  normalised (shots p) ->
  ~ In (uuidAt e 0) (map shotId (shots p)) ->
  let created := createShot e (Some p) in
  let copied := duplicateShot e id (Some p) in
  normalised (projectShots (fst created))
  /\ normalised (projectShots (fst copied))
  /\ normalised (projectShots (addImageVersion e id version (Some p)))
  /\ normalised (projectShots (setActiveImageVersion e id versionId' (Some p)))
  /\ getShotsSorted (Some p) = shots p
  /\ getShot (fst created) (snd created)
     = Some (createDefaultShot e (List.length (shots p)))
  /\ projectShots (fst created)
     = (shots p ++ [createDefaultShot e (List.length (shots p))])%list
  /\ match getShot (Some p) id with
     | Some source =>
         exists copy,
           getShot (fst copied) (snd copied) = Some copy
           /\ projectShots (fst copied) = (shots p ++ [copy])%list
           /\ shotImage copy = shotImage source
           /\ imageVersions copy = imageVersions source
           /\ activeVersionId copy = activeVersionId source
           /\ shotNumber copy = shotNumber source ++ "B"
     | None => copied = (Some p, "")
     end.
Proof.
  intros Hn Hfresh created copied.
  assert (Hlast : forall shot, shotId shot = uuidAt e 0 ->
            find (hasId (uuidAt e 0)) (shots p ++ [shot]) = Some shot).
  { intros shot Hid. rewrite find_app_fresh by exact Hfresh.
    cbn [find]. unfold hasId. now rewrite Hid, String.eqb_refl. }
  split.
  { apply normalised_app; [exact Hn | reflexivity]. }
  split.
  { subst copied. unfold duplicateShot.
    destruct (find (hasId id) (shots p)); [ | exact Hn].
    apply normalised_app; [exact Hn | reflexivity]. }
  split.
  { unfold addImageVersion.
    destruct (addVersionIn_frame e id version (shots p) 0) as [Hids Hord].
    destruct (addVersionIn e id version 0 (shots p)) as [updated k].
    cbn [fst projectShots shots withShots] in *.
    unfold normalised in *. rewrite Hord, Hn.
    now rewrite <- (length_map shotId updated), Hids, length_map. }
  split.
  { unfold setActiveImageVersion.
    destruct (activateIn_frame e id versionId' (shots p) 0) as [Hids Hord].
    destruct (activateIn e id versionId' 0 (shots p)) as [updated k].
    cbn [fst projectShots shots withShots] in *.
    unfold normalised in *. rewrite Hord, Hn.
    now rewrite <- (length_map shotId updated), Hids, length_map. }
  split; [apply normalised_sorted, Hn | ].
  split; [apply Hlast; reflexivity | ].
  split; [reflexivity | ].
  subst copied. unfold duplicateShot. cbn [getShot].
  destruct (find (hasId id) (shots p)) as [source | ]; [ | reflexivity].
  eexists. cbn [fst snd getShot projectShots shots withShots].
  split; [apply Hlast; reflexivity | ].
  repeat split.
Qed.

(** The theorem on the copy of the first shot of the example. *)
Lemma store_keeps_orders_witness :
  normalised
    (projectShots (fst (duplicateShot someEntropy "shot-1" (Some storyboard)))).
Proof.
  assert (Hfresh : ~ In (uuidAt someEntropy 0) (map shotId (shots storyboard))).
  { intros [H | [H | []]]; vm_compute in H; discriminate H. }
  exact (proj1 (proj2 (store_keeps_orders someEntropy "shot-1" "version-1"
                         paintedVersion storyboard eq_refl Hfresh))).
Defined.
